(* ===== verification/_CoqProject ===== *)
-Q . S2P
Prelude.v
GoStd.v
Types.v
Sha512.v
External.v
Keccak.v
BorshRef.v
Reference.v
Proxy.v
Ninelives.v
Convertor.v
ConvertorFacts.v
Ratelimit.v
Db.v
Retired.v
World.v
Schedule.v
RefWorld.v
Client.v
Utils.v
Resolvers.v
ResolverFacts.v
AccountFacts.v
Auth.v
Config.v
Mux.v
Tools.v
GraphInput.v
AssetText.v
Complexity.v
GraphExec.v
GraphExecFacts.v
Introspection.v
IntrospectionFacts.v
Query.v
QueryFacts.v
Races.v
Serving.v
Server.v
Chain.v
Contract.v
AccountSafety.v
ContractBorsh.v
AccountCode.v
AccountEntry.v
AccountChain.v
Authority.v
AccountRun.v
Upgrades.v
Creation.v
RustTools.v
Requests.v
EndToEnd.v
Evm.v
ProxyCode.v
Huff.v
LiteAccount.v
Treasury.v
RefContract.v
RefEvm.v
RefAccounts.v
