(* ===== verification/Prelude.v ===== *)
(** * A verification library for accounts.superposition.so

    The program is a GraphQL server that acts for users' smart accounts, the
    contracts of these accounts, and the programs that sign for them. A user
    creates an account or proves ownership of an address with a signature, gets
    a bearer secret, and from then on asks the server to mint or claim for the
    account; the server has the call signed by a separate program, wraps it in
    a transaction paid for by one of its own keys, and sends it. On chain the
    account checks the signature and makes the call.

    ** How the parts interact

    main.go reads the configuration, puts the middleware in front of the
    generated GraphQL executor and serves both on the sockets that systemd
    passes. Each request is served in a goroutine of its
    own. The middleware looks the bearer up in the database and leaves the
    caller's address in the request's context. The executor
    (graph/generated.go) decodes the arguments of each field, calls its
    resolver (graph/schema.resolvers.go) and assembles the response: the fields
    of a mutation one after the other, those of a query at the same time. A
    resolver converts its arguments to on-chain arguments (lib/convertor, on
    the types of lib/types and the calldata of lib/ninelives), has them signed
    by the program of ed25519-dalek-ph, picks a sender key (lib/db), and sends
    the Borsh encoding to the user's account (lib/types/proxy.go computes its
    address) through the safety router (sol/SafetyRouter.huff), or to the
    factory (lib/client). It then records secrets, nonces and transactions in
    the database (db/db/schema.sql).

    An account is a metamorphic proxy (the bytecode in lib/types/proxy.go) that
    runs the contract of contract/ and superposition_libaccounts/; the factory
    is the same contract behind sol/UpgradeableProxy.sol, and creates accounts.
    An account may have an authority, which it asks about the code of the
    targets it calls (sol/Authority9lives.sol). What accounts pay for gas is
    meant for a clearinghouse (contract-clearinghouse/) and a contract that
    splits it (sol/MassSendArbitrum.sol). accounts-cli prints signed requests
    for the accounts. The lite account
    (sol/LiteAccount.huff, sol/LiteFactory.sol) is a second kind of account,
    in bytecode only.

    ** The files

    - Prelude: Go values and results ([outcome]: a value, an error, a panic,
      the end of the process), bytes and big-endian numbers, tactics.
    - GoStd: what the code uses of encoding/hex, strings, math/big,
      encoding/binary and fmt, with its panics. Sha512: crypto/sha512.
    - Types: lib/types/types.go and the input types of
      graph/model/models_gen.go.
    - External: classes for the code outside the repository (go-ethereum,
      borsh-go, os/exec), each with its documented laws in a class of its own.
      Keccak, BorshRef, Reference and RefWorld have concrete instances of
      these classes, with the laws proved; the witnesses run on them.
    - Proxy: lib/types/proxy.go. Ninelives: lib/ninelives/ninelives.go.
    - Convertor: lib/convertor/convertor.go; ConvertorFacts: its properties.
    - Ratelimit: lib/ratelimit/ratelimit.go, the goroutine and its callers as a
      step relation.
    - Db: the tables, functions and view of db/db/schema.sql the server uses.
      Retired: the functions that these replaced, and the migration between
      the two.
    - World: the effects of the server. A computation [io A] is a tree of
      effects (a call to the node, a database statement, something that leaves
      the process, an answer of the environment) with continuations; [run]
      takes it and a world to an outcome and a world, so the effects of a failed
      call are kept. [keeps R m] says that every effect of [m] relates the
      worlds before and after it by [R]; [costs c n m] bounds its effects.
    - Schedule: computations over one world as a pool whose steps interleave,
      with requests arriving at any time ([serving]); a rely-guarantee logic
      [rg] for the computations and its soundness for pools; bounds on
      schedules; races for something that only one can take.
    - Client: lib/client/client.go, and the calldata format of
      sol/SafetyRouter.huff.
    - Utils: lib/db/db.go, graph/utils.go, graph/secret.go, graph/resolver.go.
    - Resolvers: graph/schema.resolvers.go; ResolverFacts and AccountFacts:
      their properties.
    - Auth: the middleware of main.go. Config: the configuration in [main].
      Mux: the rest of [main], the multiplexer of net/http with its patterns.
    - Tools: the programs under tools/ written in Go.
    - GraphInput: the argument decoding of graph/generated.go; AssetText: the
      text of the enumeration of graph/model/models_gen.go, with strconv's
      quoting; Complexity: the costs of fields.
    - GraphExec: field contexts, the resolution of fields, objects, lists and
      scalars, and the execution of mutations, over gqlgen's own functions
      (class [Graphql]); GraphExecFacts compares it with a plain account.
    - Introspection: the introspection types, whose fields lead to each other,
      by recursion over the selection; IntrospectionFacts: their properties.
    - Query: the execution of queries, whose fields [Dispatch] (class
      [Dispatcher]) runs in some interleaving; QueryFacts: its properties.
    - Races: the operations as pools: racing nonces, the cost of each
      operation, sequential service as a schedule, a schedule that reuses a
      chain nonce.
    - Serving: what each resolver guarantees while others run. Server: a whole
      request, from the multiplexer to the response, and the theorems on any
      number of them.
    - Chain: the host of the contract and the chain of account proxies. A run
      of the contract is a tree [prog] of effects; what other contracts answer,
      and how they call back, is an environment [env]. A call that a proxy
      delegates to other code than the contract's leaves a mark in the log
      ([Foreign]); what that code does is not followed. A program logic [wp]
      with a contract assumed of nested calls, and its soundness.
    - Contract: superposition_libaccounts and contract/src/main.rs, entry by
      entry, with the proxies they run behind; bobcat_sdk is the class [Sdk].
      AccountSafety: the invariant of the accounts and the contract of a call;
      AccountCode and AccountEntry: every entry meets it; AccountChain: the
      theorems on every chain that transactions lead to. Authority:
      sol/Authority9lives.sol, and the accounts that ask it. Upgrades: the
      administrator's calls of sol/UpgradeableProxy.sol.
    - ContractBorsh: the contract decodes what is encoded for it. AccountRun and
      Creation: runs that succeed, in full.
    - RustTools: ed25519-dalek-ph, tools/ed25519-priv-to-pub and accounts-cli.
      Requests: transfers and statements, from the signing program to the
      account. EndToEnd: from the server and the client to the account's calls.
    - Evm: the instructions of the Ethereum virtual machine that the
      repository's bytecode uses. ProxyCode: the bytecode of lib/types/proxy.go.
      Huff: sol/SafetyRouter.huff and sol/LiteAccount.huff with an assembler.
      LiteAccount: what the lite account's bytecode does.
    - Treasury: sol/MassSendArbitrum.sol and contract-clearinghouse/.
    - RefContract, RefEvm and RefAccounts: a concrete SDK, signature scheme,
      deployment and calldata, with the laws proved; the witnesses on contracts
      run on them.

    ** What the theorems show

    - The server as a whole (Server, Races): for any arrivals and any
      interleaving, transactions are sent only to create accounts or for the
      accounts of addresses entitled to a secret; secrets on record belong to
      such addresses; records are only appended to; of racing requests with one
      nonce one succeeds at most; every schedule is bounded and ends with every
      request answered or the process ended; serving one request after the other
      is one of the schedules, so the theorems on single requests apply.
    - Sender keys (Db): calls that follow one another use the keys in turn;
      calls that overlap can all be given the same key.
    - Execution (GraphExecFacts, QueryFacts, IntrospectionFacts): a mutation
      runs its resolvers in order on the decoded arguments and answers with
      their results, or null when a required one failed; a query changes nothing
      but the clock, and each field has the answer it has alone; introspection
      has no effects, and what the child lookups know is answered in full.
    - Authentication (Auth, AccountFacts, ResolverFacts): a request reaches the
      resolvers as authenticated only with a secret on record for exactly the
      address in its context; secrets handed out authenticate their owner from
      then on; a secret is handed out for a signature that recovers to the
      address, once per nonce; without authentication minting and claiming do
      nothing.
    - Effects (ResolverFacts, Client): a dry run sends and records nothing;
      sending hands the node at most one transaction, with the fields, gas and
      fees computed from the node's answers; records are only appended.
    - Content (ConvertorFacts, Ninelives, Proxy, Client): an accepted mint takes
      and mints the amount asked for, for the caller, bound to the caller and
      signed; the calldata decodes to its arguments; the account's address is
      the CREATE2 address and is injective up to hash collisions; the router
      forwards exactly what the server framed.
    - The rate limiter admits four requests per identifier and slice, for every
      interleaving of callers (Ratelimit).
    - Configuration, routing, argument decoding and the tools (Config, Mux,
      GraphInput, AssetText, Tools): the server starts exactly on a well-formed
      environment, with exactly the resolver it describes, a path is redirected
      once at most and then leads to the middleware or the playground, arguments
      round-trip, and what the tools sign the server accepts.
    - Some theorems state behaviour that is not intended: claims with a
      timestamp below 2^120 panic, distinct mint timestamps collide, over-long
      hexadecimal panics, decoded mints lose two fields, statistics fail after a
      day without transactions, overlapping calls are given one sender key,
      concurrent requests with one sender key can use the same chain nonce, a
      [SolveV3] request without solves can be replayed, the clearinghouse does
      nothing when it is told to pay out, and the retired functions of the
      schema starve new keys, refuse first secrets and let a nonce be used
      again.
    - The account contract (AccountChain, AccountRun, Creation): whatever other
      contracts answer and however they call back, the contract's code makes as
      an account only calls that a request signed with its key asks for, each
      signed timestamp works once, and an account comes to be only by its
      owner's signature, with the key, owner and authority signed for, and a
      creation with that signature succeeds. Until its owner moves its
      implementation, or the owner or administrator of its beacon moves the
      beacon's, an account keeps key, owner, authority and used timestamps, and
      only the contract's code runs on its storage; other code runs only after
      such a move.
    - Around the accounts (Authority, Upgrades, Requests, Treasury): the
      authority contract is the list of its operator's registrations, and an
      account with this authority calls a target only while the operator's last
      registration of the target's code allows it; the administrator of the
      factory's proxy replaces its implementation; signed transfers and
      statements are accepted and do exactly what was signed, and a statement is
      accepted only with a signature over the hash that names the account; the
      mass sender splits what it is sent evenly.
    - End to end (EndToEnd): a mint the server accepts, and an account it
      creates, is executed on chain when the account has the server's key, the
      signature and timestamp are good and the tokens cooperate: the request
      passes the safety router, is decoded to the same arguments, its signature
      verifies and the account makes exactly the calls asked for, in order.
    - Bytecode (ProxyCode, Huff, LiteAccount): the proxy, the router and the
      lite account do on every calldata what their specifications say, and the
      proxies of the chain model delegate where the proxy's bytecode does, or
      mark the call; a lite account
      forwards only what its operator signed, each nonce once.

    ** Bounds and parameters

    Recursion is on lists, on the tree of a computation, on the selection of a
    field, or on the environment of a contract's run, whose end is the end of
    its gas; theorems that a run succeeds name an environment that is long
    enough. Only [Evm.run] takes a number of steps: 48 are enough for the proxy
    and the router and 160 for the lite account, whose code has no loops, and
    the theorems hold for every larger number. Gas is not counted, and calldata
    is bounded by four gigabytes. Machine widths are written out where they
    matter: [int32] arguments, [uint64] gas limits (with the double-precision
    product rounded as IEEE 754 does), 32-bit columns, byte arrays of fixed
    length, 256-bit words. Code outside the repository is a class parameter;
    theorems that rely on its behaviour name the class of laws they use. For the
    contracts these are [SdkLaws] (what bobcat_sdk documents, that the storage
    slots in use do not collide, and, an assumption the repository does not
    document, that storage writes are visible to calls back into the contract
    before [flush_guard] flushes them at the end), [DalekLaws] and [EdLaws]
    (signatures verify under the precompile), [BorshConforms] (borsh-go writes
    the Borsh format), [SignerRuns] (the server's process runs the signing
    program with its key) and [Eip1967] (the slot's value). Where the SDK's
    CREATE2 puts a proxy is a parameter ([create2_pre_at]); that it is the
    address lib/types/proxy.go derives is not assumed and not claimed.

    ** Not modelled

    Logging; the order of the errors in a query's response, which are listed by
    field; deferred results, which no document of this schema has; how gqlgen
    parses and validates documents, caches them and writes responses (class
    [Transport]), and its playground page (class [Playground]); interleavings
    within one database statement or one call to the node, so that in the
    theorems on the server the pick of a sender key is one step, which the
    database does not guarantee (Db has the statement in two steps and what
    follows); a connection lost while rows are read, after which
    the code returns the rows it has; the superposition-assets and other
    external modules. Of the contracts: sol/SocialVault.sol, which is empty;
    what other code does to the storage of a proxy that delegates to it: after
    an owner moved the account, after the administrator moved the factory, in
    an upgrade that calls other code, and, through a factory that was moved,
    in anyone's [migrate] of an account. Such calls are marked, and from the
    first mark on an account or its beacon on, the storage the model has for
    the account need not be the real one. Calls back into a lite account while
    it forwards a call, which could change its storage (Evm runs one call at a
    time). Of the programs: how clap parses command lines and how decoded
    requests are printed for debugging. Of db/db/schema.sql: two tables that
    nothing uses, and of db/migrations/ the migrations whose result the schema
    is. Build and deployment files.

    ** Extensions

    What would extend the development: a model of gqlgen's handling of
    documents behind [Transport] and [Graphql], which is third-party code; the
    sale of assets by the clearinghouse, once it is written; gas. *)
From Stdlib Require Import Strings.Byte.
From Stdlib Require Import Strings.String.
From Stdlib Require Import ZArith Lia.
From stdpp Require Import base numbers strings gmap list.

#[global] Open Scope Z_scope.

(** ** Go values *)

(** Go's [byte] (= [uint8]), [\[\]byte] and [string]: a Go string is an
    immutable byte sequence, so both are lists of bytes here. *)
Abbreviation byte := Corelib.Init.Byte.byte.
Abbreviation bytes := (list byte).
Abbreviation gostring := (list byte).

(** A source string literal. *)
Definition lit (s : string) : gostring := list_byte_of_string s.

#[global] Instance byte_eq_dec : EqDecision byte := Byte.byte_eq_dec.

#[global] Instance byte_countable : Countable byte.
Proof.
  refine (inj_countable Byte.to_N Byte.of_N _).
  intros x. apply Byte.of_to_N.
Defined.

Declare Scope go_scope.
Delimit Scope go_scope with go.

(** ** Results of Go calls *)

(** A call returns a value with a nil error, returns a non-nil error (kept as
    the text [err.Error()] yields), panics, or ends the process
    ([log.Fatal]). *)
Inductive outcome (A : Type) : Type :=
| Ok (a : A)
| Err (e : gostring)
| Panic (why : gostring)
| Fatal (why : gostring).
Arguments Ok {A} a.
Arguments Err {A} e.
Arguments Panic {A} why.
Arguments Fatal {A} why.

#[global] Instance outcome_eq_dec {A} `{EqDecision A} : EqDecision (outcome A).
Proof. solve_decision. Defined.

#[global] Instance outcome_ret : MRet outcome := @Ok.
#[global] Instance outcome_bind : MBind outcome := λ A B f m,
  match m with
  | Ok a => f a
  | Err e => Err e
  | Panic w => Panic w
  | Fatal w => Fatal w
  end.
#[global] Instance outcome_fmap : FMap outcome := λ A B f m,
  match m with
  | Ok a => Ok (f a)
  | Err e => Err e
  | Panic w => Panic w
  | Fatal w => Fatal w
  end.

(** [if err != nil { return nil, fmt.Errorf("prefix%v", err) }]. *)
Definition wrap {A} (pre : string) (m : outcome A) : outcome A :=
  match m with
  | Err e => Err (lit pre ++ e)
  | m => m
  end.

(** [if bad { return nil, fmt.Errorf(..) }]. *)
Definition ensure (ok : bool) (e : gostring) : outcome unit :=
  if ok then Ok tt else Err e.

Definition panics {A} (m : outcome A) : Prop :=
  match m with Panic _ => True | _ => False end.

Definition is_ok {A} (m : outcome A) : bool :=
  match m with Ok _ => true | _ => false end.

(** The call returns, with a value or an error. *)
Definition returns {A} (m : outcome A) : bool :=
  match m with Ok _ | Err _ => true | _ => false end.

Lemma bind_Ok {A B} (m : outcome A) (f : A → outcome B) b :
  m ≫= f = Ok b ↔ ∃ a, m = Ok a ∧ f a = Ok b.
Proof. destruct m; cbn; naive_solver. Qed.

Lemma bind_eq {A B} (m : outcome A) (f : A → outcome B) a r :
  m = Ok a → f a = r → m ≫= f = r.
Proof. by intros ->. Qed.

Lemma wrap_Ok {A} pre (m : outcome A) a : wrap pre m = Ok a ↔ m = Ok a.
Proof. destruct m; cbn; naive_solver. Qed.

Lemma ensure_Ok b e u : ensure b e = Ok u ↔ b = true.
Proof. destruct b, u; cbn; naive_solver. Qed.

(** Inverts a successful run of a sequence of calls into the list of its
    successful steps. *)
Ltac inv_ok :=
  repeat match goal with
  | H : _ ≫= _ = Ok _ |- _ => apply bind_Ok in H as (? & ? & ?)
  | H : wrap _ _ = Ok _ |- _ => apply wrap_Ok in H
  | H : ensure _ _ = Ok _ |- _ => apply ensure_Ok in H
  | H : Ok _ = Ok _ |- _ => injection H as H
  | H : Err _ = Ok _ |- _ => discriminate H
  | H : Panic _ = Ok _ |- _ => discriminate H
  | H : Fatal _ = Ok _ |- _ => discriminate H
  | H : mret _ = Ok _ |- _ => injection H as H
  | H : bool_decide _ = true |- _ => apply bool_decide_eq_true in H
  end; simplify_eq.

(** One step of a successful sequence, with names. *)
Tactic Notation "bind_step" hyp(H) "as" simple_intropattern(x) simple_intropattern(Hx) :=
  apply bind_Ok in H as (x & Hx & H);
  try match type of Hx with
  | wrap _ _ = Ok _ => apply wrap_Ok in Hx
  | ensure _ _ = Ok _ => apply ensure_Ok in Hx
  end.

(** ** Lists *)

Lemma filter_none {A} (P : A → Prop) `{!∀ x, Decision (P x)} l :
  (∀ x, x ∈ l → ¬ P x) → filter P l = [].
Proof.
  induction l as [|x l IH]; intros Hn; [done|].
  rewrite filter_cons_False by apply Hn, list_elem_of_here. apply IH. intros y Hy.
  by apply Hn, list_elem_of_further.
Qed.

(** ** Bytes as numbers *)

Definition byte_Z (b : byte) : Z := Z.of_N (Byte.to_N b).

(** Conversion to [uint8] truncates. *)
Definition byte_of_Z (z : Z) : byte :=
  default x00 (Byte.of_N (Z.to_N (z mod 256))).

Lemma byte_Z_range b : 0 ≤ byte_Z b < 256.
Proof. unfold byte_Z. pose proof (Byte.to_N_bounded b). lia. Qed.

Lemma byte_Z_of_Z z : byte_Z (byte_of_Z z) = z mod 256.
Proof.
  unfold byte_of_Z, byte_Z.
  pose proof (Z.mod_pos_bound z 256 ltac:(lia)) as Hb.
  destruct (Byte.of_N (Z.to_N (z mod 256))) as [b|] eqn:E.
  - apply Byte.to_of_N in E. cbn. rewrite E. lia.
  - apply Byte.of_N_None_iff in E. lia.
Qed.

Lemma byte_Z_inj b1 b2 : byte_Z b1 = byte_Z b2 → b1 = b2.
Proof.
  unfold byte_Z. intros H. apply N2Z.inj in H.
  pose proof (Byte.of_to_N b1) as E1. pose proof (Byte.of_to_N b2) as E2.
  rewrite H in E1. congruence.
Qed.

Lemma byte_of_Z_byte_Z b : byte_of_Z (byte_Z b) = b.
Proof.
  apply byte_Z_inj. rewrite byte_Z_of_Z.
  apply Z.mod_small, byte_Z_range.
Qed.

(** *** Big-endian numbers *)

(** The number a big-endian byte string denotes ([big.Int.SetBytes]). *)
Definition be_step (acc : Z) (b : byte) : Z := acc * 256 + byte_Z b.
Definition be_val (l : bytes) : Z := foldl be_step 0 l.

(** The low [n] bytes of [z], most significant first. *)
Fixpoint be_split (n : nat) (z : Z) : bytes :=
  match n with
  | O => []
  | S n' => be_split n' (z / 256) ++ [byte_of_Z z]
  end.

Lemma foldl_be_step acc l :
  foldl be_step acc l = acc * 256 ^ Z.of_nat (length l) + be_val l.
Proof.
  revert acc. induction l as [|b l IH] using rev_ind; intros acc.
  - cbn. lia.
  - rewrite !foldl_snoc, length_app, IH. unfold be_val at 2.
    rewrite foldl_snoc. fold (be_val l). unfold be_step. cbn [length].
    rewrite Nat2Z.inj_add, Z.pow_add_r by lia. lia.
Qed.

Lemma be_val_snoc l b : be_val (l ++ [b]) = be_val l * 256 + byte_Z b.
Proof. unfold be_val. by rewrite foldl_snoc. Qed.

Lemma be_val_app l1 l2 :
  be_val (l1 ++ l2) = be_val l1 * 256 ^ Z.of_nat (length l2) + be_val l2.
Proof. unfold be_val at 1. by rewrite foldl_app, foldl_be_step. Qed.

Lemma be_val_cons b l :
  be_val (b :: l) = byte_Z b * 256 ^ Z.of_nat (length l) + be_val l.
Proof. apply (be_val_app [b] l). Qed.

Lemma be_val_zeros k l : be_val (replicate k x00 ++ l) = be_val l.
Proof.
  rewrite be_val_app. enough (be_val (replicate k x00) = 0) by lia.
  induction k as [|k IH]; [done|].
  cbn [replicate]. rewrite be_val_cons, IH. by cbn.
Qed.

Lemma be_val_bound l : 0 ≤ be_val l < 256 ^ Z.of_nat (length l).
Proof.
  induction l as [|b l IH] using rev_ind; [cbn; lia|].
  rewrite be_val_snoc, length_app, Nat2Z.inj_add, Z.pow_add_r by lia.
  pose proof (byte_Z_range b). cbn [length]. lia.
Qed.

Lemma be_split_length n z : length (be_split n z) = n.
Proof. revert z. induction n; intros; cbn; [done|]. rewrite length_app, IHn. cbn. lia. Qed.

Lemma be_val_split n z : be_val (be_split n z) = z mod 256 ^ Z.of_nat n.
Proof.
  revert z. induction n as [|n IH]; intros z; cbn [be_split].
  - by rewrite Z.mod_1_r.
  - rewrite be_val_snoc, IH, byte_Z_of_Z.
    rewrite Nat2Z.inj_succ, Z.pow_succ_r by lia.
    rewrite (Z.rem_mul_r z 256) by lia. lia.
Qed.

Lemma be_val_split_small n z :
  0 ≤ z < 256 ^ Z.of_nat n → be_val (be_split n z) = z.
Proof. intros. rewrite be_val_split. by apply Z.mod_small. Qed.

Lemma be_split_val l : be_split (length l) (be_val l) = l.
Proof.
  induction l as [|b l IH] using rev_ind; [done|].
  rewrite length_app, Nat.add_comm. cbn [length Nat.add be_split].
  rewrite be_val_snoc.
  pose proof (byte_Z_range b).
  replace ((be_val l * 256 + byte_Z b) / 256) with (be_val l)
    by (rewrite Z.div_add_l, Z.div_small by lia; lia).
  rewrite IH. do 2 f_equal.
  rewrite <-(byte_of_Z_byte_Z b) at 2.
  apply byte_Z_inj. rewrite !byte_Z_of_Z.
  rewrite Z.add_comm, Z.mod_add by lia. done.
Qed.

Lemma be_val_inj l1 l2 :
  length l1 = length l2 → be_val l1 = be_val l2 → l1 = l2.
Proof.
  intros Hl Hv. rewrite <-(be_split_val l1), <-(be_split_val l2). congruence.
Qed.

Create HintDb godb.
#[export] Hint Resolve byte_Z_range be_val_bound be_split_length : godb.
