(* ===== verification/GoStd.v ===== *)
(** * GoStd: the parts of Go's standard library the program uses

    [copy] and slice bounds, [encoding/hex], [strings], [math/big] in base 10
    and [encoding/binary], each written out as executable functions on byte
    lists, with the lemmas the components share. *)
From stdpp Require Import base numbers pretty list.
From Stdlib Require Import Strings.Byte ZArith Lia.
From S2P Require Import Prelude.

(** ** Arrays, slices and [copy] *)

Definition zeros (n : nat) : bytes := replicate n x00.

Definition slice_panic {A} : outcome A :=
  Panic (lit "runtime error: slice bounds out of range").

(** [copy(dst, src)]: the shorter length decides; the rest of [dst] stays. *)
Definition copy_into (dst src : bytes) : bytes :=
  take (length dst) src ++ drop (length src) dst.

(** [copy(dst\[lo:\], src)]: the slice expression panics unless
    [0 <= lo <= len(dst)]. *)
Definition copy_from (dst : bytes) (lo : Z) (src : bytes) : outcome bytes :=
  if (0 <=? lo) && (lo <=? Z.of_nat (length dst))
  then Ok (take (Z.to_nat lo) dst ++ copy_into (drop (Z.to_nat lo) dst) src)
  else slice_panic.

(** ** encoding/hex *)

Definition hex_digit (n : Z) : byte :=
  if n <? 10 then byte_of_Z (48 + n) else byte_of_Z (87 + n).

(** [reverseHexTable]: the value of a hexadecimal digit of either case. *)
Definition reverseHexTable (b : byte) : option Z :=
  let z := byte_Z b in
  if (48 <=? z) && (z <=? 57) then Some (z - 48)
  else if (97 <=? z) && (z <=? 102) then Some (z - 87)
  else if (65 <=? z) && (z <=? 70) then Some (z - 55)
  else None.

Definition hex_EncodeToString (b : bytes) : gostring :=
  b ≫= λ x, [hex_digit (byte_Z x / 16); hex_digit (byte_Z x mod 16)].

(** [InvalidByteError.Error()], the verb [%#U] included. *)
Definition upper_hex (n : Z) : byte :=
  if n <? 10 then byte_of_Z (48 + n) else byte_of_Z (55 + n).

Definition utf8_latin1 (b : byte) : bytes :=
  let z := byte_Z b in
  if z <? 128 then [b] else [byte_of_Z (192 + z / 64); byte_of_Z (128 + z mod 64)].

Definition is_print_latin1 (b : byte) : bool :=
  let z := byte_Z b in
  ((32 <=? z) && (z <=? 126)) || ((161 <=? z) && negb (z =? 173)).

Definition InvalidByteError (b : byte) : gostring :=
  lit "encoding/hex: invalid byte: U+00"
    ++ [upper_hex (byte_Z b / 16); upper_hex (byte_Z b mod 16)]
    ++ (if is_print_latin1 b then lit " '" ++ utf8_latin1 b ++ lit "'" else []).

Definition ErrLength : gostring := lit "encoding/hex: odd length hex string".

Definition index_panic {A} : outcome A :=
  Panic (lit "runtime error: index out of range").

(** [hex.Decode(dst, src)] with the loop's index [i]: writes a byte per pair
    of digits, and indexes past [dst] (a panic) when [src] is too long. The
    partial output that accompanies an error is not kept: every caller drops
    it. *)
Fixpoint hex_decode_loop (dst : bytes) (i : nat) (src : bytes)
    : outcome (bytes * nat) :=
  match src with
  | p :: q :: rest =>
      match reverseHexTable p with
      | None => Err (InvalidByteError p)
      | Some a =>
          match reverseHexTable q with
          | None => Err (InvalidByteError q)
          | Some b =>
              if decide (i < length dst)%nat
              then hex_decode_loop (<[i := byte_of_Z (a * 16 + b)]> dst) (S i) rest
              else index_panic
          end
      end
  | [p] =>
      match reverseHexTable p with
      | None => Err (InvalidByteError p)
      | Some _ => Err ErrLength
      end
  | [] => Ok (dst, i)
  end.

Definition hex_Decode (dst src : bytes) : outcome (bytes * nat) :=
  hex_decode_loop dst 0 src.

(** [hex.DecodeString] allocates [len(s)/2] bytes itself. *)
Definition hex_DecodeString (s : gostring) : outcome bytes :=
  r ← hex_Decode (zeros (length s / 2)) s;
  mret (take r.2 r.1).

(** Reference: what a well-formed hexadecimal string denotes. *)
Fixpoint hex_parse (s : gostring) : option bytes :=
  match s with
  | [] => Some []
  | p :: q :: rest =>
      a ← reverseHexTable p; b ← reverseHexTable q; l ← hex_parse rest;
      mret (byte_of_Z (a * 16 + b) :: l)
  | [_] => None
  end.

(** A literal in hexadecimal. *)
Definition hex_lit (s : string) : bytes := default [] (hex_parse (lit s)).

(** ** strings *)

Fixpoint HasPrefix (s pre : gostring) {struct pre} : bool :=
  match pre, s with
  | [], _ => true
  | p :: pre', c :: s' => bool_decide (p = c) && HasPrefix s' pre'
  | _ :: _, [] => false
  end.

Definition TrimPrefix (s pre : gostring) : gostring :=
  if HasPrefix s pre then drop (length pre) s else s.

Fixpoint Contains (s sub : gostring) : bool :=
  HasPrefix s sub ||
  match s with
  | [] => false
  | _ :: s' => Contains s' sub
  end.

(** [strings.Split(s, sep)] for a one-byte separator. *)
Fixpoint Split (s : gostring) (sep : byte) : list gostring :=
  match s with
  | [] => [[]]
  | c :: s' =>
      if decide (c = sep) then [] :: Split s' sep
      else match Split s' sep with
           | w :: ws => (c :: w) :: ws
           | [] => [[c]]
           end
  end.

(** Case mapping beyond ASCII follows the Unicode tables. *)
Class Unicode := unicode_ToLower : gostring → gostring.

Definition is_ascii (b : byte) : bool := byte_Z b <? 128.

Definition lower_ascii (b : byte) : byte :=
  if (65 <=? byte_Z b) && (byte_Z b <=? 90) then byte_of_Z (byte_Z b + 32) else b.

Definition ToLower `{Unicode} (s : gostring) : gostring :=
  if forallb is_ascii s then map lower_ascii s else unicode_ToLower s.

(** [%v] of an integer. *)
Definition fmt_d (z : Z) : gostring := lit (pretty z).

(** ** math/big *)

Definition dec_digit (b : byte) : option Z :=
  if (48 <=? byte_Z b) && (byte_Z b <=? 57) then Some (byte_Z b - 48) else None.

Fixpoint dec_digits (acc : Z) (s : gostring) : option Z :=
  match s with
  | [] => Some acc
  | c :: s' => d ← dec_digit c; dec_digits (acc * 10 + d) s'
  end.

(** [new(big.Int).SetString(s, 10)]: an optional sign, then one or more
    digits and nothing else. *)
Definition big_SetString (s : gostring) : option Z :=
  match s with
  | x2d :: d :: ds => Z.opp <$> dec_digits 0 (d :: ds)
  | x2b :: d :: ds => dec_digits 0 (d :: ds)
  | [] => None
  | _ => dec_digits 0 s
  end.

(** [x.Bytes()]: the absolute value, big-endian, without leading zeros. *)
Definition big_bytelen (z : Z) : nat :=
  if z =? 0 then 0%nat else Z.to_nat (Z.log2 (Z.abs z) / 8 + 1).

Definition big_Bytes (z : Z) : bytes := be_split (big_bytelen z) (Z.abs z).

(** [x.SetBytes(b)]. *)
Definition big_SetBytes (b : bytes) : Z := be_val b.

(** [x.Cmp(y) > 0] on non-nil operands; a nil operand is dereferenced. *)
Definition big_Cmp_gt (x : Z) (y : option Z) : outcome bool :=
  match y with
  | Some y => Ok (y <? x)
  | None => Panic (lit "runtime error: invalid memory address or nil pointer dereference")
  end.

(** ** encoding/binary: an [int32] in big-endian order. *)
Definition binary_BigEndian_int32 (n : Z) : bytes := be_split 4 n.

(** * Lemmas *)

Lemma zeros_length n : length (zeros n) = n.
Proof. apply length_replicate. Qed.

Lemma copy_into_length dst src : length (copy_into dst src) = length dst.
Proof. unfold copy_into. rewrite length_app, length_take, length_drop. lia. Qed.

Lemma copy_into_full dst src :
  length src = length dst → copy_into dst src = src.
Proof.
  intros H. unfold copy_into. rewrite take_ge, drop_ge by lia.
  by rewrite app_nil_r.
Qed.

Lemma copy_into_zeros n src :
  (length src ≤ n)%nat → copy_into (zeros n) src = src ++ zeros (n - length src).
Proof.
  intros H. unfold copy_into. rewrite zeros_length, take_ge by lia.
  unfold zeros. by rewrite drop_replicate.
Qed.

Lemma copy_into_zeros_long n src :
  (n ≤ length src)%nat → copy_into (zeros n) src = take n src.
Proof.
  intros H. unfold copy_into. rewrite zeros_length.
  unfold zeros. rewrite drop_replicate.
  replace (n - length src)%nat with 0%nat by lia. by rewrite app_nil_r.
Qed.

(** The idiom [copy(a\[n-len(b):\], b)] on a zeroed array of [n] bytes. *)
Lemma copy_from_right n b :
  (length b ≤ n)%nat →
  copy_from (zeros n) (Z.of_nat n - Z.of_nat (length b)) b
  = Ok (zeros (n - length b) ++ b).
Proof.
  intros H. unfold copy_from. rewrite zeros_length.
  rewrite (proj2 (Z.leb_le 0 _)), (proj2 (Z.leb_le _ (Z.of_nat n))) by lia. cbn [andb].
  rewrite <-Nat2Z.inj_sub, Nat2Z.id by done.
  unfold zeros. rewrite take_replicate, drop_replicate, Nat.min_l by lia.
  rewrite copy_into_full; [done|]. rewrite length_replicate. lia.
Qed.

Lemma copy_from_panics dst lo src :
  (lo < 0 ∨ Z.of_nat (length dst) < lo) → copy_from dst lo src = slice_panic.
Proof.
  intros H. unfold copy_from.
  destruct (Z.leb_spec 0 lo), (Z.leb_spec lo (Z.of_nat (length dst))); cbn; lia || done.
Qed.

Lemma copy_from_length dst lo src b :
  copy_from dst lo src = Ok b → length b = length dst.
Proof.
  unfold copy_from. destruct (_ && _) eqn:E; [|done].
  intros [= <-]. apply andb_true_iff in E as [? ?].
  rewrite length_app, copy_into_length, length_take, length_drop. lia.
Qed.

(** *** Hexadecimal *)

Lemma reverseHexTable_digit n : 0 ≤ n < 16 → reverseHexTable (hex_digit n) = Some n.
Proof.
  intros H. unfold hex_digit.
  assert (n ∈ seqZ 0 16) as Hin by (apply elem_of_seqZ; lia).
  revert Hin. rewrite list_elem_of_In. cbn.
  intros Hin. repeat destruct Hin as [<-|Hin]; try reflexivity. done.
Qed.

Lemma hex_digit_ascii_lower n :
  0 ≤ n < 16 → is_ascii (hex_digit n) = true ∧ lower_ascii (hex_digit n) = hex_digit n.
Proof.
  intros H.
  assert (n ∈ seqZ 0 16) as Hin by (apply elem_of_seqZ; lia).
  revert Hin. rewrite list_elem_of_In. cbn.
  intros Hin. repeat destruct Hin as [<-|Hin]; try (split; reflexivity). done.
Qed.

Lemma nibbles b :
  0 ≤ byte_Z b / 16 < 16 ∧ 0 ≤ byte_Z b mod 16 < 16
  ∧ byte_Z b / 16 * 16 + byte_Z b mod 16 = byte_Z b.
Proof. pose proof (byte_Z_range b). Z.div_mod_to_equations. lia. Qed.

Lemma hex_encode_cons x b :
  hex_EncodeToString (x :: b)
  = hex_digit (byte_Z x / 16) :: hex_digit (byte_Z x mod 16) :: hex_EncodeToString b.
Proof. done. Qed.

Lemma hex_encode_length b : length (hex_EncodeToString b) = (2 * length b)%nat.
Proof. induction b as [|x b IH]; [done|]. rewrite hex_encode_cons. cbn [length]. lia. Qed.

Lemma hex_parse_encode b : hex_parse (hex_EncodeToString b) = Some b.
Proof.
  induction b as [|x b IH]; [done|].
  rewrite hex_encode_cons. cbn [hex_parse].
  pose proof (nibbles x) as (? & ? & Hx).
  rewrite !reverseHexTable_digit by done. cbn. rewrite IH. cbn.
  by rewrite Hx, byte_of_Z_byte_Z.
Qed.

(** Digits of either case are accepted; encoding is lower-case. *)
Lemma hex_encode_lower `{Unicode} b :
  ToLower (hex_EncodeToString b) = hex_EncodeToString b.
Proof.
  assert (forallb is_ascii (hex_EncodeToString b) = true
          ∧ map lower_ascii (hex_EncodeToString b) = hex_EncodeToString b) as [Ha Hl].
  { induction b as [|x b [IHa IHl]]; [done|].
    rewrite hex_encode_cons. cbn [forallb map].
    pose proof (nibbles x) as (H1 & H2 & _).
    destruct (hex_digit_ascii_lower _ H1) as [-> ->].
    destruct (hex_digit_ascii_lower _ H2) as [-> ->].
    by rewrite IHa, IHl. }
  unfold ToLower. by rewrite Ha.
Qed.

Lemma hex_encode_inj b1 b2 : hex_EncodeToString b1 = hex_EncodeToString b2 → b1 = b2.
Proof.
  intros H. apply (f_equal hex_parse) in H. rewrite !hex_parse_encode in H. congruence.
Qed.

Lemma hex_parse_length s b : hex_parse s = Some b → length s = (2 * length b)%nat.
Proof.
  revert b. induction (Nat.lt_wf_0_projected (@length byte) s) as [s _ IH].
  intros b. destruct s as [|p [|q s]]; cbn [hex_parse]; [by intros [= <-]|done|].
  destruct (reverseHexTable p); [|done]. destruct (reverseHexTable q); [|done].
  cbn. destruct (hex_parse s) as [l|] eqn:E; [|done]. intros [= <-].
  apply IH in E; [|cbn; lia]. cbn. lia.
Qed.

Lemma list_pair_ind {A} (P : list A → Prop) :
  P [] → (∀ x, P [x]) → (∀ x y l, P l → P (x :: y :: l)) → ∀ l, P l.
Proof.
  intros H0 H1 H2. refine (fix go l := _).
  destruct l as [|x [|y l]]; [exact H0|exact (H1 x)|exact (H2 x y l (go l))].
Qed.

Lemma hex_parse_cons p q s b :
  hex_parse (p :: q :: s) = Some b ↔
  ∃ a c l, reverseHexTable p = Some a ∧ reverseHexTable q = Some c
           ∧ hex_parse s = Some l ∧ b = byte_of_Z (a * 16 + c) :: l.
Proof.
  cbn [hex_parse]. split.
  - intros H. destruct (reverseHexTable p) as [a|]; [|done].
    destruct (reverseHexTable q) as [c|]; [|done].
    destruct (hex_parse s) as [l|]; [|done]. injection H as <-.
    by exists a, c, l.
  - intros (a & c & l & -> & -> & -> & ->). done.
Qed.

(** The decoding loop writes the denoted bytes when they fit. *)
Lemma hex_decode_loop_fits src : ∀ dst i b,
  hex_parse src = Some b → (i + length b ≤ length dst)%nat →
  hex_decode_loop dst i src
  = Ok (take i dst ++ b ++ drop (i + length b) dst, (i + length b)%nat).
Proof.
  induction src as [|p|p q s IH] using list_pair_ind; intros dst i b Hp Hl.
  - injection Hp as <-. cbn. rewrite Nat.add_0_r. by rewrite take_drop.
  - done.
  - apply hex_parse_cons in Hp as (a & c & l & Ha & Hc & Hs & ->).
    cbn [hex_decode_loop]. rewrite Ha, Hc. cbn [length] in *.
    rewrite decide_True by lia.
    rewrite (IH _ _ l Hs) by (rewrite length_insert; lia).
    do 2 f_equal; [|lia].
    rewrite (take_S_r _ _ (byte_of_Z (a * 16 + c))) by (apply list_lookup_insert_eq; lia).
    rewrite take_insert_ge, drop_insert_lt by lia. rewrite <-app_assoc. cbn.
    by rewrite Nat.add_succ_r.
Qed.

Lemma hex_decode_loop_Ok src : ∀ dst i d n,
  hex_decode_loop dst i src = Ok (d, n) →
  ∃ b, hex_parse src = Some b ∧ ((i ≤ length dst)%nat → (i + length b ≤ length dst)%nat).
Proof.
  induction src as [|p|p q s IH] using list_pair_ind; intros dst i d n.
  - intros [= <- <-]. exists []. cbn. split; [done|lia].
  - cbn. by destruct (reverseHexTable p).
  - cbn [hex_decode_loop].
    destruct (reverseHexTable p) as [a|] eqn:Ea; [|done].
    destruct (reverseHexTable q) as [c|] eqn:Ec; [|done].
    case_decide; [|done]. intros Hr. apply IH in Hr as (b & Hb & Hlen).
    rewrite length_insert in Hlen.
    exists (byte_of_Z (a * 16 + c) :: b). split; [apply hex_parse_cons; naive_solver|].
    cbn. lia.
Qed.

(** It indexes out of range exactly when the first [len(dst)-i+1] pairs are
    digits. *)
Lemma hex_decode_loop_panics src : ∀ dst i,
  (i ≤ length dst)%nat →
  panics (hex_decode_loop dst i src) ↔
  ∃ b, hex_parse (take (2 * (length dst - i + 1)) src) = Some b
       ∧ length b = (length dst - i + 1)%nat.
Proof.
  induction src as [|p|p q s IH] using list_pair_ind; intros dst i Hi.
  - cbn. rewrite take_nil. split; [done|]. intros (b & [= <-] & Hb). cbn in Hb. lia.
  - replace (2 * (length dst - i + 1))%nat with (S (S (2 * (length dst - i)))) by lia.
    cbn. split; [by destruct (reverseHexTable p)|naive_solver].
  - replace (2 * (length dst - i + 1))%nat with (S (S (2 * (length dst - i)))) by lia.
    cbn [take hex_decode_loop]. setoid_rewrite hex_parse_cons.
    destruct (reverseHexTable p) as [a|] eqn:Ea; [|cbn; naive_solver].
    destruct (reverseHexTable q) as [c|] eqn:Ec; [|cbn; naive_solver].
    case_decide.
    + rewrite IH by (rewrite length_insert; lia). rewrite length_insert.
      replace (length dst - S i + 1)%nat with (length dst - i)%nat by lia.
      split.
      * intros (b & Hb & Hl). eexists. split; [by repeat econstructor|]. cbn. lia.
      * intros (b & (a' & c' & l & ? & ? & Hl & ->) & Hb). exists l.
        split; [done|]. cbn in Hb. lia.
    + cbn. split; [intros _|done].
      replace (length dst - i)%nat with 0%nat by lia.
      eexists. split; [by repeat econstructor|]. done.
Qed.

Lemma hex_Decode_fits dst src b :
  hex_parse src = Some b → (length b ≤ length dst)%nat →
  hex_Decode dst src = Ok (b ++ drop (length b) dst, length b).
Proof. intros Hp Hl. unfold hex_Decode. by rewrite (hex_decode_loop_fits _ _ _ b). Qed.

Lemma hex_DecodeString_Ok s b : hex_DecodeString s = Ok b ↔ hex_parse s = Some b.
Proof.
  assert (∀ b', hex_parse s = Some b' → hex_DecodeString s = Ok b') as Hok.
  { intros b' Hb. pose proof (hex_parse_length _ _ Hb) as Hlen.
    unfold hex_DecodeString. rewrite (hex_Decode_fits _ _ b' Hb).
    - cbn. by rewrite take_app_length.
    - rewrite zeros_length, Hlen, Nat.mul_comm, Nat.div_mul; lia. }
  split; [|apply Hok]. intros H.
  destruct (hex_Decode (zeros (length s / 2)) s) as [[d n]| | |] eqn:E;
    try (unfold hex_DecodeString in H; rewrite E in H; discriminate H).
  apply hex_decode_loop_Ok in E as (b' & Hb & _).
  rewrite (Hok _ Hb) in H. congruence.
Qed.

Lemma hex_DecodeString_no_panic s : ¬ panics (hex_DecodeString s).
Proof.
  unfold hex_DecodeString, hex_Decode. intros H.
  assert (panics (hex_decode_loop (zeros (length s / 2)) 0 s)) as Hp
    by by destruct (hex_decode_loop _ _ _).
  apply hex_decode_loop_panics in Hp as (b & Hb & Hl); [|lia].
  apply hex_parse_length in Hb. rewrite Hl, length_take, zeros_length in Hb.
  pose proof (Nat.div_mod_eq (length s) 2). pose proof (Nat.mod_upper_bound (length s) 2). lia.
Qed.

(** *** Numbers *)

Lemma big_bytelen_spec z n : (big_bytelen z ≤ n)%nat ↔ Z.abs z < 256 ^ Z.of_nat n.
Proof.
  unfold big_bytelen. replace 256 with (2 ^ 8) by lia. rewrite <-Z.pow_mul_r by lia.
  destruct (Z.eqb_spec z 0) as [->|Hz].
  - split; [intros; apply Z.pow_pos_nonneg|]; lia.
  - rewrite Z.log2_lt_pow2 by lia.
    pose proof (Z.log2_nonneg (Z.abs z)).
    pose proof (Z.div_mod (Z.log2 (Z.abs z)) 8 ltac:(lia)).
    pose proof (Z.mod_pos_bound (Z.log2 (Z.abs z)) 8 ltac:(lia)). lia.
Qed.

Lemma big_Bytes_length z : length (big_Bytes z) = big_bytelen z.
Proof. apply be_split_length. Qed.

Lemma big_Bytes_le z n : (length (big_Bytes z) ≤ n)%nat ↔ Z.abs z < 256 ^ Z.of_nat n.
Proof. rewrite big_Bytes_length. apply big_bytelen_spec. Qed.

Lemma be_val_big_Bytes z : be_val (big_Bytes z) = Z.abs z.
Proof.
  unfold big_Bytes. apply be_val_split_small. split; [lia|].
  by apply (big_bytelen_spec z).
Qed.

(** The left-padded array of a number below [256^n] denotes the number. *)
Lemma be_val_padded z n :
  be_val (zeros (n - length (big_Bytes z)) ++ big_Bytes z) = Z.abs z.
Proof. unfold zeros. by rewrite be_val_zeros, be_val_big_Bytes. Qed.
