(* ===== verification/Types.v ===== *)
(** * Types: the wire types (lib/types/types.go) and the GraphQL input types
    (graph/model/models_gen.go)

    A Go struct is a record, a fixed array [\[n\]byte] a byte list whose length
    is part of the record's well-formedness predicate, a slice a list (nil and
    empty slices serialise alike), a pointer an option. *)
From stdpp Require Import base numbers strings list.
From Stdlib Require Import Strings.Byte ZArith Lia.
From S2P Require Import Prelude GoStd.

(** The enumeration of the superposition-assets package, which is not part of
    this repository. *)
Class Assets := {
  Asset : Type;
  Asset_eq_dec : EqDecision Asset;
  Asset_zero : Asset;
  AssetUsdc : Asset
}.
#[export] Existing Instance Asset_eq_dec.

(** ** The variant tags of [Args] ([borsh.Enum], a byte, by iota) *)
Definition ArgsFreshBackwards : Z := 0.
Definition ArgsSolve : Z := 1.
Definition ArgsVersion : Z := 2.
Definition ArgsAuthority : Z := 3.
Definition ArgsSolveV2 : Z := 4.
Definition ArgsTransferOnly : Z := 5.
Definition ArgsStatement : Z := 6.
Definition ArgsOwner : Z := 7.
Definition ArgsEd25519Key : Z := 8.
Definition ArgsSolveV3 : Z := 9.
Definition ArgsAssetsVersion : Z := 10.

Section Wire.
Context `{Assets}.

Record Permit := mk_Permit {
  Permit_Asset : Asset;
  Permit_Deadline : Z;
  Permit_V : byte;
  Permit_R : bytes;
  Permit_S : bytes
}.

Record FromArgs := mk_FromArgs {
  FromArgs_Asset : Asset;
  FromArgs_ToTake : bytes;
  FromArgs_MaxUnspent : bytes
}.

Record SolveArgs := mk_SolveArgs {
  SolveArgs_Permit : list Permit;
  SolveArgs_From : list FromArgs;
  SolveArgs_Target : bytes;
  SolveArgs_Cd : bytes;
  SolveArgs_MsTs : bytes
}.

Record SolveArgsSigArgs := mk_SolveArgsSigArgs {
  SolveArgsSigArgs_Sig : bytes;
  SolveArgsSigArgs_Args : SolveArgs
}.

Record FreshBackwards := mk_FreshBackwards {
  FreshBackwards_Key : bytes;
  FreshBackwards_EoaAddr : bytes;
  FreshBackwards_V : byte;
  FreshBackwards_R : bytes;
  FreshBackwards_S : bytes;
  FreshBackwards_SolveArgs : list SolveArgsSigArgs;
  FreshBackwards_Authority : option bytes
}.

Record Solve := mk_Solve { Solve_Args : list SolveArgsSigArgs }.

(** [Version], [Authority], [Owner], [Ed25519Key] and [AssetsVersion] are
    empty structs. *)
Record Version := mk_Version {}.
Record Authority := mk_Authority {}.
Record Owner := mk_Owner {}.
Record Ed25519Key := mk_Ed25519Key {}.
Record AssetsVersion := mk_AssetsVersion {}.

Record SolveV2Args := mk_SolveV2Args {
  SolveV2Args_Args : list SolveArgs;
  SolveV2Args_PermitOwner : bytes;
  SolveV2Args_TransferOwner : bytes
}.

Record SolveV2 := mk_SolveV2 {
  SolveV2_Args : SolveV2Args;
  SolveV2_Sig : bytes
}.

Record TransferPermit := mk_TransferPermit {
  TransferPermit_Deadline : Z;
  TransferPermit_V : byte;
  TransferPermit_R : bytes;
  TransferPermit_S : bytes
}.

Record Transfer := mk_Transfer {
  Transfer_From : bytes;
  Transfer_Asset : Asset;
  Transfer_Recipient : bytes;
  Transfer_Amt : bytes;
  Transfer_Permit : option TransferPermit
}.

Record TransferOnlyArgs := mk_TransferOnlyArgs {
  TransferOnlyArgs_Args : list Transfer;
  TransferOnlyArgs_MsTs : bytes
}.

Record TransferOnly := mk_TransferOnly {
  TransferOnly_Args : TransferOnlyArgs;
  TransferOnly_Sig : bytes
}.

Record StatementArgs := mk_StatementArgs {
  StatementArgs_Msg : bytes;
  StatementArgs_MsTs : bytes
}.

Record Statement := mk_Statement {
  Statement_Args : StatementArgs;
  Statement_Sig : bytes
}.

Record SolveV3Args := mk_SolveV3Args {
  SolveV3Args_Args : list SolveArgs;
  SolveV3Args_GasToken : Asset;
  SolveV3Args_GasTokenAmt : Z;
  SolveV3Args_GasTokenPermit : option Permit
}.

Record SolveV3 := mk_SolveV3 {
  SolveV3_Args : SolveV3Args;
  SolveV3_Sig : bytes
}.

(** The Go struct carries a field per variant; [Args_Enum] selects the one
    that is serialised. *)
Record Args := mk_Args {
  Args_Enum : Z;
  Args_FreshBackwards : FreshBackwards;
  Args_Solve : Solve;
  Args_Version : Version;
  Args_Authority : Authority;
  Args_SolveV2 : SolveV2;
  Args_TransferOnly : TransferOnly;
  Args_Statement : Statement;
  Args_Owner : Owner;
  Args_Ed25519Key : Ed25519Key;
  Args_SolveV3 : SolveV3;
  Args_AssetsVersion : AssetsVersion
}.

(** Go zero values: what a composite literal leaves out. The zero [Asset] is
    the enumeration's first member, which the package decides. *)
Definition zero_FreshBackwards : FreshBackwards :=
  mk_FreshBackwards (zeros 32) (zeros 20) x00 (zeros 32) (zeros 32) [] None.
Definition zero_SolveV2 : SolveV2 :=
  mk_SolveV2 (mk_SolveV2Args [] (zeros 20) (zeros 20)) (zeros 64).
Definition zero_TransferOnly : TransferOnly :=
  mk_TransferOnly (mk_TransferOnlyArgs [] (zeros 16)) (zeros 64).
Definition zero_Statement : Statement :=
  mk_Statement (mk_StatementArgs [] (zeros 6)) (zeros 64).
Definition zero_SolveV3 : SolveV3 :=
  mk_SolveV3 (mk_SolveV3Args [] Asset_zero 0 None) (zeros 64).

Definition zero_Args : Args :=
  mk_Args 0 zero_FreshBackwards (mk_Solve []) mk_Version mk_Authority
    zero_SolveV2 zero_TransferOnly zero_Statement mk_Owner mk_Ed25519Key
    zero_SolveV3 mk_AssetsVersion.

(** [f.SolveArgs = append(f.SolveArgs, m)]. *)
Definition append_SolveArgs (f : FreshBackwards) (m : SolveArgsSigArgs) : FreshBackwards :=
  mk_FreshBackwards (FreshBackwards_Key f) (FreshBackwards_EoaAddr f)
    (FreshBackwards_V f) (FreshBackwards_R f) (FreshBackwards_S f)
    (FreshBackwards_SolveArgs f ++ [m]) (FreshBackwards_Authority f).

(** ** Well-formedness: the Go types' own constraints

    Array lengths, [uint64] ranges, and slices short enough for a [u32]
    length prefix. *)
Definition wf_u64 (z : Z) : Prop := 0 ≤ z < 2 ^ 64.
Definition wf_slice {A} (l : list A) : Prop := Z.of_nat (length l) < 2 ^ 32.

Definition wf_Permit (p : Permit) : Prop :=
  wf_u64 (Permit_Deadline p) ∧ length (Permit_R p) = 32%nat ∧ length (Permit_S p) = 32%nat.

Definition wf_FromArgs (f : FromArgs) : Prop :=
  length (FromArgs_ToTake f) = 32%nat ∧ length (FromArgs_MaxUnspent f) = 32%nat.

Definition wf_SolveArgs (s : SolveArgs) : Prop :=
  wf_slice (SolveArgs_Permit s) ∧ Forall wf_Permit (SolveArgs_Permit s)
  ∧ wf_slice (SolveArgs_From s) ∧ Forall wf_FromArgs (SolveArgs_From s)
  ∧ length (SolveArgs_Target s) = 20%nat ∧ wf_slice (SolveArgs_Cd s)
  ∧ length (SolveArgs_MsTs s) = 16%nat.

Definition wf_SolveArgsSigArgs (s : SolveArgsSigArgs) : Prop :=
  length (SolveArgsSigArgs_Sig s) = 64%nat ∧ wf_SolveArgs (SolveArgsSigArgs_Args s).

Definition wf_FreshBackwards (f : FreshBackwards) : Prop :=
  length (FreshBackwards_Key f) = 32%nat ∧ length (FreshBackwards_EoaAddr f) = 20%nat
  ∧ length (FreshBackwards_R f) = 32%nat ∧ length (FreshBackwards_S f) = 32%nat
  ∧ wf_slice (FreshBackwards_SolveArgs f)
  ∧ Forall wf_SolveArgsSigArgs (FreshBackwards_SolveArgs f)
  ∧ match FreshBackwards_Authority f with Some a => length a = 20%nat | None => True end.

Definition wf_SolveV2Args (s : SolveV2Args) : Prop :=
  wf_slice (SolveV2Args_Args s) ∧ Forall wf_SolveArgs (SolveV2Args_Args s)
  ∧ length (SolveV2Args_PermitOwner s) = 20%nat
  ∧ length (SolveV2Args_TransferOwner s) = 20%nat.

Definition wf_SolveV2 (s : SolveV2) : Prop :=
  wf_SolveV2Args (SolveV2_Args s) ∧ length (SolveV2_Sig s) = 64%nat.

Definition wf_SolveV3Args (s : SolveV3Args) : Prop :=
  wf_slice (SolveV3Args_Args s) ∧ Forall wf_SolveArgs (SolveV3Args_Args s)
  ∧ wf_u64 (SolveV3Args_GasTokenAmt s)
  ∧ match SolveV3Args_GasTokenPermit s with Some p => wf_Permit p | None => True end.

Definition wf_SolveV3 (s : SolveV3) : Prop :=
  wf_SolveV3Args (SolveV3_Args s) ∧ length (SolveV3_Sig s) = 64%nat.
End Wire.

(** ** GraphQL input and result types *)
Module model.

Record CreateAccount := mk_CreateAccount {
  EoaAddr : gostring;
  SigV : Z;
  SigR : gostring;
  SigS : gostring;
  Authority : option gostring
}.

Record CreateAccountExec := mk_CreateAccountExec {
  Hash : gostring;
  Secret : gostring
}.

Record Permit := mk_Permit {
  Deadline : Z;
  PermitV : Z;
  PermitR : gostring;
  PermitS : gostring
}.

Record Mint := mk_Mint {
  Market : gostring;
  Outcome : gostring;
  Amount : gostring;
  Mint_Permit : option Permit;
  Referrer : gostring;
  MsTs : gostring
}.

Record FlorinOpenPositionResult := mk_FlorinOpenPositionResult {
  Florin_Hash : gostring
}.

Record FromArgs := mk_FromArgs {
  Token : gostring;
  ToTake : gostring;
  MaxUnspent : gostring
}.

(** The pointers of the two lists are never nil. *)
Record SolveArgs := mk_SolveArgs {
  SolveArgs_Permit : list Permit;
  From : list FromArgs;
  Target : gostring;
  Cd : gostring;
  SolveArgs_MsTs : gostring
}.

(** The enumeration Asset, which no operation uses. *)
Definition Asset : Type := gostring.
Definition AssetUsdc : Asset := lit "USDC".
Definition AssetArb : Asset := lit "ARB".
Definition AssetWeth : Asset := lit "WETH".
Definition AllAsset : list Asset := [AssetUsdc; AssetArb; AssetWeth].

Definition IsValid (e : Asset) : bool :=
  bool_decide (e = AssetUsdc) || bool_decide (e = AssetArb) || bool_decide (e = AssetWeth).
Definition Asset_String (e : Asset) : gostring := e.

(** [int32] fields arrive within the width gqlgen's coercion enforces. *)
Definition int32 (z : Z) : Prop := - 2 ^ 31 ≤ z < 2 ^ 31.
Definition wf_CreateAccount (c : CreateAccount) : Prop := int32 (SigV c).
Definition wf_Permit (p : Permit) : Prop := int32 (Deadline p) ∧ int32 (PermitV p).
End model.
