(* ===== verification/Sha512.v ===== *)
(** * Sha512: Go's [crypto/sha512.Sum512]

    FIPS 180-4 on 64-bit words kept as [Z] with their wrap-around written
    out. The digest always has 64 bytes. *)
From stdpp Require Import base numbers strings list.
From Stdlib Require Import Strings.Byte ZArith Lia.
From S2P Require Import Prelude GoStd.

Definition w64 (z : Z) : Z := z mod 2 ^ 64.
Definition add64 (a b : Z) : Z := w64 (a + b).
Definition rotr64 (x n : Z) : Z :=
  Z.lor (Z.shiftr x n) (w64 (Z.shiftl x (64 - n))).

Definition sha512_K : list Z :=
  [0x428a2f98d728ae22; 0x7137449123ef65cd; 0xb5c0fbcfec4d3b2f;
   0xe9b5dba58189dbbc; 0x3956c25bf348b538; 0x59f111f1b605d019;
   0x923f82a4af194f9b; 0xab1c5ed5da6d8118; 0xd807aa98a3030242;
   0x12835b0145706fbe; 0x243185be4ee4b28c; 0x550c7dc3d5ffb4e2;
   0x72be5d74f27b896f; 0x80deb1fe3b1696b1; 0x9bdc06a725c71235;
   0xc19bf174cf692694; 0xe49b69c19ef14ad2; 0xefbe4786384f25e3;
   0xfc19dc68b8cd5b5; 0x240ca1cc77ac9c65; 0x2de92c6f592b0275;
   0x4a7484aa6ea6e483; 0x5cb0a9dcbd41fbd4; 0x76f988da831153b5;
   0x983e5152ee66dfab; 0xa831c66d2db43210; 0xb00327c898fb213f;
   0xbf597fc7beef0ee4; 0xc6e00bf33da88fc2; 0xd5a79147930aa725;
   0x6ca6351e003826f; 0x142929670a0e6e70; 0x27b70a8546d22ffc;
   0x2e1b21385c26c926; 0x4d2c6dfc5ac42aed; 0x53380d139d95b3df;
   0x650a73548baf63de; 0x766a0abb3c77b2a8; 0x81c2c92e47edaee6;
   0x92722c851482353b; 0xa2bfe8a14cf10364; 0xa81a664bbc423001;
   0xc24b8b70d0f89791; 0xc76c51a30654be30; 0xd192e819d6ef5218;
   0xd69906245565a910; 0xf40e35855771202a; 0x106aa07032bbd1b8;
   0x19a4c116b8d2d0c8; 0x1e376c085141ab53; 0x2748774cdf8eeb99;
   0x34b0bcb5e19b48a8; 0x391c0cb3c5c95a63; 0x4ed8aa4ae3418acb;
   0x5b9cca4f7763e373; 0x682e6ff3d6b2b8a3; 0x748f82ee5defb2fc;
   0x78a5636f43172f60; 0x84c87814a1f0ab72; 0x8cc702081a6439ec;
   0x90befffa23631e28; 0xa4506cebde82bde9; 0xbef9a3f7b2c67915;
   0xc67178f2e372532b; 0xca273eceea26619c; 0xd186b8c721c0c207;
   0xeada7dd6cde0eb1e; 0xf57d4f7fee6ed178; 0x6f067aa72176fba;
   0xa637dc5a2c898a6; 0x113f9804bef90dae; 0x1b710b35131c471b;
   0x28db77f523047d84; 0x32caab7b40c72493; 0x3c9ebe0a15c9bebc;
   0x431d67c49c100d4c; 0x4cc5d4becb3e42b6; 0x597f299cfc657e2a;
   0x5fcb6fab3ad6faec; 0x6c44198c4a475817].

Definition sha512_H0 : list Z :=
  [0x6a09e667f3bcc908; 0xbb67ae8584caa73b; 0x3c6ef372fe94f82b;
   0xa54ff53a5f1d36f1; 0x510e527fade682d1; 0x9b05688c2b3e6c1f;
   0x1f83d9abfb41bd6b; 0x5be0cd19137e2179].

Definition bsig0 (x : Z) : Z := Z.lxor (rotr64 x 28) (Z.lxor (rotr64 x 34) (rotr64 x 39)).
Definition bsig1 (x : Z) : Z := Z.lxor (rotr64 x 14) (Z.lxor (rotr64 x 18) (rotr64 x 41)).
Definition ssig0 (x : Z) : Z := Z.lxor (rotr64 x 1) (Z.lxor (rotr64 x 8) (Z.shiftr x 7)).
Definition ssig1 (x : Z) : Z := Z.lxor (rotr64 x 19) (Z.lxor (rotr64 x 61) (Z.shiftr x 6)).
Definition sha_ch (x y z : Z) : Z := Z.lxor (Z.land x y) (Z.land (Z.lxor x (2 ^ 64 - 1)) z).
Definition sha_maj (x y z : Z) : Z :=
  Z.lxor (Z.land x y) (Z.lxor (Z.land x z) (Z.land y z)).

(** The message schedule, newest word first. *)
Fixpoint sha512_extend (n : nat) (rw : list Z) : list Z :=
  match n with
  | O => rw
  | S n' =>
      let w := add64 (add64 (ssig1 (nth 1 rw 0)) (nth 6 rw 0))
                     (add64 (ssig0 (nth 14 rw 0)) (nth 15 rw 0)) in
      sha512_extend n' (w :: rw)
  end.

Definition sha512_round (st : list Z) (kw : Z * Z) : list Z :=
  match st with
  | [a; b; c; d; e; f; g; h] =>
      let t1 := add64 (add64 h (bsig1 e)) (add64 (sha_ch e f g) (add64 kw.1 kw.2)) in
      let t2 := add64 (bsig0 a) (sha_maj a b c) in
      [add64 t1 t2; a; b; c; add64 d t1; e; f; g]
  | st => st
  end.

Definition sha512_block (st : list Z) (w16 : list Z) : list Z :=
  let ws := rev (sha512_extend 64 (rev w16)) in
  zip_with add64 st (foldl sha512_round st (zip sha512_K ws)).

(** Consecutive chunks of [k] elements. *)
Fixpoint chunks {A} (fuel k : nat) (l : list A) : list (list A) :=
  match fuel, l with
  | S fuel', _ :: _ => take k l :: chunks fuel' k (drop k l)
  | _, _ => []
  end.

Definition sha512_pad (msg : bytes) : bytes :=
  let n := length msg in
  msg ++ [x80] ++ zeros ((239 - n mod 128) mod 128) ++ be_split 16 (Z.of_nat n * 8).

Definition sha512_Sum512 (msg : bytes) : bytes :=
  let padded := sha512_pad msg in
  let words := map be_val (chunks (length padded) 8 padded) in
  let st := foldl sha512_block sha512_H0 (chunks (length words) 16 words) in
  concat (map (be_split 8) st).

(** ** The digest's length *)

Lemma sha512_round_length st kw : length (sha512_round st kw) = length st.
Proof. unfold sha512_round. by repeat case_match. Qed.

Lemma foldl_length_inv {A B} (f : list A → B → list A) l st :
  (∀ s x, length (f s x) = length s) → length (foldl f st l) = length st.
Proof. intros Hf. revert st. induction l; intros st; cbn; [done|]. by rewrite IHl. Qed.

Lemma sha512_block_length st w : length (sha512_block st w) = length st.
Proof.
  unfold sha512_block. rewrite length_zip_with, foldl_length_inv.
  - lia.
  - apply sha512_round_length.
Qed.

Lemma concat_be_split k st :
  length (concat (map (be_split k) st)) = (k * length st)%nat.
Proof.
  induction st as [|w st IH]; cbn [map concat length]; [cbn; lia|].
  rewrite length_app, be_split_length, IH. lia.
Qed.

Lemma sha512_length msg : length (sha512_Sum512 msg) = 64%nat.
Proof.
  unfold sha512_Sum512. rewrite concat_be_split, foldl_length_inv; [done|].
  apply sha512_block_length.
Qed.

(** FIPS test vectors. *)
Example sha512_abc :
  hex_EncodeToString (sha512_Sum512 (lit "abc"))
  = lit "ddaf35a193617abacc417349ae20413112e6fa4e89a97ea20a9eeee64b55d39a2192992a274fc1a836ba3c23a3feebbd454d4423643ce80e2a9ac94fa54ca49f".
Proof. vm_compute. reflexivity. Qed.

Example sha512_two_blocks :
  take 8 (sha512_Sum512 (lit "abcdefghbcdefghicdefghijdefghijkefghijklfghijklmghijklmnhijklmnoijklmnopjklmnopqklmnopqrlmnopqrsmnopqrstnopqrstu"))
  = [x8e; x95; x9b; x75; xda; xe3; x13; xda].
Proof. vm_compute. reflexivity. Qed.
