(* ===== verification/External.v ===== *)
(** * External: interfaces to the code outside this repository

    go-ethereum's [common], [crypto] and [accounts/abi] packages, borsh-go and
    the signing program run with os/exec. Each is a class of operations, with
    the documented behaviour the program relies on in a separate class of
    laws; the file Reference has an instance of each class, with its laws
    proved. *)
From stdpp Require Import base numbers strings list.
From Stdlib Require Import Strings.Byte ZArith Lia.
From S2P Require Import Prelude GoStd Types.

(** ** github.com/ethereum/go-ethereum/common *)
Class EthCommon := {
  IsHexAddress : gostring → bool;
  HexToAddress : gostring → bytes;
  (** [a.String()]: the checksummed form of EIP-55. *)
  Address_String : bytes → gostring;
  (** [fmt.Sprintf("%x", a)]. *)
  Address_hex : bytes → gostring;
  LeftPadBytes : bytes → nat → bytes;
  BytesToAddress : bytes → bytes;
  (** [h.Hex()] of a hash. *)
  Hash_Hex : bytes → gostring
}.

(** The canonical lower-case form of an address. *)
Definition addr_lower (a : bytes) : gostring := lit "0x" ++ hex_EncodeToString a.

Class EthCommonLaws `{EthCommon, Unicode} : Prop := {
  HexToAddress_length s : length (HexToAddress s) = 20%nat;
  (** Checksumming changes letter case only. *)
  Address_String_lower a : length a = 20%nat → ToLower (Address_String a) = addr_lower a;
  IsHexAddress_lower a : length a = 20%nat → IsHexAddress (addr_lower a) = true;
  (** Twenty bytes in hexadecimal, prefixed or not. *)
  HexToAddress_hex s a :
    hex_parse (TrimPrefix s (lit "0x")) = Some a → length a = 20%nat → HexToAddress s = a;
  IsHexAddress_empty : IsHexAddress [] = false;
  LeftPadBytes_spec b n : LeftPadBytes b n = zeros (n - length b) ++ b;
  BytesToAddress_20 b : length b = 20%nat → BytesToAddress b = b
}.

Lemma HexToAddress_lower `{EthCommonLaws} a :
  length a = 20%nat → HexToAddress (addr_lower a) = a.
Proof. apply HexToAddress_hex, hex_parse_encode. Qed.

(** ** github.com/ethereum/go-ethereum/crypto *)
Class EthCrypto := {
  PrivateKey : Type;
  PublicKey : Type;
  (** [Keccak256(data ...\[\]byte)]. *)
  Keccak256 : list bytes → bytes;
  SigToPub : bytes → bytes → outcome PublicKey;
  PubkeyToAddress : PublicKey → bytes;
  HexToECDSA : gostring → outcome PrivateKey;
  Public : PrivateKey → PublicKey;
  crypto_Sign : bytes → PrivateKey → outcome bytes
}.

Class EthCryptoLaws `{EthCrypto} : Prop := {
  Keccak256_length l : length (Keccak256 l) = 32%nat;
  (** Hashing several slices is hashing their concatenation. *)
  Keccak256_concat l : Keccak256 l = Keccak256 [concat l];
  PubkeyToAddress_length p : length (PubkeyToAddress p) = 20%nat
}.

(** [Sign] takes a 32-byte digest and returns R, S and a recovery bit, with S
    in the lower half of the curve's order; recovery returns the signer. *)
Definition secp256k1_N : Z :=
  0xFFFFFFFFFFFFFFFFFFFFFFFFFFFFFFFEBAAEDCE6AF48A03BBFD25E8CD0364141.

Class EthSignLaws `{EthCrypto} : Prop := {
  crypto_Sign_total d k : length d = 32%nat → is_ok (crypto_Sign d k) = true;
  crypto_Sign_spec d k s :
    crypto_Sign d k = Ok s →
    SigToPub d s = Ok (Public k)
    ∧ ∃ R S v, s = R ++ S ++ [v] ∧ length R = 32%nat ∧ length S = 32%nat
               ∧ be_val S ≤ secp256k1_N / 2 ∧ (v = x00 ∨ v = x01)
}.

(** ** github.com/near/borsh-go, at the types the program serialises *)
Class Borsh `{Assets} := {
  borsh_SolveArgs : SolveArgs → outcome bytes;
  borsh_SolveV2Args : SolveV2Args → outcome bytes;
  borsh_SolveV3Args : SolveV3Args → outcome bytes;
  borsh_Args : Args → outcome bytes
}.

(** Borsh is total on the types' values, and canonical: distinct values have
    distinct encodings. *)
Class BorshLaws `{Borsh} : Prop := {
  borsh_SolveArgs_total s : wf_SolveArgs s → is_ok (borsh_SolveArgs s) = true;
  borsh_SolveArgs_inj s t b :
    wf_SolveArgs s → wf_SolveArgs t →
    borsh_SolveArgs s = Ok b → borsh_SolveArgs t = Ok b → s = t;
  borsh_SolveV2Args_total s : wf_SolveV2Args s → is_ok (borsh_SolveV2Args s) = true;
  borsh_SolveV2Args_inj s t b :
    wf_SolveV2Args s → wf_SolveV2Args t →
    borsh_SolveV2Args s = Ok b → borsh_SolveV2Args t = Ok b → s = t;
  borsh_SolveV3Args_total s : wf_SolveV3Args s → is_ok (borsh_SolveV3Args s) = true;
  borsh_SolveV3Args_inj s t b :
    wf_SolveV3Args s → wf_SolveV3Args t →
    borsh_SolveV3Args s = Ok b → borsh_SolveV3Args t = Ok b → s = t
}.

(** ** os/exec: [exec.Command(prog, args...).Output()]

    The standard output and the error, if any, of a run of a program. *)
Class Exec := exec_Output : gostring → list gostring → bytes * option gostring.

(** ** github.com/ethereum/go-ethereum/accounts/abi *)
Inductive abi_arg :=
| AbiBytes8 (b : bytes)
| AbiUint256 (z : Z)
| AbiAddress (a : bytes)
| AbiAddresses (l : list bytes).

(** The interface of lib/ninelives/abi.json: [abi.Pack(name, args...)] and a
    method's four-byte identifier. *)
Class Abi := {
  abi_Pack : gostring → list abi_arg → outcome bytes;
  abi_selector : gostring → bytes
}.

Definition abi_word_right (b : bytes) : bytes := b ++ zeros (32 - length b).
Definition abi_word_left (b : bytes) : bytes := zeros (32 - length b) ++ b.

(** The contract ABI: a four-byte selector, then the arguments' heads and
    tails. [bytes8] is padded on the right, [address] on the left; a dynamic
    array's head is its offset, and its tail its length and elements. *)
Class AbiLaws `{Abi} : Prop := {
  abi_selector_length m : length (abi_selector m) = 4%nat;
  abi_Pack_mint m o v r t :
    m = lit "mint8A059B6E" ∨ m = lit "mintScheduleClaimC8A5591F" →
    length o = 8%nat → 0 ≤ v < 2 ^ 256 → length r = 20%nat → length t = 20%nat →
    abi_Pack m [AbiBytes8 o; AbiUint256 v; AbiAddress r; AbiAddress t]
    = Ok (abi_selector m ++ abi_word_right o ++ be_split 32 v
            ++ abi_word_left r ++ abi_word_left t);
  abi_Pack_pools m l t :
    m = lit "claimForOther" ∨ m = lit "payoffForOther" →
    Forall (λ a, length a = 20%nat) l → length t = 20%nat →
    abi_Pack m [AbiAddresses l; AbiAddress t]
    = Ok (abi_selector m ++ be_split 32 64 ++ abi_word_left t
            ++ be_split 32 (Z.of_nat (length l)) ++ concat (map abi_word_left l))
}.
