(* ===== verification/Keccak.v ===== *)
(** * Keccak: the Keccak-256 hash, as an instance for go-ethereum's
    [crypto.Keccak256]

    The permutation keccak-f[1600] on 25 lanes kept as [Z], and the sponge
    with rate 136 and Ethereum's original padding. *)
From stdpp Require Import base numbers strings list.
From Stdlib Require Import Strings.Byte ZArith Lia.
From S2P Require Import Prelude GoStd Sha512.

Definition rotl64 (x n : Z) : Z := rotr64 x ((64 - n) mod 64).

Definition keccak_RC : list Z :=
  [1; 0x8082; 0x800000000000808a; 0x8000000080008000; 0x808b; 0x80000001;
   0x8000000080008081; 0x8000000000008009; 0x8a; 0x88; 0x80008009; 0x8000000a;
   0x8000808b; 0x800000000000008b; 0x8000000000008089; 0x8000000000008003;
   0x8000000000008002; 0x8000000000000080; 0x800a; 0x800000008000000a;
   0x8000000080008081; 0x8000000000008080; 0x80000001; 0x8000000080008008].

(** Rotation amounts (rho) and source lanes (pi), by lane index [x + 5 y]. *)
Definition keccak_rho : list Z :=
  [0; 1; 62; 28; 27; 36; 44; 6; 55; 20; 3; 10; 43; 25; 39; 41; 45; 15; 21; 8;
   18; 2; 61; 56; 14].
Definition keccak_pi : list nat :=
  [0; 6; 12; 18; 24; 3; 9; 10; 16; 22; 1; 7; 13; 19; 20; 4; 5; 11; 17; 23; 2;
   8; 14; 15; 21]%nat.

Definition lane (st : list Z) (i : nat) : Z := nth i st 0.

Definition keccak_theta (st : list Z) : list Z :=
  let c x := Z.lxor (lane st x) (Z.lxor (lane st (x + 5)) (Z.lxor (lane st (x + 10))
               (Z.lxor (lane st (x + 15)) (lane st (x + 20))))) in
  let cs := map c (seq 0 5) in
  let d x := Z.lxor (lane cs ((x + 4) mod 5)) (rotl64 (lane cs ((x + 1) mod 5)) 1) in
  let ds := map d (seq 0 5) in
  map (λ i, Z.lxor (lane st i) (lane ds (i mod 5))) (seq 0 25).

Definition keccak_rho_pi (st : list Z) : list Z :=
  map (λ i, rotl64 (lane st i) (lane keccak_rho i)) keccak_pi.

Definition keccak_chi (st : list Z) : list Z :=
  let at_ i k := lane st ((i mod 5 + k) mod 5 + 5 * (i / 5))%nat in
  map (λ i, Z.lxor (lane st i)
              (Z.land (Z.lxor (at_ i 1%nat) (2 ^ 64 - 1)) (at_ i 2%nat))) (seq 0 25).

Definition keccak_iota (st : list Z) (rc : Z) : list Z :=
  match st with
  | a :: st' => Z.lxor a rc :: st'
  | [] => []
  end.

Definition keccak_round (st : list Z) (rc : Z) : list Z :=
  keccak_iota (keccak_chi (keccak_rho_pi (keccak_theta st))) rc.

Definition keccak_f (st : list Z) : list Z := foldl keccak_round st keccak_RC.

Definition keccak_pad (msg : bytes) : bytes :=
  let q := (136 - length msg mod 136)%nat in
  if decide (q = 1%nat) then msg ++ [x81]
  else msg ++ [x01] ++ zeros (q - 2) ++ [x80].

Definition le_lane (b : bytes) : Z := be_val (rev b).

Definition keccak_absorb (st : list Z) (block : list Z) : list Z :=
  keccak_f (zip_with Z.lxor st (block ++ replicate 8 0)).

Definition keccak256 (msg : bytes) : bytes :=
  let padded := keccak_pad msg in
  let lanes := map le_lane (chunks (length padded) 8 padded) in
  let st := foldl keccak_absorb (replicate 25 0) (chunks (length lanes) 17 lanes) in
  concat (map (λ i, rev (be_split 8 (lane st i))) (seq 0 4)).

Lemma keccak256_length msg : length (keccak256 msg) = 32%nat.
Proof.
  unfold keccak256. cbn [seq map concat].
  rewrite !length_app, !length_rev, !be_split_length. done.
Qed.

(** Known digests. *)
Example keccak256_empty :
  hex_EncodeToString (keccak256 [])
  = lit "c5d2460186f7233c927e7db2dcc703c0e500b653ca82273b7bfad8045d85a470".
Proof. vm_compute. reflexivity. Qed.

Example keccak256_transfer_selector :
  take 4 (keccak256 (lit "transfer(address,uint256)")) = [xa9; x05; x9c; xbb].
Proof. vm_compute. reflexivity. Qed.
