(* ===== verification/BorshRef.v ===== *)
(** * BorshRef: the Borsh format at the program's types

    An encoder and a decoder written from the format's specification
    (little-endian integers, [u32] length prefixes, one-byte option and enum
    tags, arrays and struct fields in order), built from combinators whose
    round-trip law composes. It is the instance of the class [Borsh] with
    which the theorems' hypotheses about borsh-go are shown to be
    satisfiable. *)
From stdpp Require Import base numbers strings list.
From Stdlib Require Import Strings.Byte ZArith Lia.
From S2P Require Import Prelude GoStd Types External.

(** ** Codecs *)

Record codec (A : Type) := mk_codec {
  enc : A → bytes;
  dec : bytes → option (A * bytes)
}.
Arguments mk_codec {A} _ _.
Arguments enc {A} _ _.
Arguments dec {A} _ _.

(** Decoding an encoding followed by anything gives the value back and leaves
    the rest. *)
Definition codec_ok {A} (P : A → Prop) (c : codec A) : Prop :=
  ∀ a rest, P a → dec c (enc c a ++ rest) = Some (a, rest).

Definition c_fixed (n : nat) : codec bytes :=
  mk_codec (λ b, b)
    (λ s, if decide (n ≤ length s)%nat then Some (take n s, drop n s) else None).

Definition c_u8 : codec byte :=
  mk_codec (λ b, [b]) (λ s, match s with b :: s' => Some (b, s') | [] => None end).

Definition c_le (n : nat) : codec Z :=
  mk_codec (λ z, rev (be_split n z))
    (λ s, '(b, s') ← dec (c_fixed n) s; Some (be_val (rev b), s')).

Fixpoint dec_n {A} (c : codec A) (n : nat) (s : bytes) : option (list A * bytes) :=
  match n with
  | O => Some ([], s)
  | S n' => '(a, s') ← dec c s; '(l, s'') ← dec_n c n' s'; Some (a :: l, s'')
  end.

Definition c_vec {A} (c : codec A) : codec (list A) :=
  mk_codec (λ l, enc (c_le 4) (Z.of_nat (length l)) ++ concat (map (enc c) l))
    (λ s, '(n, s') ← dec (c_le 4) s; dec_n c (Z.to_nat n) s').

Definition c_option {A} (c : codec A) : codec (option A) :=
  mk_codec (λ o, match o with None => [x00] | Some a => x01 :: enc c a end)
    (λ s, match s with
          | x00 :: s' => Some (None, s')
          | x01 :: s' => '(a, s'') ← dec c s'; Some (Some a, s'')
          | _ => None
          end).

Definition c_pair {A B} (c : codec A) (d : codec B) : codec (A * B) :=
  mk_codec (λ p, enc c p.1 ++ enc d p.2)
    (λ s, '(a, s') ← dec c s; '(b, s'') ← dec d s'; Some ((a, b), s'')).

Definition c_iso {A B} (f : A → B) (g : B → A) (c : codec A) : codec B :=
  mk_codec (λ b, enc c (g b)) (λ s, '(a, s') ← dec c s; Some (f a, s')).

Lemma c_fixed_ok n : codec_ok (λ b, length b = n) (c_fixed n).
Proof.
  intros b rest <-. cbn. rewrite decide_True by (rewrite length_app; lia).
  by rewrite take_app_length, drop_app_length.
Qed.

Lemma c_u8_ok : codec_ok (λ _, True) c_u8.
Proof. done. Qed.

Lemma c_le_ok n : codec_ok (λ z, 0 ≤ z < 256 ^ Z.of_nat n) (c_le n).
Proof.
  intros z rest Hz. cbn [enc dec c_le].
  assert (length (rev (be_split n z)) = n) as Hl by by rewrite length_rev, be_split_length.
  pose proof (c_fixed_ok n _ rest Hl : dec (c_fixed n) (rev (be_split n z) ++ rest) = _) as E.
  rewrite E. cbn. by rewrite rev_involutive, be_val_split_small.
Qed.

Lemma dec_n_ok {A} (P : A → Prop) (c : codec A) l rest :
  codec_ok P c → Forall P l →
  dec_n c (length l) (concat (map (enc c) l) ++ rest) = Some (l, rest).
Proof.
  intros Hc. induction 1 as [|a l Ha _ IH]; [done|].
  cbn [length dec_n map concat]. rewrite <-app_assoc, (Hc a) by done.
  cbn. by rewrite IH.
Qed.

Lemma c_vec_ok {A} (P : A → Prop) (c : codec A) :
  codec_ok P c → codec_ok (λ l, wf_slice l ∧ Forall P l) (c_vec c).
Proof.
  intros Hc l rest [Hl HP]. cbn [enc dec c_vec]. rewrite <-app_assoc.
  rewrite c_le_ok by (unfold wf_slice in Hl; change (256 ^ Z.of_nat 4) with (2 ^ 32); lia).
  cbn. rewrite Nat2Z.id. by eapply dec_n_ok.
Qed.

Lemma c_option_ok {A} (P : A → Prop) (c : codec A) :
  codec_ok P c →
  codec_ok (λ o, match o with Some a => P a | None => True end) (c_option c).
Proof. intros Hc [a|] rest HP; cbn; [|done]. by rewrite (Hc a). Qed.

Lemma c_pair_ok {A B} (P : A → Prop) (Q : B → Prop) c d :
  codec_ok P c → codec_ok Q d → codec_ok (λ p, P p.1 ∧ Q p.2) (c_pair c d).
Proof.
  intros Hc Hd [a b] rest [??]. cbn in *. rewrite <-app_assoc, (Hc a) by done.
  cbn. by rewrite (Hd b).
Qed.

Lemma c_iso_ok {A B} (P : A → Prop) (f : A → B) g c :
  (∀ b, f (g b) = b) → codec_ok P c → codec_ok (λ b, P (g b)) (c_iso f g c).
Proof. intros Hfg Hc b rest HP. cbn. rewrite (Hc (g b)) by done. cbn. by rewrite Hfg. Qed.

Lemma codec_ok_weaken {A} (P Q : A → Prop) c :
  (∀ a, Q a → P a) → codec_ok P c → codec_ok Q c.
Proof. unfold codec_ok. auto. Qed.

Lemma codec_inj {A} (P : A → Prop) (c : codec A) a b :
  codec_ok P c → P a → P b → enc c a = enc c b → a = b.
Proof.
  intros Hc Ha Hb He. pose proof (Hc a [] Ha) as H1. pose proof (Hc b [] Hb) as H2.
  rewrite He in H1. congruence.
Qed.

Create HintDb codec_db.
#[export] Hint Resolve c_fixed_ok c_u8_ok c_le_ok c_vec_ok c_option_ok c_pair_ok : codec_db.

(** ** The reference enumeration of assets: a byte, USDC first *)
#[export] Instance ref_assets : Assets :=
  {| Asset := byte; Asset_eq_dec := byte_eq_dec; Asset_zero := x00; AssetUsdc := x00 |}.

(** ** The program's structs *)

Definition c_Permit : codec Permit :=
  c_iso (λ '(a, (d, (v, (r, s)))), mk_Permit a d v r s)
    (λ p, (Permit_Asset p, (Permit_Deadline p, (Permit_V p, (Permit_R p, Permit_S p)))))
    (c_pair c_u8 (c_pair (c_le 8) (c_pair c_u8 (c_pair (c_fixed 32) (c_fixed 32))))).

Definition c_FromArgs : codec FromArgs :=
  c_iso (λ '(a, (t, m)), mk_FromArgs a t m)
    (λ f, (FromArgs_Asset f, (FromArgs_ToTake f, FromArgs_MaxUnspent f)))
    (c_pair c_u8 (c_pair (c_fixed 32) (c_fixed 32))).

Definition c_SolveArgs : codec SolveArgs :=
  c_iso (λ '(p, (f, (t, (c, m)))), mk_SolveArgs p f t c m)
    (λ s, (SolveArgs_Permit s, (SolveArgs_From s, (SolveArgs_Target s,
           (SolveArgs_Cd s, SolveArgs_MsTs s)))))
    (c_pair (c_vec c_Permit) (c_pair (c_vec c_FromArgs)
      (c_pair (c_fixed 20) (c_pair (c_vec c_u8) (c_fixed 16))))).

Definition c_SolveArgsSigArgs : codec SolveArgsSigArgs :=
  c_iso (λ '(s, a), mk_SolveArgsSigArgs s a)
    (λ s, (SolveArgsSigArgs_Sig s, SolveArgsSigArgs_Args s))
    (c_pair (c_fixed 64) c_SolveArgs).

Definition c_FreshBackwards : codec FreshBackwards :=
  c_iso (λ '(k, (e, (v, (r, (s, (l, a)))))), mk_FreshBackwards k e v r s l a)
    (λ f, (FreshBackwards_Key f, (FreshBackwards_EoaAddr f, (FreshBackwards_V f,
           (FreshBackwards_R f, (FreshBackwards_S f,
           (FreshBackwards_SolveArgs f, FreshBackwards_Authority f)))))))
    (c_pair (c_fixed 32) (c_pair (c_fixed 20) (c_pair c_u8 (c_pair (c_fixed 32)
      (c_pair (c_fixed 32) (c_pair (c_vec c_SolveArgsSigArgs)
        (c_option (c_fixed 20)))))))).

Definition c_SolveV2Args : codec SolveV2Args :=
  c_iso (λ '(a, (p, t)), mk_SolveV2Args a p t)
    (λ s, (SolveV2Args_Args s, (SolveV2Args_PermitOwner s, SolveV2Args_TransferOwner s)))
    (c_pair (c_vec c_SolveArgs) (c_pair (c_fixed 20) (c_fixed 20))).

Definition c_SolveV3Args : codec SolveV3Args :=
  c_iso (λ '(a, (g, (m, p))), mk_SolveV3Args a g m p)
    (λ s, (SolveV3Args_Args s, (SolveV3Args_GasToken s,
           (SolveV3Args_GasTokenAmt s, SolveV3Args_GasTokenPermit s))))
    (c_pair (c_vec c_SolveArgs) (c_pair c_u8 (c_pair (c_le 8) (c_option c_Permit)))).

Definition c_Transfer : codec Transfer :=
  c_iso (λ '(f, (a, (r, (m, p)))), mk_Transfer f a r m p)
    (λ t, (Transfer_From t, (Transfer_Asset t, (Transfer_Recipient t,
           (Transfer_Amt t, Transfer_Permit t)))))
    (c_pair (c_fixed 20) (c_pair c_u8 (c_pair (c_fixed 20) (c_pair (c_fixed 32)
      (c_option (c_iso (λ '(d, (v, (r, s))), mk_TransferPermit d v r s)
        (λ p, (TransferPermit_Deadline p, (TransferPermit_V p,
               (TransferPermit_R p, TransferPermit_S p))))
        (c_pair (c_le 8) (c_pair c_u8 (c_pair (c_fixed 32) (c_fixed 32)))))))))).

(** The tagged union: the tag byte, then the selected variant's fields. *)
Definition enc_Args (a : Args) : outcome bytes :=
  let payload :=
    if Args_Enum a =? ArgsFreshBackwards then Some (enc c_FreshBackwards (Args_FreshBackwards a))
    else if Args_Enum a =? ArgsSolve then
      Some (enc (c_vec c_SolveArgsSigArgs) (Solve_Args (Args_Solve a)))
    else if Args_Enum a =? ArgsSolveV2 then
      Some (enc c_SolveV2Args (SolveV2_Args (Args_SolveV2 a)) ++ SolveV2_Sig (Args_SolveV2 a))
    else if Args_Enum a =? ArgsTransferOnly then
      Some (enc (c_vec c_Transfer) (TransferOnlyArgs_Args (TransferOnly_Args (Args_TransferOnly a)))
              ++ TransferOnlyArgs_MsTs (TransferOnly_Args (Args_TransferOnly a))
              ++ TransferOnly_Sig (Args_TransferOnly a))
    else if Args_Enum a =? ArgsStatement then
      Some (enc (c_vec c_u8) (StatementArgs_Msg (Statement_Args (Args_Statement a)))
              ++ StatementArgs_MsTs (Statement_Args (Args_Statement a))
              ++ Statement_Sig (Args_Statement a))
    else if Args_Enum a =? ArgsSolveV3 then
      Some (enc c_SolveV3Args (SolveV3_Args (Args_SolveV3 a)) ++ SolveV3_Sig (Args_SolveV3 a))
    else if (0 <=? Args_Enum a) && (Args_Enum a <=? ArgsAssetsVersion) then Some []
    else None in
  match payload with
  | Some p => Ok (byte_of_Z (Args_Enum a) :: p)
  | None => Err (lit "complex enum too large")
  end.

Lemma c_Permit_ok : codec_ok wf_Permit c_Permit.
Proof.
  eapply codec_ok_weaken; cycle 1.
  - apply c_iso_ok; [by intros []|eauto 10 with codec_db].
  - intros p (Hd & Hr & Hs). cbn.
    unfold wf_u64 in Hd. change (256 ^ Z.of_nat 8) with (2 ^ 64).
    destruct Hd. by split_and!.
Qed.

Lemma c_FromArgs_ok : codec_ok wf_FromArgs c_FromArgs.
Proof.
  eapply codec_ok_weaken; cycle 1.
  - apply c_iso_ok; [by intros []|eauto 10 with codec_db].
  - intros p (? & ?). cbn. done.
Qed.
#[export] Hint Resolve c_Permit_ok c_FromArgs_ok : codec_db.

Lemma c_SolveArgs_ok : codec_ok wf_SolveArgs c_SolveArgs.
Proof.
  eapply codec_ok_weaken; cycle 1.
  - apply c_iso_ok; [by intros []|eauto 10 with codec_db].
  - intros s (? & ? & ? & ? & ? & ? & ?). cbn.
    split_and!; try done. by apply Forall_forall.
Qed.
#[export] Hint Resolve c_SolveArgs_ok : codec_db.

Lemma c_SolveV2Args_ok : codec_ok wf_SolveV2Args c_SolveV2Args.
Proof.
  eapply codec_ok_weaken; cycle 1.
  - apply c_iso_ok; [by intros []|eauto 10 with codec_db].
  - intros s (? & ? & ? & ?). cbn. done.
Qed.

Lemma c_SolveV3Args_ok : codec_ok wf_SolveV3Args c_SolveV3Args.
Proof.
  eapply codec_ok_weaken; cycle 1.
  - apply c_iso_ok; [by intros []|eauto 10 with codec_db].
  - intros s (? & ? & Hg & Hp). cbn.
    unfold wf_u64 in Hg. change (256 ^ Z.of_nat 8) with (2 ^ 64).
    destruct Hg. by split_and!.
Qed.

#[export] Instance ref_borsh : Borsh := {|
  borsh_SolveArgs s := Ok (enc c_SolveArgs s);
  borsh_SolveV2Args s := Ok (enc c_SolveV2Args s);
  borsh_SolveV3Args s := Ok (enc c_SolveV3Args s);
  borsh_Args := enc_Args
|}.

#[export] Instance ref_borsh_laws : BorshLaws.
Proof.
  split; cbn -[enc]; try done; intros s t b Hs Ht Es Et.
  - apply (codec_inj wf_SolveArgs c_SolveArgs); auto using c_SolveArgs_ok. congruence.
  - apply (codec_inj wf_SolveV2Args c_SolveV2Args); auto using c_SolveV2Args_ok. congruence.
  - apply (codec_inj wf_SolveV3Args c_SolveV3Args); auto using c_SolveV3Args_ok. congruence.
Qed.
