(* ===== verification/Reference.v ===== *)
(** * Reference: instances of the external interfaces

    Concrete functions for go-ethereum's address helpers (EIP-55 checksums
    included), the contract ABI, a toy signature scheme and a toy signing
    program, with the laws of External proved for them. They show that the
    hypotheses of the theorems can hold, and let the witnesses evaluate the
    model on concrete inputs. *)
From stdpp Require Import base numbers strings list.
From Stdlib Require Import Strings.Byte ZArith Lia.
From S2P Require Import Prelude GoStd Types Sha512 External Keccak.

(** Case mapping that leaves strings with non-ASCII bytes alone. *)
#[export] Instance ref_unicode : Unicode := λ s, s.

(** ** Addresses *)

Definition upper_ascii (b : byte) : byte :=
  if (97 <=? byte_Z b) && (byte_Z b <=? 122) then byte_of_Z (byte_Z b - 32) else b.

Definition strip_0x (s : gostring) : gostring :=
  if HasPrefix s (lit "0x") || HasPrefix s (lit "0X") then drop 2 s else s.

Definition is_hex_digit (b : byte) : bool :=
  match reverseHexTable b with Some _ => true | None => false end.

Definition ref_IsHexAddress (s : gostring) : bool :=
  let s := strip_0x s in
  bool_decide (length s = 40%nat) && forallb is_hex_digit s.

(** The last 20 bytes, left-padded with zeros. *)
Definition ref_BytesToAddress (b : bytes) : bytes :=
  let b := drop (length b - 20) b in zeros (20 - length b) ++ b.

Definition ref_HexToAddress (s : gostring) : bytes :=
  let s := strip_0x s in
  let s := if Nat.odd (length s) then lit "0" ++ s else s in
  ref_BytesToAddress (default [] (hex_parse s)).

Definition checksum_char (c : byte) (n : Z) : byte :=
  if 8 <=? n then upper_ascii c else c.

Definition ref_Address_String (a : bytes) : gostring :=
  let hex := hex_EncodeToString a in
  let h := keccak256 hex in
  lit "0x" ++ zip_with checksum_char hex (h ≫= λ x, [byte_Z x / 16; byte_Z x mod 16]).

#[export] Instance ref_eth_common : EthCommon := {|
  IsHexAddress := ref_IsHexAddress;
  HexToAddress := ref_HexToAddress;
  Address_String := ref_Address_String;
  Address_hex := hex_EncodeToString;
  LeftPadBytes b n := zeros (n - length b) ++ b;
  BytesToAddress := ref_BytesToAddress;
  Hash_Hex h := lit "0x" ++ hex_EncodeToString h
|}.

Lemma hex_parse_digits s b : hex_parse s = Some b → forallb is_hex_digit s = true.
Proof.
  revert b. induction s as [|p|p q s IH] using list_pair_ind; intros b Hb; [done|done|].
  apply hex_parse_cons in Hb as (a & c & l & Ha & Hc & Hl & ->).
  cbn. unfold is_hex_digit at 1 2. rewrite Ha, Hc. cbn. eauto.
Qed.

Lemma checksum_char_lower n m :
  0 ≤ n < 16 →
  is_ascii (checksum_char (hex_digit n) m) = true
  ∧ lower_ascii (checksum_char (hex_digit n) m) = hex_digit n.
Proof.
  intros H. unfold checksum_char.
  assert (n ∈ seqZ 0 16) as Hin by (apply elem_of_seqZ; lia).
  revert Hin. rewrite list_elem_of_In. cbn.
  intros Hin. destruct (8 <=? m);
    repeat destruct Hin as [<-|Hin]; try (split; reflexivity); done.
Qed.

Lemma checksum_lower a ns :
  (2 * length a ≤ length ns)%nat →
  forallb is_ascii (zip_with checksum_char (hex_EncodeToString a) ns) = true
  ∧ map lower_ascii (zip_with checksum_char (hex_EncodeToString a) ns) = hex_EncodeToString a.
Proof.
  revert ns. induction a as [|x a IH]; intros ns Hl; [done|].
  destruct ns as [|n1 [|n2 ns]]; cbn in Hl; [lia|lia|].
  rewrite hex_encode_cons. cbn [zip_with forallb map].
  pose proof (nibbles x) as (H1 & H2 & _).
  destruct (checksum_char_lower _ n1 H1) as [-> ->].
  destruct (checksum_char_lower _ n2 H2) as [-> ->].
  destruct (IH ns) as [-> ->]; [lia|]. done.
Qed.

Lemma nibble_list_length (h : bytes) :
  length (h ≫= λ x, [byte_Z x / 16; byte_Z x mod 16]) = (2 * length h)%nat.
Proof. induction h as [|x h IH]; [done|]. cbn in *. lia. Qed.

Lemma ref_BytesToAddress_length b : length (ref_BytesToAddress b) = 20%nat.
Proof. unfold ref_BytesToAddress. rewrite length_app, zeros_length, length_drop. lia. Qed.

Lemma ref_BytesToAddress_id b : length b = 20%nat → ref_BytesToAddress b = b.
Proof. 
  intros H. unfold ref_BytesToAddress. rewrite H, Nat.sub_diag, drop_0, H. done.
Qed.

(** An upper-case prefix is not hexadecimal. *)
Lemma strip_0x_TrimPrefix s b :
  hex_parse (TrimPrefix s (lit "0x")) = Some b → strip_0x s = TrimPrefix s (lit "0x").
Proof.
  unfold TrimPrefix, strip_0x. destruct (HasPrefix s (lit "0x")); [done|]. cbn [orb].
  destruct (HasPrefix s (lit "0X")) eqn:E; [|done].
  destruct s as [|p [|q s]]; [done|by cbn in E; rewrite andb_false_r in E|].
  intros Hs. apply hex_parse_cons in Hs as (x & y & l & _ & Hq & _).
  cbn in E. rewrite andb_true_r in E. apply andb_true_iff in E as [_ E%bool_decide_eq_true].
  by subst q.
Qed.

#[export] Instance ref_eth_common_laws : EthCommonLaws.
Proof.
  split; cbn [IsHexAddress HexToAddress Address_String LeftPadBytes BytesToAddress ref_eth_common].
  - intros s. apply ref_BytesToAddress_length.
  - intros a Ha. unfold ref_Address_String, addr_lower.
    destruct (checksum_lower a (keccak256 (hex_EncodeToString a)
                ≫= λ x, [byte_Z x / 16; byte_Z x mod 16])) as [H1 H2].
    { rewrite nibble_list_length, keccak256_length. lia. }
    unfold ToLower. rewrite forallb_app, H1, map_app, H2. done.
  - intros a Ha. unfold ref_IsHexAddress.
    change (strip_0x (addr_lower a)) with (hex_EncodeToString a).
    rewrite hex_encode_length, Ha. cbn.
    eapply hex_parse_digits, hex_parse_encode.
  - intros s a Hs Ha. unfold ref_HexToAddress. rewrite (strip_0x_TrimPrefix _ _ Hs).
    rewrite (hex_parse_length _ _ Hs), Ha. change (Nat.odd (2 * 20)) with false. cbv iota.
    rewrite Hs. by apply ref_BytesToAddress_id.
  - done.
  - done.
  - apply ref_BytesToAddress_id.
Qed.

(** The checksummed address of the EIP-55 test vectors. *)
Example ref_Address_String_eip55 :
  ref_Address_String (ref_HexToAddress (lit "0x5aaeb6053f3e94c9b9a09f33669435e7ef1beaed"))
  = lit "0x5aAeb6053F3E94C9b9A09f33669435E7Ef1BeAed".
Proof. vm_compute. reflexivity. Qed.

(** ** A toy signature scheme: R is the signer's public key *)
#[export] Instance ref_eth_crypto : EthCrypto := {|
  PrivateKey := bytes;
  PublicKey := bytes;
  Keccak256 l := keccak256 (concat l);
  SigToPub d s :=
    if bool_decide (length s = 65%nat) && (byte_Z (nth 64 s x00) <? 4)
    then Ok (take 32 s) else Err (lit "invalid signature recovery id");
  PubkeyToAddress p := drop 12 (keccak256 p);
  HexToECDSA s :=
    match hex_parse s with
    | Some k => if decide (length k = 32%nat) then Ok k
                else Err (lit "invalid length, need 256 bits")
    | None => Err (lit "invalid hex character in private key")
    end;
  Public k := keccak256 k;
  crypto_Sign d k :=
    if decide (length d = 32%nat) then Ok (keccak256 k ++ (x00 :: take 31 d) ++ [x00])
    else Err (lit "hash is required to be exactly 32 bytes")
|}.

#[export] Instance ref_eth_crypto_laws : EthCryptoLaws.
Proof.
  split; cbn [Keccak256 PubkeyToAddress ref_eth_crypto concat].
  - intros l. apply keccak256_length.
  - intros l. by rewrite app_nil_r.
  - intros p. by rewrite length_drop, keccak256_length.
Qed.

#[export] Instance ref_eth_sign_laws : EthSignLaws.
Proof.
  split; cbn [crypto_Sign SigToPub Public ref_eth_crypto].
  - intros d k Hd. by rewrite decide_True.
  - intros d k s. case_decide as Hd; [|done]. pose proof (keccak256_length k) as Hk.
    assert (length (x00 :: take 31 d) = 32%nat) as HS by (cbn; rewrite length_take; lia).
    assert (be_val (x00 :: take 31 d) ≤ secp256k1_N / 2) as Hlow.
    { pose proof (be_val_bound (take 31 d)) as Hb. rewrite length_take, Hd in Hb.
      rewrite be_val_cons. change (byte_Z x00) with 0. rewrite Z.mul_0_l.
      change (Z.of_nat (31 `min` 32)) with 31 in Hb.
      assert (256 ^ 31 ≤ secp256k1_N / 2) by (vm_compute; congruence). lia. }
    generalize dependent (x00 :: take 31 d). intros S HS Hlow H.
    assert (s = keccak256 k ++ S ++ [x00]) as -> by congruence. clear H.
    split; [|by exists (keccak256 k), S, x00; auto 10].
    assert (length (keccak256 k ++ S ++ [x00]) = 65%nat) as Hl
      by (by rewrite !length_app, Hk, HS).
    assert (nth 64 (keccak256 k ++ S ++ [x00]) x00 = x00) as ->.
    { rewrite app_assoc, app_nth2; rewrite length_app, Hk, HS; done || lia. }
    rewrite bool_decide_true by exact Hl. cbn [andb Z.ltb].
    change (byte_Z x00 <? 4) with true. cbv iota. by rewrite take_app_length'.
Qed.

(** ** A toy signing program: echoes the SHA-512 digest of its argument *)
#[export] Instance ref_exec : Exec := λ prog args,
  match args with
  | [d] => (sha512_Sum512 d, None)
  | _ => ([], Some (lit "exit status 1"))
  end.

(** ** The contract ABI of lib/ninelives/abi.json *)

Definition abi_signature (m : gostring) : option gostring :=
  if decide (m = lit "mint8A059B6E") then Some (lit "(bytes8,uint256,address,address)")
  else if decide (m = lit "mintScheduleClaimC8A5591F") then Some (lit "(bytes8,uint256,address,address)")
  else if decide (m = lit "payoffForOther") then Some (lit "(address[],address)")
  else if decide (m = lit "claimForOther") then Some (lit "(address[],address)")
  else None.

Definition ref_selector (m : gostring) : bytes :=
  take 4 (keccak256 (m ++ default [] (abi_signature m))).

Definition ref_abi_Pack (m : gostring) (args : list abi_arg) : outcome bytes :=
  if decide (m = lit "mint8A059B6E" ∨ m = lit "mintScheduleClaimC8A5591F") then
    match args with
    | [AbiBytes8 o; AbiUint256 v; AbiAddress r; AbiAddress t] =>
        Ok (ref_selector m ++ abi_word_right o ++ be_split 32 v
              ++ abi_word_left r ++ abi_word_left t)
    | _ => Err (lit "abi: argument mismatch")
    end
  else if decide (m = lit "claimForOther" ∨ m = lit "payoffForOther") then
    match args with
    | [AbiAddresses l; AbiAddress t] =>
        Ok (ref_selector m ++ be_split 32 64 ++ abi_word_left t
              ++ be_split 32 (Z.of_nat (length l)) ++ concat (map abi_word_left l))
    | _ => Err (lit "abi: argument mismatch")
    end
  else Err (lit "method not found").

#[export] Instance ref_abi : Abi :=
  {| abi_Pack := ref_abi_Pack; abi_selector := ref_selector |}.

#[export] Instance ref_abi_laws : AbiLaws.
Proof.
  split; cbn [abi_Pack abi_selector ref_abi]; unfold ref_abi_Pack.
  - intros m. unfold ref_selector. by rewrite length_take, keccak256_length.
  - intros m o v r t Hm _ _ _ _. by rewrite decide_True.
  - intros m l t Hm _ _. rewrite decide_False, decide_True; [done..|].
    destruct Hm as [-> | ->]; intros [E|E]; discriminate E.
Qed.
