(* ===== verification/Proxy.v ===== *)
(** * Proxy: the address of a user's account contract (lib/types/proxy.go) *)
From stdpp Require Import base numbers strings list.
From Stdlib Require Import Strings.Byte ZArith Lia.
From S2P Require Import Prelude GoStd Types External Keccak Reference.

Section Proxy.
Context `{EthCommon, EthCrypto, Unicode}.

(** The two halves of the metamorphic proxy's creation code, around the
    factory's address. *)
Definition proxy_code_head : gostring :=
  lit "60738060093d393df35f3560e01c638fd3ab801461001357610036565b60205f5f5f73".
Definition proxy_code_tail : gostring :=
  lit "5afa5f51610059565b7f360894a13ba1a3210667c828492db98dca3e2076cc3735a920a3ca505d382bbc545b365f5f375f365f5f935af43d5f5f3e3d5f8261007157fd5bf3".

(** [d, _ := hex.DecodeString(s)]. Both literals decode (see
    [proxy_code_decodes]), so what is left after an error does not matter. *)
Definition decode_or_empty (s : gostring) : bytes :=
  match hex_DecodeString s with Ok d => d | _ => [] end.

Definition makeMetamorphicBeaconProxyHash (factory : bytes) : bytes :=
  let d := decode_or_empty proxy_code_head in
  let d := d ++ factory in
  let d1 := decode_or_empty proxy_code_tail in
  let d := d ++ d1 in
  Keccak256 [d].

(** [copy(d\[lo:hi\], src)] inside a buffer. *)
Definition copy_range (d : bytes) (lo hi : nat) (src : bytes) : bytes :=
  take lo d ++ copy_into (take (hi - lo) (drop lo d)) src ++ drop hi d.

Definition GetClientAddr (factory eoa : bytes) : bytes :=
  let salt := Keccak256 [eoa] in
  let d := zeros (1 + 20 + 32 + 32) in
  let d := <[0%nat := xff]> d in
  let d := copy_range d 1 21 factory in
  let d := copy_range d 21 53 salt in
  let m := makeMetamorphicBeaconProxyHash factory in
  let d := copy_range d 53 85 m in
  let h := Keccak256 [d] in
  BytesToAddress (drop 12 h).

(** ** Specification: CREATE2 (EIP-1014)

    [address = keccak256(0xff ++ deployer ++ salt ++ keccak256(init_code))\[12:\]]. *)
Definition create2_address (deployer salt init_code : bytes) : bytes :=
  drop 12 (Keccak256 [[xff] ++ deployer ++ salt ++ Keccak256 [init_code]]).

(** The account proxy's creation code for a factory. *)
Definition proxy_init_code (factory : bytes) : bytes :=
  default [] (hex_parse proxy_code_head) ++ factory ++ default [] (hex_parse proxy_code_tail).

Example proxy_code_decodes :
  is_ok (hex_DecodeString proxy_code_head) = true
  ∧ is_ok (hex_DecodeString proxy_code_tail) = true.
Proof. by vm_compute. Qed.

Lemma copy_range_app a b c src lo hi :
  lo = length a → hi = (lo + length b)%nat → length src = length b →
  copy_range (a ++ b ++ c) lo hi src = a ++ src ++ c.
Proof.
  intros -> -> Hl. unfold copy_range.
  rewrite take_app_length, drop_app_length.
  replace (length a + length b - length a)%nat with (length b) by lia.
  rewrite take_app_length, copy_into_full by done.
  rewrite (app_assoc a b c), <-length_app, drop_app_length. done.
Qed.

Lemma makeMetamorphicBeaconProxyHash_code factory :
  makeMetamorphicBeaconProxyHash factory = Keccak256 [proxy_init_code factory].
Proof.
  unfold makeMetamorphicBeaconProxyHash, proxy_init_code. rewrite <-app_assoc.
  do 2 f_equal.
Qed.

Context `{!EthCommonLaws, !EthCryptoLaws}.

Lemma GetClientAddr_preimage factory eoa :
  length factory = 20%nat →
  GetClientAddr factory eoa
  = create2_address factory (Keccak256 [eoa]) (proxy_init_code factory).
Proof.
  intros Hf. unfold GetClientAddr, create2_address. cbv zeta.
  rewrite makeMetamorphicBeaconProxyHash_code.
  set (salt := Keccak256 [eoa]). set (m := Keccak256 [proxy_init_code factory]).
  assert (length salt = 32%nat ∧ length m = 32%nat) as [Hs Hm] by (split; apply Keccak256_length).
  change (<[0%nat := xff]> (zeros (1 + 20 + 32 + 32)))
    with ([xff] ++ zeros 20 ++ zeros 32 ++ zeros 32).
  rewrite (copy_range_app [xff] (zeros 20)) by (rewrite ?zeros_length; done).
  rewrite (app_assoc [xff]).
  rewrite (copy_range_app ([xff] ++ factory) (zeros 32))
    by (rewrite ?length_app, ?zeros_length, ?Hf; done).
  rewrite (app_assoc ([xff] ++ factory)), <-(app_nil_r (zeros 32)).
  rewrite (copy_range_app (([xff] ++ factory) ++ salt) (zeros 32) [])
    by (rewrite ?length_app, ?zeros_length, ?Hf, ?Hs; done).
  rewrite app_nil_r, <-!app_assoc.
  apply BytesToAddress_20. rewrite length_drop, Keccak256_length. done.
Qed.

Lemma GetClientAddr_length factory eoa :
  length factory = 20%nat → length (GetClientAddr factory eoa) = 20%nat.
Proof.
  intros Hf. rewrite GetClientAddr_preimage by done. unfold create2_address.
  by rewrite length_drop, Keccak256_length.
Qed.

(** Two different preimages whose hashes end in the same twenty bytes. *)
Definition address_collision (p q : bytes) : Prop :=
  p ≠ q ∧ drop 12 (Keccak256 [p]) = drop 12 (Keccak256 [q]).

Lemma create2_address_inj d1 s1 c1 d2 s2 c2 :
  length d1 = 20%nat → length d2 = 20%nat → length s1 = 32%nat → length s2 = 32%nat →
  create2_address d1 s1 c1 = create2_address d2 s2 c2 →
  (d1 = d2 ∧ s1 = s2) ∨ ∃ p q, address_collision p q.
Proof.
  intros Hd1 Hd2 Hs1 Hs2 Hc. unfold create2_address in Hc.
  destruct (decide ([xff] ++ d1 ++ s1 ++ Keccak256 [c1] = [xff] ++ d2 ++ s2 ++ Keccak256 [c2]))
    as [E|E]; [left|right; by eexists _, _].
  apply app_inj_1 in E as [_ E]; [|done].
  apply app_inj_1 in E as [-> E]; [|congruence].
  apply app_inj_1 in E as [-> _]; [done|congruence].
Qed.

(** The account address derived for a user is the CREATE2 address
    (EIP-1014) of the metamorphic proxy deployed by the factory with the hash
    of the user's address as salt; it has twenty bytes. *)
Theorem GetClientAddr_create2 factory eoa :
  length factory = 20%nat →
  GetClientAddr factory eoa
  = create2_address factory (Keccak256 [eoa]) (proxy_init_code factory)
  ∧ length (GetClientAddr factory eoa) = 20%nat.
Proof.
  intros Hf. split; [by apply GetClientAddr_preimage|by apply GetClientAddr_length].
Qed.

(** Two users, possibly of two factories, share an account address only
    if they are the same user of the same factory, or a collision of the hash
    function is at hand. *)
Theorem GetClientAddr_injective factory1 eoa1 factory2 eoa2 :
  length factory1 = 20%nat → length factory2 = 20%nat →
  GetClientAddr factory1 eoa1 = GetClientAddr factory2 eoa2 →
  (factory1 = factory2 ∧ eoa1 = eoa2) ∨ ∃ p q, address_collision p q.
Proof.
  intros Hl1 Hl2 Hg. rewrite !GetClientAddr_preimage in Hg by done.
  apply create2_address_inj in Hg as [[Hf Hs]|?]; auto using Keccak256_length.
  destruct (decide (eoa1 = eoa2)); [by left|].
  right. exists eoa1, eoa2. split; [done|]. by rewrite Hs.
Qed.
End Proxy.

Definition test_eoa : bytes :=
  HexToAddress (lit "0xfeb6034fc7df27df18a3a6bad5fb94c0d3dcb6d5").

Lemma GetClientAddr_create2_witness :
  length (GetClientAddr (zeros 20) test_eoa) = 20%nat.
Proof. apply (GetClientAddr_create2 (zeros 20) test_eoa). reflexivity. Defined.

Lemma GetClientAddr_injective_witness :
  (zeros 20 = zeros 20 ∧ test_eoa = test_eoa) ∨ ∃ p q, address_collision p q.
Proof. by apply (GetClientAddr_injective (zeros 20) test_eoa (zeros 20) test_eoa). Defined.

(** With the Keccak-256 hash, the account address of the zero factory for
    0xfeb6034f..dcb6d5 is 0x01e5e10d..eae8a2. lib/types/proxy_test.go expects
    0x0977b7ed..3d5eb7 for the same arguments. *)
Theorem GetClientAddr_test_vector :
  GetClientAddr (HexToAddress (lit "0x0000000000000000000000000000000000000000")) test_eoa
  = HexToAddress (lit "0x01e5e10d5814358a315d0f34526d5a5b7deae8a2").
Proof. vm_compute. reflexivity. Qed.
