(* ===== verification/Ninelives.v ===== *)
(** * Ninelives: calldata for the 9lives contracts (lib/ninelives/ninelives.go) *)
From stdpp Require Import base numbers strings list.
From Stdlib Require Import Strings.Byte ZArith Lia.
From S2P Require Import Prelude GoStd Types External Keccak Reference.

Section Ninelives.
Context `{Abi}.

(** [if err != nil { panic(err) }]. *)
Definition panic_on_err {A} (m : outcome A) : outcome A :=
  match m with Err e => Panic e | m => m end.

Definition NewMint (outcome_ value referrer recipient : bytes) : outcome bytes :=
  panic_on_err (abi_Pack (lit "mint8A059B6E")
    [AbiBytes8 outcome_; AbiUint256 (big_SetBytes value);
     AbiAddress referrer; AbiAddress recipient]).

Definition NewMintScheduleClaim (outcome_ value referrer recipient : bytes) : outcome bytes :=
  panic_on_err (abi_Pack (lit "mintScheduleClaimC8A5591F")
    [AbiBytes8 outcome_; AbiUint256 (big_SetBytes value);
     AbiAddress referrer; AbiAddress recipient]).

(** [cd\[lo:hi\]] with [hi <= len(cd)]. *)
Definition slice (b : bytes) (lo hi : nat) : bytes := take (hi - lo) (drop lo b).

(** The named results start as zero arrays; the second copy into [referrer]
    is the source's, and [recipient] is not written. *)
Definition UnpackMint (cd : bytes) : outcome (bytes * bytes * bytes * bytes) :=
  if negb (bool_decide (length cd = 4 + 32 * 4)%nat)
  then Err (lit "bad mint cd: " ++ fmt_d (Z.of_nat (length cd)))
  else
    let outcome_ := copy_into (zeros 8) (take (32 - 8) (slice cd 4 (4 + 32))) in
    let value := copy_into (zeros 32) (slice cd (4 + 32) (4 + 32 * 2)) in
    let referrer := copy_into (zeros 20) (take (32 - 20) (slice cd (4 + 32 * 2) (4 + 32 * 3))) in
    let referrer := copy_into referrer (take (32 - 20) (slice cd (4 + 32 * 3) (4 + 32 * 4))) in
    Ok (outcome_, value, referrer, zeros 20).

Definition NewClaimForOther (addresses : list bytes) (eoa : bytes) : outcome bytes :=
  panic_on_err (abi_Pack (lit "claimForOther") [AbiAddresses addresses; AbiAddress eoa]).

Definition NewPayoffForOther (addresses : list bytes) (eoa : bytes) : outcome bytes :=
  panic_on_err (abi_Pack (lit "payoffForOther") [AbiAddresses addresses; AbiAddress eoa]).

(** ** Specification: reading the words of a mint call back *)
Definition abi_word (cd : bytes) (i : nat) : bytes := slice cd (4 + 32 * i) (4 + 32 * (i + 1)).

Definition mint_cd_outcome (cd : bytes) : bytes := take 8 (abi_word cd 0).
Definition mint_cd_value (cd : bytes) : Z := be_val (abi_word cd 1).
Definition mint_cd_referrer (cd : bytes) : bytes := drop 12 (abi_word cd 2).
Definition mint_cd_recipient (cd : bytes) : bytes := drop 12 (abi_word cd 3).

(** A call to [mint]: its arguments as the callee decodes them. *)
Definition mint_call (cd outcome_ : bytes) (value : Z) (referrer recipient : bytes) : Prop :=
  length cd = 132%nat ∧ take 4 cd = abi_selector (lit "mint8A059B6E")
  ∧ mint_cd_outcome cd = outcome_ ∧ mint_cd_value cd = value
  ∧ mint_cd_referrer cd = referrer ∧ mint_cd_recipient cd = recipient.

Lemma slice_app a b c lo hi :
  lo = length a → hi = (lo + length b)%nat → slice (a ++ b ++ c) lo hi = b.
Proof.
  intros -> ->. unfold slice. rewrite drop_app_length.
  replace (length a + length b - length a)%nat with (length b) by lia.
  by rewrite take_app_length.
Qed.

Lemma slice_app_end a b lo hi :
  lo = length a → hi = (lo + length b)%nat → slice (a ++ b) lo hi = b.
Proof. intros. rewrite <-(app_nil_r b) at 1. by apply slice_app. Qed.

Context `{!AbiLaws}.

Lemma abi_word_right_length b : (length b ≤ 32)%nat → length (abi_word_right b) = 32%nat.
Proof. intros. unfold abi_word_right. rewrite length_app, zeros_length. lia. Qed.

Lemma abi_word_left_length b : (length b ≤ 32)%nat → length (abi_word_left b) = 32%nat.
Proof. intros. unfold abi_word_left. rewrite length_app, zeros_length. lia. Qed.

(** The words of a selector followed by four 32-byte words. *)
Lemma abi_words sel w0 w1 w2 w3 :
  length sel = 4%nat → length w0 = 32%nat → length w1 = 32%nat →
  length w2 = 32%nat → length w3 = 32%nat →
  let cd := sel ++ w0 ++ w1 ++ w2 ++ w3 in
  length cd = 132%nat ∧ take 4 cd = sel
  ∧ abi_word cd 0 = w0 ∧ abi_word cd 1 = w1 ∧ abi_word cd 2 = w2 ∧ abi_word cd 3 = w3.
Proof.
  intros Hs Hw0 Hw1 Hw2 Hw3 cd. unfold abi_word.
  split_and!.
  - unfold cd. rewrite !length_app. lia.
  - unfold cd. rewrite <-Hs. apply take_app_length.
  - apply slice_app; lia.
  - unfold cd. rewrite (app_assoc sel). apply slice_app; rewrite ?length_app; lia.
  - unfold cd. rewrite (app_assoc sel), (app_assoc (sel ++ w0)).
    apply slice_app; rewrite ?length_app; lia.
  - unfold cd. rewrite (app_assoc sel), (app_assoc (sel ++ w0)),
      (app_assoc ((sel ++ w0) ++ w1)).
    apply slice_app_end; rewrite ?length_app; lia.
Qed.

Lemma NewMint_cd o v r t :
  length o = 8%nat → length v = 32%nat → length r = 20%nat → length t = 20%nat →
  NewMint o v r t
  = Ok (abi_selector (lit "mint8A059B6E") ++ abi_word_right o ++ v
          ++ abi_word_left r ++ abi_word_left t).
Proof.
  intros Ho Hv Hr Ht. unfold NewMint, big_SetBytes.
  pose proof (be_val_bound v) as Hb. rewrite Hv in Hb.
  rewrite abi_Pack_mint by (done || (left; done) || (change (2 ^ 256) with (256 ^ Z.of_nat 32); done)).
  rewrite <-Hv, be_split_val. done.
Qed.

Lemma drop_word_left b : length b = 20%nat → drop 12 (abi_word_left b) = b.
Proof.
  intros Hb. unfold abi_word_left. rewrite Hb.
  by rewrite drop_app_ge by (rewrite zeros_length; lia).
Qed.

Lemma take_word_left b : length b = 20%nat → take 12 (abi_word_left b) = zeros 12.
Proof.
  intros Hb. unfold abi_word_left. rewrite Hb. by rewrite take_app_length'.
Qed.

Lemma NewMint_mint_call o v r t :
  length o = 8%nat → length v = 32%nat → length r = 20%nat → length t = 20%nat →
  ∃ cd, NewMint o v r t = Ok cd ∧ mint_call cd o (be_val v) r t.
Proof.
  intros Ho Hv Hr Ht. eexists. split; [by apply NewMint_cd|].
  destruct (abi_words (abi_selector (lit "mint8A059B6E")) (abi_word_right o) v
              (abi_word_left r) (abi_word_left t))
    as (Hl & Hs & Hw0 & Hw1 & Hw2 & Hw3);
    try (apply abi_selector_length || apply abi_word_right_length
         || apply abi_word_left_length || done); try lia.
  unfold mint_call, mint_cd_outcome, mint_cd_value, mint_cd_referrer, mint_cd_recipient.
  rewrite Hw0, Hw1, Hw2, Hw3, !drop_word_left by done.
  split_and!; try done. unfold abi_word_right. rewrite <-Ho. apply take_app_length.
Qed.

Lemma copy_zeros_word r : length r = 20%nat →
  copy_into (zeros 20) (take (32 - 20) (abi_word_left r)) = zeros 20.
Proof. intros Hr. change (32 - 20)%nat with 12%nat. by rewrite take_word_left. Qed.

Lemma copy_outcome_word o : length o = 8%nat →
  copy_into (zeros 8) (take (32 - 8) (abi_word_right o)) = o.
Proof.
  intros Ho. rewrite copy_into_zeros_long, take_take.
  - change (8 `min` (32 - 8))%nat with 8%nat.
    unfold abi_word_right. rewrite <-Ho. apply take_app_length.
  - rewrite length_take, abi_word_right_length by lia. lia.
Qed.

(** The calldata built for a mint decodes, word by word, to exactly the
    outcome, value, referrer and recipient it was built from. *)
Theorem NewMint_decodes o v r t :
  length o = 8%nat → length v = 32%nat → length r = 20%nat → length t = 20%nat →
  ∃ cd, NewMint o v r t = Ok cd ∧ mint_call cd o (be_val v) r t.
Proof. apply NewMint_mint_call. Qed.

(** [UnpackMint], meant to invert [NewMint], recovers the outcome and the
    value, but yields the zero address for the referrer and for the
    recipient, whatever they were. *)
Theorem UnpackMint_NewMint o v r t :
  length o = 8%nat → length v = 32%nat → length r = 20%nat → length t = 20%nat →
  ∃ cd, NewMint o v r t = Ok cd ∧ UnpackMint cd = Ok (o, v, zeros 20, zeros 20).
Proof.
  intros Ho Hv Hr Ht. eexists. split; [by apply NewMint_cd|].
  destruct (abi_words (abi_selector (lit "mint8A059B6E")) (abi_word_right o) v
              (abi_word_left r) (abi_word_left t))
    as (Hl & _ & Hw0 & Hw1 & Hw2 & Hw3);
    try (apply abi_selector_length || apply abi_word_right_length
         || apply abi_word_left_length || done); try lia.
  unfold UnpackMint. rewrite bool_decide_eq_true_2 by done. cbn [negb].
  unfold abi_word in Hw0, Hw1, Hw2, Hw3.
  change (4 + 32)%nat with (4 + 32 * (0 + 1))%nat.
  change (slice ?cd 4 (4 + 32 * (0 + 1))) with (slice cd (4 + 32 * 0) (4 + 32 * (0 + 1))).
  rewrite Hw0, copy_outcome_word by done.
  change (slice ?cd (4 + 32 * (0 + 1)) (4 + 32 * 2)) with (slice cd (4 + 32 * 1) (4 + 32 * (1 + 1))).
  rewrite Hw1, copy_into_full by (by rewrite zeros_length).
  change (slice ?cd (4 + 32 * 2) (4 + 32 * 3)) with (slice cd (4 + 32 * 2) (4 + 32 * (2 + 1))).
  change (slice ?cd (4 + 32 * 3) (4 + 32 * 4)) with (slice cd (4 + 32 * 3) (4 + 32 * (3 + 1))).
  rewrite Hw2, Hw3, !copy_zeros_word by done. done.
Qed.

Lemma concat_words_lookup l i a rest :
  l !! i = Some a → Forall (λ a, length a = 20%nat) l →
  slice (concat (map abi_word_left l) ++ rest) (32 * i) (32 * (i + 1)) = abi_word_left a.
Proof.
  intros Hi Hl. revert i Hi. induction Hl as [|b l Hb _ IH]; intros i Hi; [done|].
  cbn [map concat]. rewrite <-app_assoc. destruct i as [|i]; simplify_eq/=.
  - apply (slice_app []); [done|]. rewrite abi_word_left_length; lia.
  - rewrite <-(IH i Hi). unfold slice.
    rewrite drop_app_ge by (rewrite abi_word_left_length; lia).
    rewrite abi_word_left_length by lia. f_equal; [lia|]. f_equal. lia.
Qed.

(** The calldata of a claim carries the recipient, the number of markets
    and each market in order. *)
Theorem NewPayoffForOther_decodes addresses eoa :
  Forall (λ a, length a = 20%nat) addresses → length eoa = 20%nat →
  wf_slice addresses →
  ∃ cd, NewPayoffForOther addresses eoa = Ok cd
    ∧ take 4 cd = abi_selector (lit "payoffForOther")
    ∧ be_val (abi_word cd 0) = 64
    ∧ drop 12 (abi_word cd 1) = eoa
    ∧ be_val (abi_word cd 2) = Z.of_nat (length addresses)
    ∧ ∀ i a, addresses !! i = Some a → drop 12 (abi_word cd (3 + i)) = a.
Proof.
  intros Ha He Hn. eexists. split.
  { unfold NewPayoffForOther. rewrite abi_Pack_pools by auto. done. }
  set (sel := abi_selector _). set (ws := concat _).
  assert (length sel = 4%nat) as Hs by apply abi_selector_length.
  pose proof (be_split_length 32 64) as H64.
  pose proof (be_split_length 32 (Z.of_nat (length addresses))) as Hc.
  pose proof (abi_word_left_length eoa ltac:(lia)) as Hw.
  unfold abi_word. split_and!.
  - rewrite <-Hs. apply take_app_length.
  - rewrite slice_app by lia. reflexivity.
  - rewrite (app_assoc sel), slice_app by (rewrite ?length_app; lia).
    by apply drop_word_left.
  - rewrite (app_assoc sel), (app_assoc (sel ++ _)), slice_app by (rewrite ?length_app; lia).
    apply be_val_split_small. unfold wf_slice in Hn.
    assert (2 ^ 32 < 256 ^ Z.of_nat 32) by (vm_compute; reflexivity). lia.
  - intros i a Hi. rewrite (app_assoc sel), (app_assoc (sel ++ _)), (app_assoc ((sel ++ _) ++ _)).
    unfold slice. rewrite drop_app_ge by (rewrite !length_app; lia).
    rewrite !length_app, Hs, H64, Hc, Hw.
    pose proof (concat_words_lookup addresses i a [] Hi Ha) as Hi'.
    rewrite app_nil_r in Hi'. unfold slice in Hi'.
    replace (4 + 32 * (3 + i) - (4 + 32 + 32 + 32))%nat with (32 * i)%nat by lia.
    replace (4 + 32 * (3 + i + 1) - (4 + 32 * (3 + i)))%nat
      with (32 * (i + 1) - 32 * i)%nat by lia.
    unfold ws. rewrite Hi'. apply drop_word_left.
    by eapply Forall_lookup_1 in Ha.
Qed.
End Ninelives.

Definition ref_addr (c : byte) : bytes := replicate 20 c.

Lemma NewMint_decodes_witness :
  ∃ cd, NewMint (replicate 8 x01) (be_split 32 1000000) (ref_addr x02) (ref_addr x03) = Ok cd
    ∧ mint_call cd (replicate 8 x01) (be_val (be_split 32 1000000)) (ref_addr x02) (ref_addr x03).
Proof. apply (NewMint_decodes (replicate 8 x01) (be_split 32 1000000)); reflexivity. Defined.

Lemma UnpackMint_NewMint_witness :
  ∃ cd, NewMint (replicate 8 x01) (be_split 32 1000000) (ref_addr x02) (ref_addr x03) = Ok cd
    ∧ UnpackMint cd = Ok (replicate 8 x01, be_split 32 1000000, zeros 20, zeros 20).
Proof. apply (UnpackMint_NewMint (replicate 8 x01) (be_split 32 1000000)); reflexivity. Defined.

Lemma NewPayoffForOther_decodes_witness :
  ∃ cd, NewPayoffForOther [ref_addr x05; ref_addr x06] (ref_addr x07) = Ok cd
    ∧ drop 12 (abi_word cd 4) = ref_addr x06.
Proof.
  destruct (NewPayoffForOther_decodes [ref_addr x05; ref_addr x06] (ref_addr x07))
    as (cd & Hcd & _ & _ & _ & _ & Hi); [by repeat constructor|done|done|].
  exists cd. split; [exact Hcd|]. exact (Hi 1%nat _ eq_refl).
Defined.
