(* ===== verification/Convertor.v ===== *)
(** * Convertor: from GraphQL inputs to signed on-chain arguments
    (lib/convertor/convertor.go)

    Every exported function of the package, in the order of the file. The
    four-step sequence "serialise, hash, run the signer, copy its output into
    a 64-byte array", which the source repeats in each signing function, is
    [sign_encoded]. *)
From stdpp Require Import base numbers strings list.
From Stdlib Require Import Strings.Byte ZArith Lia.
From S2P Require Import Prelude GoStd Types Sha512 External Ninelives.

Section Convertor.
Context {AS : Assets} {EC : EthCommon} {BO : Borsh} {AB : Abi} {EX : Exec}.

(** ** Signing *)

Definition sign_encoded (prog : gostring) (encoded : bytes) : outcome bytes :=
  let d := sha512_Sum512 encoded in
  match exec_Output prog [hex_EncodeToString d] with
  | (sig, Some err) => Err (lit "invoking dalekph: " ++ sig ++ lit ", " ++ err)
  | (sig, None) => Ok (copy_into (zeros 64) sig)
  end.

Definition CreateSolveV2 (prog : gostring) (args : list SolveArgs)
    (permitOwner transferOwner : bytes) : outcome Args :=
  let solveArgs := mk_SolveV2Args args permitOwner transferOwner in
  encoded ← wrap "making solve v2 digest: " (borsh_SolveV2Args solveArgs);
  signature ← sign_encoded prog encoded;
  mret (mk_Args ArgsSolveV2 zero_FreshBackwards (mk_Solve []) mk_Version mk_Authority
          (mk_SolveV2 solveArgs signature)
          zero_TransferOnly zero_Statement mk_Owner mk_Ed25519Key zero_SolveV3
          mk_AssetsVersion).

Definition CreateSolveV3 (prog : gostring) (args : list SolveArgs)
    (gasToken : Asset) (gasTokenAmt : Z) : outcome Args :=
  let solveArgs := mk_SolveV3Args args gasToken gasTokenAmt None in
  encoded ← wrap "making solve v2 digest: " (borsh_SolveV3Args solveArgs);
  signature ← sign_encoded prog encoded;
  mret (mk_Args ArgsSolveV3 zero_FreshBackwards (mk_Solve []) mk_Version mk_Authority
          zero_SolveV2 zero_TransferOnly zero_Statement mk_Owner mk_Ed25519Key
          (mk_SolveV3 solveArgs signature)
          mk_AssetsVersion).

(** ** Hexadecimal inputs *)

(** The body the three decoders share: decode into a zeroed array of [n]
    bytes, and refuse any other count. *)
Definition decode_exact (n : nat) (s : gostring) : outcome bytes :=
  r ← wrap "decode str: " (hex_Decode (zeros n) (TrimPrefix s (lit "0x")));
  ensure (bool_decide (r.2 = n)) (lit "decode str len: " ++ fmt_d (Z.of_nat r.2));;
  mret r.1.

Definition strToBytes8 (s : gostring) : outcome bytes := decode_exact 8 s.

Definition strToAddr (s : gostring) : outcome bytes :=
  if decide (s = []) then Ok (zeros 20) else decode_exact 20 s.

Definition strToBytes32 (s : gostring) : outcome bytes := decode_exact 32 s.

(** ** Decimal inputs *)

(** [a_, ok := new(big.Int).SetString(amount, 10)], the size check and the
    right-aligned copy into 32 bytes. *)
Definition parse_amount (amount : gostring) : outcome bytes :=
  match big_SetString amount with
  | None => Err (lit "amount: " ++ amount)
  | Some a_ =>
      ensure (Z.of_nat (length (big_Bytes a_)) <=? 32) (lit "too huge amount: " ++ amount);;
      copy_from (zeros 32) (32 - Z.of_nat (length (big_Bytes a_))) (big_Bytes a_)
  end.

(** The timestamp of the payoff and generic paths: the array has 16 bytes,
    the offset is computed for 32. *)
Definition parse_msTs_right (msTs_ : gostring) : outcome bytes :=
  match big_SetString msTs_ with
  | None => Err (lit "ms ts: " ++ msTs_)
  | Some msTsI =>
      let msTsB := big_Bytes msTsI in
      let l := Z.of_nat (length msTsB) in
      ensure (l <=? 32) (lit "ms ts too large: " ++ fmt_d l);;
      copy_from (zeros 16) (32 - l) msTsB
  end.

(** The timestamp of the mint path: copied to the front of the array. *)
Definition parse_msTs_left (msTs_ : gostring) : outcome bytes :=
  match big_SetString msTs_ with
  | None => Err (lit "ms ts: " ++ msTs_)
  | Some msTsI => Ok (copy_into (zeros 16) (big_Bytes msTsI))
  end.

(** ** Claims *)

Definition CreatePayoffForOtherArgs (prog : gostring) (claimantHelper eoa : bytes)
    (markets : list bytes) (msTs : bytes) : outcome SolveArgsSigArgs :=
  cd ← NewPayoffForOther markets eoa;
  let solveArgs := mk_SolveArgs [] [] claimantHelper cd msTs in
  encoded ← wrap "making digest: " (borsh_SolveArgs solveArgs);
  sigArr ← sign_encoded prog encoded;
  mret (mk_SolveArgsSigArgs sigArr solveArgs).

(** The loop over the markets stops at the first bad address. *)
Fixpoint parse_markets (markets_ : list gostring) : outcome (list bytes) :=
  match markets_ with
  | [] => Ok []
  | m :: rest =>
      ensure (IsHexAddress m) (lit "bad address: " ++ m);;
      l ← parse_markets rest;
      mret (HexToAddress m :: l)
  end.

Definition CreatePayoffForOtherArgsGraph (prog : gostring) (claimantHelper eoa : bytes)
    (markets_ : list gostring) (msTs_ : gostring) : outcome SolveArgsSigArgs :=
  msTs ← parse_msTs_right msTs_;
  markets ← parse_markets markets_;
  CreatePayoffForOtherArgs prog claimantHelper eoa markets msTs.

(** ** Account creation *)

Definition CreateAccountToFreshBackwards (pubKey eoa : bytes) (v : byte) (r s : bytes)
    (authority : option bytes) : FreshBackwards :=
  mk_FreshBackwards pubKey eoa v r s [] authority.

Definition CreateAccountToFreshBackwardsGraph (pubKey : bytes)
    (createAccount : model.CreateAccount) : outcome FreshBackwards :=
  eoa ← wrap "eoa: " (strToAddr (model.EoaAddr createAccount));
  authority ←
    match model.Authority createAccount with
    | None => mret None
    | Some a => x ← wrap "authority: " (strToAddr a); mret (Some x)
    end;
  ensure ((0 <=? model.SigV createAccount) && (model.SigV createAccount <=? 255))
    (lit "v exceeds");;
  r ← wrap "r: " (strToBytes32 (model.SigR createAccount));
  s ← wrap "s: " (strToBytes32 (model.SigS createAccount));
  mret (CreateAccountToFreshBackwards pubKey eoa (byte_of_Z (model.SigV createAccount))
          r s authority).

(** ** Permits *)

Definition NewPermit (asset : Asset) (deadline : Z) (v : byte) (r s : bytes) : Permit :=
  mk_Permit asset deadline v r s.

Definition NewPermitGraph (asset : Asset) (deadline permitV : Z)
    (permitR permitS : gostring) : outcome Permit :=
  ensure ((0 <=? permitV) && (permitV <=? 255)) (lit "v exceeds");;
  r ← wrap "permit r: " (strToBytes32 permitR);
  s ← wrap "permit s: " (strToBytes32 permitS);
  mret (NewPermit asset deadline (byte_of_Z permitV) r s).

(** [if permit != nil { .. }] of the Graph functions. *)
Definition permit_from_graph (asset : Asset) (permit : option model.Permit)
    : outcome (option Permit) :=
  match permit with
  | None => mret None
  | Some p =>
      ensure (0 <=? model.Deadline p) (lit "negative deadline");;
      p' ← wrap "permit: " (NewPermitGraph asset (model.Deadline p) (model.PermitV p)
                              (model.PermitR p) (model.PermitS p));
      mret (Some p')
  end.

(** ** Signed calls *)

Definition CreateSolveArgsSigArgs (prog : gostring) (asset : Asset) (target amount cd : bytes)
    (permit : option Permit) (msTs : bytes) : outcome SolveArgsSigArgs :=
  let from := [mk_FromArgs asset amount (zeros 32)] in
  let permits := match permit with Some p => [p] | None => [] end in
  let solveArgs := mk_SolveArgs permits from target cd msTs in
  encoded ← wrap "making digest: " (borsh_SolveArgs solveArgs);
  sigArr ← sign_encoded prog encoded;
  mret (mk_SolveArgsSigArgs sigArr solveArgs).

Definition CreateSolveArgsSigArgsNoToken (prog : gostring) (target cd msTs : bytes)
    : outcome SolveArgsSigArgs :=
  let solveArgs := mk_SolveArgs [] [] target cd msTs in
  encoded ← wrap "making digest: " (borsh_SolveArgs solveArgs);
  sigArr ← sign_encoded prog encoded;
  mret (mk_SolveArgsSigArgs sigArr solveArgs).

Definition CreateSolveArgsSigArgsGraph (prog : gostring) (asset : Asset)
    (target amount : gostring) (cd : bytes) (permit : option model.Permit)
    (msTs_ : gostring) : outcome SolveArgsSigArgs :=
  a ← parse_amount amount;
  msTs ← parse_msTs_right msTs_;
  m ← wrap "addr: " (strToAddr target);
  p ← permit_from_graph asset permit;
  CreateSolveArgsSigArgs prog asset m a cd p msTs.

Definition CreateSolveArgsSigArgsMint (prog : gostring) (asset : Asset)
    (market outcome_ amount referrer recipient : bytes) (permit : option Permit)
    (msTs : bytes) : outcome SolveArgsSigArgs :=
  cd ← NewMint outcome_ amount referrer recipient;
  CreateSolveArgsSigArgs prog asset market amount cd permit msTs.

Definition CreateSolveArgsSigArgsMintGraph (prog : gostring) (asset : Asset)
    (market outcome_ amount referrer : gostring) (recipient : bytes)
    (permit : option model.Permit) (msTs_ : gostring) : outcome SolveArgsSigArgs :=
  o ← wrap "outcome: " (strToBytes8 outcome_);
  a ← parse_amount amount;
  m ← wrap "market: " (strToAddr market);
  ref ← wrap "referrer: " (strToAddr referrer);
  msTs ← parse_msTs_left msTs_;
  p ← permit_from_graph asset permit;
  CreateSolveArgsSigArgsMint prog asset m o a ref recipient p msTs.

(** ** Tagging an account creation with a call

    The functions mutate [*f]: the second component is its value after the
    call. *)
Definition tag_with (f : FreshBackwards) (m : outcome SolveArgsSigArgs)
    : outcome unit * FreshBackwards :=
  match m with
  | Ok m => (Ok tt, append_SolveArgs f m)
  | Err e => (Err e, f)
  | Panic w => (Panic w, f)
  | Fatal w => (Fatal w, f)
  end.

Definition TagFreshBackwards (prog : gostring) (f : FreshBackwards) (asset : Asset)
    (target amount cd : bytes) (permit : option Permit) (msTs : bytes)
    : outcome unit * FreshBackwards :=
  tag_with f (CreateSolveArgsSigArgs prog asset target amount cd permit msTs).

Definition TagFreshBackwardsNoToken (prog : gostring) (f : FreshBackwards)
    (target cd msTs : bytes) : outcome unit * FreshBackwards :=
  tag_with f (CreateSolveArgsSigArgsNoToken prog target cd msTs).

Definition TagFreshBackwardsGraph (prog : gostring) (f : FreshBackwards) (asset : Asset)
    (target amount : gostring) (cd : bytes) (permit : option model.Permit) (msTs : gostring)
    : outcome unit * FreshBackwards :=
  tag_with f (CreateSolveArgsSigArgsGraph prog asset target amount cd permit msTs).

Definition TagFreshBackwardsWithMint (prog : gostring) (f : FreshBackwards) (asset : Asset)
    (market outcome_ amount referrer recipient : bytes) (permit : option Permit) (msTs : bytes)
    : outcome unit * FreshBackwards :=
  tag_with f (CreateSolveArgsSigArgsMint prog asset market outcome_ amount referrer
                recipient permit msTs).

Definition TagFreshBackwardsWithMintGraph (prog : gostring) (f : FreshBackwards)
    (asset : Asset) (market outcome_ amount referrer : gostring) (recipient : bytes)
    (permit : option model.Permit) (msTs : gostring) : outcome unit * FreshBackwards :=
  tag_with f (CreateSolveArgsSigArgsMintGraph prog asset market outcome_ amount referrer
                recipient permit msTs).
End Convertor.
