(* ===== verification/ConvertorFacts.v ===== *)
(** * ConvertorFacts: correctness of the convertor *)
From stdpp Require Import base numbers strings list.
From Stdlib Require Import Strings.Byte ZArith Lia.
From S2P Require Import Prelude GoStd Types Sha512 External Keccak BorshRef Reference.
From S2P Require Import Ninelives Convertor.

(** ** Hexadecimal inputs *)
Section HexInputs.

Lemma TrimPrefix_0x s : TrimPrefix (lit "0x" ++ s) (lit "0x") = s.
Proof. reflexivity. Qed.

Lemma hex_digit_not_x n : 0 ≤ n < 16 → hex_digit n ≠ x78.
Proof.
  intros Hn E. apply (f_equal reverseHexTable) in E.
  by rewrite reverseHexTable_digit in E.
Qed.

Lemma TrimPrefix_hex b :
  TrimPrefix (hex_EncodeToString b) (lit "0x") = hex_EncodeToString b.
Proof.
  unfold TrimPrefix. destruct b as [|x b]; [done|]. rewrite hex_encode_cons.
  pose proof (nibbles x) as (_ & Hn & _). apply hex_digit_not_x in Hn.
  change (lit "0x") with [x30; x78]. cbn [HasPrefix].
  rewrite (bool_decide_eq_false_2 (x78 = _)) by congruence. by rewrite andb_false_r.
Qed.

(** [decode_exact n] accepts exactly the strings of [2n] digits, with or
    without the prefix [0x]. *)
Lemma decode_exact_Ok n s b :
  decode_exact n s = Ok b ↔ hex_parse (TrimPrefix s (lit "0x")) = Some b ∧ length b = n.
Proof.
  unfold decode_exact. split.
  - intros Hd. inv_ok. destruct x as [d k].
    match goal with E : hex_Decode _ _ = _ |- _ =>
      pose proof E as E'; apply hex_decode_loop_Ok in E' as (b & Hb & Hl) end.
    rewrite zeros_length in Hl.
    rewrite (hex_Decode_fits _ _ b) in * by (done || rewrite zeros_length; lia).
    simplify_eq/=. by rewrite drop_ge, app_nil_r by (rewrite zeros_length; lia).
  - intros [Hb Hl]. rewrite (hex_Decode_fits _ _ b) by (done || rewrite zeros_length; lia).
    cbn. rewrite bool_decide_eq_true_2 by done. cbn.
    by rewrite drop_ge, app_nil_r by (rewrite zeros_length; lia).
Qed.

Lemma decode_exact_panics n s :
  panics (decode_exact n s) ↔
  ∃ b, hex_parse (take (2 * (n + 1)) (TrimPrefix s (lit "0x"))) = Some b
       ∧ length b = (n + 1)%nat.
Proof.
  pose proof (hex_decode_loop_panics (TrimPrefix s (lit "0x")) (zeros n) 0 ltac:(lia)) as Hp.
  rewrite zeros_length, Nat.sub_0_r in Hp. rewrite <-Hp.
  unfold decode_exact, hex_Decode.
  destruct (hex_decode_loop _ _ _) as [[d k]| | |]; cbn; try done.
  by destruct (bool_decide _).
Qed.

Lemma strToAddr_Ok s b :
  strToAddr s = Ok b ↔
  (s = [] ∧ b = zeros 20)
  ∨ (hex_parse (TrimPrefix s (lit "0x")) = Some b ∧ length b = 20%nat).
Proof.
  unfold strToAddr. destruct (decide (s = [])) as [->|Hs].
  - split; [naive_solver|]. intros [[_ ->]|[[= <-] Hl]]; [done|]. by cbn in Hl.
  - rewrite decode_exact_Ok. naive_solver.
Qed.

(** The decoders of account inputs return exactly the bytes their
    hexadecimal argument denotes, and only for the right number of digits;
    an optional 0x prefix is dropped, and the empty string is the zero
    address. *)
Theorem strTo_decode_spec s b :
  (strToBytes8 s = Ok b ↔ hex_parse (TrimPrefix s (lit "0x")) = Some b ∧ length b = 8%nat)
  ∧ (strToBytes32 s = Ok b ↔ hex_parse (TrimPrefix s (lit "0x")) = Some b ∧ length b = 32%nat)
  ∧ (strToAddr s = Ok b ↔
       (s = [] ∧ b = zeros 20)
       ∨ (hex_parse (TrimPrefix s (lit "0x")) = Some b ∧ length b = 20%nat)).
Proof.
  split_and!; [apply decode_exact_Ok|apply decode_exact_Ok|apply strToAddr_Ok].
Qed.

(** Encoding a byte array in hexadecimal, with or without the 0x prefix,
    and decoding it gives the array back. *)
Theorem strTo_roundtrip b :
  (length b = 8%nat → strToBytes8 (hex_EncodeToString b) = Ok b
                      ∧ strToBytes8 (lit "0x" ++ hex_EncodeToString b) = Ok b)
  ∧ (length b = 20%nat → strToAddr (hex_EncodeToString b) = Ok b
                         ∧ strToAddr (lit "0x" ++ hex_EncodeToString b) = Ok b)
  ∧ (length b = 32%nat → strToBytes32 (hex_EncodeToString b) = Ok b
                         ∧ strToBytes32 (lit "0x" ++ hex_EncodeToString b) = Ok b).
Proof.
  unfold strToBytes8, strToBytes32.
  split_and!; intros Hl; split;
    rewrite ?decode_exact_Ok, ?strToAddr_Ok, ?TrimPrefix_0x, ?TrimPrefix_hex, ?hex_parse_encode;
    auto.
Qed.

(** An over-long hexadecimal input crashes the decoders instead of being
    refused: they panic exactly when their argument starts with one pair of
    digits more than the array has bytes. *)
Theorem strTo_panics s :
  (panics (strToBytes32 s) ↔
     ∃ b, hex_parse (take 66 (TrimPrefix s (lit "0x"))) = Some b ∧ length b = 33%nat)
  ∧ (panics (strToBytes8 s) ↔
     ∃ b, hex_parse (take 18 (TrimPrefix s (lit "0x"))) = Some b ∧ length b = 9%nat)
  ∧ (panics (strToAddr s) ↔
     ∃ b, hex_parse (take 42 (TrimPrefix s (lit "0x"))) = Some b ∧ length b = 21%nat).
Proof.
  split_and!; [apply decode_exact_panics|apply decode_exact_panics|].
  unfold strToAddr. destruct (decide (s = [])) as [->|_]; [|apply decode_exact_panics].
  split; [done|]. intros (b & [= <-] & Hb). by cbn in Hb.
Qed.
End HexInputs.

(** ** Decimal inputs *)
Section DecimalInputs.

(** What an amount string means: the number it denotes has to fit 256 bits,
    and its sign is ignored. *)
Definition amount_spec (amount : gostring) (b : bytes) : Prop :=
  ∃ z, big_SetString amount = Some z ∧ Z.abs z < 2 ^ 256
       ∧ length b = 32%nat ∧ be_val b = Z.abs z.

Lemma parse_amount_Ok amount b : parse_amount amount = Ok b ↔ amount_spec amount b.
Proof.
  unfold parse_amount, amount_spec.
  destruct (big_SetString amount) as [z|]; [|naive_solver].
  pose proof (big_Bytes_le z 32) as Hle. change (256 ^ Z.of_nat 32) with (2 ^ 256) in Hle.
  destruct (Z.leb_spec (Z.of_nat (length (big_Bytes z))) 32) as [Hl|Hl]; cbn [ensure mbind outcome_bind].
  - rewrite (copy_from_right 32) by lia. split.
    + intros [= <-]. exists z. split_and!; [done|apply Hle; lia| |].
      * rewrite length_app, zeros_length. lia.
      * apply be_val_padded.
    + intros (z' & [= <-] & _ & Hb & Hv). f_equal. apply be_val_inj.
      * rewrite length_app, zeros_length. lia.
      * by rewrite be_val_padded.
  - split; [done|]. intros (z' & [= <-] & Hz & _). apply Hle in Hz. lia.
Qed.

Lemma amount_spec_length amount b : amount_spec amount b → length b = 32%nat.
Proof. by intros (? & ? & ? & ? & ?). Qed.

Lemma parse_msTs_left_Ok msTs_ b :
  parse_msTs_left msTs_ = Ok b ↔
  ∃ z, big_SetString msTs_ = Some z ∧ b = copy_into (zeros 16) (big_Bytes z).
Proof. unfold parse_msTs_left. destruct (big_SetString msTs_); naive_solver. Qed.

Lemma parse_msTs_left_length msTs_ b : parse_msTs_left msTs_ = Ok b → length b = 16%nat.
Proof. intros (z & _ & ->)%parse_msTs_left_Ok. by rewrite copy_into_length. Qed.

Lemma parse_msTs_right_panics msTs_ z :
  big_SetString msTs_ = Some z → Z.abs z < 2 ^ 120 → parse_msTs_right msTs_ = slice_panic.
Proof.
  intros Hs Hz. unfold parse_msTs_right. rewrite Hs. cbv zeta.
  assert (length (big_Bytes z) ≤ 15)%nat as Hl.
  { apply big_Bytes_le. by change (256 ^ Z.of_nat 15) with (2 ^ 120). }
  rewrite (proj2 (Z.leb_le _ 32)) by lia. cbn [ensure mbind outcome_bind].
  apply copy_from_panics. right. rewrite zeros_length. lia.
Qed.

(** Shifting a timestamp by a byte does not change its left-aligned form. *)
Lemma big_Bytes_shift z :
  0 < z → big_Bytes (z * 256) = big_Bytes z ++ [x00].
Proof.
  intros Hz. unfold big_Bytes, big_bytelen.
  rewrite !(proj2 (Z.eqb_neq _ 0)), !Z.abs_eq by lia.
  change 256 with (2 ^ 8). rewrite Z.log2_mul_pow2 by lia.
  pose proof (Z.log2_nonneg z).
  replace ((8 + Z.log2 z) / 8 + 1) with (Z.succ (Z.log2 z / 8 + 1))
    by (rewrite <-(Z.mul_1_l 8) at 2; rewrite Z.div_add_l by lia; lia).
  pose proof (Z.div_pos (Z.log2 z) 8).
  rewrite Z2Nat.inj_succ by lia. cbn [be_split]. change (2 ^ 8) with 256.
  rewrite Z.div_mul by lia. do 2 f_equal.
  apply byte_Z_inj. rewrite byte_Z_of_Z, Z.mod_mul by lia. done.
Qed.

Lemma copy_into_snoc_zero n b :
  copy_into (zeros n) (b ++ [x00]) = copy_into (zeros n) b.
Proof.
  destruct (decide (length b < n)%nat).
  - rewrite !copy_into_zeros by (rewrite ?length_app; cbn; lia).
    rewrite <-app_assoc. f_equal. rewrite length_app. cbn [length].
    replace (n - length b)%nat with (S (n - (length b + 1))) by lia. done.
  - rewrite !copy_into_zeros_long by (rewrite ?length_app; lia).
    rewrite take_app_le by lia. done.
Qed.
End DecimalInputs.

(** ** Specifications *)
Section Specs.
Context {AS : Assets} {EC : EthCommon} {BO : Borsh} {AB : Abi} {EX : Exec}.

(** The signature of a call is what the signing program answers for the
    SHA-512 digest of the serialised call. *)
Definition signed_message (prog : gostring) (msg sig : bytes) : Prop :=
  ∃ out, exec_Output prog [hex_EncodeToString (sha512_Sum512 msg)] = (out, None)
         ∧ sig = copy_into (zeros 64) out.

Definition signed_for (prog : gostring) (s : SolveArgsSigArgs) : Prop :=
  ∃ msg, borsh_SolveArgs (SolveArgsSigArgs_Args s) = Ok msg
         ∧ signed_message prog msg (SolveArgsSigArgs_Sig s).

(** A hexadecimal string denotes [n] bytes, an optional prefix aside. *)
Definition hex_spec (n : nat) (s : gostring) (b : bytes) : Prop :=
  hex_parse (TrimPrefix s (lit "0x")) = Some b ∧ length b = n.

Definition addr_spec (s : gostring) (b : bytes) : Prop :=
  (s = [] ∧ b = zeros 20) ∨ hex_spec 20 s b.

(** A permit is taken over field by field, for the given asset. *)
Definition permit_spec (asset : Asset) (permit : option model.Permit) (p : option Permit) : Prop :=
  match permit, p with
  | None, None => True
  | Some g, Some p =>
      Permit_Asset p = asset
      ∧ 0 ≤ model.Deadline g ∧ Permit_Deadline p = model.Deadline g
      ∧ 0 ≤ model.PermitV g ≤ 255 ∧ byte_Z (Permit_V p) = model.PermitV g
      ∧ hex_spec 32 (model.PermitR g) (Permit_R p)
      ∧ hex_spec 32 (model.PermitS g) (Permit_S p)
  | _, _ => False
  end.

(** What a mint request asks for: take the amount of the asset, permit or
    not, and call the market's mint with the same amount for the
    recipient. *)
Definition mint_spec (asset : Asset) (market outcome_ amount referrer : gostring)
    (recipient : bytes) (permit : option model.Permit) (msTs_ : gostring)
    (s : SolveArgs) : Prop :=
  ∃ o a m ref ts p cd,
    hex_spec 8 outcome_ o ∧ amount_spec amount a ∧ addr_spec market m
    ∧ addr_spec referrer ref ∧ parse_msTs_left msTs_ = Ok ts ∧ permit_spec asset permit p
    ∧ mint_call cd o (be_val a) ref recipient
    ∧ s = mk_SolveArgs (match p with Some p => [p] | None => [] end)
            [mk_FromArgs asset a (zeros 32)] m cd ts.

(** ** Lemmas *)

Lemma sign_encoded_Ok prog msg sig :
  sign_encoded prog msg = Ok sig ↔ signed_message prog msg sig.
Proof.
  unfold sign_encoded, signed_message.
  destruct (exec_Output _ _) as [out [e|]]; naive_solver.
Qed.

Lemma signed_message_length prog msg sig :
  signed_message prog msg sig → length sig = 64%nat.
Proof. intros (out & _ & ->). apply copy_into_length. Qed.

Lemma sign_call_Ok prog sa s :
  (encoded ← wrap "making digest: " (borsh_SolveArgs sa);
   sigArr ← sign_encoded prog encoded;
   mret (mk_SolveArgsSigArgs sigArr sa)) = Ok s
  ↔ SolveArgsSigArgs_Args s = sa ∧ signed_for prog s.
Proof.
  split.
  - intros Hs. inv_ok. split; [done|]. eexists. split; [done|]. by apply sign_encoded_Ok.
  - intros (<- & msg & Hm & Hs). rewrite Hm. cbn.
    apply sign_encoded_Ok in Hs. rewrite Hs. cbn. by destruct s.
Qed.

Lemma byte_Z_of_range v : 0 ≤ v ≤ 255 → byte_Z (byte_of_Z v) = v.
Proof. intros Hv. rewrite byte_Z_of_Z. apply Z.mod_small. lia. Qed.

Lemma v_in_range v : (0 <=? v) && (v <=? 255) = true ↔ 0 ≤ v ≤ 255.
Proof. rewrite andb_true_iff, !Z.leb_le. done. Qed.

Lemma permit_from_graph_Ok asset permit p :
  permit_from_graph asset permit = Ok p ↔ permit_spec asset permit p.
Proof.
  unfold permit_from_graph, NewPermitGraph, permit_spec, strToBytes32, hex_spec.
  destruct permit as [g|]; [|destruct p; naive_solver]. split.
  - intros Hp. inv_ok. cbn.
    repeat match goal with
    | E : decode_exact _ _ = Ok _ |- _ => apply decode_exact_Ok in E
    | E : (_ && _) = true |- _ => apply v_in_range in E
    | E : (_ <=? _) = true |- _ => apply Z.leb_le in E
    end.
    split_and!; try done; try lia; try naive_solver. by apply byte_Z_of_range.
  - destruct p as [p|]; [|done].
    intros (Ha & Hd & Hpd & Hv & Hpv & Hr & Hs).
    apply Z.leb_le in Hd. apply v_in_range in Hv. rewrite Hd. cbn. rewrite Hv. cbn.
    apply decode_exact_Ok in Hr. rewrite Hr. cbn.
    apply decode_exact_Ok in Hs. rewrite Hs. cbn.
    do 2 f_equal. rewrite <-Hpv, byte_of_Z_byte_Z. destruct p; cbn in *. by subst.
Qed.

Lemma permit_spec_wf asset permit p :
  match permit with Some g => model.wf_Permit g | None => True end →
  permit_spec asset permit p →
  Forall wf_Permit (match p with Some p => [p] | None => [] end).
Proof.
  destruct permit as [g|], p as [p|]; cbn; try done.
  intros [Hg _] (_ & ? & Hd & _ & _ & [_ ?] & [_ ?]). constructor; [|done].
  unfold model.int32 in Hg. split_and!; try done. unfold wf_u64. rewrite Hd. lia.
Qed.

Lemma addr_spec_length str b : addr_spec str b → length b = 20%nat.
Proof. intros [[_ ->]|[_ ?]]; done. Qed.

(** The calldata of a signed mint fits a slice. *)
Lemma mint_call_wf_slice cd o v r t : mint_call cd o v r t → wf_slice cd.
Proof. intros (Hl & _). unfold wf_slice. rewrite Hl. reflexivity. Qed.

Lemma MintGraph_inv `{!AbiLaws} prog asset market outcome_ amount referrer recipient
    permit msTs_ s :
  length recipient = 20%nat →
  CreateSolveArgsSigArgsMintGraph prog asset market outcome_ amount referrer recipient
    permit msTs_ = Ok s →
  mint_spec asset market outcome_ amount referrer recipient permit msTs_
      (SolveArgsSigArgs_Args s)
  ∧ signed_for prog s.
Proof.
  intros Hrec Hm. unfold CreateSolveArgsSigArgsMintGraph, CreateSolveArgsSigArgsMint,
    CreateSolveArgsSigArgs, strToBytes8 in Hm.
  bind_step Hm as o Ho. bind_step Hm as a Ha. bind_step Hm as m Hmk.
  bind_step Hm as ref Href. bind_step Hm as ts Hts. bind_step Hm as p Hp.
  bind_step Hm as cd Hcd. apply sign_call_Ok in Hm as [Hargs Hsig]. split; [|done].
  apply decode_exact_Ok in Ho. apply parse_amount_Ok in Ha.
  apply strToAddr_Ok in Hmk, Href. apply permit_from_graph_Ok in Hp.
  destruct (NewMint_mint_call o a ref recipient) as (cd' & Hcd' & Hcall);
    [apply Ho|by eapply amount_spec_length|by eapply addr_spec_length|done|].
  assert (cd' = cd) as -> by congruence.
  exists o, a, m, ref, ts, p, cd. do 7 (split; [done|]). done.
Qed.

Lemma mint_spec_wf asset market outcome_ amount referrer recipient permit msTs_ s :
  match permit with Some g => model.wf_Permit g | None => True end →
  mint_spec asset market outcome_ amount referrer recipient permit msTs_ s →
  wf_SolveArgs s.
Proof.
  intros Hg (o & a & m & ref & ts & p & cd & Ho & Ha & Hm & Hr & Ht & Hp & Hc & ->).
  split_and!; cbn.
  - by destruct p.
  - by eapply permit_spec_wf.
  - done.
  - constructor; [|done]. split; cbn; [by eapply amount_spec_length|done].
  - by eapply addr_spec_length.
  - by eapply mint_call_wf_slice.
  - by eapply parse_msTs_left_length.
Qed.

(** A mint request that is accepted becomes a well-formed call that takes
    the requested amount of the asset and nothing else, targets the market,
    carries the permit and the timestamp, and whose calldata mints the very
    same amount for the recipient; its signature is the signing program's
    answer for exactly that call. *)
Theorem MintGraph_sound `{!AbiLaws} prog asset market outcome_ amount referrer recipient
    permit msTs_ s :
  length recipient = 20%nat →
  match permit with Some g => model.wf_Permit g | None => True end →
  CreateSolveArgsSigArgsMintGraph prog asset market outcome_ amount referrer recipient
    permit msTs_ = Ok s →
  mint_spec asset market outcome_ amount referrer recipient permit msTs_
    (SolveArgsSigArgs_Args s)
  ∧ signed_for prog s
  ∧ wf_SolveArgsSigArgs s.
Proof.
  intros Hrec Hg Hm. apply MintGraph_inv in Hm as [Hs Hsig]; [|done].
  split_and!; [done..|]. split.
  - destruct Hsig as (? & _ & ?). by eapply signed_message_length.
  - by eapply mint_spec_wf.
Qed.

(** A mint request whose fields all parse is accepted whenever the signing
    program works, so the previous property is not about an empty set of
    requests. *)
Theorem MintGraph_complete `{!AbiLaws, !BorshLaws} prog asset market outcome_ amount referrer
    recipient permit msTs_ o a m ref ts p :
  length recipient = 20%nat →
  match permit with Some g => model.wf_Permit g | None => True end →
  hex_spec 8 outcome_ o → amount_spec amount a → addr_spec market m → addr_spec referrer ref →
  parse_msTs_left msTs_ = Ok ts → permit_spec asset permit p →
  (∀ d, ∃ out, exec_Output prog [d] = (out, None)) →
  ∃ s, CreateSolveArgsSigArgsMintGraph prog asset market outcome_ amount referrer recipient
         permit msTs_ = Ok s.
Proof.
  intros Hrec Hg Ho Ha Hm Hr Ht Hp Hexec.
  destruct (NewMint_mint_call o a ref recipient) as (cd & Hcd & Hcall);
    [apply Ho|by eapply amount_spec_length|by eapply addr_spec_length|done|].
  set (sa := mk_SolveArgs (match p with Some p => [p] | None => [] end)
               [mk_FromArgs asset a (zeros 32)] m cd ts).
  assert (wf_SolveArgs sa) as Hwf.
  { eapply (mint_spec_wf asset market outcome_ amount referrer recipient); [exact Hg|].
    exists o, a, m, ref, ts, p, cd. do 7 (split; [done|]). done. }
  pose proof (borsh_SolveArgs_total sa Hwf) as Htot.
  destruct (borsh_SolveArgs sa) as [msg| | |] eqn:Hmsg; try done.
  destruct (Hexec (hex_EncodeToString (sha512_Sum512 msg))) as [out Hout].
  exists (mk_SolveArgsSigArgs (copy_into (zeros 64) out) sa).
  unfold CreateSolveArgsSigArgsMintGraph, CreateSolveArgsSigArgsMint, strToBytes8.
  apply decode_exact_Ok in Ho. apply parse_amount_Ok in Ha. apply strToAddr_Ok in Hm, Hr.
  apply permit_from_graph_Ok in Hp.
  rewrite Ho; cbn. rewrite Ha; cbn. rewrite Hm; cbn. rewrite Hr; cbn.
  rewrite Ht; cbn. rewrite Hp; cbn. rewrite Hcd; cbn.
  apply sign_call_Ok. split; [done|]. exists msg. split; [done|]. by exists out.
Qed.

(** ** Account creation *)

(** What an account creation request asks for. *)
Definition create_spec (pubKey : bytes) (c : model.CreateAccount) (f : FreshBackwards) : Prop :=
  FreshBackwards_Key f = pubKey
  ∧ addr_spec (model.EoaAddr c) (FreshBackwards_EoaAddr f)
  ∧ match model.Authority c, FreshBackwards_Authority f with
    | None, None => True
    | Some a, Some x => addr_spec a x
    | _, _ => False
    end
  ∧ 0 ≤ model.SigV c ≤ 255 ∧ byte_Z (FreshBackwards_V f) = model.SigV c
  ∧ hex_spec 32 (model.SigR c) (FreshBackwards_R f)
  ∧ hex_spec 32 (model.SigS c) (FreshBackwards_S f)
  ∧ FreshBackwards_SolveArgs f = [].

Lemma create_account_Ok pubKey c f :
  CreateAccountToFreshBackwardsGraph pubKey c = Ok f ↔ create_spec pubKey c f.
Proof.
  unfold CreateAccountToFreshBackwardsGraph, create_spec, strToBytes32. split.
  - intros Hf. bind_step Hf as eoa He. bind_step Hf as au Ha. bind_step Hf as u Hv.
    bind_step Hf as r Hr. bind_step Hf as s Hs. injection Hf as <-. cbn.
    apply strToAddr_Ok in He. apply decode_exact_Ok in Hr, Hs. apply v_in_range in Hv.
    split; [done|]. split; [done|]. split.
    { destruct (model.Authority c) as [a|]; [|by injection Ha as <-].
      bind_step Ha as x Hx. injection Ha as <-. by apply strToAddr_Ok. }
    split; [done|]. split; [by apply byte_Z_of_range|]. done.
  - intros (<- & He & Ha & Hv & Hvb & Hr & Hs & Hnil).
    apply strToAddr_Ok in He. rewrite He; cbn.
    assert (match model.Authority c with
            | None => mret None
            | Some a => x ← wrap "authority: " (strToAddr a); mret (Some x)
            end = Ok (FreshBackwards_Authority f)) as ->.
    { destruct (model.Authority c) as [a|], (FreshBackwards_Authority f) as [x|]; try done.
      apply strToAddr_Ok in Ha. by rewrite Ha. }
    cbn. apply v_in_range in Hv. rewrite Hv; cbn.
    apply decode_exact_Ok in Hr, Hs. rewrite Hr; cbn. rewrite Hs; cbn.
    unfold CreateAccountToFreshBackwards. rewrite <-Hvb, byte_of_Z_byte_Z.
    destruct f; cbn in *. by subst.
Qed.

(** An account creation request is accepted exactly when the address, the
    optional authority, the recovery byte and both halves of the signature
    are well-formed, and the result carries them unchanged, with no calls
    attached yet. *)
Theorem CreateAccountGraph_spec pubKey c f :
  CreateAccountToFreshBackwardsGraph pubKey c = Ok f ↔ create_spec pubKey c f.
Proof. apply create_account_Ok. Qed.

(** ** Tagging *)

(** Either the creation is unchanged, or one signed call is appended and
    nothing else changes. *)
Definition tagged (prog : gostring) (f : FreshBackwards) (r : outcome unit * FreshBackwards) : Prop :=
  match r.1 with
  | Ok _ => ∃ m, signed_for prog m ∧ r.2 = append_SolveArgs f m
  | _ => r.2 = f
  end.

Lemma tag_with_tagged prog f m :
  (∀ s, m = Ok s → signed_for prog s) → tagged prog f (tag_with f m).
Proof. intros Hm. destruct m as [s| | |]; cbn; try done. exists s. eauto. Qed.

Lemma CreateSolveArgsSigArgs_signed prog asset target amount cd permit msTs s :
  CreateSolveArgsSigArgs prog asset target amount cd permit msTs = Ok s → signed_for prog s.
Proof. by intros [_ ?]%sign_call_Ok. Qed.

Lemma CreateSolveArgsSigArgsMint_signed prog asset mk o a ref rec permit msTs s :
  CreateSolveArgsSigArgsMint prog asset mk o a ref rec permit msTs = Ok s → signed_for prog s.
Proof. intros Hs. bind_step Hs as cd Hcd. by eapply CreateSolveArgsSigArgs_signed. Qed.

(** Each of the five tagging functions either fails and leaves the account
    creation as it was, or appends exactly one call, signed for its own
    contents, after the ones already there. *)
Theorem TagFreshBackwards_appends prog f asset :
  (∀ target amount cd permit msTs,
     tagged prog f (TagFreshBackwards prog f asset target amount cd permit msTs))
  ∧ (∀ target cd msTs, tagged prog f (TagFreshBackwardsNoToken prog f target cd msTs))
  ∧ (∀ target amount cd permit msTs,
     tagged prog f (TagFreshBackwardsGraph prog f asset target amount cd permit msTs))
  ∧ (∀ mk o a ref rec permit msTs,
     tagged prog f (TagFreshBackwardsWithMint prog f asset mk o a ref rec permit msTs))
  ∧ (∀ mk o a ref rec permit msTs,
     tagged prog f (TagFreshBackwardsWithMintGraph prog f asset mk o a ref rec permit msTs)).
Proof.
  split_and!; intros; apply tag_with_tagged; intros s Hs.
  - by eapply CreateSolveArgsSigArgs_signed.
  - by apply sign_call_Ok in Hs as [_ ?].
  - do 4 bind_step Hs as ? ?. by eapply CreateSolveArgsSigArgs_signed.
  - by eapply CreateSolveArgsSigArgsMint_signed.
  - do 6 bind_step Hs as ? ?. by eapply CreateSolveArgsSigArgsMint_signed.
Qed.

(** ** Owner-bound calls *)

Lemma CreateSolveV2_Ok prog args po to_ a :
  CreateSolveV2 prog args po to_ = Ok a →
  Args_Enum a = ArgsSolveV2
  ∧ SolveV2_Args (Args_SolveV2 a) = mk_SolveV2Args args po to_
  ∧ ∃ msg, borsh_SolveV2Args (mk_SolveV2Args args po to_) = Ok msg
           ∧ signed_message prog msg (SolveV2_Sig (Args_SolveV2 a)).
Proof.
  intros Ha. unfold CreateSolveV2 in Ha.
  bind_step Ha as msg Hm. bind_step Ha as sig Hs. injection Ha as <-.
  apply sign_encoded_Ok in Hs. eauto.
Qed.

(** An owner-bound call is the version-2 variant over exactly the given
    calls and owners, and its one signature binds them: two such calls signed
    over the same message agree on the calls and on both owners. *)
Theorem CreateSolveV2_binds `{!BorshLaws} prog args1 po1 to1 a1 args2 po2 to2 a2 :
  wf_SolveV2Args (mk_SolveV2Args args1 po1 to1) →
  wf_SolveV2Args (mk_SolveV2Args args2 po2 to2) →
  CreateSolveV2 prog args1 po1 to1 = Ok a1 →
  CreateSolveV2 prog args2 po2 to2 = Ok a2 →
  Args_Enum a1 = ArgsSolveV2
  ∧ SolveV2_Args (Args_SolveV2 a1) = mk_SolveV2Args args1 po1 to1
  ∧ ∃ m1 m2,
      signed_message prog m1 (SolveV2_Sig (Args_SolveV2 a1))
      ∧ signed_message prog m2 (SolveV2_Sig (Args_SolveV2 a2))
      ∧ (m1 = m2 → args1 = args2 ∧ po1 = po2 ∧ to1 = to2).
Proof.
  intros Hw1 Hw2 (He & Ha & m1 & Hm1 & Hs1)%CreateSolveV2_Ok
    (_ & _ & m2 & Hm2 & Hs2)%CreateSolveV2_Ok.
  split; [done|]. split; [done|]. exists m1, m2. split; [done|]. split; [done|].
  intros ->. pose proof (borsh_SolveV2Args_inj _ _ _ Hw1 Hw2 Hm1 Hm2). by simplify_eq.
Qed.

(** ** Timestamps *)

(** Claiming rewards cannot succeed for any realistic timestamp. The
    offset for a 32-byte array is used with a 16-byte one, so every
    millisecond timestamp below 2^120 makes the conversion panic, whatever
    the markets. *)
Theorem PayoffGraph_timestamp_panics prog claimantHelper eoa markets_ msTs_ z :
  big_SetString msTs_ = Some z → Z.abs z < 2 ^ 120 →
  CreatePayoffForOtherArgsGraph prog claimantHelper eoa markets_ msTs_ = slice_panic.
Proof.
  intros Hs Hz. unfold CreatePayoffForOtherArgsGraph.
  by rewrite (parse_msTs_right_panics _ z).
Qed.

(** The timestamp of a mint, meant to tell requests apart, does not: a
    timestamp and 256 times it are stored as the same sixteen bytes, so both
    requests become the same call, with the same signature. *)
Theorem MintGraph_timestamp_collision prog asset market outcome_ amount referrer recipient permit
    ts1 ts2 z :
  big_SetString ts1 = Some z → big_SetString ts2 = Some (z * 256) → 0 < z →
  CreateSolveArgsSigArgsMintGraph prog asset market outcome_ amount referrer recipient permit ts1
  = CreateSolveArgsSigArgsMintGraph prog asset market outcome_ amount referrer recipient permit ts2.
Proof.
  intros H1 H2 Hz. unfold CreateSolveArgsSigArgsMintGraph.
  assert (parse_msTs_left ts1 = parse_msTs_left ts2) as ->; [|done].
  unfold parse_msTs_left. rewrite H1, H2, big_Bytes_shift by done.
  by rewrite copy_into_snoc_zero.
Qed.
End Specs.

(** ** Concrete requests *)
Definition ref_prog : gostring := lit "/usr/local/bin/ed25519-dalek-ph".
Definition ref_market : gostring := lit "0x0505050505050505050505050505050505050505".
Definition ref_outcome : gostring := lit "0x8a059b6e01020304".
Definition ref_word32 : gostring :=
  lit "00112233445566778899aabbccddeeff00112233445566778899aabbccddeeff".
Definition ref_permit : model.Permit :=
  model.mk_Permit 1800000000 27 ref_word32 (lit "0x" ++ ref_word32).
Definition ref_create : model.CreateAccount :=
  model.mk_CreateAccount ref_market 28 ref_word32 ref_word32 None.
Definition ref_mint (ts : gostring) : outcome SolveArgsSigArgs :=
  CreateSolveArgsSigArgsMintGraph ref_prog AssetUsdc ref_market ref_outcome
    (lit "1000000") [] (ref_addr x07) (Some ref_permit) ts.

Lemma MintGraph_sound_witness :
  ∃ s, ref_mint (lit "1700000000000") = Ok s
    ∧ mint_spec AssetUsdc ref_market ref_outcome (lit "1000000") [] (ref_addr x07)
        (Some ref_permit) (lit "1700000000000") (SolveArgsSigArgs_Args s).
Proof.
  eexists. split; [vm_compute; reflexivity|].
  eapply (MintGraph_sound ref_prog); [reflexivity|split; split; (lia || done)|].
  vm_compute. reflexivity.
Defined.

Lemma MintGraph_complete_witness : ∃ s, ref_mint (lit "1700000000000") = Ok s.
Proof.
  eapply (MintGraph_complete ref_prog AssetUsdc ref_market ref_outcome (lit "1000000") []
            (ref_addr x07) (Some ref_permit) (lit "1700000000000")
            [x8a; x05; x9b; x6e; x01; x02; x03; x04] (be_split 32 1000000)
            (ref_addr x05) (zeros 20) _
            (Some (mk_Permit AssetUsdc 1800000000 x1b
                     (default [] (hex_parse ref_word32)) (default [] (hex_parse ref_word32))))).
  - reflexivity.
  - split; split; (lia || done).
  - split; reflexivity.
  - exists 1000000. split_and!; reflexivity.
  - right. split; reflexivity.
  - left. done.
  - reflexivity.
  - cbn. split_and!; done.
  - intros d. exists (sha512_Sum512 d). reflexivity.
Defined.

Lemma CreateSolveV2_binds_witness :
  ∃ a1 a2, CreateSolveV2 ref_prog [] (ref_addr x01) (ref_addr x02) = Ok a1
    ∧ CreateSolveV2 ref_prog [] (ref_addr x01) (ref_addr x03) = Ok a2
    ∧ ∃ m1 m2, signed_message ref_prog m1 (SolveV2_Sig (Args_SolveV2 a1))
        ∧ signed_message ref_prog m2 (SolveV2_Sig (Args_SolveV2 a2)) ∧ m1 ≠ m2.
Proof.
  destruct (CreateSolveV2 ref_prog [] (ref_addr x01) (ref_addr x02)) as [a1| | |] eqn:E1;
    [|discriminate E1..].
  destruct (CreateSolveV2 ref_prog [] (ref_addr x01) (ref_addr x03)) as [a2| | |] eqn:E2;
    [|discriminate E2..].
  exists a1, a2. split; [done|]. split; [done|].
  destruct (CreateSolveV2_binds ref_prog [] (ref_addr x01) (ref_addr x02) a1
               [] (ref_addr x01) (ref_addr x03) a2)
    as (_ & _ & m1 & m2 & H1 & H2 & Hinj); [by split_and!|by split_and!|done|done|].
  exists m1, m2. split; [exact H1|]. split; [exact H2|].
  intros E. destruct (Hinj E) as (_ & _ & Ht). discriminate Ht.
Defined.

Lemma PayoffGraph_timestamp_panics_witness :
  CreatePayoffForOtherArgsGraph ref_prog (ref_addr x09) (ref_addr x07) [ref_market]
    (lit "1700000000000") = slice_panic.
Proof.
  apply (PayoffGraph_timestamp_panics _ _ _ _ _ 1700000000000); reflexivity.
Defined.

Lemma MintGraph_timestamp_collision_witness :
  ref_mint (lit "1700000000000") = ref_mint (lit "435200000000000").
Proof.
  apply (MintGraph_timestamp_collision _ _ _ _ _ _ _ _ _ _ 1700000000000); reflexivity.
Defined.
