(* ===== verification/Ratelimit.v ===== *)
(** * Ratelimit: the in-memory rate limiter (lib/ratelimit/ratelimit.go)

    The server goroutine is a transition function on its two local variables;
    the unbuffered request and reply channels that connect it to its callers
    are a step relation on configurations, in which callers interleave
    freely. *)
From stdpp Require Import base numbers strings gmap list sorting.
From Stdlib Require Import Strings.Byte ZArith Lia.
From S2P Require Import Prelude.

(** ** The code *)

(** Durations and times are nanoseconds, times counted from Go's zero time. *)
Definition TimesliceBlock : Z := 5 * 60 * 10 ^ 9.
Definition MaxCount : Z := 4.

(** [t.Truncate(d)]: down to a multiple of [d] since the zero time. *)
Definition Truncate (t d : Z) : Z := t - t mod d.

Record limiter := mk_limiter {
  lastSlice : Z;
  seen : gmap bytes Z
}.

(** [var lastSlice time.Time; seen = make(map\[string\]int)]. *)
Definition limiter_init : limiter := mk_limiter 0 ∅.

(** One iteration of the server's loop: the reply ([true] means limited) and
    the new state. A missing key of the map reads as zero. *)
Definition serve (st : limiter) (now : Z) (id : bytes) : bool * limiter :=
  let curSlice := Truncate now TimesliceBlock in
  if negb (lastSlice st =? curSlice) then
    (false, mk_limiter curSlice {[id := 1]})
  else
    let curCount := default 0 (seen st !! id) in
    if MaxCount <? curCount + 1 then (true, st)
    else (false, mk_limiter (lastSlice st) (<[id := curCount + 1]> (seen st))).

(** [Run(db, dryrun)]: the goroutine of the disabled limiter answers [false]
    and keeps no state. *)
Definition serve_run (dryrun : bool) (st : limiter) (now : Z) (id : bytes) : bool * limiter :=
  if dryrun then (false, st) else serve st now id.

(** The answers to a sequence of requests. *)
Fixpoint run (dryrun : bool) (st : limiter) (reqs : list (Z * bytes)) : list bool * limiter :=
  match reqs with
  | [] => ([], st)
  | (now, id) :: reqs' =>
      let '(b, st') := serve_run dryrun st now id in
      let '(bs, st'') := run dryrun st' reqs' in
      (b :: bs, st'')
  end.

(** ** Callers and channels *)

(** The goroutine waits on the request channel, or holds a caller's request
    and is about to send the answer on that caller's reply channel. *)
Inductive server_pc :=
| Ready
| Replying (caller : nat) (now : Z) (id : bytes) (limited : bool).

(** Callers blocked in [s.req <- req{..}], the goroutine, and the calls of
    [IsRateLimited] that have returned, latest first. *)
Record config := mk_config {
  pending : gmap nat bytes;
  pc : server_pc;
  local : limiter;
  returned : list (nat * Z * bytes * bool)
}.

Definition config_init : config := mk_config ∅ Ready limiter_init [].

Inductive step (dryrun : bool) : config → config → Prop :=
| step_call c caller id :
    pending c !! caller = None →
    step dryrun c (mk_config (<[caller := id]> (pending c)) (pc c) (local c) (returned c))
| step_receive c caller id now b st :
    pc c = Ready → pending c !! caller = Some id →
    serve_run dryrun (local c) now id = (b, st) →
    step dryrun c (mk_config (delete caller (pending c)) (Replying caller now id b) st (returned c))
| step_reply c caller id now b :
    pc c = Replying caller now id b →
    step dryrun c (mk_config (pending c) Ready (local c) ((caller, now, id, b) :: returned c)).

(** ** Specification

    The abstract limiter keeps the current slice and the identifiers it has
    admitted in it; it admits a request when its identifier was admitted
    fewer than [MaxCount] times. *)
Definition spec_state : Type := Z * list bytes.

Definition occurrences (id : bytes) (l : list bytes) : Z :=
  Z.of_nat (length (filter (λ x, x = id) l)).

Definition spec_serve (s : spec_state) (now : Z) (id : bytes) : bool * spec_state :=
  let cur := Truncate now TimesliceBlock in
  let admitted := if decide (s.1 = cur) then s.2 else [] in
  if decide (occurrences id admitted < MaxCount)
  then (false, (cur, id :: admitted))
  else (true, (cur, admitted)).

Fixpoint spec_run (s : spec_state) (reqs : list (Z * bytes)) : list bool :=
  match reqs with
  | [] => []
  | (now, id) :: reqs' =>
      let '(b, s') := spec_serve s now id in b :: spec_run s' reqs'
  end.

(** How many requests of [id] in the slice starting at [t] there are, and how
    many of them were let through. *)
Definition is_req (id : bytes) (t : Z) (r : Z * bytes) : bool :=
  bool_decide (r.2 = id) && (Truncate r.1 TimesliceBlock =? t).

Definition requested (id : bytes) (t : Z) (reqs : list (Z * bytes)) : Z :=
  Z.of_nat (length (filter (λ r, is_req id t r = true) reqs)).

Definition admitted (id : bytes) (t : Z) (reqs : list (Z * bytes)) (bs : list bool) : Z :=
  Z.of_nat (length (filter (λ rb, is_req id t rb.1 = true ∧ rb.2 = false) (zip reqs bs))).

(** ** Refinement *)

Lemma occurrences_nil id : occurrences id [] = 0.
Proof. done. Qed.

Lemma occurrences_cons id x l :
  occurrences id (x :: l) = (if decide (x = id) then 1 else 0) + occurrences id l.
Proof.
  unfold occurrences. rewrite filter_cons. destruct (decide (x = id)); cbn [length]; lia.
Qed.

Lemma occurrences_nonneg id l : 0 ≤ occurrences id l.
Proof. unfold occurrences. lia. Qed.

(** The map holds the number of admissions of the current slice. *)
Definition represents (st : limiter) (s : spec_state) : Prop :=
  lastSlice st = s.1 ∧ ∀ id, default 0 (seen st !! id) = occurrences id s.2.

Lemma represents_init : represents limiter_init (0, []).
Proof. split; [done|]. intros id. cbn [seen limiter_init]. by rewrite lookup_empty. Qed.

Lemma serve_refines st s now id :
  represents st s →
  (serve st now id).1 = (spec_serve s now id).1
  ∧ represents (serve st now id).2 (spec_serve s now id).2.
Proof.
  intros [Hslice Hseen]. unfold serve, spec_serve. rewrite Hslice.
  destruct (decide (s.1 = Truncate now TimesliceBlock)) as [E|E].
  - rewrite (proj2 (Z.eqb_eq _ _) E), Hseen. cbn [negb].
    destruct (decide (occurrences id s.2 < MaxCount)) as [Hlt|Hlt].
    + rewrite (proj2 (Z.ltb_ge _ _)) by (unfold MaxCount in *; lia).
      split; [done|]. split; [done|]. intros id'. cbn.
      rewrite lookup_insert, occurrences_cons. case_decide; subst; cbn; [lia|]. by rewrite Hseen.
    + rewrite (proj2 (Z.ltb_lt _ _)) by (unfold MaxCount in *; lia).
      split; [done|]. split; [cbn; congruence|]. exact Hseen.
  - rewrite (proj2 (Z.eqb_neq _ _) E). cbn [negb].
    destruct (decide (occurrences id [] < MaxCount)) as [_|Hn]; [|by destruct Hn].
    split; [done|]. split; [done|]. intros id'. cbn [seen snd].
    rewrite lookup_singleton, occurrences_cons, occurrences_nil. by case_decide.
Qed.

Lemma run_refines reqs : ∀ st s,
  represents st s → (run false st reqs).1 = spec_run s reqs.
Proof.
  induction reqs as [|[now id] reqs IH]; intros st s Hr; [done|].
  cbn. destruct (serve_refines st s now id Hr) as [Hb Hr'].
  destruct (serve st now id) as [b st'], (spec_serve s now id) as [b' s']. cbn in *. subst.
  specialize (IH _ _ Hr'). destruct (run false st' reqs). cbn in *. by rewrite IH.
Qed.

(** ** Counting admissions *)

Lemma Truncate_mono t1 t2 : t1 ≤ t2 → Truncate t1 TimesliceBlock ≤ Truncate t2 TimesliceBlock.
Proof.
  intros Hle. unfold Truncate, TimesliceBlock. change (5 * 60 * 10 ^ 9) with 300000000000.
  Z.div_mod_to_equations. lia.
Qed.

Lemma requested_cons id t r reqs :
  requested id t (r :: reqs) = (if is_req id t r then 1 else 0) + requested id t reqs.
Proof.
  unfold requested. rewrite filter_cons. destruct (is_req id t r) eqn:E.
  - rewrite decide_True by done. cbn [length]. lia.
  - rewrite decide_False by congruence. lia.
Qed.

Lemma admitted_cons id t r b reqs bs :
  admitted id t (r :: reqs) (b :: bs)
  = (if is_req id t r && negb b then 1 else 0) + admitted id t reqs bs.
Proof.
  unfold admitted. cbn [zip zip_with]. rewrite filter_cons. cbn [fst snd].
  destruct (is_req id t r) eqn:E, b; cbn [andb negb].
  - rewrite decide_False by (by intros [_ ?]). lia.
  - rewrite decide_True by done. cbn [length]. lia.
  - rewrite decide_False by (intros [? _]; congruence). lia.
  - rewrite decide_False by (intros [? _]; congruence). lia.
Qed.

Lemma requested_later id t reqs :
  Forall (λ r, t < Truncate r.1 TimesliceBlock) reqs → requested id t reqs = 0.
Proof.
  induction 1 as [|r reqs Hr _ IH]; [done|]. rewrite requested_cons, IH.
  unfold is_req. rewrite (proj2 (Z.eqb_neq _ t)) by lia. by rewrite andb_false_r.
Qed.

(** Requests in the order of their times, none before the current slice. *)
Definition in_order (from : Z) (reqs : list (Z * bytes)) : Prop :=
  StronglySorted (λ r1 r2, r1.1 ≤ r2.1) reqs
  ∧ Forall (λ r, from ≤ Truncate r.1 TimesliceBlock) reqs.

Lemma in_order_tail from now id reqs :
  in_order from ((now, id) :: reqs) →
  from ≤ Truncate now TimesliceBlock ∧ in_order (Truncate now TimesliceBlock) reqs.
Proof.
  intros [Hs Hf]. apply StronglySorted_inv in Hs as [Hs Hr].
  inversion_clear Hf. split; [done|]. split; [done|].
  eapply Forall_impl; [exact Hr|]. intros r Hle. by apply Truncate_mono.
Qed.

(** The admissions the abstract limiter remembers when it serves in slice
    [cur], and those counted for slice [t]. *)
Definition kept (s : spec_state) (cur : Z) : list bytes :=
  if decide (s.1 = cur) then s.2 else [].

Definition spec_base (s : spec_state) (id : bytes) (t : Z) : Z :=
  if decide (t = s.1) then occurrences id s.2 else 0.

Lemma spec_base_kept s id t : spec_base s id t = occurrences id (kept s t).
Proof. unfold spec_base, kept. repeat case_decide; congruence || done. Qed.

Lemma spec_serve_effect s now i id :
  let cur := Truncate now TimesliceBlock in
  let '(b, s') := spec_serve s now i in
  s'.1 = cur
  ∧ occurrences id s'.2
    = occurrences id (kept s cur) + (if bool_decide (i = id) && negb b then 1 else 0)
  ∧ (i = id → b = (MaxCount <=? occurrences id (kept s cur))).
Proof.
  unfold spec_serve. cbv zeta. fold (kept s (Truncate now TimesliceBlock)).
  destruct (decide (occurrences i _ < MaxCount)) as [Hlt|Hge]; cbn [fst snd negb].
  - rewrite occurrences_cons, andb_true_r. split; [done|]. split.
    + destruct (decide (i = id)); [rewrite bool_decide_eq_true_2 by done
                                  |rewrite bool_decide_eq_false_2 by done]; lia.
    + intros ->. symmetry. apply Z.leb_gt. lia.
  - rewrite andb_false_r. split; [done|]. split; [lia|].
    intros ->. symmetry. apply Z.leb_le. lia.
Qed.

Lemma kept_bounded s id cur : occurrences id s.2 ≤ MaxCount → occurrences id (kept s cur) ≤ MaxCount.
Proof. unfold kept. case_decide; [done|]. by rewrite occurrences_nil. Qed.

Lemma is_req_eq id t now i :
  is_req id t (now, i) = bool_decide (i = id) && (Truncate now TimesliceBlock =? t).
Proof. done. Qed.

Lemma spec_run_admitted id t reqs : ∀ s,
  in_order s.1 reqs → occurrences id s.2 ≤ MaxCount →
  admitted id t reqs (spec_run s reqs)
  = Z.min MaxCount (spec_base s id t + requested id t reqs) - spec_base s id t.
Proof.
  induction reqs as [|[now i] reqs IH]; intros s Hord Hmax.
  { rewrite spec_base_kept. apply (kept_bounded _ _ t) in Hmax.
    change (requested id t []) with 0. change (admitted id t [] _) with 0. lia. }
  apply in_order_tail in Hord as [Hfrom Hord]. cbn [spec_run].
  pose proof (spec_serve_effect s now i id) as Heff. cbv zeta in Heff.
  set (cur := Truncate now TimesliceBlock) in *.
  destruct (spec_serve s now i) as [b s']. destruct Heff as (Hcur & Hocc & Hb).
  pose proof (kept_bounded _ _ cur Hmax) as Hk.
  pose proof (occurrences_nonneg id (kept s cur)).
  assert (0 ≤ requested id t reqs) by (unfold requested; lia).
  rewrite admitted_cons, requested_cons, is_req_eq. fold cur.
  rewrite IH; [|by rewrite Hcur|]; cycle 1.
  { rewrite Hocc. destruct (decide (i = id)) as [Ei|Ei];
      [rewrite (bool_decide_eq_true_2 _ Ei), (Hb Ei)|rewrite (bool_decide_eq_false_2 _ Ei)];
      cbn [andb]; destruct (Z.leb_spec MaxCount (occurrences id (kept s cur))); cbn [negb]; lia. }
  unfold spec_base at 1 2. rewrite Hcur, Hocc, spec_base_kept.
  destruct (decide (t = cur)) as [->|Ht].
  - rewrite Z.eqb_refl, andb_true_r. destruct (decide (i = id)) as [Ei|Ei];
      [rewrite (bool_decide_eq_true_2 _ Ei), (Hb Ei)|rewrite (bool_decide_eq_false_2 _ Ei)];
      cbn [andb]; destruct (Z.leb_spec MaxCount (occurrences id (kept s cur))); cbn [negb]; lia.
  - rewrite (proj2 (Z.eqb_neq cur t)), andb_false_r by congruence. cbn [andb].
    destruct (decide (s.1 = t)) as [<-|Hs].
    + rewrite requested_later; [|eapply Forall_impl; [apply Hord|]; cbn; lia].
      unfold kept. rewrite decide_True by done. lia.
    + unfold kept. rewrite decide_False by done. rewrite occurrences_nil. lia.
Qed.

(** ** Interleavings *)

Definition reachable (dryrun : bool) (c : config) : Prop := rtc (step dryrun) config_init c.

(** The answers given so far, oldest first, the one being sent included. *)
Definition answered (c : config) : list (Z * bytes * bool) :=
  rev (map (λ '(_, now, id, b), (now, id, b)) (returned c))
  ++ match pc c with Ready => [] | Replying _ now id b => [(now, id, b)] end.

Lemma run_app dryrun st reqs now id :
  run dryrun st (reqs ++ [(now, id)])
  = let '(bs, st') := run dryrun st reqs in
    let '(b, st'') := serve_run dryrun st' now id in (bs ++ [b], st'').
Proof.
  revert st. induction reqs as [|[n i] reqs IH]; intros st; cbn.
  - by destruct (serve_run dryrun st now id).
  - destruct (serve_run dryrun st n i) as [b st']. rewrite IH.
    destruct (run dryrun st' reqs) as [bs st'']. by destruct (serve_run dryrun st'' now id).
Qed.

Lemma reachable_sequential dryrun c :
  reachable dryrun c →
  run dryrun limiter_init (map fst (answered c)) = (map snd (answered c), local c).
Proof.
  revert c. refine (rtc_ind_r _ _ _ _); [done|]. intros c0 c _ Hstep IH.
  destruct Hstep as [c0 caller id Hp|c0 caller id now b st Hpc Hp Hs|c0 caller id now b Hpc].
  - exact IH.
  - unfold answered in *. cbn [returned pc local] in *. rewrite Hpc, app_nil_r in IH.
    rewrite map_app, map_app. cbn [map fst snd]. rewrite run_app, IH, Hs. done.
  - unfold answered in *. cbn [returned pc local] in *. rewrite Hpc in IH.
    cbn [map rev]. by rewrite app_nil_r.
Qed.

Lemma answered_zip c : zip (map fst (answered c)) (map snd (answered c)) = answered c.
Proof. apply zip_fst_snd. Qed.

(** C35: whatever the order in which concurrent callers reach the limiter, the
    answers they get are those of the abstract limiter, which admits an
    identifier at most [MaxCount] times per slice, on the requests in the
    order the goroutine received them. *)
Theorem limiter_linearizable c :
  reachable false c →
  map snd (answered c) = spec_run (0, []) (map fst (answered c)).
Proof.
  intros Hc%reachable_sequential.
  rewrite <-(run_refines _ limiter_init) by apply represents_init. by rewrite Hc.
Qed.

(** With a clock that does not go backwards, of the calls an identifier
    makes in a five-minute slice exactly the first four, or all if there are
    fewer, are let through. *)
Theorem limiter_admits_exactly c id t :
  reachable false c → in_order 0 (map fst (answered c)) →
  admitted id t (map fst (answered c)) (map snd (answered c))
  = Z.min 4 (requested id t (map fst (answered c))).
Proof.
  intros Hc%reachable_sequential Hord.
  assert (map snd (answered c) = spec_run (0, []) (map fst (answered c))) as ->.
  { rewrite <-(run_refines _ limiter_init) by apply represents_init. by rewrite Hc. }
  rewrite spec_run_admitted by done.
  assert (spec_base (0, []) id t = 0) as -> by (unfold spec_base; by case_decide).
  unfold MaxCount. lia.
Qed.

(** The disabled limiter, which is the one main starts, never limits. *)
Theorem disabled_limiter_admits_all c :
  reachable true c → Forall (λ r, r.2 = false) (answered c).
Proof.
  intros Hc%reachable_sequential. rewrite <-(answered_zip c).
  assert (∀ reqs st, Forall (λ b, b = false) (run true st reqs).1) as Hrun.
  { induction reqs as [|[now id] reqs IH]; intros st; cbn; [done|].
    specialize (IH st). destruct (run true st reqs). cbn in *. by constructor. }
  specialize (Hrun (map fst (answered c)) limiter_init). rewrite Hc in Hrun. cbn in Hrun.
  rewrite answered_zip. clear Hc. induction (answered c) as [|r l IH]; [done|].
  inversion_clear Hrun. constructor; auto.
Qed.

(** Deciding [in_order] on a concrete list. *)
Fixpoint in_orderb (from : Z) (reqs : list (Z * bytes)) : bool :=
  match reqs with
  | [] => true
  | r :: reqs' =>
      (from <=? Truncate r.1 TimesliceBlock)
      && forallb (λ r', r.1 <=? r'.1) reqs' && in_orderb from reqs'
  end.

Lemma in_orderb_sound from reqs : in_orderb from reqs = true → in_order from reqs.
Proof.
  induction reqs as [|r reqs IH]; cbn; [by repeat constructor|].
  intros [[Hf Ha]%andb_true_iff Ho]%andb_true_iff. destruct (IH Ho) as [Hs Hl].
  split; constructor; try done.
  - apply Forall_forall. intros r' Hr'. rewrite forallb_forall in Ha.
    apply Z.leb_le, Ha. by apply list_elem_of_In.
  - by apply Z.leb_le.
Qed.

(** A reachable configuration: two callers race with five calls of one
    identifier in the slice at 600 s, and one of them calls again in the next
    slice. *)
Definition ref_id : bytes := replicate 20 x07.
Definition at_s (s : Z) : Z := s * 10 ^ 9.

Fixpoint drive (st : limiter) (log : list (nat * Z * bytes * bool))
    (reqs : list (nat * Z * bytes)) : config :=
  match reqs with
  | [] => mk_config ∅ Ready st log
  | (caller, now, id) :: reqs' =>
      let '(b, st') := serve_run false st now id in
      drive st' ((caller, now, id, b) :: log) reqs'
  end.

Lemma drive_reachable reqs : ∀ st log,
  rtc (step false) (mk_config ∅ Ready st log) (drive st log reqs).
Proof.
  induction reqs as [|[[caller now] id] reqs IH]; intros st log; [done|].
  cbn. destruct (serve st now id) as [b st'] eqn:E.
  eapply rtc_l; [apply (step_call false _ caller id); apply lookup_empty|]. cbn.
  eapply rtc_l; [eapply (step_receive false _ caller id now b st'); [done| |exact E]|].
  { cbn. apply lookup_insert_eq. }
  cbn. rewrite delete_insert_id by apply lookup_empty.
  eapply rtc_l; [by eapply step_reply|]. apply IH.
Qed.

Definition ref_calls : list (nat * Z * bytes) :=
  [(1%nat, at_s 601, ref_id); (2%nat, at_s 602, ref_id); (1%nat, at_s 603, ref_id);
   (2%nat, at_s 604, ref_id); (1%nat, at_s 605, ref_id); (1%nat, at_s 900, ref_id)].
Definition ref_config : config := drive limiter_init [] ref_calls.

Lemma limiter_linearizable_witness :
  map snd (answered ref_config) = [false; false; false; false; true; false]
  ∧ map snd (answered ref_config) = spec_run (0, []) (map fst (answered ref_config)).
Proof.
  split; [reflexivity|]. apply (limiter_linearizable ref_config), drive_reachable.
Defined.

Lemma limiter_admits_exactly_witness :
  admitted ref_id (at_s 600) (map fst (answered ref_config)) (map snd (answered ref_config)) = 4.
Proof.
  rewrite (limiter_admits_exactly ref_config ref_id (at_s 600)); [reflexivity| |].
  - apply drive_reachable.
  - apply in_orderb_sound. vm_compute. reflexivity.
Defined.

Lemma disabled_limiter_admits_all_witness : Forall (λ r, r.2 = false) (answered config_init).
Proof. apply (disabled_limiter_admits_all config_init). apply rtc_refl. Defined.
