(* ===== verification/Db.v ===== *)
(** * Db: the tables and stored functions the server uses (db/db/schema.sql)

    A table is a list of rows in insertion order. A statement is a function
    of the transaction's time and the database; it either succeeds with a
    result and a new database or fails and leaves the database as it was.
    [character(n)] values are kept without their padding, compared that way,
    and refused when longer than [n]. *)
From stdpp Require Import base numbers strings list sorting.
From Stdlib Require Import Strings.Byte ZArith QArith Lia.
From S2P Require Import Prelude GoStd.
#[local] Open Scope Z_scope.

(** ** [character(n)] *)

(** Trailing spaces are padding. *)
Fixpoint rtrim (s : gostring) : gostring :=
  match s with
  | [] => []
  | c :: s' =>
      match rtrim s' with
      | [] => if decide (c = x20) then [] else [c]
      | t => c :: t
      end
  end.

Definition char_n (n : nat) (s : gostring) : outcome gostring :=
  if decide (length (rtrim s) ≤ n)%nat then Ok (rtrim s)
  else Err (lit "pq: value too long for type character(" ++ fmt_d (Z.of_nat n) ++ lit ")").

Definition bpchar_eq (a b : gostring) : bool := bool_decide (rtrim a = rtrim b).

(** ** Tables *)

Record secret_row := mk_secret_row {
  sr_eoa_addr : gostring;
  (** NULL for rows migrated from the first table. *)
  sr_secret : option gostring;
  sr_valid_until : Z
}.

Record sender_key := mk_sender_key {
  sk_id : Z;
  sk_private_key : gostring;
  sk_last_accessed : option Z
}.

Record tx_row := mk_tx_row {
  tx_created_at : Z;
  tx_eoa_addr : gostring;
  tx_transaction_hash : gostring;
  tx_gas_limit : Z;
  tx_desc : gostring
}.

Record db := mk_db {
  (** The address column of the old table; the server reads no other. *)
  accounts_secrets_1 : list gostring;
  accounts_secrets_2 : list secret_row;
  accounts_secrets_nonces_2 : list (gostring * Z);
  accounts_sender_keys_1 : list sender_key;
  accounts_executed_transactions_2 : list tx_row
}.

(** [CURRENT_TIMESTAMP + '1 mon'::interval], which follows the calendar. *)
Class PgCalendar := plus_one_month : Z → Z.

(** A statement at time [now]. *)
Definition stmt (A : Type) : Type := Z → db → outcome (A * db).

Section Statements.
Context `{PgCalendar}.

(** [INSERT INTO accounts_secrets_2 (eoa_addr, secret) VALUES ($1, $2)]. *)
Definition insert_secret_2 (eoa_addr secret : gostring) : stmt unit := λ now d,
  e ← char_n 42 eoa_addr;
  s ← char_n 64 secret;
  mret (tt, mk_db (accounts_secrets_1 d)
              (accounts_secrets_2 d ++ [mk_secret_row e (Some s) (plus_one_month now)])
              (accounts_secrets_nonces_2 d) (accounts_sender_keys_1 d)
              (accounts_executed_transactions_2 d)).

(** [INSERT INTO accounts_secrets_nonces_2(eoa_addr, nonce)], under the unique
    index on both columns. *)
Definition insert_nonce_2 (eoa_addr : gostring) (nonce : Z) : stmt unit := λ now d,
  e ← char_n 42 eoa_addr;
  if decide ((e, nonce) ∈ accounts_secrets_nonces_2 d)
  then Err (lit "pq: duplicate key value violates unique constraint accounts_secrets_nonces_2_eoa_addr_nonce_idx")
  else mret (tt, mk_db (accounts_secrets_1 d) (accounts_secrets_2 d)
                   (accounts_secrets_nonces_2 d ++ [(e, nonce)])
                   (accounts_sender_keys_1 d) (accounts_executed_transactions_2 d)).

(** The function runs in one transaction: a failing insert undoes both. *)
Definition accounts_insert_nonce_secret_3 (eoa_addr_ secret_ : gostring) (nonce_ : Z) : stmt unit :=
  λ now d,
    r ← insert_nonce_2 eoa_addr_ nonce_ now d;
    insert_secret_2 eoa_addr_ secret_ now r.2.

(** [last_accessed ASC NULLS FIRST]: strictly earlier. *)
Definition older (a b : option Z) : bool :=
  match a, b with
  | None, Some _ => true
  | Some x, Some y => x <? y
  | _, None => false
  end.

(** [ORDER BY .. LIMIT 1]; among rows of equal age, the first. *)
Fixpoint pick_oldest (l : list sender_key) : option sender_key :=
  match l with
  | [] => None
  | k :: l' =>
      match pick_oldest l' with
      | None => Some k
      | Some k' => if older (sk_last_accessed k') (sk_last_accessed k) then Some k' else Some k
      end
  end.

Definition touch (id now : Z) (k : sender_key) : sender_key :=
  if sk_id k =? id then mk_sender_key (sk_id k) (sk_private_key k) (Some now) else k.

(** [UPDATE .. WHERE id = (SELECT ..) RETURNING private_key], as one step. The
    result is NULL when the table is empty. *)
Definition accounts_get_private_key_2 : stmt (option gostring) := λ now d,
  match pick_oldest (accounts_sender_keys_1 d) with
  | None => Ok (None, d)
  | Some k =>
      Ok (Some (sk_private_key k),
          mk_db (accounts_secrets_1 d) (accounts_secrets_2 d) (accounts_secrets_nonces_2 d)
            (map (touch (sk_id k) now) (accounts_sender_keys_1 d))
            (accounts_executed_transactions_2 d))
  end.

(** The same statement in two steps, as concurrent sessions can interleave it:
    the sub-select takes no lock, and the update finds the row by the id that
    the sub-select gave, also after waiting for another session's update of
    that row. *)
Definition select_oldest_key : stmt (option Z) := λ now d,
  Ok (sk_id <$> pick_oldest (accounts_sender_keys_1 d), d).

Definition update_key_returning (id : option Z) : stmt (option gostring) := λ now d,
  match id with
  | None => Ok (None, d)
  | Some id =>
      Ok (sk_private_key <$> head (filter (λ k, sk_id k = id) (accounts_sender_keys_1 d)),
          mk_db (accounts_secrets_1 d) (accounts_secrets_2 d) (accounts_secrets_nonces_2 d)
            (map (touch id now) (accounts_sender_keys_1 d))
            (accounts_executed_transactions_2 d))
  end.

(** [SELECT COUNT(1) FROM accounts_secrets_2 WHERE eoa_addr = $1 AND secret = $2]:
    a NULL secret equals nothing. *)
Definition secret_matches (eoa secret : gostring) (r : secret_row) : bool :=
  bpchar_eq (sr_eoa_addr r) eoa
  && match sr_secret r with Some s => bpchar_eq s secret | None => false end.

Definition count_secrets (eoa secret : gostring) : stmt Z := λ now d,
  Ok (Z.of_nat (length (filter (λ r, secret_matches eoa secret r = true) (accounts_secrets_2 d))), d).

(** The count over the union of both secrets tables. *)
Definition count_created (address : gostring) : stmt Z := λ now d,
  Ok (Z.of_nat (length (filter (λ e, bpchar_eq e address = true) (accounts_secrets_1 d)))
      + Z.of_nat (length (filter (λ r, bpchar_eq (sr_eoa_addr r) address = true)
                            (accounts_secrets_2 d))), d).

(** [INSERT INTO accounts_executed_transactions_2 ..]: [gas_limit] is a 32-bit
    integer column. *)
Definition insert_transaction_2 (eoa_addr hash : gostring) (gas_limit : Z) (desc : gostring)
    : stmt unit := λ now d,
  e ← char_n 42 eoa_addr;
  h ← char_n 66 hash;
  ensure ((- 2 ^ 31 <=? gas_limit) && (gas_limit <? 2 ^ 31))
    (lit "pq: value " ++ fmt_d gas_limit ++ lit " is out of range for type integer");;
  mret (tt, mk_db (accounts_secrets_1 d) (accounts_secrets_2 d) (accounts_secrets_nonces_2 d)
              (accounts_sender_keys_1 d)
              (accounts_executed_transactions_2 d ++ [mk_tx_row now e h gas_limit desc])).

(** ** The statistics view *)

Record stat_row := mk_stat_row {
  st_action : gostring;
  st_avg_24_hours : option Q;
  st_avg_week : option Q;
  st_avg_all_time : option Q;
  st_tx_24_hours : Z;
  st_tx_week : Z;
  st_tx_all_time : Z
}.

(** [AVG] is NULL over no rows. *)
Definition avg (l : list Z) : option Q :=
  match length l with
  | O => None
  | S n => Some (foldr Z.add 0 l # Pos.of_succ_nat n)
  end.

Definition day : Z := 24 * 60 * 60 * 10 ^ 6.

(** Rows of an action created in the last [span] (microseconds). *)
Definition recent (now span : Z) (l : list tx_row) : list tx_row :=
  filter (λ r, now - span ≤ tx_created_at r) l.

Definition stat_of (now : Z) (l : list tx_row) (action : gostring) : stat_row :=
  let rows := filter (λ r, tx_desc r = action) l in
  let gas l := map tx_gas_limit l in
  let count l := Z.of_nat (length l) in
  mk_stat_row action
    (avg (gas (recent now day rows))) (avg (gas (recent now (7 * day) rows))) (avg (gas rows))
    (count (recent now day rows)) (count (recent now (7 * day) rows)) (count rows).

(** [GROUP BY desc_]. *)
Definition accounts_transaction_statistics_1 : stmt (list stat_row) := λ now d,
  let l := accounts_executed_transactions_2 d in
  Ok (map (stat_of now l) (remove_dups (map tx_desc l)), d).
End Statements.

(** * Lemmas *)

Lemma rtrim_nospace s : Forall (λ c, c ≠ x20) s → rtrim s = s.
Proof.
  induction 1 as [|c s Hc _ IH]; [done|]. cbn. rewrite IH.
  destruct s; [|done]. by rewrite decide_False.
Qed.

Lemma rtrim_idem s : rtrim (rtrim s) = rtrim s.
Proof.
  induction s as [|c s IH]; [done|]. cbn. destruct (rtrim s) as [|b t] eqn:E.
  - case_decide; [done|]. cbn. by rewrite decide_False.
  - change (match rtrim (b :: t) with [] => if decide (c = x20) then [] else [c] | t => c :: t end
            = c :: b :: t). by rewrite IH.
Qed.

Lemma char_n_nospace n s :
  Forall (λ c, c ≠ x20) s → (length s ≤ n)%nat → char_n n s = Ok s.
Proof. intros Hs Hl. unfold char_n. rewrite rtrim_nospace by done. by rewrite decide_True. Qed.

Lemma hex_nospace b : Forall (λ c, c ≠ x20) (hex_EncodeToString b).
Proof.
  assert (∀ n, 0 ≤ n < 16 → hex_digit n ≠ x20) as Hd.
  { intros n Hn E. apply (f_equal reverseHexTable) in E.
    by rewrite reverseHexTable_digit in E. }
  induction b as [|x b IH]; [done|]. rewrite hex_encode_cons.
  pose proof (nibbles x) as (H1 & H2 & _). auto.
Qed.

Lemma bpchar_eq_refl s : bpchar_eq s s = true.
Proof. by apply bool_decide_eq_true. Qed.
#[export] Hint Resolve bpchar_eq_refl hex_nospace : godb.

(** ** Sender keys in turn *)

(** No row is older than the one picked. *)
Lemma pick_oldest_spec l k :
  pick_oldest l = Some k →
  k ∈ l ∧ ∀ k', k' ∈ l → older (sk_last_accessed k') (sk_last_accessed k) = false.
Proof.
  revert k. induction l as [|a l IH]; intros k; [done|]. cbn.
  destruct (pick_oldest l) as [b|] eqn:E.
  - destruct (IH b eq_refl) as [Hin Hmin].
    destruct (older (sk_last_accessed b) (sk_last_accessed a)) eqn:Eo; intros [= <-].
    + split; [by apply list_elem_of_further|]. intros k' [->|Hk']%elem_of_cons; [|by apply Hmin].
      unfold older in *. repeat case_match; try done; lia.
    + split; [apply list_elem_of_here|]. intros k' [->|Hk']%elem_of_cons.
      * unfold older. case_match; [lia|done].
      * specialize (Hmin _ Hk'). unfold older in *. repeat case_match; try done; lia.
  - intros [= <-]. destruct l as [|c l]; [|cbn in E; repeat case_match; done].
    split; [apply list_elem_of_here|]. intros k' ->%list_elem_of_singleton.
    unfold older. case_match; [lia|done].
Qed.

Lemma pick_oldest_None l : pick_oldest l = None ↔ l = [].
Proof. destruct l; cbn; [done|]. split; [|done]. by repeat case_match. Qed.

(** Rows not accessed since [t0]. *)
Definition stale (t0 : Z) (k : sender_key) : bool :=
  match sk_last_accessed k with None => true | Some t => t <? t0 end.

(** The keys returned by successive calls at the given times. *)
Fixpoint pick_run (ts : list Z) (d : db) : list (option gostring) :=
  match ts with
  | [] => []
  | t :: ts' =>
      match accounts_get_private_key_2 t d with
      | Ok (k, d') => k :: pick_run ts' d'
      | _ => []
      end
  end.

(** While some row is stale, the row picked is. *)
Lemma pick_oldest_stale t0 l k k' :
  pick_oldest l = Some k → k' ∈ l → stale t0 k' = true → stale t0 k = true.
Proof.
  intros [_ Hmin]%pick_oldest_spec Hin. specialize (Hmin _ Hin).
  unfold stale, older in *. repeat case_match; try done; lia.
Qed.

Lemma touch_other id t l : id ∉ map sk_id l → map (touch id t) l = l.
Proof.
  induction l as [|a l IH]; [done|]. cbn. rewrite not_elem_of_cons. intros [Ha Hl].
  rewrite IH by done. unfold touch. by rewrite (proj2 (Z.eqb_neq _ _)).
Qed.

(** Touching the row picked takes exactly it out of the stale ones. *)
Lemma touch_stale t0 t l k :
  NoDup (map sk_id l) → k ∈ l → stale t0 k = true → t0 ≤ t →
  filter (λ r, stale t0 r = true) l
  ≡ₚ k :: filter (λ r, stale t0 r = true) (map (touch (sk_id k) t) l).
Proof.
  intros Hnd Hin Hs Ht. induction l as [|a l IH]; [by apply not_elem_of_nil in Hin|].
  cbn in Hnd. apply NoDup_cons in Hnd as [Ha Hnd].
  apply elem_of_cons in Hin as [<-|Hin].
  - rewrite filter_cons_True by done. cbn [map]. rewrite touch_other by done.
    rewrite filter_cons_False; [done|].
    unfold touch, stale. rewrite Z.eqb_refl. cbn. lia.
  - cbn [map]. assert (touch (sk_id k) t a = a) as ->.
    { unfold touch. rewrite (proj2 (Z.eqb_neq _ _)); [done|].
      intros E. apply Ha. rewrite E. by apply list_elem_of_fmap_2. }
    specialize (IH Hnd Hin). rewrite !filter_cons. case_decide; [|done].
    rewrite IH. apply Permutation_swap.
Qed.

Lemma touch_ids id t l : map sk_id (map (touch id t) l) = map sk_id l.
Proof.
  rewrite map_map. apply map_ext. intros a. unfold touch. by case_match.
Qed.

Lemma pick_run_stale t0 ts d :
  NoDup (map sk_id (accounts_sender_keys_1 d)) →
  Forall (λ t, t0 ≤ t) ts →
  length ts = length (filter (λ r, stale t0 r = true) (accounts_sender_keys_1 d)) →
  pick_run ts d
  ≡ₚ map (Some ∘ sk_private_key)
       (filter (λ r, stale t0 r = true) (accounts_sender_keys_1 d)).
Proof.
  revert d. induction ts as [|t ts IH]; intros d Hnd Hts Hlen.
  { destruct (filter _ _); done. }
  apply Forall_cons in Hts as [Ht Hts]. cbn.
  unfold accounts_get_private_key_2.
  assert (∃ k', k' ∈ accounts_sender_keys_1 d ∧ stale t0 k' = true) as (k' & Hin' & Hs').
  { destruct (filter _ (accounts_sender_keys_1 d)) as [|k' l'] eqn:E; [done|].
    exists k'. assert (k' ∈ k' :: l') as Hk by apply list_elem_of_here.
    rewrite <-E in Hk. apply list_elem_of_filter in Hk. tauto. }
  destruct (pick_oldest (accounts_sender_keys_1 d)) as [k|] eqn:Ep.
  2:{ apply pick_oldest_None in Ep. rewrite Ep in Hin'. by apply not_elem_of_nil in Hin'. }
  pose proof (pick_oldest_stale t0 _ _ _ Ep Hin' Hs') as Hs.
  destruct (pick_oldest_spec _ _ Ep) as [Hin _].
  pose proof (touch_stale t0 t _ _ Hnd Hin Hs Ht) as Hp.
  rewrite Hp. cbn. apply Permutation_skip. apply IH; cbn [accounts_sender_keys_1]; [|done|].
  - by rewrite touch_ids.
  - apply Permutation_length in Hp. cbn in Hp. cbn in Hlen. lia.
Qed.

(** A time between the past accesses and the coming ones. *)
Lemma exists_between (A B : list Z) :
  (∀ a b, a ∈ A → b ∈ B → a < b) →
  ∃ t0, Forall (λ a, a < t0) A ∧ Forall (λ b, t0 ≤ b) B.
Proof.
  induction B as [|b B IH]; intros HAB.
  - clear HAB. induction A as [|a A (t0 & IH & _)]; [by exists 0|].
    exists (Z.max t0 (a + 1)). split; [|done]. constructor; [lia|].
    eapply Forall_impl; [exact IH|]. cbn. lia.
  - destruct IH as (t0 & HA & HB); [eauto using list_elem_of_further|].
    exists (Z.min t0 b). split.
    + apply Forall_forall. intros a Ha. rewrite Forall_forall in HA.
      specialize (HA _ Ha). specialize (HAB a b Ha (list_elem_of_here _ _)). lia.
    + constructor; [lia|]. eapply Forall_impl; [exact HB|]. cbn. lia.
Qed.

Lemma filter_all {A} (P : A → Prop) `{∀ x, Decision (P x)} l :
  Forall P l → filter P l = l.
Proof. induction 1; [done|]. rewrite filter_cons_True by done. congruence. Qed.

Lemma key_by_id l k :
  NoDup (map sk_id l) → k ∈ l → head (filter (λ r, sk_id r = sk_id k) l) = Some k.
Proof.
  induction l as [|a l IH]; [by intros _ ?%not_elem_of_nil|].
  intros [Ha Hnd]%NoDup_cons [->|Hk]%elem_of_cons; [by rewrite filter_cons_True|].
  rewrite filter_cons_False; [by apply IH|]. intros E. apply Ha. rewrite E.
  by apply (list_elem_of_fmap_2 sk_id).
Qed.

(** Without another session in between, the two steps are the statement. *)
Lemma pick_in_two_steps now d :
  NoDup (map sk_id (accounts_sender_keys_1 d)) →
  (r ← select_oldest_key now d; update_key_returning r.1 now r.2) = accounts_get_private_key_2 now d.
Proof.
  intros Hnd. unfold select_oldest_key, update_key_returning, accounts_get_private_key_2. cbn.
  destruct (pick_oldest (accounts_sender_keys_1 d)) as [k|] eqn:E; [|done]. cbn.
  destruct (pick_oldest_spec _ _ E) as [Hk _]. by rewrite key_by_id.
Qed.

(** The updates of sessions that hold the ids [ids], one after the other. *)
Fixpoint update_run (ids : list (Z * option Z)) (d : db) : list (option gostring) :=
  match ids with
  | [] => []
  | (t, id) :: ids' =>
      match update_key_returning id t d with
      | Ok (k, d') => k :: update_run ids' d'
      | _ => []
      end
  end.

(** Calls at the given times that overlap: every sub-select runs before the
    first update. *)
Definition overlapped_run (ts : list Z) (d : db) : list (option gostring) :=
  update_run
    (map (λ t, (t, match select_oldest_key t d with Ok (id, _) => id | _ => None end)) ts) d.

Lemma touch_by_id id id' t l :
  sk_private_key <$> head (filter (λ k, sk_id k = id) (map (touch id' t) l))
  = sk_private_key <$> head (filter (λ k, sk_id k = id) l).
Proof.
  induction l as [|a l IH]; [done|]. cbn [map].
  assert (sk_id (touch id' t a) = sk_id a) as Hid by (unfold touch; by case_match).
  rewrite !filter_cons, Hid. case_decide; [|done]. cbn. f_equal. unfold touch. by case_match.
Qed.

Lemma update_run_same ts id d :
  update_run (map (λ t, (t, Some id)) ts) d
  = replicate (length ts)
      (sk_private_key <$> head (filter (λ k, sk_id k = id) (accounts_sender_keys_1 d))).
Proof.
  revert d. induction ts as [|t ts IH]; intros d; [done|]. cbn. f_equal. rewrite IH. cbn.
  by rewrite touch_by_id.
Qed.

Lemma update_run_none ts d :
  update_run (map (λ t, (t, None)) ts) d = replicate (length ts) None.
Proof. induction ts as [|t ts IH]; [done|]. cbn. by rewrite IH. Qed.

(** C17: which sender keys the calls of [accounts_get_private_key_2] return. Let
    the keys have distinct ids, let there be as many calls as keys, and let
    all calls be later than every access recorded. Calls that follow one
    another, each over before the next starts, return every key exactly once,
    in some order: no key is used twice before every other has been used. But
    the sub-select of the statement takes no lock: when the sub-selects of the
    calls all run before the first update, every call returns the same key,
    the one that was used longest ago. *)
Theorem sender_keys_round_robin (ts : list Z) (d : db) :
  NoDup (map sk_id (accounts_sender_keys_1 d)) →
  (∀ t t', t ∈ ts → t' ∈ omap sk_last_accessed (accounts_sender_keys_1 d) → t' < t) →
  length ts = length (accounts_sender_keys_1 d) →
  pick_run ts d ≡ₚ map (Some ∘ sk_private_key) (accounts_sender_keys_1 d)
  ∧ (∀ now, (r ← select_oldest_key now d; update_key_returning r.1 now r.2)
            = accounts_get_private_key_2 now d)
  ∧ overlapped_run ts d
    = replicate (length ts) (sk_private_key <$> pick_oldest (accounts_sender_keys_1 d)).
Proof.
  intros Hnd Hlast Hlen. split_and!.
  - destruct (exists_between (omap sk_last_accessed (accounts_sender_keys_1 d)) ts)
      as (t0 & Hold & Hnew); [eauto|].
    assert (filter (λ r, stale t0 r = true) (accounts_sender_keys_1 d)
            = accounts_sender_keys_1 d) as Hall.
    { apply filter_all, Forall_forall. intros k Hk. unfold stale.
      destruct (sk_last_accessed k) as [t'|] eqn:E; [|done]. apply Z.ltb_lt.
      rewrite Forall_forall in Hold. apply Hold, list_elem_of_omap. eauto. }
    rewrite <-Hall. apply pick_run_stale; [done..|by rewrite Hall].
  - intros now. by apply pick_in_two_steps.
  - unfold overlapped_run, select_oldest_key.
    destruct (pick_oldest (accounts_sender_keys_1 d)) as [k|] eqn:E; [|apply update_run_none].
    destruct (pick_oldest_spec _ _ E) as [Hk _]. cbn.
    by rewrite update_run_same, key_by_id.
Qed.

Definition ref_keys : db :=
  mk_db [] [] []
    [mk_sender_key 1 (lit "k1") (Some 50); mk_sender_key 2 (lit "k2") None;
     mk_sender_key 3 (lit "k3") (Some 20)] [].

Lemma sender_keys_round_robin_witness :
  pick_run [60; 61; 62] ref_keys ≡ₚ [Some (lit "k1"); Some (lit "k2"); Some (lit "k3")]
  ∧ overlapped_run [60; 61; 62] ref_keys = [Some (lit "k2"); Some (lit "k2"); Some (lit "k2")].
Proof.
  refine (match sender_keys_round_robin [60; 61; 62] ref_keys _ _ eq_refl with
          | conj Hp (conj _ Ho) => conj Hp Ho
          end).
  - apply (bool_decide_unpack _). by vm_compute.
  - intros t t' Ht Ht'. rewrite list_elem_of_In in Ht, Ht'. cbn in Ht, Ht'. lia.
Defined.
