(* ===== verification/Retired.v ===== *)
(** * Retired: the stored functions that newer ones replaced (db/db/schema.sql)

    The first versions of the key rotation and of the recording of nonces are
    still part of the schema, with the tables they wrote. The theorems say what
    their replacements changed: a key that was never used is not starved, the
    first secret of an address can be recorded, and a nonce stays consumed when
    the secret it was recorded under expires. *)
From stdpp Require Import base numbers strings list sets sorting.
From Stdlib Require Import Strings.Byte ZArith QArith Qround Lia.
From S2P Require Import Prelude GoStd Db.
#[local] Open Scope Z_scope.

(** ** Tables *)

(** [accounts_secrets_1]. *)
Record old_secret := mk_old_secret {
  os_id : Z;
  os_eoa_addr : gostring;
  os_priv_key : gostring;
  os_salt : gostring;
  os_valid_until : Z
}.

(** [accounts_secrets_nonces_1]. *)
Record old_nonce := mk_old_nonce {
  on_id : Z;
  on_secret_id : Z;
  on_consumed_nonce : Z
}.

(** The tables with the next values of their sequences. *)
Record old_db := mk_old_db {
  old_secrets : list old_secret;
  old_secrets_id_seq : Z;
  old_nonces : list old_nonce;
  old_nonces_id_seq : Z
}.

(** A failed statement leaves the tables, but not the sequences, as they were. *)
Definition old_stmt (A : Type) : Type := Z → old_db → outcome A * old_db.

(** [nextval] of a sequence of type integer. *)
Definition nextval (name : string) (n : Z) : outcome Z :=
  if n <=? 2 ^ 31 - 1 then Ok n
  else Err (lit "pq: nextval: reached maximum value of sequence " ++ lit name ++ lit " (2147483647)").

Section Retired.
Context `{PgCalendar}.

(** [SELECT id INTO v_secret_id FROM accounts_secrets_1 WHERE ..]: without
    STRICT the first row. *)
Definition secret_id (p : old_secret → bool) (eoa : gostring) (d : old_db) : option Z :=
  os_id <$> head (filter (λ s, bpchar_eq (os_eoa_addr s) eoa && p s = true) (old_secrets d)).

(** The part that both versions share, under the unique index on the secret
    and the nonce. *)
Definition insert_nonce_where (p : Z → old_secret → bool) (p_eoa_addr : gostring)
    (p_consumed_nonce : Z) : old_stmt Z := λ now d,
  match char_n 42 p_eoa_addr with
  | Ok e =>
      match secret_id (p now) e d with
      | None => (Err (lit "pq: address not found"), d)
      | Some v_secret_id =>
          match nextval "accounts_secrets_nonces_1_id_seq" (old_nonces_id_seq d) with
          | Ok id =>
              let d1 := mk_old_db (old_secrets d) (old_secrets_id_seq d) (old_nonces d) (id + 1) in
              if existsb (λ n, (on_secret_id n =? v_secret_id)
                               && (on_consumed_nonce n =? p_consumed_nonce)) (old_nonces d)
              then (Err (lit "pq: duplicate key value violates unique constraint accounts_secrets_nonces_1_secret_id_consumed_nonce_idx"), d1)
              else (Ok id, mk_old_db (old_secrets d) (old_secrets_id_seq d)
                             (old_nonces d ++ [mk_old_nonce id v_secret_id p_consumed_nonce]) (id + 1))
          | Err e => (Err e, d)
          | Panic e => (Panic e, d)
          | Fatal e => (Fatal e, d)
          end
      end
  | Err e => (Err e, d)
  | Panic e => (Panic e, d)
  | Fatal e => (Fatal e, d)
  end.

Definition accounts_insert_nonce_1 : gostring → Z → old_stmt Z :=
  insert_nonce_where (λ _ _, true).

Definition accounts_insert_nonce_2 : gostring → Z → old_stmt Z :=
  insert_nonce_where (λ now s, now <? os_valid_until s).

(** [INSERT INTO accounts_secrets_1(eoa_addr, priv_key, salt)]. *)
Definition insert_secret_1 (eoa_addr priv_key salt : gostring) : old_stmt unit := λ now d,
  match (e ← char_n 42 eoa_addr; k ← char_n 64 priv_key; s ← char_n 32 salt;
         id ← nextval "accounts_secrets_1_id_seq" (old_secrets_id_seq d);
         mret (mk_old_secret id e k s (plus_one_month now))) with
  | Ok row => (Ok tt, mk_old_db (old_secrets d ++ [row]) (os_id row + 1) (old_nonces d)
                        (old_nonces_id_seq d))
  | Err e => (Err e, d)
  | Panic e => (Panic e, d)
  | Fatal e => (Fatal e, d)
  end.

(** One transaction: a failing insert undoes both. *)
Definition nonce_then_secret (insert_nonce : gostring → Z → old_stmt Z)
    (eoa_addr_ priv_key_ : gostring) (nonce_ : Z) (salt_ : gostring) : old_stmt unit := λ now d,
  let r := insert_nonce eoa_addr_ nonce_ now d in
  match r.1 with
  | Ok _ =>
      let r' := insert_secret_1 eoa_addr_ priv_key_ salt_ now r.2 in
      match r'.1 with
      | Ok _ => r'
      | o => (o, mk_old_db (old_secrets d) (old_secrets_id_seq r'.2) (old_nonces d)
                   (old_nonces_id_seq r'.2))
      end
  | Err e => (Err e, r.2)
  | Panic e => (Panic e, r.2)
  | Fatal e => (Fatal e, r.2)
  end.

Definition accounts_insert_nonce_secret_1 := nonce_then_secret accounts_insert_nonce_1.
Definition accounts_insert_nonce_secret_2 := nonce_then_secret accounts_insert_nonce_2.

(** ** The random rotation *)

(** [ORDER BY last_accessed ASC], which puts NULL last. *)
Definition accessed_le (a b : sender_key) : Prop :=
  match sk_last_accessed a, sk_last_accessed b with
  | Some x, Some y => x ≤ y
  | Some _, None | None, None => True
  | None, Some _ => False
  end.

#[global] Instance accessed_le_dec : RelDecision accessed_le.
Proof. intros a b. unfold accessed_le. repeat case_match; apply _. Defined.

(** [floor(random() * LEAST(5, total_rows))::INT]. *)
Definition random_offset (random : Q) (total_rows : Z) : Z :=
  Qfloor (random * inject_Z (Z.min 5 total_rows)).

Definition accounts_get_private_key_1 (random : Q) : stmt (option gostring) := λ now d,
  let total_rows := Z.of_nat (length (accounts_sender_keys_1 d)) in
  if 0 <? total_rows then
    match merge_sort accessed_le (accounts_sender_keys_1 d)
            !! Z.to_nat (random_offset random total_rows) with
    | None => Ok (None, d)
    | Some k =>
        selected_key ← char_n 128 (sk_private_key k);
        result ← char_n 64 selected_key;
        Ok (Some result,
            mk_db (accounts_secrets_1 d) (accounts_secrets_2 d) (accounts_secrets_nonces_2 d)
              (map (touch (sk_id k) now) (accounts_sender_keys_1 d))
              (accounts_executed_transactions_2 d))
    end
  else Ok (None, d).

(** ** The migration to the second secrets table *)

(** [INSERT INTO accounts_secrets_2 (eoa_addr) SELECT DISTINCT eoa_addr FROM
    accounts_secrets_1]: the secrets are NULL. *)
Definition migrate_secrets : stmt unit := λ now d,
  Ok (tt, mk_db (accounts_secrets_1 d)
            (accounts_secrets_2 d
             ++ map (λ e, mk_secret_row e None (plus_one_month now))
                  (remove_dups (map rtrim (accounts_secrets_1 d))))
            (accounts_secrets_nonces_2 d) (accounts_sender_keys_1 d)
            (accounts_executed_transactions_2 d)).

(** ** Properties *)

Lemma secret_id_none p eoa d :
  (∀ s, s ∈ old_secrets d → bpchar_eq (os_eoa_addr s) eoa && p s = false) →
  secret_id p eoa d = None.
Proof.
  intros Hn. unfold secret_id. rewrite filter_none; [done|]. intros s Hs. by rewrite Hn.
Qed.

(** With the first version no address gets its first secret: the nonce cannot
    be recorded before there is a secret, and nothing is. *)
Lemma first_secret_refused eoa priv salt nonce now d :
  (∀ s, s ∈ old_secrets d → bpchar_eq (os_eoa_addr s) eoa = false) →
  (accounts_insert_nonce_secret_1 eoa priv nonce salt now d).2 = d
  ∧ is_ok (accounts_insert_nonce_secret_1 eoa priv nonce salt now d).1 = false.
Proof.
  intros Hn. unfold accounts_insert_nonce_secret_1, nonce_then_secret, accounts_insert_nonce_1,
    insert_nonce_where.
  destruct (char_n 42 eoa) as [e|?|?|?] eqn:E; cbn; [|done..].
  rewrite secret_id_none; [done|]. intros s Hs. unfold char_n in E. case_decide; [|done].
  injection E as <-. specialize (Hn s Hs). rewrite andb_true_r. unfold bpchar_eq in *.
  apply bool_decide_eq_false in Hn. apply bool_decide_eq_false. intros E. apply Hn.
  rewrite E. apply rtrim_idem.
Qed.

(** *** A nonce stays consumed *)

(** Rows are only ever added. *)
Definition extends (d d' : old_db) : Prop :=
  (∃ l, old_secrets d' = old_secrets d ++ l) ∧ old_nonces d ⊆ old_nonces d'.

#[global] Instance extends_preorder : PreOrder extends.
Proof.
  split; [intros d; split; [exists []; by rewrite app_nil_r|done]|].
  intros d1 d2 d3 [[l1 E1] H1] [[l2 E2] H2]. split; [|by etrans].
  exists (l1 ++ l2). by rewrite E2, E1, app_assoc.
Qed.

Lemma insert_nonce_extends p eoa n now d : extends d (insert_nonce_where p eoa n now d).2.
Proof.
  unfold insert_nonce_where. repeat case_match; cbn; try done;
    (split; [exists []; by rewrite app_nil_r|]); cbn; set_solver.
Qed.

Lemma insert_secret_extends eoa k s now d : extends d (insert_secret_1 eoa k s now d).2.
Proof.
  unfold insert_secret_1. case_match; try done. split; [by eexists|done].
Qed.

Lemma nonce_then_secret_extends p eoa k n s now d :
  extends d (nonce_then_secret (insert_nonce_where p) eoa k n s now d).2.
Proof.
  unfold nonce_then_secret. set (r := insert_nonce_where p eoa n now d).
  assert (extends d r.2) as Hr by apply insert_nonce_extends.
  pose proof (insert_secret_extends eoa k s now r.2) as Hs.
  repeat case_match; cbn; try done; try (by etrans);
    (split; [exists []; by rewrite app_nil_r|done]).
Qed.

Lemma secret_id_extends p eoa d d' id :
  extends d d' → secret_id p eoa d = Some id → secret_id p eoa d' = Some id.
Proof.
  intros [[l E] _]. unfold secret_id. rewrite E, filter_app.
  by destruct (filter _ (old_secrets d)).
Qed.

(** With the first version a nonce is consumed for good, whatever else happens
    to the tables. *)
Lemma nonce_1_consumed eoa n now now' d d' id :
  (accounts_insert_nonce_1 eoa n now d).1 = Ok id →
  extends (accounts_insert_nonce_1 eoa n now d).2 d' →
  is_ok (accounts_insert_nonce_1 eoa n now' d').1 = false.
Proof.
  unfold accounts_insert_nonce_1, insert_nonce_where.
  destruct (char_n 42 eoa) as [e|?|?|?]; [|done..].
  destruct (secret_id _ e d) as [sid|] eqn:Es; [|done].
  destruct (nextval _ (old_nonces_id_seq d)) as [i|?|?|?]; [|done..].
  destruct (existsb _ (old_nonces d)); [done|]. cbn. intros [= <-] Hx.
  rewrite (secret_id_extends _ _ d d' sid); [|split; [apply Hx|]|done]; cycle 1.
  { destruct Hx as [_ Hx]. cbn in Hx. set_solver. }
  destruct (nextval _ _); [|done..].
  rewrite (proj2 (existsb_exists _ _)); [done|]. exists (mk_old_nonce i sid n).
  rewrite !Z.eqb_refl. split; [|done]. apply list_elem_of_In. destruct Hx as [_ Hx]. cbn in Hx.
  set_solver.
Qed.

(** *** Keys that were never used *)

Definition used (k : sender_key) : bool :=
  match sk_last_accessed k with Some _ => true | None => false end.

#[global] Instance accessed_le_trans : Transitive accessed_le.
Proof. intros a b c. unfold accessed_le. repeat case_match; try done. lia. Qed.

#[global] Instance accessed_le_total : Total accessed_le.
Proof. intros a b. unfold accessed_le. repeat case_match; auto. lia. Qed.

(** What comes after a key that was never used was not used either. *)
Lemma unused_last l i k :
  StronglySorted accessed_le l → l !! i = Some k → used k = false →
  (length (filter (λ k, used k = true) l) ≤ i)%nat.
Proof.
  intros Hs. revert i. induction Hs as [|a l Hs IH Ha]; intros i Hi Hu; [done|].
  rewrite filter_cons. destruct i as [|i].
  - injection Hi as ->. rewrite Hu. cbn.
    assert (filter (λ k, used k = true) l = []) as ->; [|done].
    apply filter_none. intros b Hb. rewrite Forall_forall in Ha. specialize (Ha b Hb).
    unfold used, accessed_le in *. by repeat case_match.
  - specialize (IH i Hi Hu). case_decide; cbn; lia.
Qed.

Lemma random_offset_bound random n :
  (0 <= random)%Q → (random < 1)%Q → 0 < n → 0 ≤ random_offset random n < Z.min 5 n.
Proof.
  intros H0 H1 Hn. unfold random_offset. set (m := Z.min 5 n).
  assert (0 < inject_Z m)%Q as Hm by (change 0%Q with (inject_Z 0); rewrite <-Zlt_Qlt; lia).
  split.
  - change 0 with (Qfloor 0). apply Qfloor_resp_le. apply Qmult_le_0_compat; [done|].
    by apply Qlt_le_weak.
  - rewrite Zlt_Qlt. eapply Qle_lt_trans; [apply Qfloor_le|].
    rewrite <-(Qmult_1_l (inject_Z m)) at 2. by apply Qmult_lt_compat_r.
Qed.

Definition used_keys (d : db) : nat :=
  length (filter (λ k, used k = true) (accounts_sender_keys_1 d)).

Lemma touch_used id t l k :
  k ∈ l → used k = true → sk_id k = id → NoDup (map sk_id l) →
  length (filter (λ k, used k = true) (map (touch id t) l))
  = length (filter (λ k, used k = true) l).
Proof.
  intros Hk Hu <- Hnd. induction l as [|a l IH]; [done|]. cbn [map].
  apply NoDup_cons in Hnd as [Ha Hnd]. rewrite !filter_cons.
  apply elem_of_cons in Hk as [<-|Hk].
  - rewrite touch_other by done.
    assert (used (touch (sk_id k) t k) = true) as Ht by (unfold touch; by rewrite Z.eqb_refl).
    rewrite !decide_True by done. done.
  - assert (touch (sk_id k) t a = a) as ->.
    { unfold touch. rewrite (proj2 (Z.eqb_neq _ _)); [done|]. intros E. apply Ha. rewrite E.
      by apply list_elem_of_fmap_2. }
    specialize (IH Hk Hnd). case_decide; cbn; lia.
Qed.

(** With the first version a key that was never used is never picked once five
    others were, whatever is drawn. *)
Lemma key_1_starves random now d a d' :
  (0 <= random)%Q → (random < 1)%Q → NoDup (map sk_id (accounts_sender_keys_1 d)) →
  (5 ≤ used_keys d)%nat → accounts_get_private_key_1 random now d = Ok (a, d') →
  (∃ k, k ∈ accounts_sender_keys_1 d ∧ used k = true
        ∧ accounts_sender_keys_1 d' = map (touch (sk_id k) now) (accounts_sender_keys_1 d))
  ∧ used_keys d' = used_keys d.
Proof.
  intros H0 H1 Hnd Hu. unfold accounts_get_private_key_1.
  assert (0 < Z.of_nat (length (accounts_sender_keys_1 d))) as Hn.
  { unfold used_keys in Hu. pose proof (length_filter (λ k, used k = true) (accounts_sender_keys_1 d)).
    lia. }
  rewrite (proj2 (Z.ltb_lt _ _)) by done.
  pose proof (random_offset_bound random _ H0 H1 Hn) as Hoff.
  set (i := random_offset _ _) in *. set (l := merge_sort accessed_le (accounts_sender_keys_1 d)).
  assert (l ≡ₚ accounts_sender_keys_1 d) as Hp by apply merge_sort_Permutation.
  destruct (l !! Z.to_nat i) as [k|] eqn:Ek; cycle 1.
  { apply lookup_ge_None in Ek. rewrite Hp in Ek. lia. }
  assert (used k = true) as Hk.
  { destruct (used k) eqn:E; [done|].
    assert (StronglySorted accessed_le l) as Hs by (apply StronglySorted_merge_sort; apply _).
    pose proof (unused_last l _ k Hs Ek E) as Hl. rewrite Hp in Hl. unfold used_keys in Hu. lia. }
  assert (k ∈ accounts_sender_keys_1 d) as Hin by (rewrite <-Hp; by eapply list_elem_of_lookup_2).
  intros Ho. inv_ok. cbn. split; [by exists k|]. unfold used_keys. cbn. by apply (touch_used _ _ _ k).
Qed.

(** *** The migrated rows *)

(** A migrated row authenticates nobody. *)
Lemma migrate_secrets_unauthenticated eoa secret now now' d d' :
  migrate_secrets now d = Ok (tt, d') →
  (fst <$> count_secrets eoa secret now' d') = (fst <$> count_secrets eoa secret now' d).
Proof.
  intros [= <-]. unfold count_secrets. cbn. rewrite filter_app, length_app.
  replace (filter (λ r, secret_matches eoa secret r = true) (map _ _)) with (@nil secret_row);
    [cbn; do 2 f_equal; lia|].
  symmetry. apply filter_none. intros r (e & -> & _)%list_elem_of_fmap. unfold secret_matches. cbn.
  by rewrite andb_false_r.
Qed.
End Retired.

(** With the second version a nonce is accepted again when the secret it was
    recorded under has expired and the address has another. *)
Example nonce_2_replayed :
  let P : PgCalendar := λ t, t + 30 in
  let d := mk_old_db [mk_old_secret 1 (lit "a") [] [] 10; mk_old_secret 2 (lit "a") [] [] 40] 3 [] 1 in
  let r := accounts_insert_nonce_2 (lit "a") 7 5 d in
  is_ok r.1 = true ∧ is_ok (accounts_insert_nonce_2 (lit "a") 7 6 r.2).1 = false
  ∧ is_ok (accounts_insert_nonce_2 (lit "a") 7 11 r.2).1 = true.
Proof. by vm_compute. Qed.
