(* ===== verification/World.v ===== *)
(** * World: the effects of the server

    The resolvers read and change the chain through an Ethereum node, the
    database, and the outside world through HTTP. A computation is a finite
    tree of effects, each followed by what the code does with its answer, so
    that requests can be interleaved between any two effects; [run] executes
    one alone, and keeps the effects of a call that fails. What the world
    answers (the time, lost database connections, random bytes) is the class
    [Env], indexed by the number of the effect. *)
From stdpp Require Import base numbers strings list.
From Stdlib Require Import Strings.Byte ZArith Lia.
From S2P Require Import Prelude GoStd External Db.

(** ** github.com/ethereum/go-ethereum: the node's interface *)

(** [ethereum.CallMsg], the fields the program sets. *)
Record CallMsg := mk_CallMsg {
  cm_From : bytes;
  cm_To : bytes;
  cm_Data : bytes;
  cm_Value : option Z
}.

(** [ethTypes.DynamicFeeTx], the fields the program sets. *)
Record DynamicFeeTx := mk_DynamicFeeTx {
  ChainID : Z;
  Nonce : Z;
  GasFeeCap : Z;
  GasTipCap : Z;
  Gas : Z;
  Value : Z;
  Data : bytes;
  To : bytes
}.

(** A node at some state of the chain, and transaction signing. Every call
    may see the chain move on. *)
Class EthClient `{EthCrypto} := {
  Chain : Type;
  SignedTx : Type;
  EstimateGas : CallMsg → Chain → outcome Z * Chain;
  (** The latest header's base fee, nil on a chain without one. *)
  HeaderByNumber_BaseFee : Chain → outcome (option Z) * Chain;
  SuggestGasTipCap : Chain → outcome Z * Chain;
  PendingNonceAt : bytes → Chain → outcome Z * Chain;
  CallContract : CallMsg → Chain → outcome bytes * Chain;
  SendTransaction : SignedTx → Chain → outcome unit * Chain;
  CodeAt : bytes → Chain → outcome bytes * Chain;
  (** [SignTx(NewTx(tx), NewLondonSigner(chainId), key)]. *)
  SignTx : DynamicFeeTx → Z → PrivateKey → outcome SignedTx;
  SignedTx_Hash : SignedTx → bytes
}.

(** What happens to a statement sent to the database: it runs; it is lost
    before it runs; it runs, and its answer is lost. *)
Inductive db_fate :=
| DbRuns
| DbLost (e : gostring)
| DbAnswerLost (e : gostring).

Class Env := {
  env_now : nat → Z;
  env_db : nat → db_fate;
  (** [rand.Read] of crypto/rand: the bytes read and the error. *)
  env_rand : nat → bytes * option gostring;
  (** Whether [http.Post] has a response. *)
  env_post : nat → bool;
  (** [rand.Int] of math/rand. *)
  env_int : nat → Z
}.

Section World.
Context {EC : EthCrypto} {CL : EthClient} {EN : Env}.

(** What leaves the process: transactions handed to the node, simulated
    calls, and alarms. *)
Inductive event :=
| EvSendTransaction (tx : SignedTx)
| EvCallContract (m : CallMsg)
| EvAlarm (url : gostring) (snowflake : Z) (err : gostring).

Record world := mk_world {
  w_chain : Chain;
  w_db : db;
  w_trace : list event;
  w_tick : nat
}.

(** One interaction with the world: a call to the node, a statement sent to
    the database, something that leaves the process, a question to the
    environment. *)
Inductive effect : Type → Type :=
| ENode {R} (f : Chain → outcome R * Chain) : effect R
| EDb {R} (s : stmt R) : effect R
| EEmit (e : event) : effect unit
| EAsk {R} (f : nat → R) : effect R.

(** A computation: done with an outcome, or an effect and what follows each
    of its answers. *)
Inductive io (A : Type) : Type :=
| Done (o : outcome A)
| Step {R} (e : effect R) (k : outcome R → io A).
#[global] Arguments Done {_} _.
#[global] Arguments Step {_ _} _ _.

(** Errors, panics and the end of the process skip what follows. *)
Fixpoint io_then {A B} (m : io A) (f : A → io B) : io B :=
  match m with
  | Done (Ok a) => f a
  | Done (Err e) => Done (Err e)
  | Done (Panic p) => Done (Panic p)
  | Done (Fatal p) => Done (Fatal p)
  | Step e k => Step e (λ o, io_then (k o) f)
  end.

#[export] Instance io_ret : MRet io := λ A a, Done (Ok a).
#[export] Instance io_bind : MBind io := λ A B f m, io_then m f.

(** A computation without effects. *)
Definition pure {A} (m : outcome A) : io A := Done m.

Definition fail {A} (s : string) : io A := pure (Err (lit s)).

(** [if err != nil { .. }]: [h] runs on the error. *)
Fixpoint on_err {A} (m : io A) (h : gostring → io A) : io A :=
  match m with
  | Done (Err e) => h e
  | Done o => Done o
  | Step e k => Step e (λ o, on_err (k o) h)
  end.

(** [if err != nil { return fmt.Errorf("prefix%v", err) }]. *)
Definition io_wrap {A} (pre : string) (m : io A) : io A :=
  on_err m (λ e, pure (Err (lit pre ++ e))).

(** [if err != nil { log.Fatalf("prefix%v", err) }]. *)
Definition or_fatal {A} (pre : string) (m : io A) : io A :=
  on_err m (λ e, pure (Fatal (lit pre ++ e))).

(** [defer func() { if r := recover(); r != nil { .. } }()]: [h] sees how the
    computation ended. *)
Fixpoint recovering {A B} (m : io A) (h : outcome A → io B) : io B :=
  match m with
  | Done o => h o
  | Step e k => Step e (λ o, recovering (k o) h)
  end.

(** An effect on its own. *)
Definition perform {R} (e : effect R) : io R := Step e Done.

Definition emit (e : event) : io unit := perform (EEmit e).
Definition node {A} (f : Chain → outcome A * Chain) : io A := perform (ENode f).
Definition db_run {A} (s : stmt A) : io A := perform (EDb s).

(** A fresh answer of the environment. *)
Definition ask {A} (f : nat → A) : io A := perform (EAsk f).

(** ** What an effect does *)

Definition with_chain (c : Chain) (w : world) : world :=
  mk_world c (w_db w) (w_trace w) (w_tick w).
Definition with_db (d : db) (w : world) : world :=
  mk_world (w_chain w) d (w_trace w) (w_tick w).
Definition ticked (w : world) : world :=
  mk_world (w_chain w) (w_db w) (w_trace w) (S (w_tick w)).
Definition with_event (e : event) (w : world) : world :=
  mk_world (w_chain w) (w_db w) (w_trace w ++ [e]) (w_tick w).

(** The result of a statement with the database it leaves. *)
Definition stmt_result {A} (s : stmt A) (now : Z) (d : db) : outcome A * db :=
  match s now d with
  | Ok r => (Ok r.1, r.2)
  | Err e => (Err e, d)
  | Panic p => (Panic p, d)
  | Fatal p => (Fatal p, d)
  end.

Definition exec_db {A} (s : stmt A) (w : world) : outcome A * world :=
  let r := stmt_result s (env_now (w_tick w)) (w_db w) in
  match env_db (w_tick w) with
  | DbLost e => (Err e, ticked w)
  | DbRuns => (r.1, ticked (with_db r.2 w))
  | DbAnswerLost e => (Err e, ticked (with_db r.2 w))
  end.

Definition exec {R} (e : effect R) : world → outcome R * world :=
  match e with
  | ENode f => λ w, let r := f (w_chain w) in (r.1, with_chain r.2 w)
  | EDb s => exec_db s
  | EEmit e => λ w, (Ok tt, with_event e w)
  | EAsk f => λ w, (Ok (f (w_tick w)), ticked w)
  end.

(** Runs a computation alone. *)
Fixpoint run {A} (m : io A) (w : world) : outcome A * world :=
  match m with
  | Done o => (o, w)
  | Step e k => let r := exec e w in run (k r.1) r.2
  end.
Coercion run : io >-> Funclass.

(** ** Running computations *)

Lemma run_bind {A B} (m : io A) (f : A → io B) w :
  (m ≫= f) w = let r := m w in
               match r.1 with
               | Ok a => f a r.2
               | Err e => (Err e, r.2)
               | Panic p => (Panic p, r.2)
               | Fatal p => (Fatal p, r.2)
               end.
Proof. revert w. induction m as [[]|R e k IH]; intros w; [done..|]. apply IH. Qed.

Lemma run_on_err {A} (m : io A) h w :
  on_err m h w = let r := m w in match r.1 with Err e => h e r.2 | _ => r end.
Proof. revert w. induction m as [[]|R e k IH]; intros w; [done..|]. apply IH. Qed.

Lemma run_recovering {A B} (m : io A) (h : outcome A → io B) w :
  recovering m h w = h (m w).1 (m w).2.
Proof. revert w. induction m as [o|R e k IH]; intros w; [done|]. apply IH. Qed.

Lemma io_bind_Ok {A B} (m : io A) (f : A → io B) w b w'' :
  (m ≫= f) w = (Ok b, w'') ↔ ∃ a w', m w = (Ok a, w') ∧ f a w' = (Ok b, w'').
Proof.
  rewrite run_bind. destruct (m w) as [[a|e|p|p] w'] eqn:E; cbn; split; try naive_solver.
Qed.

(** A first step that succeeds. *)
Lemma io_bind_run {A B} (m : io A) (f : A → io B) w a w' :
  m w = (Ok a, w') → (m ≫= f) w = f a w'.
Proof. intros E. rewrite run_bind. by rewrite E. Qed.

Lemma run_perform {R} (e : effect R) w : perform e w = exec e w.
Proof. cbn. by destruct (exec e w). Qed.

Lemma run_pure {A} (m : outcome A) w : pure m w = (m, w).
Proof. done. Qed.

Lemma run_ret {A} (a : A) w : (mret a : io A) w = (Ok a, w).
Proof. done. Qed.

Lemma pure_Ok {A} (m : outcome A) w a w' : pure m w = (Ok a, w') ↔ m = Ok a ∧ w' = w.
Proof. cbn. split; [by intros [= -> ->]|by intros [-> ->]]. Qed.

Lemma ret_Ok {A} (a b : A) w w' : (mret a : io A) w = (Ok b, w') ↔ b = a ∧ w' = w.
Proof. cbn. split; [by intros [= -> ->]|by intros [-> ->]]. Qed.

Lemma emit_Ok e w u w' : emit e w = (Ok u, w') ↔ w' = with_event e w.
Proof. cbn. destruct u. split; [by intros [= ->]|by intros ->]. Qed.

Lemma node_Ok {A} (f : Chain → outcome A * Chain) w a w' :
  node f w = (Ok a, w') ↔ ∃ c, f (w_chain w) = (Ok a, c) ∧ w' = with_chain c w.
Proof.
  cbn. destruct (f (w_chain w)) as [o c]. cbn. split.
  - intros [= -> <-]. eauto.
  - by intros (c' & [= -> ->] & ->).
Qed.

Lemma node_run {A} (f : Chain → outcome A * Chain) w a c :
  f (w_chain w) = (Ok a, c) → node f w = (Ok a, with_chain c w).
Proof. intros E. apply node_Ok. eauto. Qed.

(** When the handler never succeeds, a success is the computation's own. *)
Lemma on_err_Ok {A} (m : io A) (h : gostring → io A) w a w' :
  (∀ e v, is_ok (h e v).1 = false) →
  on_err m h w = (Ok a, w') ↔ m w = (Ok a, w').
Proof.
  intros Hh. rewrite run_on_err. destruct (m w) as [[b|e|p|p] v] eqn:E; cbn; [done| |done..].
  specialize (Hh e v). destruct (h e v) as [[]]; naive_solver.
Qed.

Lemma io_wrap_Ok {A} pre (m : io A) w a w' :
  io_wrap pre m w = (Ok a, w') ↔ m w = (Ok a, w').
Proof. by apply on_err_Ok. Qed.

Lemma or_fatal_Ok {A} pre (m : io A) w a w' :
  or_fatal pre m w = (Ok a, w') ↔ m w = (Ok a, w').
Proof. by apply on_err_Ok. Qed.

(** A handler that ends in an error. *)
Lemma then_err_not_ok {A B} (m : io A) (e : gostring) w :
  is_ok ((m;; (pure (Err e) : io B)) w).1 = false.
Proof. rewrite run_bind. by destruct (m w) as [[]]. Qed.

Lemma on_err_run {A} (m : io A) h w a w' :
  m w = (Ok a, w') → on_err m h w = (Ok a, w').
Proof. intros E. rewrite run_on_err. by rewrite E. Qed.

Lemma db_run_Ok {A} (s : stmt A) w a w' :
  db_run s w = (Ok a, w') →
  ∃ d', s (env_now (w_tick w)) (w_db w) = Ok (a, d') ∧ w' = ticked (with_db d' w).
Proof.
  cbn. unfold exec_db, stmt_result. intros H.
  destruct (s _ _) as [[b d]|e|p|p] eqn:E, (env_db (w_tick w)); simplify_eq/=; eauto.
Qed.

Lemma db_run_runs {A} (s : stmt A) w a d' :
  env_db (w_tick w) = DbRuns → s (env_now (w_tick w)) (w_db w) = Ok (a, d') →
  db_run s w = (Ok a, ticked (with_db d' w)).
Proof. cbn. unfold exec_db, stmt_result. by intros -> ->. Qed.

Lemma ask_Ok {A} (f : nat → A) w a w' :
  ask f w = (Ok a, w') ↔ a = f (w_tick w) ∧ w' = ticked w.
Proof. cbn. split; [by intros [= -> ->]|by intros [-> ->]]. Qed.

(** Runs are taken apart by the lemmas above, not by reduction. *)
#[global] Arguments run : simpl never.

(** ** Relations every step keeps

    [keeps R m]: every effect [m] can perform, whatever the answers to the
    ones before it, takes a world to one related by [R]. It speaks of each
    effect by itself, so it holds too when other computations change the world
    in between. *)
Fixpoint keeps (R : world → world → Prop) {A} (m : io A) : Prop :=
  match m with
  | Done _ => True
  | Step e k => (∀ w, R w (exec e w).2) ∧ ∀ o, keeps R (k o)
  end.

(** For a preorder, so does the whole run. *)
Lemma keeps_run R `{!PreOrder R} {A} (m : io A) w : keeps R m → R w (m w).2.
Proof.
  revert w. induction m as [o|T e k IH]; intros w; [done|].
  intros [He Hk]. etrans; [apply He|]. by apply IH.
Qed.

Lemma keeps_mono (R R' : world → world → Prop) {A} (m : io A) :
  (∀ w w', R w w' → R' w w') → keeps R m → keeps R' m.
Proof. intros HR. induction m as [o|T e k IH]; cbn; naive_solver. Qed.

Section Keeps.
Context (R : world → world → Prop).

Lemma keeps_pure {A} (m : outcome A) : keeps R (pure m).
Proof. done. Qed.

Lemma keeps_ret {A} (a : A) : keeps R (mret a).
Proof. done. Qed.

Lemma keeps_bind {A B} (m : io A) (f : A → io B) :
  keeps R m → (∀ a, keeps R (f a)) → keeps R (m ≫= f).
Proof.
  intros Hm Hf. induction m as [[]|T e k IH]; cbn; [by auto|done..|].
  destruct Hm as [He Hk]. split; [done|]. intros o. by apply IH.
Qed.

Lemma keeps_on_err {A} (m : io A) h :
  keeps R m → (∀ e, keeps R (h e)) → keeps R (on_err m h).
Proof.
  intros Hm Hh. induction m as [[]|T e k IH]; cbn; [done|by auto|done..|].
  destruct Hm as [He Hk]. split; [done|]. intros o. by apply IH.
Qed.

Lemma keeps_recovering {A B} (m : io A) (h : outcome A → io B) :
  keeps R m → (∀ o, keeps R (h o)) → keeps R (recovering m h).
Proof.
  intros Hm Hh. induction m as [o|T e k IH]; cbn; [done|].
  destruct Hm as [He Hk]. split; [done|]. intros o. by apply IH.
Qed.

Lemma keeps_wrap {A} pre (m : io A) : keeps R m → keeps R (io_wrap pre m).
Proof. intros. by apply keeps_on_err. Qed.

Lemma keeps_fatal {A} pre (m : io A) : keeps R m → keeps R (or_fatal pre m).
Proof. intros. by apply keeps_on_err. Qed.

Lemma keeps_perform {T} (e : effect T) : (∀ w, R w (exec e w).2) → keeps R (perform e).
Proof. done. Qed.

(** A statement keeps a relation on databases that it respects when it
    succeeds, on every outcome. *)
Lemma keeps_db_run {A} (Rd : db → db → Prop) `{!Reflexive Rd} (s : stmt A) :
  (∀ w d, Rd (w_db w) d → R w (ticked (with_db d w))) →
  (∀ now d a d', s now d = Ok (a, d') → Rd d d') →
  keeps R (db_run s).
Proof.
  intros HR Hs. apply keeps_perform. intros w. cbn. unfold exec_db, stmt_result.
  assert (Rd (w_db w) (stmt_result s (env_now (w_tick w)) (w_db w)).2) as Hd.
  { unfold stmt_result. destruct (s _ _) as [[b d]|e|p|p] eqn:E; cbn; eauto. }
  unfold stmt_result in Hd. destruct (env_db (w_tick w)); cbn; auto.
  replace (ticked w) with (ticked (with_db (w_db w) w)) by (by destruct w). auto.
Qed.
End Keeps.

(** ** Counting effects

    [costs c n m]: however the world answers, the effects [m] performs weigh
    at most [n] in total. *)
Fixpoint costs (c : ∀ R, effect R → nat) (n : nat) {A} (m : io A) : Prop :=
  match m with
  | Done _ => True
  | Step e k => (c _ e ≤ n)%nat ∧ ∀ o, costs c (n - c _ e) (k o)
  end.

Section Costs.
Context (c : ∀ R, effect R → nat).

Lemma costs_mono n k {A} (m : io A) : (n ≤ k)%nat → costs c n m → costs c k m.
Proof.
  revert n k. induction m as [o|T e f IH]; intros n k Hle; cbn; [done|].
  intros [Hn Hk]. split; [lia|]. intros o. apply (IH _ (n - c _ e)%nat); [lia|done].
Qed.

Lemma costs_bind n k {A B} (m : io A) (f : A → io B) :
  costs c n m → (∀ a, costs c k (f a)) → costs c (n + k) (m ≫= f).
Proof.
  revert n. induction m as [[]|T e g IH]; intros n Hm Hf; cbn; [|done..|].
  - eapply costs_mono; [|apply Hf]. lia.
  - destruct Hm as [Hn Hk]. split; [lia|]. intros o.
    replace (n + k - c T e)%nat with (n - c T e + k)%nat by lia. by apply IH.
Qed.

Lemma costs_on_err n k {A} (m : io A) h :
  costs c n m → (∀ e, costs c k (h e)) → costs c (n + k) (on_err m h).
Proof.
  revert n. induction m as [[]|T e g IH]; intros n Hm Hf; cbn; [done| |done..|].
  - eapply costs_mono; [|apply Hf]. lia.
  - destruct Hm as [Hn Hk]. split; [lia|]. intros o.
    replace (n + k - c T e)%nat with (n - c T e + k)%nat by lia. by apply IH.
Qed.

Lemma costs_bind_le n N {A B} (m : io A) (f : A → io B) :
  (n ≤ N)%nat → costs c n m → (∀ a, costs c (N - n) (f a)) → costs c N (m ≫= f).
Proof. intros Hle Hm Hf. replace N with (n + (N - n))%nat by lia. by apply costs_bind. Qed.

Lemma costs_on_err_le n N {A} (m : io A) h :
  (n ≤ N)%nat → costs c n m → (∀ e, costs c (N - n) (h e)) → costs c N (on_err m h).
Proof. intros Hle Hm Hf. replace N with (n + (N - n))%nat by lia. by apply costs_on_err. Qed.

Lemma costs_recovering n k {A B} (m : io A) (h : outcome A → io B) :
  costs c n m → (∀ o, costs c k (h o)) → costs c (n + k) (recovering m h).
Proof.
  revert n. induction m as [o|T e g IH]; intros n Hm Hf; cbn.
  - eapply costs_mono; [|apply Hf]. lia.
  - destruct Hm as [Hn Hk]. split; [lia|]. intros o.
    replace (n + k - c T e)%nat with (n - c T e + k)%nat by lia. by apply IH.
Qed.

Lemma costs_wrap n {A} pre (m : io A) : costs c n m → costs c n (io_wrap pre m).
Proof. intros. rewrite <-(Nat.add_0_r n). by apply costs_on_err. Qed.

Lemma costs_fatal n {A} pre (m : io A) : costs c n m → costs c n (or_fatal pre m).
Proof. intros. rewrite <-(Nat.add_0_r n). by apply costs_on_err. Qed.

End Costs.

End World.

(** Computations are followed by the rules above, not by reduction. *)
#[global] Arguments io_then : simpl never.
#[global] Arguments on_err : simpl never.
#[global] Arguments recovering : simpl never.
#[global] Arguments perform : simpl never.
#[global] Arguments io_bind : simpl never.
#[global] Arguments io_wrap : simpl never.
#[global] Arguments or_fatal : simpl never.
#[global] Arguments emit : simpl never.
#[global] Arguments node : simpl never.
#[global] Arguments db_run : simpl never.
#[global] Arguments ask : simpl never.

(** Follows the structure of a computation; what its steps keep is found in
    the hint database. *)
Create HintDb keepsdb.
Ltac keeps_step :=
  lazymatch goal with
  | |- keeps _ (_ ≫= _) => apply keeps_bind; [|intros ?]
  | |- keeps _ (io_wrap _ _) => apply keeps_wrap
  | |- keeps _ (or_fatal _ _) => apply keeps_fatal
  | |- keeps _ (on_err _ _) => apply keeps_on_err; [|intros ?]
  | |- keeps _ (recovering _ _) => apply keeps_recovering; [|intros ?]
  | |- keeps _ (pure _) => apply keeps_pure
  | |- keeps _ (fail _) => apply keeps_pure
  | |- keeps _ (mret _) => apply keeps_ret
  | |- keeps _ (match ?x with _ => _ end) => destruct x eqn:?
  | |- keeps _ (let _ := _ in _) => cbv zeta
  end.
Ltac keeps_tac := repeat first [keeps_step | progress auto with keepsdb].

(** The first computation of a sequence takes at most [n] effects. *)
Ltac spend n := apply (costs_bind_le _ n); [lia| |intros ?; cbn [Nat.sub]].

(** Runs the first step of a sequence, whose success is known. *)
Ltac run_step H :=
  erewrite io_bind_run;
  [|first [ apply on_err_run, node_run; exact H | apply node_run; exact H
          | apply on_err_run; exact H | exact H ]].

(** Inverts a successful run into its successful steps. *)
Ltac inv_io :=
  repeat match goal with
  | H : run (_ ≫= _) _ = (Ok _, _) |- _ => apply io_bind_Ok in H as (? & ? & ? & ?)
  | H : run (io_wrap _ _) _ = (Ok _, _) |- _ => apply io_wrap_Ok in H
  | H : run (or_fatal _ _) _ = (Ok _, _) |- _ => apply or_fatal_Ok in H
  | H : run (on_err _ _) _ = (Ok _, _) |- _ =>
      apply on_err_Ok in H; [|by intros; first [reflexivity | apply then_err_not_ok]]
  | H : run (pure _) _ = (Ok _, _) |- _ => apply pure_Ok in H as [? ->]
  | H : run (fail _) _ = (Ok _, _) |- _ => discriminate H
  | H : run (mret _) _ = (Ok _, _) |- _ => apply ret_Ok in H as [? ->]
  | H : run (node _) _ = (Ok _, _) |- _ => apply node_Ok in H as (? & ? & ->)
  | H : run (emit _) _ = (Ok _, _) |- _ => apply emit_Ok in H as ->
  | H : run (ask _) _ = (Ok _, _) |- _ => apply ask_Ok in H as [? ->]
  | H : ensure _ _ = Ok _ |- _ => apply ensure_Ok in H
  | H : bool_decide _ = true |- _ => apply bool_decide_eq_true in H
  end.
