(* ===== verification/Schedule.v ===== *)
(** * Schedule: requests served at the same time

    net/http serves every request in a goroutine of its own, so the effects
    of requests interleave. A pool is a list of computations over one world;
    a step performs the next effect of any of them. A computation that ends
    in [log.Fatal] ends the process: no step follows. A panic only ends its
    own request. *)
From stdpp Require Import base numbers strings list relations.
From Stdlib Require Import Strings.Byte ZArith Lia.
From S2P Require Import Prelude GoStd External Db World.

(** Computations labelled with the requests they serve. *)
Abbreviation pool Req A := (list (Req * io A)).

Section Schedule.
Context {EC : EthCrypto} {CL : EthClient} {EN : Env}.

Definition is_fatal {A} (t : io A) : bool :=
  match t with Done (Fatal _) => true | _ => false end.

Definition finished {A} (t : io A) : bool :=
  match t with Done _ => true | _ => false end.

(** The process runs while no request has ended it. *)
Definition alive {Req A} (l : pool Req A) : Prop := Forall (λ p, is_fatal p.2 = false) l.

(** One request performs its next effect. *)
Inductive effect_step {Req A} : pool Req A * world → pool Req A * world → Prop :=
| effect_step_intro l i q R (e : effect R) k w :
    alive l → l !! i = Some (q, Step e k) →
    effect_step (l, w) (<[i := (q, k (exec e w).1)]> l, (exec e w).2).

(** Requests arrive at any time. *)
Inductive serving {Req A} (prog : Req → io A) : pool Req A * world → pool Req A * world → Prop :=
| serving_effect c c' : effect_step c c' → serving prog c c'
| serving_arrival l q w : alive l → serving prog (l, w) (l ++ [(q, prog q)], w).

(** ** Rely and guarantee

    [rg P m Q]: started where [P] holds, with the others changing the world
    by [rely] between its effects, [m] changes it only by [guar], and where it
    succeeds with [a], [Q a] holds. *)
Section RelyGuarantee.
Context (rely guar : world → world → Prop).

Fixpoint rg {A} (P : world → Prop) (m : io A) (Q : A → world → Prop) : Prop :=
  match m with
  | Done (Ok a) => ∀ w, P w → Q a w
  | Done _ => True
  | Step e k =>
      ∀ w, P w → guar w (exec e w).2 ∧ rg (rely (exec e w).2) (k (exec e w).1) Q
  end.

(** What the others cannot invalidate. *)
Definition stable (P : world → Prop) : Prop := ∀ w w', P w → rely w w' → P w'.

Lemma rg_conseq {A} (P P' : world → Prop) (m : io A) (Q Q' : A → world → Prop) :
  (∀ w, P' w → P w) → (∀ a w, Q a w → Q' a w) → rg P m Q → rg P' m Q'.
Proof.
  revert P P'. induction m as [[]|R e k IH]; intros P P' HP HQ H; cbn in *; [by eauto|done..|].
  intros w Hw. destruct (H w (HP w Hw)) as [Hg Hk]. split; [done|]. by eapply IH.
Qed.

Lemma rg_pre {A} (P P' : world → Prop) (m : io A) Q :
  (∀ w, P' w → P w) → rg P m Q → rg P' m Q.
Proof. intros HP. by apply rg_conseq. Qed.

Lemma rg_ret {A} P (a : A) (Q : A → world → Prop) : (∀ w, P w → Q a w) → rg P (mret a) Q.
Proof. done. Qed.

Lemma rg_pure_bind {A B} P (m : outcome A) (f : A → io B) Q :
  (∀ a, m = Ok a → rg P (f a) Q) → rg P (pure m ≫= f) Q.
Proof. intros Hf. destruct m; [by apply Hf|done..]. Qed.

Lemma rg_wrap_pure_bind {A B} P pre (m : outcome A) (f : A → io B) Q :
  (∀ a, m = Ok a → rg P (f a) Q) → rg P (io_wrap pre (pure m) ≫= f) Q.
Proof. intros Hf. destruct m; [by apply Hf|done..]. Qed.

Context `{!PreOrder rely} (guar_rely : ∀ w w', guar w w' → rely w w').

Lemma stable_rely w : stable (rely w).
Proof. intros w1 w2 H1 H2. by etrans. Qed.

Lemma stable_after P w R (e : effect R) :
  stable P → P w → guar w (exec e w).2 → ∀ w', rely (exec e w).2 w' → P w'.
Proof. intros Hs Hw Hg w' Hr. eapply Hs; [|exact Hr]. eapply Hs; [exact Hw|]. by apply guar_rely. Qed.

(** A stable precondition is still there after the first computation. *)
Lemma rg_bind {A B} P (m : io A) (f : A → io B) Q Q' :
  stable P → rg P m Q → (∀ a, rg (λ w, P w ∧ Q a w) (f a) Q') → rg P (m ≫= f) Q'.
Proof.
  revert P. induction m as [[a| | |]|R e k IH]; intros P Hs Hm Hf; [|done..|].
  - eapply rg_pre; [|apply Hf]. intros w Hw. split; [done|by apply Hm].
  - intros w Hw. destruct (Hm w Hw) as [Hg Hk]. split; [done|].
    apply IH; [apply stable_rely|done|]. intros a. eapply rg_pre; [|apply Hf].
    intros w' [H1 H2]. split; [|done]. by eapply stable_after.
Qed.

Lemma rg_on_err {A} P (m : io A) h Q :
  stable P → rg P m Q → (∀ e, rg P (h e) Q) → rg P (on_err m h) Q.
Proof.
  revert P. induction m as [[a| | |]|R e k IH]; intros P Hs Hm Hf; [done|by apply Hf|done..|].
  intros w Hw. destruct (Hm w Hw) as [Hg Hk]. split; [done|].
  apply IH; [apply stable_rely|done|]. intros e'. eapply rg_pre; [|apply Hf].
  intros w' H1. by eapply stable_after.
Qed.

Lemma rg_fatal {A} P pre (m : io A) Q : stable P → rg P m Q → rg P (or_fatal pre m) Q.
Proof. intros. by apply rg_on_err. Qed.

Lemma rg_recovering {A B} P (m : io A) (h : outcome A → io B) Q Q' :
  stable P → rg P m Q → (∀ a, rg (λ w, P w ∧ Q a w) (h (Ok a)) Q') →
  (∀ o, is_ok o = false → rg P (h o) Q') → rg P (recovering m h) Q'.
Proof.
  revert P. induction m as [o|R e k IH]; intros P Hs Hm Hf Hh.
  - destruct o as [a| | |]; [|by apply Hh..]. eapply rg_pre; [|apply Hf].
    intros w Hw. split; [done|by apply Hm].
  - intros w Hw. destruct (Hm w Hw) as [Hg Hk]. split; [done|].
    apply IH; [apply stable_rely|done| |].
    + intros a. eapply rg_pre; [|apply Hf]. intros w' [H1 H2]. split; [|done].
      by eapply stable_after.
    + intros o Ho. eapply rg_pre; [|by apply Hh]. intros w'. by eapply stable_after.
Qed.

(** An effect whose answer is known from the world. *)
Lemma rg_perform {R} (P : world → Prop) (e : effect R) (Q : R → world → Prop) :
  (∀ w, P w → guar w (exec e w).2
              ∧ ∀ a w', (exec e w).1 = Ok a → rely (exec e w).2 w' → Q a w') →
  rg P (perform e) Q.
Proof.
  intros H w Hw. destruct (H w Hw) as [Hg Hq]. split; [done|].
  destruct (exec e w).1; cbn; auto.
Qed.

Lemma keeps_rg {A} P (m : io A) : keeps guar m → rg P m (λ _ _, True).
Proof.
  revert P. induction m as [[]|R e k IH]; intros P; cbn; [done..|].
  intros [He Hk] w _. auto.
Qed.

(** What is stable is still known after it. *)
Lemma keeps_rg_stable {A} P (m : io A) : stable P → keeps guar m → rg P m (λ _, P).
Proof.
  revert P. induction m as [[]|R e k IH]; intros P HP; [by intros _ w|done..|].
  intros [He Hk] w Hw. split; [done|].
  eapply rg_conseq; [| |apply (IH _ (rely (exec e w).2))]; [done| |apply stable_rely|apply Hk].
  intros a w' Hr. by eapply stable_after.
Qed.

(** A computation that is only required to keep the guarantee. *)
Lemma rg_seq {A B} P (m : io A) (f : A → io B) Q :
  stable P → keeps guar m → (∀ a, rg P (f a) Q) → rg P (m ≫= f) Q.
Proof.
  intros Hs Hm Hf. eapply rg_bind; [done|by apply keeps_rg|].
  intros a. eapply rg_pre; [|apply Hf]. tauto.
Qed.

(** *** Pools *)

(** Every computation of the pool is fit for the current world and its
    successors. *)
Definition fit {Req A} (Q : Req → A → world → Prop) (l : pool Req A) (w : world) : Prop :=
  ∀ i q t, l !! i = Some (q, t) → rg (rely w) t (Q q).

Lemma fit_effect {Req A} (Q : Req → A → world → Prop) l w l' w' :
  fit Q l w → effect_step (l, w) (l', w') → guar w w' ∧ fit Q l' w'.
Proof.
  intros Hf Hs. inversion Hs as [l0 i q R e k w0 Ha Hi]; subst.
  destruct (Hf i _ _ Hi w) as [Hg Hk]; [reflexivity|]. split; [done|].
  intros j q' t Hj. destruct (decide (i = j)) as [<-|Hn].
  - rewrite list_lookup_insert_eq in Hj by (by eapply lookup_lt_Some). by injection Hj as <- <-.
  - rewrite list_lookup_insert_ne in Hj by done.
    eapply rg_pre; [|by eapply Hf]. intros w' Hw'. etrans; [by apply guar_rely|done].
Qed.

Lemma fit_arrival {Req A} (Q : Req → A → world → Prop) l q t w :
  fit Q l w → rg (λ _, True) t (Q q) → fit Q (l ++ [(q, t)]) w.
Proof.
  intros Hf Ht i q' t' Hi. apply lookup_app_Some in Hi as [Hi|[_ Hi]]; [by eapply Hf|].
  apply list_lookup_singleton_Some in Hi as [_ Hi]. injection Hi as <- <-.
  eapply rg_pre; [|exact Ht]. done.
Qed.

(** When every program is fit, the server guarantees every step, and a
    request that has succeeded has its postcondition. *)
Lemma serving_sound {Req A} (prog : Req → io A) (Q : Req → A → world → Prop) l w l' w' :
  (∀ q, rg (λ _, True) (prog q) (Q q)) →
  fit Q l w → rtc (serving prog) (l, w) (l', w') →
  rtc guar w w' ∧ rely w w' ∧ fit Q l' w'
  ∧ ∀ i q a, l' !! i = Some (q, Done (Ok a)) → Q q a w'.
Proof.
  intros Hp Hf Hs. remember (l, w) as c eqn:E. remember (l', w') as c' eqn:E'.
  revert l w Hf E. induction Hs as [c|c [l1 w1] c' Hstep Hs IH]; intros l w Hf E; subst.
  - injection E as -> ->. split; [done|]. split; [done|]. split; [done|].
    intros i q a Hi. specialize (Hf i _ _ Hi). by apply Hf.
  - inversion Hstep as [c c1 Hstep'|l0 q w0 Ha]; subst.
    + destruct (fit_effect _ _ _ _ _ Hf Hstep') as [Hg Hf1].
      destruct (IH eq_refl l1 w1 Hf1 eq_refl) as (H1 & H2 & H3).
      split; [by eapply rtc_l|]. split; [|done]. etrans; [by apply guar_rely|done].
    + apply (IH eq_refl (l ++ [(q, prog q)]) w1); [|done]. by apply fit_arrival.
Qed.
End RelyGuarantee.

(** ** Steps of a pool *)

Lemma keeps_effect R {Req A} (l l' : pool Req A) w w' :
  Forall (λ p, keeps R p.2) l → effect_step (l, w) (l', w') →
  R w w' ∧ Forall (λ p, keeps R p.2) l'.
Proof.
  intros Hl Hs. inversion Hs as [l0 i q T e k w0 Ha Hi]; subst.
  destruct (proj1 (Forall_lookup _ _) Hl i _ Hi) as [He Hk]. split; [done|].
  apply Forall_insert; [done|]. apply Hk.
Qed.

Lemma serving_keeps R {Req A} (prog : Req → io A) l w l' w' :
  rtc (serving prog) (l, w) (l', w') →
  (∀ q, keeps R (prog q)) → Forall (λ p, keeps R p.2) l → rtc R w w'.
Proof.
  intros Hs Hp Hl. remember (l, w) as c eqn:E. remember (l', w') as c' eqn:E'.
  revert l w Hl E. induction Hs as [c|c [l1 w1] c' Hstep Hs IH]; intros l w Hl E; subst.
  { by injection E as -> ->. }
  inversion Hstep as [c c1 Hstep'|l0 q w0 Ha]; subst.
  - destruct (keeps_effect R _ _ _ _ Hl Hstep') as [HR Hl1]. eapply rtc_l; [exact HR|].
    by apply (IH eq_refl l1 w1).
  - apply (IH eq_refl (l ++ [(q, prog q)]) w1); [|done]. apply Forall_app. split; [done|].
    apply Forall_singleton, Hp.
Qed.

(** One request after the other is a schedule: a request that runs alone
    computes what [run] says. *)
Lemma run_schedule {Req A} (l : pool Req A) q (m : io A) w :
  alive l → rtc effect_step (l ++ [(q, m)], w) (l ++ [(q, Done (m w).1)], (m w).2).
Proof.
  intros Hl. revert w. induction m as [o|R e k IH]; intros w; [done|].
  eapply rtc_l; [|apply (IH (exec e w).1)].
  replace (l ++ [(q, k (exec e w).1)])
    with (<[length l := (q, k (exec e w).1)]> (l ++ [(q, Step e k)]))
    by (rewrite insert_app_r_alt, Nat.sub_diag by lia; done).
  apply effect_step_intro; [|by rewrite lookup_app_r, Nat.sub_diag by lia].
  apply Forall_app. split; [done|]. by apply Forall_singleton.
Qed.

(** The effects the requests may still perform. *)
Definition one (R : Type) (e : effect R) : nat := 1.

(** No effect is possible once every request has finished, and until then one
    is, unless the process has ended. *)
Lemma effect_progress {Req A} (l : pool Req A) w :
  alive l → (∃ c, effect_step (l, w) c) ↔ Exists (λ p, finished p.2 = false) l.
Proof.
  intros Ha. rewrite Exists_exists. split.
  - intros [c Hs]. inversion Hs as [l0 i q T e k w0 _ Hi]; subst.
    exists (q, Step e k). split; [by eapply list_elem_of_lookup_2|done].
  - intros ([q [o|T e k]] & Hin & Hf); [done|]. apply list_elem_of_lookup in Hin as [i Hi].
    eexists. by eapply (effect_step_intro _ i).
Qed.

(** Each effect uses up one of what the pool had left. *)
Lemma effect_bound {Req A} n (l l' : pool Req A) w w' (b : list nat) :
  Forall2 (λ k p, costs one k p.2) b l → nsteps effect_step n (l, w) (l', w') →
  (n ≤ sum_list b)%nat.
Proof.
  revert l w b. induction n as [|n IH]; intros l w b Hb Hs; [lia|].
  inversion Hs as [|n0 c [l1 w1] c' Hstep Hrest]; subst.
  inversion Hstep as [l0 i q T e k w0 Ha Hi]; subst.
  destruct (Forall2_lookup_r _ _ _ _ _ Hb Hi) as (m & Hm & Hc). cbn in Hc.
  destruct Hc as [Hone Hk]. unfold one in *.
  assert (sum_list b = S (sum_list (<[i := (m - 1)%nat]> b))) as Hsum.
  { clear -Hm Hone. revert i Hm. induction b as [|x b IH]; intros [|i] Hm; simplify_eq/=; [lia|].
    specialize (IH i Hm). lia. }
  rewrite Hsum. apply le_n_S. eapply IH; [|exact Hrest].
  apply Forall2_insert; [done|]. apply Hk.
Qed.

(** Every request has its budget. *)
Definition bounded {Req A} (budget : Req → nat) (l : pool Req A) : Prop :=
  Forall (λ p, costs one (budget p.1) p.2) l.

Lemma bounded_effect {Req A} budget (l l' : pool Req A) w w' :
  bounded budget l → effect_step (l, w) (l', w') → bounded budget l'.
Proof.
  intros Hb Hs. inversion Hs as [l0 i q T e k w0 Ha Hi]; subst. apply Forall_insert; [done|].
  destruct (proj1 (Forall_lookup _ _) Hb i _ Hi) as [_ Hk]. eapply costs_mono; [|apply Hk].
  cbn. lia.
Qed.

Lemma bounded_serving {Req A} budget (prog : Req → io A) c c' :
  (∀ q, costs one (budget q) (prog q)) → bounded budget c.1 → rtc (serving prog) c c' →
  bounded budget c'.1.
Proof.
  intros Hp Hb Hs. induction Hs as [c|c c1 c' Hstep _ IH]; [done|]. apply IH.
  destruct Hstep as [[l w] [l' w'] Hstep|l q w Ha]; [by eapply bounded_effect|].
  apply Forall_app. split; [done|]. by apply Forall_singleton.
Qed.

(** Without further arrivals no schedule is longer than the budgets. *)
Lemma bounded_nsteps {Req A} budget (l : pool Req A) w n c :
  bounded budget l → nsteps effect_step n (l, w) c →
  (n ≤ sum_list (map (λ p, budget p.1) l))%nat.
Proof.
  intros Hb Hs. destruct c as [l' w']. eapply effect_bound; [|exact Hs].
  clear Hs. induction Hb; constructor; done.
Qed.

(** The requests have all been answered, or one of them ended the process. *)
Definition settled {Req A} (l : pool Req A) : Prop :=
  Forall (λ p, finished p.2 = true) l ∨ ¬ alive l.

Lemma effect_or_settled {Req A} (l : pool Req A) w :
  (∃ c, effect_step (l, w) c) ∨ settled l.
Proof.
  destruct (decide (Forall (λ p : Req * io A, is_fatal p.2 = false) l)) as [Ha|Ha];
    [|by right; right].
  destruct (decide (Exists (λ p : Req * io A, finished p.2 = false) l)) as [He|He].
  - left. by apply effect_progress.
  - right; left. apply Forall_Exists_neg in He. eapply Forall_impl; [exact He|].
    intros p. cbn. by destruct (finished p.2).
Qed.

(** Every pool can be served to the end. *)
Lemma bounded_settles {Req A} budget (l : pool Req A) w :
  bounded budget l → ∃ l' w', rtc effect_step (l, w) (l', w') ∧ settled l'.
Proof.
  intros Hb. remember (sum_list (map (λ p, budget p.1) l)) as n eqn:En.
  assert (∀ k c, nsteps effect_step k (l, w) c → (k ≤ n)%nat) as Hn
    by (intros k c Hk; subst; by eapply bounded_nsteps).
  clear En Hb. revert l w Hn. induction n as [|n IH]; intros l w Hn;
    (destruct (effect_or_settled l w) as [[[l1 w1] Hs]|Hs]; [|by exists l, w]).
  - specialize (Hn 1%nat _ (nsteps_once _ _ Hs)). lia.
  - destruct (IH l1 w1) as (l' & w' & Hr & Hl').
    + intros k c Hk. specialize (Hn (S k) c (nsteps_l _ _ _ _ _ Hs Hk)). lia.
    + exists l', w'. split; [by eapply rtc_l|done].
Qed.

(** ** Winning a race

    [claims won m]: [m] cannot succeed without an effect that [won] holds
    of. *)
Section Claims.
Context (won : ∀ R, effect R → outcome R → Prop).

Fixpoint claims {A} (m : io A) : Prop :=
  match m with
  | Done o => is_ok o = false
  | Step e k => ∀ o, won _ e o ∨ claims (k o)
  end.

(** What comes first does not matter: when it fails, so does the whole. *)
Lemma claims_bind_r {A B} (m : io A) (f : A → io B) : (∀ a, claims (f a)) → claims (m ≫= f).
Proof.
  intros Hf. induction m as [[]|R e k IH]; [by apply Hf|done..|]. intros o. right. apply IH.
Qed.

Lemma claims_bind_l {A B} (m : io A) (f : A → io B) : claims m → claims (m ≫= f).
Proof.
  intros Hm. induction m as [[]|R e k IH]; [done..|]. intros o.
  destruct (Hm o) as [Hw|Hk]; [by left|]. right. by apply IH.
Qed.

Lemma claims_on_err {A} (m : io A) h : claims m → (∀ e, claims (h e)) → claims (on_err m h).
Proof.
  intros Hm Hh. induction m as [[]|R e k IH]; [done|by apply Hh|done..|]. intros o.
  destruct (Hm o) as [Hw|Hk]; [by left|]. right. by apply IH.
Qed.

(** [free w]: nobody has won yet. Winning is only possible then and ends it,
    and once it has ended it stays so. *)
Context (free : world → Prop).
Context (won_free : ∀ R (e : effect R) w, won R e (exec e w).1 → free w ∧ ¬ free (exec e w).2).
Context (R : world → world → Prop) (free_anti : ∀ w w', R w w' → free w' → free w).

(** At most one of the computations that a label marks has won; none has while
    the prize is free. *)
Definition race {Req A} (marked : Req → Prop) (l : pool Req A) (w : world) : Prop :=
  (free w → ∀ i q t, l !! i = Some (q, t) → marked q → claims t)
  ∧ ∀ i j q q' t t', i ≠ j → l !! i = Some (q, t) → l !! j = Some (q', t') →
      marked q → marked q' → claims t ∨ claims t'.

Lemma race_effect {Req A} (marked : Req → Prop) (l l' : pool Req A) w w' :
  race marked l w → effect_step (l, w) (l', w') → R w w' → race marked l' w'.
Proof.
  intros [Hfree Hrace] Hs HR. inversion Hs as [l0 i q T e k w0 Ha Hi]; subst.
  assert (∀ t', marked q → (k (exec e w).1) = t' → claims (Step e k) →
            claims t' ∨ (free w ∧ ¬ free (exec e w).2)) as Hstep.
  { intros t' _ <- Hc. destruct (Hc (exec e w).1) as [Hw|Hk]; [|by left].
    right. by apply won_free. }
  split.
  - intros Hf j q' t Hj Hm. assert (free w) as Hfw by (by eapply free_anti).
    apply list_lookup_insert_Some in Hj as [(<- & Hj & _)|[Hn Hj]]; [|by eapply Hfree].
    injection Hj as <- <-.
    destruct (Hstep _ Hm eq_refl (Hfree Hfw _ _ _ Hi Hm)) as [?|[_ ?]]; [done|done].
  - intros j j' q1 q2 t1 t2 Hne H1 H2 Hm1 Hm2.
    apply list_lookup_insert_Some in H1 as [(<- & H1 & _)|[Hn1 H1]],
      H2 as [(<- & H2 & _)|[Hn2 H2]]; [done| | |exact (Hrace _ _ _ _ _ _ Hne H1 H2 Hm1 Hm2)].
    + injection H1 as <- <-. destruct (Hrace i j' q q2 _ _ Hne Hi H2 Hm1 Hm2) as [Hc|Hc]; [|by right].
      destruct (Hstep _ Hm1 eq_refl Hc) as [?|[Hfw _]]; [by left|]. right. by eapply Hfree.
    + injection H2 as <- <-.
      destruct (Hrace j i q1 q _ _ ltac:(done) H1 Hi Hm1 Hm2) as [Hc|Hc]; [by left|].
      destruct (Hstep _ Hm2 eq_refl Hc) as [?|[Hfw _]]; [by right|]. left. by eapply Hfree.
Qed.

Lemma race_arrival {Req A} (marked : Req → Prop) (l : pool Req A) q t w :
  race marked l w → (marked q → claims t) → race marked (l ++ [(q, t)]) w.
Proof.
  intros [Hfree Hrace] Ht.
  assert (∀ i q' t', (l ++ [(q, t)]) !! i = Some (q', t') →
            l !! i = Some (q', t') ∨ (q', t') = (q, t)) as Hl.
  { intros i q' t' Hi. apply lookup_app_Some in Hi as [Hi|[_ Hi]]; [by left|].
    apply list_lookup_singleton_Some in Hi as [_ Hi]. by right. }
  split.
  - intros Hf i q' t' Hi Hm. destruct (Hl _ _ _ Hi) as [Hi'|[= -> ->]]; [by eapply Hfree|auto].
  - intros i j q1 q2 t1 t2 Hne H1 H2 Hm1 Hm2.
    destruct (Hl _ _ _ H1) as [H1'|[= -> ->]], (Hl _ _ _ H2) as [H2'|[= -> ->]]; auto.
    exact (Hrace _ _ _ _ _ _ Hne H1' H2' Hm1 Hm2).
Qed.

(** Whoever arrives and however the steps fall, at most one marked request
    succeeds. *)
Lemma race_serving {Req A} (marked : Req → Prop) (prog : Req → io A) l w l' w' :
  (∀ q, marked q → claims (prog q)) → (∀ q, keeps R (prog q)) →
  Forall (λ p, keeps R p.2) l → race marked l w →
  rtc (serving prog) (l, w) (l', w') → race marked l' w'.
Proof.
  intros Hp Hk Hl Hr Hs. remember (l, w) as c eqn:E. remember (l', w') as c' eqn:E'.
  revert l w Hl Hr E. induction Hs as [c|c [l1 w1] c' Hstep Hs IH]; intros l w Hl Hr E; subst.
  { by injection E as -> ->. }
  inversion Hstep as [c c1 Hstep'|l0 q w0 Ha]; subst.
  - destruct (keeps_effect R _ _ _ _ Hl Hstep') as [HR Hl1].
    apply (IH eq_refl l1 w1); [done| |done]. by eapply race_effect.
  - apply (IH eq_refl (l ++ [(q, prog q)]) w1); [|by apply race_arrival; auto|done].
    apply Forall_app. split; [done|]. apply Forall_singleton, Hk.
Qed.

Lemma race_nil {Req A} (marked : Req → Prop) w : race marked ([] : pool Req A) w.
Proof. split; [done|]. intros i j q q' t t' _ Hi. done. Qed.
End Claims.

End Schedule.
