(* ===== verification/RefWorld.v ===== *)
(** * RefWorld: a node and an environment for the witnesses

    A chain is the list of transactions accepted so far; the node prices gas
    by calldata length and accepts every transaction. The clock advances by a
    second per effect, the database never fails, and random bytes count up. *)
From stdpp Require Import base numbers strings list.
From Stdlib Require Import Strings.Byte ZArith Lia.
From S2P Require Import Prelude GoStd External Keccak Reference Db World.

#[export] Instance ref_client : EthClient := {|
  Chain := list (DynamicFeeTx * bytes);
  SignedTx := (DynamicFeeTx * bytes)%type;
  EstimateGas m c := (Ok (21000 + 16 * Z.of_nat (length (cm_Data m))), c);
  HeaderByNumber_BaseFee c := (Ok (Some 100), c);
  SuggestGasTipCap c := (Ok 7, c);
  PendingNonceAt a c := (Ok (Z.of_nat (length c)), c);
  CallContract m c := (Ok [], c);
  SendTransaction tx c := (Ok tt, c ++ [tx]);
  CodeAt a c := (Ok [x60], c);
  SignTx tx chainId key := Ok (tx, key);
  SignedTx_Hash tx := keccak256 (be_split 32 (Nonce tx.1) ++ Data tx.1 ++ tx.2)
|}.

#[export] Instance ref_env : Env := {|
  env_now i := 1700000000 * 10 ^ 6 + Z.of_nat i * 10 ^ 6;
  env_db i := DbRuns;
  env_rand i := (be_split 32 (Z.of_nat i + 1), None);
  env_post i := true;
  env_int i := Z.of_nat i
|}.

(** Thirty days. *)
#[export] Instance ref_calendar : PgCalendar := λ t, t + 30 * day.

Definition ref_key (c : byte) : gostring := hex_EncodeToString (replicate 32 c).

Definition ref_db : db :=
  mk_db [] [] [] [mk_sender_key 1 (ref_key x0a) None; mk_sender_key 2 (ref_key x0b) None] [].

Definition ref_world : world := mk_world [] ref_db [] 0.
