(* ===== verification/Client.v ===== *)
(** * Client: sending transactions (lib/client/client.go)

    [Send] estimates the gas, adds 30% in floating point, prices the
    transaction, signs it, and either simulates it or hands it to the node.
    [SafetyRouter_route] is the contract sol/SafetyRouter.huff, which receives
    what [Send] frames for it. *)
From stdpp Require Import base numbers strings list.
From Stdlib Require Import Strings.Byte ZArith Lia.
From S2P Require Import Prelude GoStd Types External Reference Db World RefWorld.

(** ** [gasLimit += uint64(float64(gasLimit) * 0.30)] *)

(** Rounds a positive integer to the nearest one with 53 significant bits,
    ties to even: the mantissa of an IEEE 754 double. *)
Definition round53 (n : Z) : Z :=
  let e := Z.log2 n - 52 in
  if e <=? 0 then n
  else
    let q := n / 2 ^ e in
    let r := n mod 2 ^ e in
    let up := (2 ^ (e - 1) <? r) || ((r =? 2 ^ (e - 1)) && Z.odd q) in
    (if up then q + 1 else q) * 2 ^ e.

(** The double nearest 0.30 is this number times 2^-54. *)
Definition mantissa_030 : Z := 5404319552844595.

(** [uint64(float64(g) * 0.30)]: the product of the mantissas is rounded, and
    the conversion to an integer drops the fraction. *)
Definition gas_margin (g : Z) : Z :=
  round53 (round53 g * mantissa_030) / 2 ^ 54.

(** The sum is a [uint64]. *)
Definition bump_gas (g : Z) : Z := (g + gas_margin g) mod 2 ^ 64.

Section Client.
Context {EC : EthCommon} {CR : EthCrypto} {CL : EthClient} {AS : Assets} {BO : Borsh}.

(** The address called and the calldata. *)
Definition frame (addrSafetyRouter : bytes) (useSafetyRouter : bool) (to b_ : bytes)
    : bytes * bytes :=
  if useSafetyRouter then (addrSafetyRouter, LeftPadBytes to 32 ++ b_) else (to, b_).

(** The transaction's hash and gas limit. The gas limit returned beside the
    error of a failed simulation is not kept: no caller reads it. *)
Definition Send (addrSafetyRouter : bytes) (useSafetyRouter : bool) (chainId : Z)
    (privateKey : PrivateKey) (from to b_ : bytes) (eth : option Z) (dryrun : bool)
    : io (bytes * Z) :=
  let eth := default 0 eth in
  let '(target, b) := frame addrSafetyRouter useSafetyRouter to b_ in
  gasLimit ← on_err (node (EstimateGas (mk_CallMsg from target b (Some eth))))
    (λ err, pure (Err (lit "estimate gas: to: " ++ Address_hex to ++ lit ", from: "
                       ++ Address_hex from ++ lit ", data " ++ hex_EncodeToString b
                       ++ lit ", " ++ err)));
  let gasLimit := bump_gas gasLimit in
  baseFee ← io_wrap "header: " (node HeaderByNumber_BaseFee);
  gasTipCap ← io_wrap "gas tip cap: " (node SuggestGasTipCap);
  nonce ← io_wrap "nonce: " (node (PendingNonceAt from));
  gasFeeCap ← pure
    match baseFee with
    | Some baseFee => Ok (gasTipCap + baseFee * 2)
    | None => Panic (lit "nil pointer dereference")
    end;
  signed ← io_wrap "signed: " (pure (SignTx
    (mk_DynamicFeeTx chainId nonce gasFeeCap gasTipCap gasLimit eth b target)
    chainId privateKey));
  (if dryrun then
     emit (EvCallContract (mk_CallMsg from target b None));;
     io_wrap "dryrun simulate: " (node (CallContract (mk_CallMsg from target b None)));;
     mret tt
   else
     emit (EvSendTransaction signed);;
     io_wrap "send transaction: " (node (SendTransaction signed)));;
  mret (SignedTx_Hash signed, gasLimit).

Definition SendArguments (addrSafetyRouter : bytes) (useSafetyRouter : bool) (chainId : Z)
    (privateKey : PrivateKey) (from to : bytes) (args : Args) (dryrun : bool)
    : io (bytes * Z) :=
  b ← io_wrap "serialising borsh: " (pure (borsh_Args args));
  Send addrSafetyRouter useSafetyRouter chainId privateKey from to b None dryrun.
End Client.

(** ** sol/SafetyRouter.huff *)

(** The code hash the router accepts. *)
Definition router_codehash : Z :=
  0xc93405af7d5432a1465160ee7d0201b7f335f44af433e3ed36615e6d956022bc.

(** What the router does with its calldata: it reverts, or calls an address
    with some calldata. The first word is the address whose code hash is
    checked; the node takes its low 20 bytes as an address. The size of the
    rest is [calldatasize - 32] modulo 2^256, which no memory holds when it
    wraps: [None]. *)
Definition SafetyRouter_route (extcodehash : bytes → Z) (cd : bytes)
    : option (outcome (bytes * bytes)) :=
  let word := take 32 (cd ++ zeros 32) in
  let addr := drop 12 word in
  if extcodehash addr =? router_codehash then
    if decide (32 ≤ length cd)%nat then Some (Ok (addr, drop 32 cd)) else None
  else Some (Err (be_split 4 0x27e63c44)).

(** * The gas margin *)

Lemma round53_small n : 0 ≤ n < 2 ^ 53 → round53 n = n.
Proof.
  intros Hn. unfold round53.
  assert (Z.log2 n ≤ 52); [|by rewrite (proj2 (Z.leb_le _ _)) by lia].
  destruct (Z.eq_dec n 0) as [->|]; [cbn; lia|].
  enough (Z.log2 n < 53) by lia. apply Z.log2_lt_pow2; lia.
Qed.

(** Rounding goes to the neighbour [F] of [n] when [F] is a multiple of the
    spacing and nearer than half of it. *)
Lemma round53_up n F e :
  e = Z.log2 n - 52 → 0 < e → (2 ^ e | F) → n < F → F - n < 2 ^ (e - 1) →
  round53 n = F.
Proof.
  intros -> He [k ->] Hlt Hnear. unfold round53.
  set (e := Z.log2 n - 52) in *. rewrite (proj2 (Z.leb_gt _ _)) by lia.
  assert (2 ^ e = 2 * 2 ^ (e - 1)) as Hp
    by (rewrite <-Z.pow_succ_r by lia; f_equal; lia).
  assert (0 < 2 ^ (e - 1)) by (apply Z.pow_pos_nonneg; lia).
  pose proof (Z.div_mod n (2 ^ e) ltac:(lia)) as Hdm.
  pose proof (Z.mod_pos_bound n (2 ^ e) ltac:(lia)) as Hr.
  assert (n / 2 ^ e = k - 1) as Hq by nia.
  rewrite Hq in *. rewrite (proj2 (Z.ltb_lt _ _)) by lia. cbn. lia.
Qed.

(** Rounding stays above a multiple of the spacing, and within half of it. *)
Lemma round53_between n F e :
  0 ≤ n → e = Z.log2 n - 52 → 0 < e → (2 ^ e | F) → F ≤ n →
  F ≤ round53 n ≤ n + 2 ^ (e - 1).
Proof.
  intros Hn -> He [k ->] Hle. unfold round53.
  set (e := Z.log2 n - 52) in *. rewrite (proj2 (Z.leb_gt _ _)) by lia.
  assert (2 ^ e = 2 * 2 ^ (e - 1)) as Hp
    by (rewrite <-Z.pow_succ_r by lia; f_equal; lia).
  assert (0 < 2 ^ (e - 1)) by (apply Z.pow_pos_nonneg; lia).
  pose proof (Z.div_mod n (2 ^ e) ltac:(lia)) as Hdm.
  pose proof (Z.mod_pos_bound n (2 ^ e) ltac:(lia)) as Hr.
  assert (k ≤ n / 2 ^ e) by (apply Z.div_le_lower_bound; lia).
  destruct (_ || _) eqn:Eu; [|nia].
  apply orb_true_iff in Eu as [Eu|Eu]; [nia|]. apply andb_true_iff in Eu as [Eu _]. nia.
Qed.

Lemma round53_030 g :
  2 ≤ g < 2 ^ 50 →
  (3 * g / 10) * 2 ^ 54 ≤ round53 (g * mantissa_030) < (3 * g / 10 + 1) * 2 ^ 54.
Proof.
  intros Hg. unfold mantissa_030. set (n := g * 5404319552844595).
  set (e := Z.log2 n - 52). set (F := 3 * g / 10).
  pose proof (Z.div_mod (3 * g) 10 ltac:(lia)) as Hdm. fold F in Hdm.
  pose proof (Z.mod_pos_bound (3 * g) 10 ltac:(lia)) as Hr.
  pose proof (Z.log2_spec n ltac:(lia)) as [Hlo Hhi].
  assert (0 < e) by (enough (53 ≤ Z.log2 n) by lia; apply Z.log2_le_pow2; lia).
  assert (e ≤ 50) by (enough (Z.log2 n < 103) by lia; apply Z.log2_lt_pow2; lia).
  replace (Z.succ (Z.log2 n)) with (54 + (e - 1)) in Hhi by lia.
  rewrite Z.pow_add_r in Hhi by lia.
  assert (2 ^ (e - 1) ≤ 2 ^ 49) by (apply Z.pow_le_mono_r; lia).
  assert ((2 ^ e | F * 2 ^ 54)) as Hdiv.
  { exists (F * 2 ^ (54 - e)). rewrite <-Z.mul_assoc, <-Z.pow_add_r by lia.
    do 2 f_equal. lia. }
  destruct (Z_lt_le_dec n (F * 2 ^ 54)) as [Hlt|Hge].
  - rewrite (round53_up n (F * 2 ^ 54) e); [lia|done..|]. subst n. lia.
  - pose proof (round53_between n (F * 2 ^ 54) e ltac:(lia) eq_refl ltac:(lia) Hdiv Hge).
    subst n. lia.
Qed.

Lemma gas_margin_exact g : 0 ≤ g < 2 ^ 50 → gas_margin g = 3 * g / 10.
Proof.
  intros Hg. unfold gas_margin. rewrite (round53_small g) by lia.
  destruct (Z_lt_le_dec g 2) as [Hs|Hs].
  { assert (g = 0 ∨ g = 1) as [-> | ->] by lia; reflexivity. }
  pose proof (round53_030 g ltac:(lia)). symmetry.
  apply (Z.div_unique_pos _ _ _ (round53 (g * mantissa_030) - 3 * g / 10 * 2 ^ 54)); lia.
Qed.

(** C36: for every estimate below 2^50, far above any block's gas, the
    floating-point arithmetic of the gas limit is exact: the limit is the
    estimate plus three tenths of it, rounded down, and the 64-bit sum does
    not wrap. *)
Theorem bump_gas_exact (g : Z) :
  0 ≤ g < 2 ^ 50 → bump_gas g = g + 3 * g / 10.
Proof.
  intros Hg. unfold bump_gas. rewrite gas_margin_exact by done.
  apply Z.mod_small. pose proof (Z.div_le_upper_bound (3 * g) 10 g). 
  pose proof (Z.div_pos (3 * g) 10). lia.
Qed.

Lemma bump_gas_exact_witness : bump_gas 123457 = 123457 + 3 * 123457 / 10.
Proof. apply bump_gas_exact. lia. Defined.

(** Estimates near 2^64, which the node does not return, wrap. *)
Example bump_gas_wraps : bump_gas (2 ^ 64 - 1) < 2 ^ 63.
Proof. by vm_compute. Qed.

(** * Sending *)

Section SendFacts.
Context {EC : EthCommon} {CR : EthCrypto} {CL : EthClient} {EN : Env} {AS : Assets}
  {BO : Borsh}.

(** The transactions handed to the node so far. *)
Definition sent (w : world) : list SignedTx :=
  omap (λ e, match e with EvSendTransaction tx => Some tx | _ => None end) (w_trace w).

(** No statement has run, and at most [n] transactions have been sent. *)
Definition sends_up_to (n : nat) (w w' : world) : Prop :=
  w_db w' = w_db w ∧ w_tick w' = w_tick w
  ∧ ∃ l, sent w' = sent w ++ l ∧ (length l ≤ n)%nat.

(** What a step adds to the transactions sent. *)
Definition send_cost (R : Type) (e : effect R) : nat :=
  match e with
  | EEmit (EvSendTransaction _) => 1
  | _ => 0
  end.

(** The database and the clock are as they were. *)
Definition untouched (w w' : world) : Prop := w_db w' = w_db w ∧ w_tick w' = w_tick w.

Lemma exec_sent {R} (e : effect R) w :
  ∃ l, sent (exec e w).2 = sent w ++ l ∧ length l = send_cost R e.
Proof.
  destruct e as [R f|R s|[tx|m|url n err]|R f]; cbn.
  2: { exists []. rewrite app_nil_r. unfold exec_db. by destruct (env_db _). }
  2: { exists [tx]. unfold sent. cbn. by rewrite omap_app. }
  all: exists []; unfold sent; cbn; by rewrite ?omap_app, ?app_nil_r.
Qed.

(** A count of its effects bounds the transactions a run sends. *)
Lemma costs_sent n {A} (m : io A) w :
  costs send_cost n m → ∃ l, sent (m w).2 = sent w ++ l ∧ (length l ≤ n)%nat.
Proof.
  revert n w. induction m as [o|T e k IH]; intros n w.
  { intros _. exists []. rewrite app_nil_r. split; [done|cbn; lia]. }
  intros [Hn Hk]. destruct (exec_sent e w) as (l & Hl & Hc).
  destruct (IH (exec e w).1 _ (exec e w).2 (Hk _)) as (l' & Hl' & Hn').
  exists (l ++ l'). change (sent (run (k (exec e w).1) (exec e w).2).2 = sent w ++ l ++ l' ∧ (length (l ++ l') ≤ n)%nat).
  rewrite Hl', Hl, app_assoc, length_app. split; [done|lia].
Qed.

#[export] Instance untouched_preorder : PreOrder untouched.
Proof. split; [done|]. intros w1 w2 w3 [H1 H2] [H3 H4]. split; congruence. Qed.

Lemma untouched_node {A} (f : Chain → outcome A * Chain) : keeps untouched (node f).
Proof. by apply keeps_perform. Qed.

Lemma untouched_emit e : keeps untouched (emit e).
Proof. by apply keeps_perform. Qed.
Hint Resolve untouched_node untouched_emit : keepsdb.

Lemma untouched_Send router use chainId key from to b_ eth dryrun :
  keeps untouched (Send router use chainId key from to b_ eth dryrun).
Proof. unfold Send. destruct (frame router use to b_) as [target b]. keeps_tac. Qed.

Lemma Send_costs router use chainId key from to b_ eth (dryrun : bool) :
  costs send_cost (if dryrun then 0 else 1)
    (Send router use chainId key from to b_ eth dryrun).
Proof.
  unfold Send. destruct (frame router use to b_) as [target b].
  assert (∀ A pre (f : Chain → outcome A * Chain), costs send_cost 0 (io_wrap pre (node f))) as Hn
    by (intros; by apply costs_wrap).
  apply (costs_bind _ 0); [by apply (costs_on_err _ 0 0)|intros g].
  do 3 (apply (costs_bind _ 0); [by apply Hn|intros ?]).
  apply (costs_bind _ 0); [done|intros cap].
  apply (costs_bind _ 0); [by apply costs_wrap|intros signed].
  rewrite <-(Nat.add_0_r (if dryrun then 0 else 1)).
  apply costs_bind; [|done]. destruct dryrun.
  - apply (costs_bind _ 0 0); [done|intros ?]. by apply (costs_bind _ 0 0).
  - by apply (costs_bind _ 1 0).
Qed.

Lemma Send_sends router use chainId key from to b_ eth (dryrun : bool) w :
  sends_up_to (if dryrun then 0 else 1) w
    (Send router use chainId key from to b_ eth dryrun w).2.
Proof.
  destruct (keeps_run untouched _ w (untouched_Send router use chainId key from to b_ eth dryrun))
    as [Hd Ht].
  split; [done|]. split; [done|]. apply costs_sent, Send_costs.
Qed.

(** Whatever the node answers, and whether or not the call succeeds,
    [Send] hands at most one transaction to it, none in a dry run, and never
    touches the database. *)
Theorem Send_at_most_once (router : bytes) (use : bool) (chainId : Z) (key : PrivateKey)
    (from to b_ : bytes) (eth : option Z) (dryrun : bool) (w : world) :
  sends_up_to (if dryrun then 0 else 1) w
    (Send router use chainId key from to b_ eth dryrun w).2.
Proof. apply Send_sends. Qed.

(** The node's answers, in order, and the effects of a [Send] that succeeds
    with hash [h] and gas limit [gas]. *)
Definition send_succeeds (router : bytes) (use : bool) (chainId : Z) (key : PrivateKey)
    (from to b_ : bytes) (value : Z) (dryrun : bool) (w w' : world) (h : bytes) (gas : Z) : Prop :=
  let target := (frame router use to b_).1 in
  let b := (frame router use to b_).2 in
  let call := mk_CallMsg from target b None in
  ∃ g base tip nonce signed c1 c2 c3 c4 c5,
    EstimateGas (mk_CallMsg from target b (Some value)) (w_chain w) = (Ok g, c1)
    ∧ HeaderByNumber_BaseFee c1 = (Ok (Some base), c2)
    ∧ SuggestGasTipCap c2 = (Ok tip, c3)
    ∧ PendingNonceAt from c3 = (Ok nonce, c4)
    ∧ SignTx (mk_DynamicFeeTx chainId nonce (tip + base * 2) tip (bump_gas g) value b target)
        chainId key = Ok signed
    ∧ (if dryrun then ∃ resp, CallContract call c4 = (Ok resp, c5)
       else SendTransaction signed c4 = (Ok tt, c5))
    ∧ h = SignedTx_Hash signed ∧ gas = bump_gas g
    ∧ w' = mk_world c5 (w_db w)
             (w_trace w ++ [if dryrun then EvCallContract call else EvSendTransaction signed])
             (w_tick w).

Lemma Send_iff router use chainId key from to b_ eth (dryrun : bool) w w' h gas :
  Send router use chainId key from to b_ eth dryrun w = (Ok (h, gas), w') ↔
  send_succeeds router use chainId key from to b_ (default 0 eth) dryrun w w' h gas.
Proof.
  unfold send_succeeds. set (target := (frame router use to b_).1).
  set (b := (frame router use to b_).2). cbv zeta. set (call := mk_CallMsg from target b None).
  unfold Send.
  replace (frame router use to b_) with (target, b) by (by destruct (frame _ _ _ _)).
  split.
  - intros H. apply io_bind_Ok in H as (g & w1 & Hg & H). apply on_err_Ok in Hg; [|done].
    apply io_bind_Ok in H as (base & w2 & Hbase & H).
    apply io_bind_Ok in H as (tip & w3 & Htip & H).
    apply io_bind_Ok in H as (nonce & w4 & Hnonce & H).
    apply io_bind_Ok in H as (cap & w5 & Hcap & H).
    apply io_bind_Ok in H as (signed & w6 & Hsigned & H).
    apply io_bind_Ok in H as ([] & w7 & Hlast & H).
    inv_io. destruct base as [base|]; [|done]. simplify_eq.
    destruct dryrun; inv_io; destruct_or?; simplify_eq/=;
      repeat match goal with u : unit |- _ => destruct u end;
      do 10 eexists; split_and!; eauto.
  - intros (g & base & tip & nonce & signed & c1 & c2 & c3 & c4 & c5 & Hg & Hbase & Htip
      & Hnonce & Hsigned & Hlast & -> & -> & ->).
    run_step Hg. run_step Hbase. run_step Htip. run_step Hnonce.
    erewrite io_bind_run by reflexivity.
    erewrite io_bind_run; [|apply on_err_run; unfold pure; rewrite Hsigned; reflexivity].
    destruct dryrun; [destruct Hlast as [resp Hlast]|].
    + etrans; [apply io_bind_run|reflexivity].
      erewrite io_bind_run by reflexivity. by run_step Hlast.
    + etrans; [apply io_bind_run|reflexivity].
      erewrite io_bind_run by reflexivity. apply on_err_run.
      etrans; [apply node_run, Hlast|reflexivity].
Qed.


(** The transaction a successful call made, and what it did to the world. *)
Lemma SendArguments_Ok router use chainId key from to args (dryrun : bool) w w' h gas :
  SendArguments router use chainId key from to args dryrun w = (Ok (h, gas), w') →
  ∃ b tx signed,
    borsh_Args args = Ok b ∧ SignTx tx chainId key = Ok signed
    ∧ ChainID tx = chainId ∧ Value tx = 0 ∧ Gas tx = gas
    ∧ (To tx, Data tx) = frame router use to b
    ∧ h = SignedTx_Hash signed ∧ w_db w' = w_db w ∧ w_tick w' = w_tick w
    ∧ sent w' = sent w ++ (if dryrun then [] else [signed]).
Proof.
  unfold SendArguments. intros H. apply io_bind_Ok in H as (b & w1 & Hb & H). inv_io.
  apply Send_iff in H as (g & base & tip & nonce & signed & c1 & c2 & c3 & c4 & c5
    & _ & _ & _ & _ & Hs & _ & -> & -> & ->).
  exists b. eexists _, signed. split; [done|]. split; [exact Hs|]. cbn.
  repeat (split; [done|]). split; [by destruct (frame _ _ _ _)|].
  repeat (split; [done|]). unfold sent. cbn. rewrite omap_app. by destruct dryrun.
Qed.
End SendFacts.

Lemma frame_routes `{EthCommonLaws} (router to payload : bytes) (extcodehash : bytes → Z) :
  length to = 20%nat →
  SafetyRouter_route extcodehash (frame router true to payload).2
  = Some (if extcodehash to =? router_codehash then Ok (to, payload)
          else Err (be_split 4 0x27e63c44)).
Proof.
  intros Hto. cbn [frame snd]. rewrite LeftPadBytes_spec, Hto. unfold SafetyRouter_route.
  set (head := zeros (32 - 20) ++ to).
  assert (length head = 32%nat) as Hhead by (subst head; by rewrite length_app, zeros_length, Hto).
  rewrite <-app_assoc, take_app_length', drop_app_length' by done.
  replace (drop 12 head) with to by (subst head; by rewrite drop_app_length').
  rewrite decide_True by (rewrite length_app; lia). by destruct (_ =? _).
Qed.

(** The server and the router agree on the calldata. Framed for the
    router, a call to an account whose code hash the router accepts reaches
    exactly that account with exactly the payload; when the code hash differs
    the router reverts with its error selector. Unframed, the account is
    called directly. *)
Theorem frame_routed `{EthCommonLaws} (router to payload : bytes) (extcodehash : bytes → Z) :
  length to = 20%nat →
  frame router false to payload = (to, payload)
  ∧ (frame router true to payload).1 = router
  ∧ SafetyRouter_route extcodehash (frame router true to payload).2
    = Some (if extcodehash to =? router_codehash then Ok (to, payload)
            else Err (be_split 4 0x27e63c44)).
Proof. intros Hto. split; [done|]. split; [done|]. by apply frame_routes. Qed.

Lemma frame_routed_witness :
  SafetyRouter_route (λ _, router_codehash) (frame (replicate 20 x01) true (replicate 20 x02) [x03]).2
  = Some (Ok (replicate 20 x02, [x03])).
Proof.
  apply (frame_routed (replicate 20 x01) (replicate 20 x02) [x03] (λ _, router_codehash)).
  reflexivity.
Defined.

(** A call sent and the same call simulated. *)
Example Send_runs :
  sent (Send (replicate 20 x01) true 98 (replicate 32 x05) (replicate 20 x03) (replicate 20 x02)
     [x09] None false ref_world).2
  = [(mk_DynamicFeeTx 98 0 207 7 27986 0 (zeros 12 ++ replicate 20 x02 ++ [x09])
        (replicate 20 x01), replicate 32 x05)]
  ∧ sent (Send (replicate 20 x01) true 98 (replicate 32 x05) (replicate 20 x03)
            (replicate 20 x02) [x09] None true ref_world).2 = [].
Proof. split; vm_compute; reflexivity. Qed.
