(* ===== verification/Utils.v ===== *)
(** * Utils: helpers of the resolvers (lib/db/db.go, graph/utils.go,
    graph/secret.go, graph/resolver.go) *)
From stdpp Require Import base numbers strings list.
From Stdlib Require Import Strings.Byte ZArith Lia.
From S2P Require Import Prelude GoStd External Db World.

Section Utils.
Context {EC : EthCommon} {CR : EthCrypto} {CL : EthClient} {EN : Env}.

(** ** lib/db/db.go *)

(** Scanning a NULL into a string is an error. *)
Definition scan_string (column : string) (v : option gostring) : outcome gostring :=
  match v with
  | Some s => Ok s
  | None => Err (lit "sql: Scan error on column index 0, name " ++ [x22] ++ lit column
                 ++ [x22] ++ lit ": converting NULL to string is unsupported")
  end.

(** The query always has one row, so the [sql.ErrNoRows] branch is dead: an
    empty table is a NULL. *)
Definition PickPrivateKey : io (PrivateKey * bytes) :=
  s ← io_wrap "calling function: "
        (r ← db_run accounts_get_private_key_2;
         pure (scan_string "accounts_get_private_key_2" r));
  key ← io_wrap "hex to ecdsa: " (pure (HexToECDSA s));
  mret (key, PubkeyToAddress (Public key)).

(** ** graph/utils.go *)

Definition ProgDalek : gostring := lit "/usr/local/bin/ed25519-dalek-ph".

Definition isDryrun (x : option bool) : bool :=
  match x with
  | Some true => true
  | _ => false
  end.

(** The response of a failed post is nil, and closing its body a nil
    dereference. *)
Definition activateSoftAlarm (url : gostring) (snowflake : Z) (err : gostring) : io unit :=
  if decide (url = []) then mret tt
  else
    emit (EvAlarm url snowflake err);;
    r ← ask env_post;
    if (r : bool) then mret tt else pure (Panic (lit "nil pointer dereference")).

(** A failed insert is logged and dropped. *)
Definition trackTx (eoaS txHash : gostring) (gasLimit : Z) (desc : gostring) : io unit :=
  on_err (db_run (insert_transaction_2 eoaS txHash gasLimit desc)) (λ _, mret tt).

Definition isIgnorable (es : gostring) : bool :=
  Contains es (lit "res: 99090e")
  || Contains es (lit "ERC20: transfer amount exceeds balance")
  || Contains es (lit "res: 990995").

(** ** graph/secret.go *)

(** [new(big.Int).SetBits]: 64-bit words, least significant first. *)
Definition big_SetBits (words : list Z) : Z := foldr (λ w acc, w + 2 ^ 64 * acc) 0 words.

Definition secpMaxS : Z :=
  big_SetBits [16134479119472337056; 6725966010171805725;
               18446744073709551615; 9223372036854775807].

Definition makeSecret : io bytes :=
  r ← ask env_rand;
  match (r : bytes * option gostring) with
  | (secret, None) =>
      if decide (length secret = 32%nat) then mret secret
      else pure (Panic (lit "error with randomness: <nil>"))
  | (_, Some err) => pure (Panic (lit "error with randomness: " ++ err))
  end.

(** ** graph/resolver.go

    The node, the database and the alarm's transport are the world. The rate
    limiter is not asked by any resolver. *)
Record Resolver := mk_Resolver {
  ChainId : Z;
  MinimumAmount : Z;
  AccountsFactoryAddr : bytes;
  ClaimantHelperAddr : bytes;
  SafetyRouterAddr : bytes;
  AccPubKey : bytes;
  UrlAlarm : gostring;
  FeatureClaimDisabled : bool;
  FeatureMintDisabled : bool;
  FeatureCheckCode : bool
}.

(** The values the middleware leaves in the request's context. *)
Record Ctx := mk_Ctx {
  ctx_snowflake : option Z;
  ctx_authed : option bool;
  ctx_eoa : option bytes;
  ctx_is_admin : option bool
}.

(** [snowflake, _ := ctx.Value("snowflake").(int)]: 0 when absent. *)
Definition snowflake_of (c : Ctx) : Z := default 0 (ctx_snowflake c).
Definition authed_of (c : Ctx) : bool := default false (ctx_authed c).
End Utils.

(** The bound is half the order of secp256k1, the limit of EIP-2. *)
Lemma secpMaxS_half_order :
  secpMaxS = 0xFFFFFFFFFFFFFFFFFFFFFFFFFFFFFFFEBAAEDCE6AF48A03BBFD25E8CD0364141 / 2.
Proof. reflexivity. Qed.

(** ** What the helpers can change *)

Section UtilsFacts.
Context {EC : EthCommon} {CR : EthCrypto} {CL : EthClient} {EN : Env}.

(** The sender keys with their turn forgotten. *)
Definition key_material (d : db) : list (Z * gostring) :=
  map (λ k, (sk_id k, sk_private_key k)) (accounts_sender_keys_1 d).

(** Nothing is written but the turn of the sender keys. *)
Definition same_records (d d' : db) : Prop :=
  accounts_secrets_1 d' = accounts_secrets_1 d
  ∧ accounts_secrets_2 d' = accounts_secrets_2 d
  ∧ accounts_secrets_nonces_2 d' = accounts_secrets_nonces_2 d
  ∧ key_material d' = key_material d
  ∧ accounts_executed_transactions_2 d' = accounts_executed_transactions_2 d.

#[export] Instance same_records_equiv : Equivalence same_records.
Proof.
  unfold same_records. split.
  - done.
  - intros d1 d2 (-> & -> & -> & -> & ->). done.
  - intros d1 d2 d3 (-> & -> & -> & -> & ->) (-> & -> & -> & -> & ->). done.
Qed.

Lemma accounts_get_private_key_2_same now d k d' :
  accounts_get_private_key_2 now d = Ok (k, d') → same_records d d'.
Proof.
  unfold accounts_get_private_key_2.
  destruct (pick_oldest (accounts_sender_keys_1 d)); intros [= <- <-]; [|done].
  repeat split; try done. unfold key_material. cbn. rewrite map_map.
  apply map_ext. intros a. unfold touch. by case_match.
Qed.

(** The key returned is one of the stored keys, with its address. *)
Lemma PickPrivateKey_Ok w key a w' :
  PickPrivateKey w = (Ok (key, a), w') →
  a = PubkeyToAddress (Public key)
  ∧ (∃ s, s ∈ map sk_private_key (accounts_sender_keys_1 (w_db w)) ∧ HexToECDSA s = Ok key)
  ∧ same_records (w_db w) (w_db w') ∧ w_trace w' = w_trace w ∧ w_chain w' = w_chain w.
Proof.
  unfold PickPrivateKey. intros H. inv_io. simplify_eq. split; [done|].
  match goal with H : run (db_run _) _ = _ |- _ => apply db_run_Ok in H as (d' & Hr & ->) end.
  pose proof (accounts_get_private_key_2_same _ _ _ _ Hr) as Hsame.
  split; [|done]. unfold accounts_get_private_key_2 in Hr.
  destruct (pick_oldest (accounts_sender_keys_1 (w_db w))) as [k|] eqn:Ek; simplify_eq/=.
  apply pick_oldest_spec in Ek as [Hin _].
  eexists. split; [|eassumption]. by apply list_elem_of_fmap_2.
Qed.
End UtilsFacts.
