(* ===== verification/Resolvers.v ===== *)
(** * Resolvers: the GraphQL operations (graph/schema.resolvers.go)

    Every resolver of the schema, with its effects in the order of the code.
    Logging is left out. *)
From stdpp Require Import base numbers strings list.
From Stdlib Require Import Strings.Byte ZArith QArith Lia.
From S2P Require Import Prelude GoStd Types External Proxy Convertor Db World Client Utils.
#[local] Open Scope Z_scope.

(** [fmt.Sprintf("%+v", f)] of an account creation: it prints the assets with
    their own package's formatting, and pointers as machine addresses. *)
Class GoFmt `{Assets} := fmt_plus_v : FreshBackwards → gostring.

(** The double that lib/pq and database/sql make of a numeric column. *)
Class Float64 := {
  float64 : Type;
  scan_numeric : Q → float64
}.

(** [model.Statistics]. *)
Record Statistics_row `{Float64} := mk_Statistics {
  Action : gostring;
  AvgGasLimit24Hours : float64;
  AvgGasLimitWeek : float64;
  AvgGasLimitAllTime : float64;
  Tx24Hours : Z;
  TxWeek : Z;
  TxAllTime : Z
}.

Section Resolvers.
Context {UN : Unicode} {AS : Assets} {EC : EthCommon} {CR : EthCrypto} {BO : Borsh}
  {AB : Abi} {EX : Exec} {CL : EthClient} {EN : Env} {PC : PgCalendar} {GF : GoFmt}
  {FL : Float64}.

Definition guard (b : bool) (e : gostring) : io unit := pure (ensure b e).

(** The alarm of a failed send, unless the error is one to ignore. *)
Definition alarm_unless_ignorable (r : Resolver) (ctx : Ctx) (err text : gostring) : io unit :=
  if isIgnorable err then mret tt
  else activateSoftAlarm (UrlAlarm r) (snowflake_of ctx) text.

(** ** Mutations *)

(** [if mint != nil { .. }] of an account creation. *)
Definition tag_mint (mint : option model.Mint) (eoa : bytes) (f : FreshBackwards)
    : io FreshBackwards :=
  match mint with
  | None => mret f
  | Some mint =>
      let t := TagFreshBackwardsWithMintGraph ProgDalek f AssetUsdc
                 (model.Market mint) (model.Outcome mint) (model.Amount mint)
                 (model.Referrer mint) eoa (model.Mint_Permit mint) (model.MsTs mint) in
      io_wrap "mint tagging: " (pure t.1);;
      mret t.2
  end.

Definition CreateAccountExec (r : Resolver) (ctx : Ctx) (createAccount : model.CreateAccount)
    (mint : option model.Mint) (dryrun : option bool) : io model.CreateAccountExec :=
  f ← io_wrap "create account: "
        (pure (CreateAccountToFreshBackwardsGraph (AccPubKey r) createAccount));
  guard (IsHexAddress (model.EoaAddr createAccount)) (lit "not eoa address");;
  let eoa := HexToAddress (model.EoaAddr createAccount) in
  f ← tag_mint mint eoa f;
  k ← or_fatal "error picking private key: " PickPrivateKey;
  let args := mk_Args ArgsFreshBackwards f (mk_Solve []) mk_Version mk_Authority zero_SolveV2
                zero_TransferOnly zero_Statement mk_Owner mk_Ed25519Key zero_SolveV3
                mk_AssetsVersion in
  h ← on_err
        (SendArguments (SafetyRouterAddr r) false (ChainId r) k.1 k.2 (AccountsFactoryAddr r)
           args (isDryrun dryrun))
        (λ err,
          alarm_unless_ignorable r ctx err
            (lit "create account exec, user address: " ++ Address_String eoa
             ++ lit ", sender: " ++ Address_String k.2
             ++ lit ", contract: " ++ Address_String (AccountsFactoryAddr r)
             ++ lit ", err: " ++ err);;
          pure (Err (lit "send arguments: fresh backwards " ++ fmt_plus_v f ++ lit ": " ++ err)));
  secret ← makeSecret;
  let secretX := hex_EncodeToString secret in
  (if isDryrun dryrun then mret tt
   else
     let eoaS := ToLower (Address_String eoa) in
     on_err (db_run (insert_secret_2 eoaS secretX)) (λ _, fail "error inserting secret");;
     trackTx eoaS (Hash_Hex h.1) h.2 (lit "create account"));;
  mret (model.mk_CreateAccountExec (Hash_Hex h.1) secretX).

(** [if sig\[64\] == 27 || sig\[64\] == 28 { sig\[64\] -= 27 }]. *)
Definition normalise_v (v : byte) : byte :=
  if (byte_Z v =? 27) || (byte_Z v =? 28) then byte_of_Z (byte_Z v - 27) else v.

(** The message a wallet signs to ask for a secret. *)
Definition secret_preimage (accPubKey : bytes) (nonce : Z) : bytes :=
  [x19] ++ lit "Ethereum Signed Message:" ++ [x0a] ++ lit "72"
  ++ hex_EncodeToString accPubKey ++ hex_EncodeToString (binary_BigEndian_int32 nonce).

Definition RequestSecret (r : Resolver) (ctx : Ctx) (eoaAddr : gostring) (nonce sigV : Z)
    (sigR sigS : gostring) (dryrun : option bool) : io gostring :=
  guard (IsHexAddress eoaAddr) (lit "decoding address");;
  let eoaAddr_ := HexToAddress eoaAddr in
  b ← io_wrap "decoding r: " (pure (hex_DecodeString sigR));
  let sig_r := copy_into (zeros 32) b in
  b ← io_wrap "decoding s: " (pure (hex_DecodeString sigS));
  gt ← pure (big_Cmp_gt (big_SetBytes b) (Some secpMaxS));
  guard (negb gt) (lit "s malleable");;
  let sig_s := copy_into (zeros 32) b in
  guard (negb ((sigV <? 0) || (255 <? sigV))) (lit "decoding v: too large");;
  let sig := sig_r ++ sig_s ++ [normalise_v (byte_of_Z sigV)] in
  let digest := Keccak256 [secret_preimage (AccPubKey r) nonce] in
  pubKey ← io_wrap "recover pubkey: " (pure (SigToPub digest sig));
  let expAddr := PubkeyToAddress pubKey in
  guard (bool_decide (eoaAddr_ = expAddr))
    (lit "bad derivation: " ++ Address_String eoaAddr_ ++ lit ", expected: "
     ++ Address_String expAddr);;
  let clientAddr := GetClientAddr (AccountsFactoryAddr r) eoaAddr_ in
  (if FeatureCheckCode r then
     accCode ← on_err (node (CodeAt clientAddr)) (λ _, fail "acc addr searching error");
     guard (negb (bool_decide (length accCode = 0%nat))) (lit "account has no code")
   else mret tt);;
  let eoaS := ToLower (Address_String eoaAddr_) in
  secret ← makeSecret;
  let secretX := hex_EncodeToString secret in
  (if isDryrun dryrun then mret tt
   else on_err (db_run (accounts_insert_nonce_secret_3 eoaS secretX nonce))
          (λ _, fail "error inserting secret"));;
  mret secretX.

Definition NinelivesMint (r : Resolver) (ctx : Ctx) (mint : model.Mint) (dryrun : option bool)
    : io gostring :=
  guard (negb (FeatureMintDisabled r)) (lit "mint disabled");;
  let amt := big_SetString (model.Amount mint) in
  below ← pure (big_Cmp_gt (MinimumAmount r) amt);
  guard (negb below)
    (lit "below the minimum amount (" ++ from_option fmt_d (lit "<nil>") amt ++ lit ")");;
  guard (authed_of ctx) (lit "not authed in the handler");;
  eoa ← pure (from_option Ok (Err (lit "bad eoa address")) (ctx_eoa ctx));
  let clientAddr := GetClientAddr (AccountsFactoryAddr r) eoa in
  k ← or_fatal "picking private key: " PickPrivateKey;
  f ← on_err
        (pure (CreateSolveArgsSigArgsMintGraph ProgDalek AssetUsdc (model.Market mint)
                 (model.Outcome mint) (model.Amount mint) (model.Referrer mint) eoa
                 (model.Mint_Permit mint) (model.MsTs mint)))
        (λ err,
          alarm_unless_ignorable r ctx err
            (lit "mint, market: " ++ model.Market mint ++ lit ", outcome: " ++ model.Outcome mint
             ++ lit ", user address: " ++ Address_String eoa
             ++ lit ", sender: " ++ Address_String k.2 ++ lit ", err: " ++ err);;
          pure (Err (lit "error creating solve args: " ++ err)));
  solveV2 ← io_wrap "error creating solve v2 args: "
              (pure (CreateSolveV2 ProgDalek [SolveArgsSigArgs_Args f] eoa eoa));
  h ← on_err
        (SendArguments (SafetyRouterAddr r) true (ChainId r) k.1 k.2 clientAddr solveV2
           (isDryrun dryrun))
        (λ err,
          alarm_unless_ignorable r ctx err
            (lit "mint send, market: " ++ model.Market mint
             ++ lit ", outcome: " ++ model.Outcome mint
             ++ lit ", user address: " ++ Address_String eoa
             ++ lit ", sender: " ++ Address_String k.2 ++ lit ", err: " ++ err);;
          pure (Err (lit "last error sending: " ++ err)));
  (if isDryrun dryrun then mret tt
   else trackTx (Address_String eoa) (Hash_Hex h.1) h.2 (lit "mint"));;
  mret (Hash_Hex h.1).

Definition ClaimRewards (r : Resolver) (ctx : Ctx) (markets : list gostring) (msTs : gostring)
    (dryrun : option bool) : io gostring :=
  guard (negb (FeatureClaimDisabled r)) (lit "claim is disabled");;
  guard (authed_of ctx) (lit "not authed in the handler for claim rewards");;
  eoa ← pure (from_option Ok (Err (lit "bad eoa address")) (ctx_eoa ctx));
  let clientAddr := GetClientAddr (AccountsFactoryAddr r) eoa in
  k ← or_fatal "picking private key: " PickPrivateKey;
  f ← io_wrap "error creating solve args: "
        (pure (CreatePayoffForOtherArgsGraph ProgDalek (ClaimantHelperAddr r) eoa markets msTs));
  solveV2 ← io_wrap "error creating solve v2 args: "
              (pure (CreateSolveV2 ProgDalek [SolveArgsSigArgs_Args f] eoa eoa));
  h ← on_err
        (SendArguments (SafetyRouterAddr r) true (ChainId r) k.1 k.2 clientAddr solveV2
           (isDryrun dryrun))
        (λ err,
          activateSoftAlarm (UrlAlarm r) (snowflake_of ctx)
            (lit "claim, user address: " ++ Address_String eoa
             ++ lit ", sender: " ++ Address_String k.2
             ++ lit ", contract: " ++ Address_String (AccountsFactoryAddr r)
             ++ lit ", err: " ++ err);;
          pure (Err (lit "last error sending: " ++ err)));
  (if isDryrun dryrun then mret tt
   else trackTx (Address_String eoa) (Hash_Hex h.1) h.2 (lit "claim rewards"));;
  mret (Hash_Hex h.1).

(** ** Queries *)

Definition Publickey (r : Resolver) : io gostring := mret (hex_EncodeToString (AccPubKey r)).

Definition EoaForAddress (r : Resolver) (address : gostring) : io gostring :=
  guard (IsHexAddress address) (lit "not address");;
  mret (Address_String (GetClientAddr (AccountsFactoryAddr r) (HexToAddress address))).

Definition HasCreated (address : gostring) : io bool :=
  count ← io_wrap "query row: " (db_run (count_created (ToLower address)));
  mret (0 <? count).

(** The columns of a row, in order; a NULL does not scan into a double. *)
Definition scan_statistics (s : stat_row) : outcome Statistics_row :=
  match st_avg_24_hours s, st_avg_week s, st_avg_all_time s with
  | Some d, Some w, Some a =>
      Ok (mk_Statistics _ (st_action s) (scan_numeric d) (scan_numeric w) (scan_numeric a)
            (st_tx_24_hours s) (st_tx_week s) (st_tx_all_time s))
  | _, _, _ => Err (lit "failed to scan statistics")
  end.

(** [for rows.Next() { .. }]: stops at the first row that does not scan. The
    rows all arrive; the code does not ask whether they did ([rows.Err]). *)
Fixpoint scan_rows (rows : list stat_row) : outcome (list Statistics_row) :=
  match rows with
  | [] => Ok []
  | s :: rows' =>
      m ← scan_statistics s;
      stats ← scan_rows rows';
      mret (m :: stats)
  end.

Definition Statistics : io (list Statistics_row) :=
  rows ← on_err (db_run accounts_transaction_statistics_1)
           (λ _, fail "error retrieving statistics");
  pure (scan_rows rows).
End Resolvers.
