(* ===== verification/ResolverFacts.v ===== *)
(** * ResolverFacts: what the resolvers do and do not do

    First the effects a resolver cannot have, for every outcome and every
    answer of the world, by relations its steps keep; then what a successful
    run implies. *)
From stdpp Require Import base numbers strings list.
From Stdlib Require Import Strings.Byte ZArith Lia.
From S2P Require Import Prelude GoStd Types Sha512 External Keccak BorshRef Reference Ninelives.
From S2P Require Import Proxy Convertor ConvertorFacts Db World RefWorld Client Utils Resolvers.

(** ** Operations *)

(** The mutations of the schema with their arguments. *)
Inductive mutation :=
| createAccountExec (c : model.CreateAccount) (m : option model.Mint)
| requestSecret (eoaAddr : gostring) (nonce sigV : Z) (sigR sigS : gostring)
| ninelivesMint (m : model.Mint)
| claimRewards (markets : list gostring) (msTs : gostring).

Section Facts.
Context {UN : Unicode} {AS : Assets} {EC : EthCommon} {CR : EthCrypto} {BO : Borsh}
  {AB : Abi} {EX : Exec} {CL : EthClient} {EN : Env} {PC : PgCalendar} {GF : GoFmt}.

(** Runs a mutation, forgetting its result. *)
Definition run_mutation (r : Resolver) (ctx : Ctx) (m : mutation) (dryrun : option bool)
    : io unit :=
  match m with
  | createAccountExec c m => CreateAccountExec r ctx c m dryrun;; mret tt
  | requestSecret a n v sr ss => RequestSecret r ctx a n v sr ss dryrun;; mret tt
  | ninelivesMint m => NinelivesMint r ctx m dryrun;; mret tt
  | claimRewards l t => ClaimRewards r ctx l t dryrun;; mret tt
  end.

(** ** Dry runs *)

(** No transaction is sent and nothing is recorded. *)
Definition inert (w w' : world) : Prop :=
  sent w' = sent w ∧ same_records (w_db w) (w_db w').

#[export] Instance inert_preorder : PreOrder inert.
Proof.
  split.
  - intros w. split; reflexivity.
  - intros w1 w2 w3 [H1 H2] [H3 H4]. split; [congruence|]. by rewrite H2.
Qed.

Lemma inert_node {A} (f : Chain → outcome A * Chain) : keeps inert (node f).
Proof. apply keeps_perform. intros w. split; reflexivity. Qed.

Lemma inert_ask {A} (f : nat → A) : keeps inert (ask f).
Proof. apply keeps_perform. intros w. split; reflexivity. Qed.

Lemma keeps_guard (R : world → world → Prop) b e : keeps R (guard b e).
Proof. apply keeps_pure. Qed.

Lemma keeps_tag_mint (R : world → world → Prop) mint eoa f : keeps R (tag_mint mint eoa f).
Proof. unfold tag_mint. keeps_tac. Qed.

Hint Resolve inert_node inert_ask keeps_guard keeps_tag_mint : keepsdb.

Lemma inert_alarm_event url n e : keeps inert (emit (EvAlarm url n e)).
Proof.
  apply keeps_perform. intros w. split; [|reflexivity]. unfold sent. cbn.
  by rewrite omap_app, app_nil_r.
Qed.

Lemma inert_call_event m : keeps inert (emit (EvCallContract m)).
Proof.
  apply keeps_perform. intros w. split; [|reflexivity]. unfold sent. cbn.
  by rewrite omap_app, app_nil_r.
Qed.
Hint Resolve inert_alarm_event inert_call_event : keepsdb.

Lemma inert_alarm url n e : keeps inert (activateSoftAlarm url n e).
Proof. unfold activateSoftAlarm. keeps_tac. Qed.
Hint Resolve inert_alarm : keepsdb.

Lemma inert_alarm_unless r ctx e t : keeps inert (alarm_unless_ignorable r ctx e t).
Proof. unfold alarm_unless_ignorable. keeps_tac. Qed.

Lemma inert_get_private_key : keeps inert (db_run accounts_get_private_key_2).
Proof. apply (keeps_db_run _ same_records); [done|apply accounts_get_private_key_2_same]. Qed.
Hint Resolve inert_get_private_key : keepsdb.

Lemma inert_pick : keeps inert PickPrivateKey.
Proof. unfold PickPrivateKey. keeps_tac. Qed.

Lemma inert_makeSecret : keeps inert makeSecret.
Proof. unfold makeSecret. keeps_tac. Qed.

Lemma inert_Send_dryrun router use c k from to b eth :
  keeps inert (Send router use c k from to b eth true).
Proof. unfold Send. destruct (frame _ _ _ _). keeps_tac. Qed.

Hint Resolve inert_Send_dryrun inert_alarm_unless inert_pick inert_makeSecret : keepsdb.

Lemma inert_SendArguments_dryrun router use c k from to a :
  keeps inert (SendArguments router use c k from to a true).
Proof. unfold SendArguments. keeps_tac. Qed.
Hint Resolve inert_SendArguments_dryrun : keepsdb.

(** C27: a dry run of any mutation, whatever its arguments, the caller and the
    outcome, sends no transaction and writes no secret, nonce or transaction
    record; the database changes at most in whose turn it is among the sender
    keys. *)
Theorem dryrun_inert (r : Resolver) (ctx : Ctx) (m : mutation) (w : world) :
  inert w (run_mutation r ctx m (Some true) w).2.
Proof.
  apply (keeps_run inert).
  destruct m; unfold run_mutation, CreateAccountExec, RequestSecret, NinelivesMint, ClaimRewards;
    cbn [isDryrun]; keeps_tac.
Qed.

(** ** Who may act *)

(** A computation that fails without effects. *)
Definition stops {A} (m : io A) (w : world) : Prop := (m w).2 = w ∧ is_ok (m w).1 = false.

Lemma stops_bind {A B} (m : outcome A) (f : A → io B) w :
  (∀ a, m = Ok a → stops (f a) w) → stops (pure m ≫= f) w.
Proof.
  intros Hf. destruct m; [by apply Hf|done..].
Qed.

(** Without an authenticated caller the operations that act for an
    account do nothing at all: minting and claiming leave the world exactly as
    it was, whatever the arguments, and do not succeed. *)
Theorem unauthenticated_no_effect (r : Resolver) (ctx : Ctx) (mint : model.Mint)
    (markets : list gostring) (msTs : gostring) (dryrun : option bool) (w : world) :
  authed_of ctx = false ∨ ctx_eoa ctx = None →
  stops (NinelivesMint r ctx mint dryrun) w ∧ stops (ClaimRewards r ctx markets msTs dryrun) w.
Proof.
  intros H.
  assert (∀ u eoa e e', ensure (authed_of ctx) e = Ok u →
            from_option Ok (Err e') (ctx_eoa ctx) = Ok eoa → False) as Hno.
  { intros u eoa e e' Hu Hc. apply ensure_Ok in Hu. destruct H as [H|H]; rewrite H in *; done. }
  split.
  - do 3 (apply stops_bind; intros ? _). apply stops_bind; intros u Hu.
    apply stops_bind; intros eoa He. by edestruct Hno.
  - apply stops_bind; intros ? _. apply stops_bind; intros u Hu.
    apply stops_bind; intros eoa He. by edestruct Hno.
Qed.

(** ** Minting *)

(** The given arguments were sent to [to], through the router or not: the one
    transaction, signed by a stored key, carries the address and the encoded
    arguments. *)
Definition sent_call (r : Resolver) (use : bool) (to : bytes) (args : Args) (dryrun : bool)
    (w w' : world) (hash : gostring) : Prop :=
  ∃ s key b tx signed,
    s ∈ map sk_private_key (accounts_sender_keys_1 (w_db w)) ∧ HexToECDSA s = Ok key
    ∧ borsh_Args args = Ok b
    ∧ (To tx, Data tx) = frame (SafetyRouterAddr r) use to b
    ∧ ChainID tx = ChainId r ∧ Value tx = 0
    ∧ SignTx tx (ChainId r) key = Ok signed
    ∧ hash = Hash_Hex (SignedTx_Hash signed)
    ∧ sent w' = sent w ++ (if dryrun then [] else [signed]).

Lemma trackTx_sent eoaS h g d w : sent (trackTx eoaS h g d w).2 = sent w.
Proof.
  destruct (costs_sent 0 (trackTx eoaS h g d) w) as (l & -> & Hl).
  { by apply (costs_on_err _ 0 0). }
  destruct l; [by rewrite app_nil_r|cbn in Hl; lia].
Qed.

(** What the operations share: a key is picked and the arguments are sent. *)
Lemma sent_call_Ok r use to args (dry : bool) w k w1 h w2 w3 :
  PickPrivateKey w = (Ok k, w1) →
  SendArguments (SafetyRouterAddr r) use (ChainId r) k.1 k.2 to args dry w1 = (Ok h, w2) →
  sent w3 = sent w2 →
  sent_call r use to args dry w w3 (Hash_Hex h.1)
  ∧ same_records (w_db w) (w_db w2) ∧ w_trace w1 = w_trace w.
Proof.
  intros Hk Hs Hw. destruct k as [key a], h as [h gas].
  apply PickPrivateKey_Ok in Hk as (_ & (s & Hin & Hkey) & Hsame & Htr & _).
  apply SendArguments_Ok in Hs
    as (b & tx & signed & Hb & Hsig & Hc & Hv & _ & Hto & -> & Hdb & _ & Hsent).
  split; [|by rewrite Hdb]. exists s, key, b, tx, signed. repeat (split; [done|]).
  assert (sent w1 = sent w) as E by (unfold sent; by rewrite Htr). by rewrite <-E, <-Hsent.
Qed.

(** Recording the transaction, or not, at the end. *)
Lemma tracked_sent (dry : bool) who h g what w t w' :
  (if dry then mret tt else trackTx who h g what) w = (Ok t, w') → sent w' = sent w.
Proof.
  destruct dry; [intros H; by inv_io|]. intros H.
  pose proof (trackTx_sent who h g what w) as E. by rewrite H in E.
Qed.

Lemma NinelivesMint_inv `{AL : !AbiLaws} (r : Resolver) (ctx : Ctx) (mint : model.Mint)
    (dryrun : option bool) (w w' : world) (hash : gostring) :
  match ctx_eoa ctx with Some a => length a = 20%nat | None => True end →
  NinelivesMint r ctx mint dryrun w = (Ok hash, w') →
  ∃ eoa amt solve args,
    FeatureMintDisabled r = false ∧ authed_of ctx = true ∧ ctx_eoa ctx = Some eoa
    ∧ big_SetString (model.Amount mint) = Some amt ∧ MinimumAmount r ≤ amt
    ∧ mint_spec AssetUsdc (model.Market mint) (model.Outcome mint) (model.Amount mint)
        (model.Referrer mint) eoa (model.Mint_Permit mint) (model.MsTs mint) solve
    ∧ CreateSolveV2 ProgDalek [solve] eoa eoa = Ok args
    ∧ Args_Enum args = ArgsSolveV2
    ∧ SolveV2_Args (Args_SolveV2 args) = mk_SolveV2Args [solve] eoa eoa
    ∧ sent_call r true (GetClientAddr (AccountsFactoryAddr r) eoa) args (isDryrun dryrun)
        w w' hash.
Proof.
  intros Hlen H. unfold NinelivesMint, guard in H.
  apply io_bind_Ok in H as (u1 & v1 & H1 & H).
  apply io_bind_Ok in H as (below & v2 & H2 & H).
  apply io_bind_Ok in H as (u3 & v3 & H3 & H).
  apply io_bind_Ok in H as (u4 & v4 & H4 & H).
  apply io_bind_Ok in H as (eoa & v5 & H5 & H).
  apply io_bind_Ok in H as (k & v6 & Hk & H).
  apply io_bind_Ok in H as (f & v7 & Hf & H).
  apply io_bind_Ok in H as (args & v8 & Hargs & H).
  apply io_bind_Ok in H as (h & v9 & Hh & H).
  apply io_bind_Ok in H as (t & v10 & Ht & H).
  apply or_fatal_Ok in Hk. apply on_err_Ok in Hh; [|intros; apply then_err_not_ok].
  apply on_err_Ok in Hf; [|intros; apply then_err_not_ok]. apply io_wrap_Ok in Hargs.
  apply pure_Ok in H1 as [H1 ->]. apply pure_Ok in H2 as [H2 ->].
  apply pure_Ok in H3 as [H3 ->]. apply pure_Ok in H4 as [H4 ->].
  apply pure_Ok in H5 as [H5 ->]. apply pure_Ok in Hf as [Hf ->].
  apply pure_Ok in Hargs as [Hargs ->]. apply ret_Ok in H as [-> ->].
  apply ensure_Ok in H1, H3, H4.
  destruct (ctx_eoa ctx) as [eoa'|] eqn:Ee; [|done]. injection H5 as ->.
  unfold big_Cmp_gt in H2.
  destruct (big_SetString (model.Amount mint)) as [amt|] eqn:Ea; [|done]. injection H2 as <-.
  apply MintGraph_inv in Hf as [Hspec _]; [|done].
  destruct (CreateSolveV2_Ok _ _ _ _ _ Hargs) as (Hen & Hv2 & _).
  exists eoa, amt, (SolveArgsSigArgs_Args f), args.
  split; [by apply negb_true_iff|]. split; [done|]. split; [done|]. split; [done|].
  split; [apply negb_true_iff in H3; lia|]. repeat (split; [done|]).
  eapply sent_call_Ok; [done..|]. by eapply tracked_sent.
Qed.

(** C10: what a successful mint did. Minting is enabled, the caller is
    authenticated, and the amount parses and reaches the configured minimum;
    the call sent takes that amount of USDC from the caller and mints the same
    amount for the caller; it is bound to the caller as permit and transfer
    owner, signed by the signing program, and sent once through the safety
    router to the account derived from the caller's address, by one of the
    stored sender keys. A dry run sends nothing. *)
Theorem NinelivesMint_sound `{AL : !AbiLaws} (r : Resolver) (ctx : Ctx) (mint : model.Mint)
    (dryrun : option bool) (w w' : world) (hash : gostring) :
  match ctx_eoa ctx with Some a => length a = 20%nat | None => True end →
  NinelivesMint r ctx mint dryrun w = (Ok hash, w') →
  ∃ eoa amt solve args,
    FeatureMintDisabled r = false ∧ authed_of ctx = true ∧ ctx_eoa ctx = Some eoa
    ∧ big_SetString (model.Amount mint) = Some amt ∧ MinimumAmount r ≤ amt
    ∧ mint_spec AssetUsdc (model.Market mint) (model.Outcome mint) (model.Amount mint)
        (model.Referrer mint) eoa (model.Mint_Permit mint) (model.MsTs mint) solve
    ∧ CreateSolveV2 ProgDalek [solve] eoa eoa = Ok args
    ∧ Args_Enum args = ArgsSolveV2
    ∧ SolveV2_Args (Args_SolveV2 args) = mk_SolveV2Args [solve] eoa eoa
    ∧ sent_call r true (GetClientAddr (AccountsFactoryAddr r) eoa) args (isDryrun dryrun)
        w w' hash.
Proof. apply NinelivesMint_inv. Qed.

(** ** Asking for a secret *)

Lemma char_n_addr a : length a = 20%nat → char_n 42 (addr_lower a) = Ok (addr_lower a).
Proof.
  intros Ha. apply char_n_nospace.
  - repeat (constructor; [done|]). apply hex_nospace.
  - unfold addr_lower. rewrite length_app, hex_encode_length, Ha. cbn. lia.
Qed.

Lemma char_n_secret b : length b = 32%nat → char_n 64 (hex_EncodeToString b) = Ok (hex_EncodeToString b).
Proof. intros Hb. apply char_n_nospace; [apply hex_nospace|]. rewrite hex_encode_length. lia. Qed.

Lemma makeSecret_Ok w b w' :
  makeSecret w = (Ok b, w') → length b = 32%nat ∧ b = (env_rand (w_tick w)).1 ∧ w' = ticked w.
Proof.
  unfold makeSecret. intros H. inv_io. subst.
  destruct (env_rand (w_tick w)) as [s [e|]]; [done|]. case_decide; [|done]. inv_io. by subst.
Qed.

(** The database after a secret was recorded with its nonce. *)
Definition with_secret (d : db) (e secret : gostring) (nonce : option Z) (until : Z) : db :=
  mk_db (accounts_secrets_1 d) (accounts_secrets_2 d ++ [mk_secret_row e (Some secret) until])
    (accounts_secrets_nonces_2 d ++ match nonce with Some n => [(e, n)] | None => [] end)
    (accounts_sender_keys_1 d) (accounts_executed_transactions_2 d).

Lemma insert_nonce_secret_Ok a secret nonce now d u d' :
  length a = 20%nat → length secret = 32%nat →
  accounts_insert_nonce_secret_3 (addr_lower a) (hex_EncodeToString secret) nonce now d = Ok (u, d') →
  (addr_lower a, nonce) ∉ accounts_secrets_nonces_2 d
  ∧ d' = with_secret d (addr_lower a) (hex_EncodeToString secret) (Some nonce) (plus_one_month now).
Proof.
  intros Ha Hs. unfold accounts_insert_nonce_secret_3, insert_nonce_2, insert_secret_2.
  rewrite char_n_addr, char_n_secret by done. cbn.
  case_decide as Hin; [done|]. cbn. by intros [= _ <-].
Qed.

(** The signature a request presents: recovered over the message of its
    nonce, it names the address asked for. *)
Definition secret_signature_valid (r : Resolver) (a : bytes) (nonce sigV : Z)
    (sigR sigS : gostring) : Prop :=
  ∃ R S pub,
    hex_DecodeString sigR = Ok R ∧ hex_DecodeString sigS = Ok S
    ∧ be_val S ≤ secpMaxS ∧ 0 ≤ sigV ≤ 255
    ∧ SigToPub (Keccak256 [secret_preimage (AccPubKey r) nonce])
        (copy_into (zeros 32) R ++ copy_into (zeros 32) S ++ [normalise_v (byte_of_Z sigV)]) = Ok pub
    ∧ PubkeyToAddress pub = a.

Lemma RequestSecret_Ok `{CLaws : !EthCommonLaws} r ctx addr nonce sigV sigR sigS dryrun w secret w' :
  RequestSecret r ctx addr nonce sigV sigR sigS dryrun w = (Ok secret, w') →
  let a := HexToAddress addr in
  IsHexAddress addr = true
  ∧ secret_signature_valid r a nonce sigV sigR sigS
  ∧ (FeatureCheckCode r = true → ∃ code c, CodeAt (GetClientAddr (AccountsFactoryAddr r) a)
                                            (w_chain w) = (Ok code, c) ∧ code ≠ [])
  ∧ sent w' = sent w
  ∧ ∃ raw, length raw = 32%nat ∧ secret = hex_EncodeToString raw
    ∧ if isDryrun dryrun then w_db w' = w_db w
      else (addr_lower a, nonce) ∉ accounts_secrets_nonces_2 (w_db w)
           ∧ ∃ until, w_db w' = with_secret (w_db w) (addr_lower a) secret (Some nonce) until.
Proof.
  intros H a. unfold RequestSecret, guard in H. fold a in H.
  apply io_bind_Ok in H as (u1 & v1 & H1 & H).
  apply io_bind_Ok in H as (R & v2 & HR & H).
  apply io_bind_Ok in H as (S & v3 & HS & H).
  apply io_bind_Ok in H as (gt & v4 & Hgt & H).
  apply io_bind_Ok in H as (u5 & v5 & Hmall & H).
  apply io_bind_Ok in H as (u6 & v6 & Hv & H).
  apply io_bind_Ok in H as (pub & v7 & Hpub & H).
  apply io_bind_Ok in H as (u8 & v8 & Hder & H).
  apply io_bind_Ok in H as (u9 & v9 & Hcode & H).
  apply io_bind_Ok in H as (raw & v10 & Hraw & H).
  apply io_bind_Ok in H as (u11 & v11 & Hins & H).
  apply io_wrap_Ok in HR, HS, Hpub.
  apply pure_Ok in H1 as [H1 ->]. apply pure_Ok in HR as [HR ->]. apply pure_Ok in HS as [HS ->].
  apply pure_Ok in Hgt as [Hgt ->]. apply pure_Ok in Hmall as [Hmall ->].
  apply pure_Ok in Hv as [Hv ->]. apply pure_Ok in Hpub as [Hpub ->].
  apply pure_Ok in Hder as [Hder ->]. apply ret_Ok in H as [-> ->].
  apply ensure_Ok in H1, Hmall, Hv, Hder. apply bool_decide_eq_true in Hder.
  injection Hgt as <-.
  assert (w_db v9 = w_db w ∧ sent v9 = sent w
    ∧ (FeatureCheckCode r = true → ∃ code c, CodeAt (GetClientAddr (AccountsFactoryAddr r) a)
                                            (w_chain w) = (Ok code, c) ∧ code ≠ []))
    as (Hdb & Hsent & Hc).
  { destruct (FeatureCheckCode r); [|by inv_io].
    apply io_bind_Ok in Hcode as (code & v & Hc & Hg). inv_io.
    split; [done|]. split; [done|]. intros _. eexists _, _. split; [done|].
    intros ->. done. }
  apply makeSecret_Ok in Hraw as (Hlen & _ & ->).
  assert (length a = 20%nat) as Ha by apply HexToAddress_length.
  split; [done|]. split.
  { exists R, S, pub. apply negb_true_iff in Hmall, Hv. unfold big_SetBytes in Hmall.
    split; [done|]. split; [done|]. split; [lia|]. split; [|done].
    apply orb_false_iff in Hv. lia. }
  split; [done|]. rewrite Address_String_lower in Hins by done.
  destruct (isDryrun dryrun).
  { inv_io. split; [done|]. by exists raw. }
  apply on_err_Ok in Hins; [|done]. apply db_run_Ok in Hins as (d' & Hins & ->).
  split; [done|]. exists raw. split; [done|]. split; [done|].
  apply insert_nonce_secret_Ok in Hins as [Hnew ->]; [|done..].
  cbn in Hnew. rewrite Hdb in Hnew. split; [done|]. eexists. cbn. by rewrite Hdb.
Qed.

(** C6: a secret is only ever handed out to the owner of the address. When a
    request succeeds, the signature presented recovers, over the message made
    of the server's key and the request's nonce, to the address asked for; the
    secret is 32 random bytes in hexadecimal; no transaction is sent; and
    unless the run is dry, the nonce was new for the address and exactly the
    nonce and the secret are recorded, under the canonical form of the
    address. *)
Theorem RequestSecret_sound `{CLaws : !EthCommonLaws} (r : Resolver) (ctx : Ctx)
    (addr : gostring) (nonce sigV : Z) (sigR sigS : gostring) (dryrun : option bool)
    (w : world) (secret : gostring) (w' : world) :
  RequestSecret r ctx addr nonce sigV sigR sigS dryrun w = (Ok secret, w') →
  IsHexAddress addr = true
  ∧ secret_signature_valid r (HexToAddress addr) nonce sigV sigR sigS
  ∧ sent w' = sent w
  ∧ ∃ raw, length raw = 32%nat ∧ secret = hex_EncodeToString raw
    ∧ if isDryrun dryrun then w_db w' = w_db w
      else (addr_lower (HexToAddress addr), nonce) ∉ accounts_secrets_nonces_2 (w_db w)
           ∧ ∃ until, w_db w' = with_secret (w_db w) (addr_lower (HexToAddress addr)) secret
                                  (Some nonce) until.
Proof. intros H. apply RequestSecret_Ok in H. tauto. Qed.

(** ** Records are only added *)

Definition records_grow (d d' : db) : Prop :=
  accounts_secrets_1 d' = accounts_secrets_1 d
  ∧ accounts_secrets_2 d `prefix_of` accounts_secrets_2 d'
  ∧ accounts_secrets_nonces_2 d `prefix_of` accounts_secrets_nonces_2 d'
  ∧ accounts_executed_transactions_2 d `prefix_of` accounts_executed_transactions_2 d'
  ∧ key_material d' = key_material d.

#[export] Instance records_grow_preorder : PreOrder records_grow.
Proof.
  split.
  - intros d. repeat split; reflexivity.
  - intros d1 d2 d3 (H1 & H2 & H3 & H4 & H5) (H1' & H2' & H3' & H4' & H5').
    repeat split; solve [congruence | etrans; eassumption].
Qed.

(** What has been sent and recorded stays. *)
Definition grows (w w' : world) : Prop :=
  records_grow (w_db w) (w_db w') ∧ sent w `prefix_of` sent w'.

#[export] Instance grows_preorder : PreOrder grows.
Proof.
  split.
  - intros w. split; reflexivity.
  - intros w1 w2 w3 [H1 H2] [H3 H4]. split; etrans; eassumption.
Qed.

Lemma inert_grows w w' : inert w w' → grows w w'.
Proof.
  intros [Hs (H1 & H2 & H3 & H4 & H5)]. split; [|by rewrite Hs].
  repeat split; [done|by rewrite H2|by rewrite H3|by rewrite H5|done].
Qed.

Lemma keeps_inert_grows {A} (m : io A) : keeps inert m → keeps grows m.
Proof. apply keeps_mono, inert_grows. Qed.

Lemma grows_stmt {A} (s : stmt A) :
  (∀ now d a d', s now d = Ok (a, d') → records_grow d d') → keeps grows (db_run s).
Proof. intros Hs. apply (keeps_db_run _ records_grow); [|done]. intros w d H. by split. Qed.

Lemma insert_secret_2_grows e s now d u d' :
  insert_secret_2 e s now d = Ok (u, d') → records_grow d d'.
Proof.
  unfold insert_secret_2. intros H. inv_ok. repeat split; cbn; try done.
  by apply prefix_app_r.
Qed.

Lemma insert_nonce_2_grows e n now d u d' :
  insert_nonce_2 e n now d = Ok (u, d') → records_grow d d'.
Proof.
  unfold insert_nonce_2. intros H. inv_ok. case_decide; [done|]. simplify_eq.
  inv_ok. repeat split; cbn; try done. by apply prefix_app_r.
Qed.

Lemma grows_insert_secret e s : keeps grows (db_run (insert_secret_2 e s)).
Proof. apply grows_stmt, insert_secret_2_grows. Qed.

Lemma grows_insert_nonce_secret e s n :
  keeps grows (db_run (accounts_insert_nonce_secret_3 e s n)).
Proof.
  apply grows_stmt. intros now d u d' H. unfold accounts_insert_nonce_secret_3 in H.
  apply bind_Ok in H as ([v d1] & H1 & H2).
  etrans; [by eapply insert_nonce_2_grows|by eapply insert_secret_2_grows].
Qed.

Lemma grows_trackTx e h g t : keeps grows (trackTx e h g t).
Proof.
  unfold trackTx. keeps_tac. apply grows_stmt. intros now d u d' H.
  unfold insert_transaction_2 in H. inv_ok. repeat split; cbn; try done.
  by apply prefix_app_r.
Qed.

Lemma grows_node {A} (f : Chain → outcome A * Chain) : keeps grows (node f).
Proof. apply keeps_perform. intros w. split; reflexivity. Qed.

Lemma grows_emit e : keeps grows (emit e).
Proof.
  apply keeps_perform. intros w. split; [reflexivity|].
  destruct (exec_sent (EEmit e) w) as (l & -> & _). by apply prefix_app_r.
Qed.
Hint Resolve grows_node grows_emit : keepsdb.

Lemma grows_SendArguments router use c k from to a dry :
  keeps grows (SendArguments router use c k from to a dry).
Proof. unfold SendArguments, Send. keeps_tac. Qed.

Hint Resolve grows_insert_secret grows_insert_nonce_secret grows_trackTx
  grows_SendArguments keeps_inert_grows : keepsdb.

Lemma run_mutation_grows r ctx m dryrun : keeps grows (run_mutation r ctx m dryrun).
Proof.
  destruct m; unfold run_mutation, CreateAccountExec, RequestSecret, NinelivesMint, ClaimRewards;
    keeps_tac.
Qed.

(** ** Sequences of requests *)

(** The server handles requests one after the other; a request that fails
    leaves its effects. *)
Definition serve_requests (r : Resolver) (l : list (Ctx * mutation * option bool)) (w : world)
    : world :=
  foldl (λ w '(ctx, m, dryrun), (run_mutation r ctx m dryrun w).2) w l.

Lemma serve_requests_grows r l w : grows w (serve_requests r l w).
Proof.
  revert w. induction l as [|[[ctx m] dry] l IH]; intros w; [reflexivity|]. cbn.
  etrans; [apply (keeps_run grows _ _ (run_mutation_grows r ctx m dry))|apply IH].
Qed.

(** A signed request for a secret works once. After it succeeded, and
    after any further requests of anyone, presenting the same nonce for the
    same address, however the address is spelled, does not succeed. *)
Theorem nonce_single_use `{CLaws : !EthCommonLaws} (r : Resolver) (ctx ctx' : Ctx)
    (addr addr' : gostring) (nonce v v' : Z) (sr ss sr' ss' : gostring)
    (dryrun dryrun' : option bool) (w w' : world) (secret : gostring)
    (l : list (Ctx * mutation * option bool)) :
  RequestSecret r ctx addr nonce v sr ss dryrun w = (Ok secret, w') →
  isDryrun dryrun = false → isDryrun dryrun' = false →
  HexToAddress addr' = HexToAddress addr →
  is_ok (RequestSecret r ctx' addr' nonce v' sr' ss' dryrun' (serve_requests r l w')).1 = false.
Proof.
  intros H Hd Hd' Ha. apply RequestSecret_Ok in H as (_ & _ & _ & _ & raw & _ & _ & H).
  rewrite Hd in H. destruct H as (_ & until & Hdb).
  destruct (RequestSecret _ _ addr' _ _ _ _ _ _) as [[s| | |] w''] eqn:E; try done.
  apply RequestSecret_Ok in E as (_ & _ & _ & _ & raw' & _ & _ & E).
  rewrite Hd', Ha in E. destruct E as [Hnew _]. destruct Hnew.
  destruct (serve_requests_grows r l w') as [(_ & _ & [k Hk] & _) _].
  rewrite Hk, Hdb. cbn. apply elem_of_app. left. apply elem_of_app. right.
  apply list_elem_of_here.
Qed.

End Facts.

(** * Reference requests *)

#[export] Instance ref_fmt : GoFmt := λ _, [].

Definition ref_resolver : Resolver :=
  mk_Resolver 98 1000 (ref_addr x0f) (ref_addr x0c) (ref_addr x05) (replicate 32 x41) [] false
    false true.

Definition ref_no_ctx : Ctx := mk_Ctx None None None None.
Definition ref_user : Ctx := mk_Ctx (Some 1) (Some true) (Some (ref_addr x07)) None.

Definition ref_model_mint : model.Mint :=
  model.mk_Mint ref_market ref_outcome (lit "1000000") (Some ref_permit) [] (lit "1700000000000").

Definition ref_sigR : gostring := hex_EncodeToString (replicate 32 x11).
Definition ref_sigS : gostring := hex_EncodeToString (replicate 32 x22).

(** The address the toy scheme recovers for the request below. *)
Definition ref_eoa : bytes := drop 12 (keccak256 (replicate 32 x11)).

Abbreviation ref_request w :=
  (RequestSecret ref_resolver ref_no_ctx (addr_lower ref_eoa) 5 27 ref_sigR ref_sigS None w).

(** A run known to succeed has a result. *)
Lemma is_ok_run {A W} (m : outcome A * W) : is_ok m.1 = true → ∃ a w, m = (Ok a, w).
Proof. destruct m as [[a| | |] w]; [|done..]. eauto. Qed.

Lemma ref_request_Ok : is_ok (ref_request ref_world).1 = true.
Proof. vm_compute. reflexivity. Qed.

Lemma unauthenticated_no_effect_witness :
  stops (NinelivesMint ref_resolver ref_no_ctx ref_model_mint None) ref_world
  ∧ stops (ClaimRewards ref_resolver ref_no_ctx [] [] None) ref_world.
Proof.
  exact (unauthenticated_no_effect ref_resolver ref_no_ctx ref_model_mint [] [] None ref_world
           (or_introl eq_refl)).
Defined.

Lemma ref_mint_Ok :
  is_ok (NinelivesMint ref_resolver ref_user ref_model_mint None ref_world).1 = true.
Proof. vm_compute. reflexivity. Qed.

Lemma NinelivesMint_sound_witness :
  ∃ hash w' eoa solve args,
    ctx_eoa ref_user = Some eoa
    ∧ mint_spec AssetUsdc ref_market ref_outcome (lit "1000000") [] eoa (Some ref_permit)
        (lit "1700000000000") solve
    ∧ sent_call ref_resolver true (GetClientAddr (AccountsFactoryAddr ref_resolver) eoa) args
        false ref_world w' hash.
Proof.
  destruct (is_ok_run _ ref_mint_Ok) as (hash & w' & E).
  destruct (NinelivesMint_sound ref_resolver ref_user ref_model_mint None ref_world w' hash
              eq_refl E) as (eoa & amt & solve & args & _ & _ & H1 & _ & _ & H2 & _ & _ & _ & H3).
  exists hash, w', eoa, solve, args. exact (conj H1 (conj H2 H3)).
Defined.

Lemma RequestSecret_sound_witness :
  secret_signature_valid ref_resolver (HexToAddress (addr_lower ref_eoa)) 5 27 ref_sigR ref_sigS.
Proof.
  destruct (is_ok_run _ ref_request_Ok) as (secret & w' & E).
  exact (proj1 (proj2 (RequestSecret_sound ref_resolver ref_no_ctx (addr_lower ref_eoa) 5 27
           ref_sigR ref_sigS None ref_world secret w' E))).
Defined.

Lemma nonce_single_use_witness :
  ∃ secret w', ref_request ref_world = (Ok secret, w')
    ∧ is_ok (ref_request (serve_requests ref_resolver
               [(ref_user, ninelivesMint ref_model_mint, None)] w')).1 = false.
Proof.
  destruct (is_ok_run _ ref_request_Ok) as (secret & w' & E). exists secret, w'.
  exact (conj E (nonce_single_use ref_resolver ref_no_ctx ref_no_ctx (addr_lower ref_eoa)
           (addr_lower ref_eoa) 5 27 27 ref_sigR ref_sigS ref_sigR ref_sigS None None ref_world
           w' secret [(ref_user, ninelivesMint ref_model_mint, None)] E
           eq_refl eq_refl eq_refl)).
Defined.
