(* ===== verification/AccountFacts.v ===== *)
(** * AccountFacts: creating accounts, and the queries over what was recorded *)
From stdpp Require Import base numbers strings list.
From Stdlib Require Import Strings.Byte ZArith Lia.
From S2P Require Import Prelude GoStd Types Sha512 External Keccak BorshRef Reference Ninelives.
From S2P Require Import Proxy Convertor ConvertorFacts Db World RefWorld Client Utils Resolvers.
From S2P Require Import ResolverFacts.

Section AccountFacts.
Context {UN : Unicode} {AS : Assets} {EC : EthCommon} {CR : EthCrypto} {BO : Borsh}
  {AB : Abi} {EX : Exec} {CL : EthClient} {EN : Env} {PC : PgCalendar} {GF : GoFmt}.

(** ** Creating an account *)

Definition fresh_args (f : FreshBackwards) : Args :=
  mk_Args ArgsFreshBackwards f (mk_Solve []) mk_Version mk_Authority zero_SolveV2
    zero_TransferOnly zero_Statement mk_Owner mk_Ed25519Key zero_SolveV3 mk_AssetsVersion.

(** The creation sent: the request's own, with the mint appended when one is
    asked for. *)
Definition creation_of (r : Resolver) (ca : model.CreateAccount) (mint : option model.Mint)
    (f : FreshBackwards) : Prop :=
  let a := HexToAddress (model.EoaAddr ca) in
  ∃ f0, create_spec (AccPubKey r) ca f0 ∧ FreshBackwards_EoaAddr f0 = a
    ∧ match mint with
      | None => f = f0
      | Some m =>
          ∃ s, f = append_SolveArgs f0 s ∧ signed_for ProgDalek s
               ∧ mint_spec AssetUsdc (model.Market m) (model.Outcome m) (model.Amount m)
                   (model.Referrer m) a (model.Mint_Permit m) (model.MsTs m)
                   (SolveArgsSigArgs_Args s)
      end.

(** A secret recorded for an address. *)
Definition has_secret (d : db) (a : bytes) (secret : gostring) : Prop :=
  ∃ until, mk_secret_row (addr_lower a) (Some secret) until ∈ accounts_secrets_2 d.

Lemma has_secret_grows d d' a secret :
  records_grow d d' → has_secret d a secret → has_secret d' a secret.
Proof.
  intros (_ & [k Hk] & _) [until H]. exists until. rewrite Hk. apply elem_of_app. by left.
Qed.

Lemma insert_secret_2_Ok a raw now d u d' :
  length a = 20%nat → length raw = 32%nat →
  insert_secret_2 (addr_lower a) (hex_EncodeToString raw) now d = Ok (u, d') →
  d' = with_secret d (addr_lower a) (hex_EncodeToString raw) None (plus_one_month now).
Proof.
  intros Ha Hr. unfold insert_secret_2. rewrite char_n_addr, char_n_secret by done. cbn.
  intros [= _ <-]. unfold with_secret. by rewrite app_nil_r.
Qed.

Lemma with_secret_has d a secret n until : has_secret (with_secret d (addr_lower a) secret n until) a secret.
Proof. exists until. cbn. apply elem_of_app. right. apply list_elem_of_here. Qed.

(** The creation is built before any effect. *)
Lemma creation_Ok `{AL : !AbiLaws, CLaws : !EthCommonLaws} r ca mint f0 u f w w0 w1 w2 :
  io_wrap "create account: " (pure (CreateAccountToFreshBackwardsGraph (AccPubKey r) ca)) w
    = (Ok f0, w0) →
  guard (IsHexAddress (model.EoaAddr ca)) (lit "not eoa address") w0 = (Ok u, w1) →
  tag_mint mint (HexToAddress (model.EoaAddr ca)) f0 w1 = (Ok f, w2) →
  IsHexAddress (model.EoaAddr ca) = true ∧ creation_of r ca mint f ∧ w2 = w.
Proof.
  intros H0 H1 H2. unfold guard in H1. unfold tag_mint in H2. apply io_wrap_Ok, pure_Ok in H0 as [H0 ->].
  apply pure_Ok in H1 as [H1%ensure_Ok ->]. apply create_account_Ok in H0.
  split; [done|]. unfold creation_of.
  assert (FreshBackwards_EoaAddr f0 = HexToAddress (model.EoaAddr ca)) as Heoa.
  { destruct H0 as (_ & [[E _]|[E Hl]] & _).
    - rewrite E, IsHexAddress_empty in H1. done.
    - symmetry. by apply HexToAddress_hex. }
  destruct mint as [m|]; [|apply ret_Ok in H2 as [-> ->]; eauto].
  apply io_bind_Ok in H2 as (t & v & Ht & H2). apply io_wrap_Ok, pure_Ok in Ht as [Ht ->].
  apply ret_Ok in H2 as [-> ->]. split; [|done]. exists f0. split; [done|]. split; [done|].
  unfold TagFreshBackwardsWithMintGraph, tag_with in *.
  destruct (CreateSolveArgsSigArgsMintGraph _ _ _ _ _ _ _ _ _) as [s| | |] eqn:Es; try done.
  apply MintGraph_inv in Es as [Hs Hsig]; [|apply HexToAddress_length]. cbn. eauto.
Qed.
(** What is recorded at the end. *)
Lemma recorded_Ok `{CLaws : !EthCommonLaws} (dry : bool) a raw h g w u w' :
  length a = 20%nat → length raw = 32%nat →
  (if dry then mret tt
   else
     let eoaS := ToLower (Address_String a) in
     on_err (db_run (insert_secret_2 eoaS (hex_EncodeToString raw)))
       (λ _, fail "error inserting secret");;
     trackTx eoaS h g (lit "create account")) w = (Ok u, w') →
  sent w' = sent w
  ∧ (if dry then w_db w' = w_db w else has_secret (w_db w') a (hex_EncodeToString raw)).
Proof.
  intros Ha Hraw H. destruct dry; [by inv_io|].
  cbv zeta in H. rewrite Address_String_lower in H by done.
  apply io_bind_Ok in H as (t & v & Hi & Ht). apply on_err_Ok in Hi; [|done].
  apply db_run_Ok in Hi as (d' & Hi & ->). apply insert_secret_2_Ok in Hi as ->; [|done..].
  pose proof (trackTx_sent (addr_lower a) h g (lit "create account")
                (ticked (with_db (with_secret (w_db w) (addr_lower a) (hex_EncodeToString raw) None
                   (plus_one_month (env_now (w_tick w)))) w))) as Hs.
  pose proof (keeps_run grows _ 
                (ticked (with_db (with_secret (w_db w) (addr_lower a) (hex_EncodeToString raw) None
                   (plus_one_month (env_now (w_tick w)))) w))
                (grows_trackTx (addr_lower a) h g (lit "create account"))) as [Hg _].
  rewrite Ht in Hs, Hg. split; [exact Hs|].
  eapply has_secret_grows; [exact Hg|]. apply with_secret_has.
Qed.

Lemma CreateAccountExec_Ok `{AL : !AbiLaws, CLaws : !EthCommonLaws} r ctx ca mint dryrun w res w' :
  CreateAccountExec r ctx ca mint dryrun w = (Ok res, w') →
  let a := HexToAddress (model.EoaAddr ca) in
  IsHexAddress (model.EoaAddr ca) = true
  ∧ ∃ f raw, creation_of r ca mint f
    ∧ sent_call r false (AccountsFactoryAddr r) (fresh_args f) (isDryrun dryrun) w w' (model.Hash res)
    ∧ length raw = 32%nat ∧ model.Secret res = hex_EncodeToString raw
    ∧ (if isDryrun dryrun then same_records (w_db w) (w_db w')
       else has_secret (w_db w') a (model.Secret res)).
Proof.
  intros H a. unfold CreateAccountExec in H. fold a in H.
  apply io_bind_Ok in H as (f0 & v1 & H1 & H).
  apply io_bind_Ok in H as (u & v2 & H2 & H).
  apply io_bind_Ok in H as (f & v3 & H3 & H).
  apply io_bind_Ok in H as (k & v4 & Hk & H).
  apply io_bind_Ok in H as (h & v5 & Hh & H).
  apply io_bind_Ok in H as (raw & v6 & Hraw & H).
  apply io_bind_Ok in H as (t & v7 & Hrec & H). apply ret_Ok in H as [-> ->].
  destruct (creation_Ok _ _ _ _ _ _ _ _ _ _ H1 H2 H3) as (Hhex & Hf & ->).
  apply or_fatal_Ok in Hk. apply on_err_Ok in Hh; [|intros; apply then_err_not_ok].
  apply makeSecret_Ok in Hraw as (Hlen & _ & ->).
  apply recorded_Ok in Hrec as [Hsent Hdb]; [|apply HexToAddress_length|done].
  destruct (sent_call_Ok _ _ _ _ _ _ _ _ _ _ v7 Hk Hh Hsent) as (Hcall & Hsame & _).
  split; [done|]. exists f, raw. do 4 (split; [done|]).
  destruct (isDryrun dryrun); [|done]. by rewrite Hdb.
Qed.

(** C11: what a successful account creation did. The creation carries the
    server's key and the request's signature, and exactly the address under
    which the secret is recorded, however the address was spelled; a mint
    asked for is appended as a signed call that mints for that address; it is
    sent once, directly to the factory, by a stored sender key; the secret
    returned is 32 random bytes in hexadecimal and is recorded for the
    address, unless the run is dry, which sends and records nothing. *)
Theorem CreateAccountExec_sound `{AL : !AbiLaws, CLaws : !EthCommonLaws} (r : Resolver) (ctx : Ctx)
    (ca : model.CreateAccount) (mint : option model.Mint) (dryrun : option bool) (w : world)
    (res : model.CreateAccountExec) (w' : world) :
  CreateAccountExec r ctx ca mint dryrun w = (Ok res, w') →
  IsHexAddress (model.EoaAddr ca) = true
  ∧ ∃ f raw, creation_of r ca mint f
    ∧ sent_call r false (AccountsFactoryAddr r) (fresh_args f) (isDryrun dryrun) w w' (model.Hash res)
    ∧ length raw = 32%nat ∧ model.Secret res = hex_EncodeToString raw
    ∧ (if isDryrun dryrun then same_records (w_db w) (w_db w')
       else has_secret (w_db w') (HexToAddress (model.EoaAddr ca)) (model.Secret res)).
Proof. apply CreateAccountExec_Ok. Qed.

(** ** Asking whether an account was created *)

Lemma HasCreated_has_secret d a secret now :
  has_secret d a secret → ∃ n, count_created (addr_lower a) now d = Ok (n, d) ∧ 0 < n.
Proof.
  intros [until Hin]. eexists. split; [done|].
  assert (mk_secret_row (addr_lower a) (Some secret) until
          ∈ filter (λ r, bpchar_eq (sr_eoa_addr r) (addr_lower a) = true) (accounts_secrets_2 d))
    as Hf by (apply list_elem_of_filter; cbn; auto with godb).
  destruct (filter _ (accounts_secrets_2 d)); [by apply not_elem_of_nil in Hf|]. cbn. lia.
Qed.

(** An account created, or a secret handed out, is seen by [hasCreated]
    ever after. Whatever requests follow, asking for the address in its
    checksummed or its lower-case form answers yes, unless the database
    cannot be reached. *)
Theorem created_HasCreated `{AL : !AbiLaws, CLaws : !EthCommonLaws} (r : Resolver) (ctx : Ctx)
    (ca : model.CreateAccount) (mint : option model.Mint) (dryrun : option bool)
    (w : world) (res : model.CreateAccountExec) (w' : world)
    (l : list (Ctx * mutation * option bool)) (address : gostring) :
  CreateAccountExec r ctx ca mint dryrun w = (Ok res, w') →
  isDryrun dryrun = false →
  ToLower address = addr_lower (HexToAddress (model.EoaAddr ca)) →
  env_db (w_tick (serve_requests r l w')) = DbRuns →
  (HasCreated address (serve_requests r l w')).1 = Ok true.
Proof.
  intros H Hd Ha Hr. apply CreateAccountExec_Ok in H as (_ & f & raw & _ & _ & _ & _ & H).
  rewrite Hd in H. set (v := serve_requests r l w') in *.
  destruct (HasCreated_has_secret (w_db v) (HexToAddress (model.EoaAddr ca)) (model.Secret res)
              (env_now (w_tick v))) as (n & Hn & Hpos).
  { eapply has_secret_grows; [|exact H]. apply serve_requests_grows. }
  unfold HasCreated. rewrite Ha.
  erewrite io_bind_run; [|apply on_err_run, db_run_runs; done].
  cbn. by rewrite (proj2 (Z.ltb_lt _ _)).
Qed.

(** ** The signed message of a secret request *)

Lemma int32_encode_inj n m :
  model.int32 n → model.int32 m → binary_BigEndian_int32 n = binary_BigEndian_int32 m → n = m.
Proof.
  unfold model.int32, binary_BigEndian_int32. intros Hn Hm E. apply (f_equal be_val) in E.
  rewrite !be_val_split in E. change (256 ^ Z.of_nat 4) with (2 ^ 32) in E.
  pose proof (Z.div_mod n (2 ^ 32)). pose proof (Z.div_mod m (2 ^ 32)). nia.
Qed.

(** The message signed to ask for a secret names the server's key and the
    nonce without ambiguity: its body has the 72 bytes its Ethereum prefix
    announces, and messages of different keys or nonces differ, so a signature
    over one is not a signature over another. *)
Theorem secret_preimage_injective (key key' : bytes) (nonce nonce' : Z) :
  length key = 32%nat → length key' = 32%nat → model.int32 nonce → model.int32 nonce' →
  (∃ body, secret_preimage key nonce
           = [x19] ++ lit "Ethereum Signed Message:" ++ [x0a] ++ lit "72" ++ body
           ∧ length body = 72%nat)
  ∧ (secret_preimage key nonce = secret_preimage key' nonce' → key = key' ∧ nonce = nonce').
Proof.
  intros Hk Hk' Hn Hn'. split.
  - eexists. split; [done|]. rewrite length_app, !hex_encode_length, Hk.
    unfold binary_BigEndian_int32. by rewrite be_split_length.
  - unfold secret_preimage. intros E. do 4 apply app_inv_head in E.
    apply app_inj_1 in E as [E1 E2]; [|rewrite !hex_encode_length; lia].
    apply hex_encode_inj in E1, E2. split; [done|]. by apply int32_encode_inj.
Qed.

(** ** The bound on S *)

(** Prefixing bytes does not lower the number a front-aligned copy denotes. *)
Lemma copy_into_front_le n b :
  (n ≤ length b)%nat → be_val (copy_into (zeros n) b) ≤ be_val b.
Proof.
  intros Hl. rewrite copy_into_zeros_long by done.
  rewrite <-(take_drop n b) at 2. rewrite be_val_app.
  pose proof (be_val_bound (take n b)). pose proof (be_val_bound (drop n b)).
  assert (0 < 256 ^ Z.of_nat (length (drop n b))) by (apply Z.pow_pos_nonneg; lia). nia.
Qed.

(** A secret request with a full-length S is only accepted when the S that
    enters the signature's recovery is at most half the curve's order, so the
    other signature of the same message is refused. (A shorter S is compared
    as a number but copied to the front of its 32 bytes; see
    [short_s_exceeds_bound].) *)
Theorem RequestSecret_low_s `{CLaws : !EthCommonLaws} (r : Resolver) (ctx : Ctx) (addr : gostring)
    (nonce sigV : Z) (sigR sigS : gostring) (dryrun : option bool) (w : world)
    (secret : gostring) (w' : world) :
  RequestSecret r ctx addr nonce sigV sigR sigS dryrun w = (Ok secret, w') →
  (64 ≤ length sigS)%nat →
  ∃ R s pub,
    SigToPub (Keccak256 [secret_preimage (AccPubKey r) nonce])
      (R ++ s ++ [normalise_v (byte_of_Z sigV)]) = Ok pub
    ∧ PubkeyToAddress pub = HexToAddress addr
    ∧ length R = 32%nat ∧ length s = 32%nat ∧ be_val s ≤ secpMaxS.
Proof.
  intros H Hl. apply RequestSecret_Ok in H as (_ & (R & S & pub & _ & HS & Hmax & _ & Hp & Ha) & _).
  exists (copy_into (zeros 32) R), (copy_into (zeros 32) S), pub.
  split; [done|]. split; [done|]. split; [apply copy_into_length|]. split; [apply copy_into_length|].
  etrans; [apply copy_into_front_le|exact Hmax].
  apply hex_DecodeString_Ok, hex_parse_length in HS. lia.
Qed.

(** ** Statistics *)

Context {FL : Float64}.

Lemma scan_rows_ok rows :
  is_ok (scan_rows rows) = true ↔ Forall (λ s, is_ok (scan_statistics s) = true) rows.
Proof.
  induction rows as [|s rows IH]; [done|]. rewrite Forall_cons, <-IH. cbn.
  destruct (scan_statistics s), (scan_rows rows); cbn; naive_solver.
Qed.

Lemma avg_None (l : list Z) : avg l = None ↔ l = [].
Proof. destruct l; cbn; naive_solver. Qed.

Lemma recent_nil now span l :
  recent now span l ≠ [] ↔ ∃ t, t ∈ l ∧ now - span ≤ tx_created_at t.
Proof.
  unfold recent. split.
  - intros H. destruct (filter _ l) as [|t k] eqn:E; [done|].
    assert (t ∈ t :: k) as Ht by apply list_elem_of_here.
    rewrite <-E in Ht. apply list_elem_of_filter in Ht. naive_solver.
  - intros (t & Ht & Hn) E. assert (t ∈ filter (λ r, now - span ≤ tx_created_at r) l) as Hin
      by (by apply list_elem_of_filter). rewrite E in Hin. by apply not_elem_of_nil in Hin.
Qed.

Lemma avg_gas_Some l : is_Some (avg (map tx_gas_limit l)) ↔ l ≠ [].
Proof.
  rewrite <-not_eq_None_Some, avg_None. destruct l; cbn; naive_solver.
Qed.

(** A day with a transaction is in a week with one. *)
Lemma scan_statistics_ok now l action :
  is_ok (scan_statistics (stat_of now l action)) = true ↔
  ∃ t, t ∈ l ∧ tx_desc t = action ∧ now - day ≤ tx_created_at t.
Proof.
  set (rows := filter (λ r, tx_desc r = action) l).
  trans (recent now day rows ≠ []).
  - unfold scan_statistics, stat_of; cbn [st_avg_24_hours st_avg_week st_avg_all_time].
    fold rows. split.
    + intros H. apply avg_gas_Some. by destruct (avg (map tx_gas_limit (recent now day rows))).
    + intros H. pose proof H as (t & Ht & Hn)%recent_nil.
      assert (recent now (7 * day) rows ≠ []) as Hw
        by (apply recent_nil; exists t; split; [done|unfold day in *; lia]).
      assert (rows ≠ []) as Ha by (intros ->; by apply not_elem_of_nil in Ht).
      apply avg_gas_Some in H as [? ->], Hw as [? ->], Ha as [? ->]. done.
  - rewrite recent_nil. subst rows. setoid_rewrite list_elem_of_filter. naive_solver.
Qed.

(** When the statistics query answers. With the database reachable it
    succeeds exactly when every action ever recorded has a transaction in the
    last 24 hours: the average over an empty day is NULL, which does not scan
    into the result. *)
Theorem Statistics_ok_iff (w : world) :
  env_db (w_tick w) = DbRuns →
  let txs := accounts_executed_transactions_2 (w_db w) in
  is_ok (Statistics w).1 = true ↔
  ∀ t, t ∈ txs → ∃ t', t' ∈ txs ∧ tx_desc t' = tx_desc t
                       ∧ env_now (w_tick w) - day ≤ tx_created_at t'.
Proof.
  intros Hr txs. unfold Statistics.
  erewrite io_bind_run; [|apply on_err_run, db_run_runs; done].
  rewrite run_pure. cbn [fst]. rewrite scan_rows_ok. fold txs.
  rewrite Forall_map, Forall_forall. split.
  - intros H t Ht. apply (scan_statistics_ok _ _ (tx_desc t)), H.
    by apply elem_of_remove_dups, list_elem_of_fmap_2.
  - intros H action Ha. apply elem_of_remove_dups, list_elem_of_fmap in Ha as (t & -> & Ht).
    apply scan_statistics_ok. by apply H.
Qed.
End AccountFacts.

(** * Reference runs *)

#[export] Instance ref_float : Float64 := {| float64 := QArith_base.Q; scan_numeric q := q |}.

(** A shorter S passes the bound as a number, and exceeds it as the bytes the
    recovery sees. *)
Example short_s_exceeds_bound :
  ∃ s b, hex_DecodeString s = Ok b ∧ be_val b ≤ secpMaxS
         ∧ secpMaxS < be_val (copy_into (zeros 32) b).
Proof. exists (lit "ff"), [xff]. repeat split; vm_compute; congruence. Qed.

Lemma ref_create_Ok :
  is_ok (CreateAccountExec ref_resolver ref_no_ctx ref_create (Some ref_model_mint) None
           ref_world).1 = true.
Proof. vm_compute. reflexivity. Qed.

Lemma CreateAccountExec_sound_witness :
  ∃ res w' f, creation_of ref_resolver ref_create (Some ref_model_mint) f
    ∧ sent_call ref_resolver false (AccountsFactoryAddr ref_resolver) (fresh_args f) false
        ref_world w' (model.Hash res)
    ∧ has_secret (w_db w') (HexToAddress ref_market) (model.Secret res).
Proof.
  destruct (is_ok_run _ ref_create_Ok) as (res & w' & E).
  destruct (CreateAccountExec_sound ref_resolver ref_no_ctx ref_create (Some ref_model_mint) None
              ref_world res w' E) as (_ & f & raw & H1 & H2 & _ & _ & H3).
  exists res, w', f. exact (conj H1 (conj H2 H3)).
Defined.

Lemma created_HasCreated_witness :
  ∃ res w', CreateAccountExec ref_resolver ref_no_ctx ref_create (Some ref_model_mint) None
              ref_world = (Ok res, w')
    ∧ (HasCreated ref_market (serve_requests ref_resolver [] w')).1 = Ok true.
Proof.
  destruct (is_ok_run _ ref_create_Ok) as (res & w' & E). exists res, w'.
  assert (ToLower ref_market = addr_lower (HexToAddress (model.EoaAddr ref_create))) as Ha
    by (vm_compute; reflexivity).
  exact (conj E (created_HasCreated ref_resolver ref_no_ctx ref_create (Some ref_model_mint) None
                   ref_world res w' [] ref_market E eq_refl Ha eq_refl)).
Defined.

Lemma secret_preimage_injective_witness :
  (∃ body, secret_preimage (replicate 32 x41) 5
           = [x19] ++ lit "Ethereum Signed Message:" ++ [x0a] ++ lit "72" ++ body
           ∧ length body = 72%nat)
  ∧ ¬ (secret_preimage (replicate 32 x41) 5 = secret_preimage (replicate 32 x41) 6).
Proof.
  destruct (secret_preimage_injective (replicate 32 x41) (replicate 32 x41) 5 6 eq_refl eq_refl
              ltac:(unfold model.int32; lia) ltac:(unfold model.int32; lia)) as [H1 H2].
  split; [exact H1|]. intros E. destruct (H2 E) as [_ E']. discriminate E'.
Defined.

Lemma RequestSecret_low_s_witness :
  ∃ R s pub,
    SigToPub (Keccak256 [secret_preimage (AccPubKey ref_resolver) 5])
      (R ++ s ++ [normalise_v (byte_of_Z 27)]) = Ok pub
    ∧ PubkeyToAddress pub = HexToAddress (addr_lower ref_eoa)
    ∧ length R = 32%nat ∧ length s = 32%nat ∧ be_val s ≤ secpMaxS.
Proof.
  destruct (is_ok_run _ ref_request_Ok) as (secret & w' & E).
  assert (64 ≤ length ref_sigS)%nat as Hl by (vm_compute; lia).
  exact (RequestSecret_low_s ref_resolver ref_no_ctx (addr_lower ref_eoa) 5 27 ref_sigR ref_sigS
           None ref_world secret w' E Hl).
Defined.

(** A transaction two days old: the statistics fail. *)
Definition ref_old_db : db :=
  mk_db [] [] [] [] [mk_tx_row (1700000000 * 10 ^ 6 - 2 * day) (addr_lower (ref_addr x07))
                       (lit "0x00") 21000 (lit "mint")].

Definition ref_old_world : world := with_db ref_old_db ref_world.

Lemma Statistics_ok_iff_witness : is_ok (Statistics ref_old_world).1 = false.
Proof.
  apply not_true_is_false. intros H.
  pose proof (proj1 (Statistics_ok_iff ref_old_world eq_refl) H) as Hall.
  destruct (Hall _ (list_elem_of_here _ _)) as (t' & Hin & _ & Hn).
  apply list_elem_of_singleton in Hin as ->. vm_compute in Hn. congruence.
Defined.
