(* ===== verification/Auth.v ===== *)
(** * Auth: the HTTP middleware that authenticates requests (main.go)

    The response writer is threaded through; the GraphQL server behind the
    middleware is a parameter of [ServeHTTP], which receives the context. *)
From stdpp Require Import base numbers strings list.
From Stdlib Require Import Strings.Byte ZArith Lia.
From S2P Require Import Prelude GoStd Types Sha512 External Keccak BorshRef Reference Proxy.
From S2P Require Import Convertor ConvertorFacts Db World RefWorld Client Utils Resolvers.
From S2P Require Import ResolverFacts AccountFacts.

(** The parts of a request the middleware reads; an absent header is empty. *)
Record Request := mk_Request {
  Method : gostring;
  Header_Origin : gostring;
  Header_Authorization : gostring
}.

(** [http.ResponseWriter]. *)
Record ResponseWriter := mk_ResponseWriter {
  rw_Header : list (gostring * gostring);
  rw_status : option Z;
  rw_body : bytes
}.

Definition fresh_writer : ResponseWriter := mk_ResponseWriter [] None [].

(** [w.Header().Set(k, v)] replaces the key's values. *)
Definition Header_Set (k v : gostring) (w : ResponseWriter) : ResponseWriter :=
  mk_ResponseWriter (filter (λ p, p.1 ≠ k) (rw_Header w) ++ [(k, v)]) (rw_status w) (rw_body w).

(** Only the first status counts. *)
Definition WriteHeader (code : Z) (w : ResponseWriter) : ResponseWriter :=
  mk_ResponseWriter (rw_Header w) (Some (default code (rw_status w))) (rw_body w).

(** Writing without a status sends 200. *)
Definition Write (b : bytes) (w : ResponseWriter) : ResponseWriter :=
  let w := WriteHeader 200 w in
  mk_ResponseWriter (rw_Header w) (rw_status w) (rw_body w ++ b).

(** The JSON encoder ends the value with a newline. *)
Definition writeUnauthorised (w : ResponseWriter) : ResponseWriter :=
  Write (lit "{" ++ [x22] ++ lit "error" ++ [x22] ++ lit ":" ++ [x22] ++ lit "unauthorised"
         ++ [x22] ++ lit "}" ++ [x0a]) w.

(** The headers set for a cross-origin request. *)
Definition set_cors (origin : gostring) (w : ResponseWriter) : ResponseWriter :=
  if decide (origin = []) then w
  else
    Header_Set (lit "Access-Control-Expose-Headers") (lit "*")
      (Header_Set (lit "Access-Control-Max-Age") (lit "86400")
         (Header_Set (lit "Access-Control-Allow-Credentials") (lit "true")
            (Header_Set (lit "Access-Control-Allow-Methods") (lit "*")
               (Header_Set (lit "Access-Control-Allow-Headers") (lit "*")
                  (Header_Set (lit "Access-Control-Allow-Origin") origin w))))).

Section Auth.
Context {UN : Unicode} {EC : EthCommon} {CR : EthCrypto} {CL : EthClient} {EN : Env}.

Definition no_ctx : Ctx := mk_Ctx None None None None.

Definition StatusBadRequest : Z := 400.
Definition StatusUnauthorized : Z := 401.

Definition ServeHTTP (adminSecret : gostring) (srv : Ctx → ResponseWriter → io ResponseWriter)
    (r : Request) (w : ResponseWriter) : io ResponseWriter :=
  let w := set_cors (Header_Origin r) w in
  if decide (Method r = lit "OPTIONS") then mret (WriteHeader 204 w)
  else
    snowflake ← ask env_int;
    let bearer := Header_Authorization r in
    if decide (bearer = []) then srv no_ctx w
    else if decide (bearer = adminSecret) then
      let adminSecretEnabled := negb (bool_decide (adminSecret = [])) in
      srv (mk_Ctx None None None (Some adminSecretEnabled)) w
    else
      match Split bearer x3a with
      | [eoaPreferred_; secret_] =>
          if negb (IsHexAddress eoaPreferred_) then mret (WriteHeader StatusBadRequest w)
          else
            let eoaPreferred := ToLower (Address_String (HexToAddress eoaPreferred_)) in
            match hex_DecodeString secret_ with
            | Ok _ =>
                let secretX := ToLower secret_ in
                count ← or_fatal "error scanning secrets, snowflake: snowflake: "
                          (db_run (count_secrets eoaPreferred secretX));
                if count =? 0 then mret (writeUnauthorised (WriteHeader StatusUnauthorized w))
                else
                  let eoa := HexToAddress eoaPreferred in
                  srv (mk_Ctx (Some snowflake) (Some true) (Some eoa) None) w
            | _ => mret (WriteHeader StatusBadRequest w)
            end
      | _ => mret (WriteHeader StatusBadRequest w)
      end.
End Auth.

(** ** Splitting a bearer *)

Lemma Split_nonempty s sep : Split s sep ≠ [].
Proof. destruct s as [|c s]; [done|]. cbn. case_decide; [done|]. by destruct (Split s sep). Qed.

Lemma Split_one s sep x : Split s sep = [x] ↔ s = x ∧ sep ∉ s.
Proof.
  revert x. induction s as [|c s IH]; intros x; cbn.
  - split; [intros [= <-]; split; [done|apply not_elem_of_nil]|by intros [<- _]].
  - rewrite not_elem_of_cons. case_decide as Hc.
    + split; [intros [= _ H]; by apply Split_nonempty in H|naive_solver].
    + destruct (Split s sep) as [|y [|z l]] eqn:E; [by apply Split_nonempty in E| |].
      * destruct (proj1 (IH y) eq_refl) as [-> Hn].
        split; [intros [= <-]; split; [done|split; congruence]|by intros [<- _]].
      * split; [done|]. intros [<- [_ Hn]].
        by assert (y :: z :: l = [s]) by (by apply IH).
Qed.

Lemma Split_two s sep x y :
  Split s sep = [x; y] ↔ s = x ++ [sep] ++ y ∧ sep ∉ x ∧ sep ∉ y.
Proof.
  revert x. induction s as [|c s IH]; intros x; cbn.
  - split; [done|]. intros [E _]. by destruct x.
  - case_decide as Hc.
    + subst c. split.
      * intros [= <- H]. apply Split_one in H as [-> H].
        split; [done|]. split; [apply not_elem_of_nil|done].
      * intros (E & Hx & Hy). destruct x as [|d x].
        -- injection E as ->. f_equal. by apply Split_one.
        -- injection E as -> _. destruct Hx. apply list_elem_of_here.
    + destruct (Split s sep) as [|u l] eqn:E; [by apply Split_nonempty in E|]. split.
      * intros [= <- ->]. destruct (proj1 (IH u) eq_refl) as (-> & Hu & Hy).
        split; [done|]. split; [|done]. apply not_elem_of_cons. split; congruence.
      * intros (Es & Hx & Hy). destruct x as [|d x]; [injection Es as -> _; done|].
        injection Es as -> ->. apply not_elem_of_cons in Hx as [_ Hx].
        assert (u :: l = [x; y]) as [= -> ->] by (by apply IH). done.
Qed.

(** * What the middleware lets through *)

Section AuthFacts.
Context {UN : Unicode} {AS : Assets} {EC : EthCommon} {CR : EthCrypto} {BO : Borsh}
  {AB : Abi} {EX : Exec} {CL : EthClient} {EN : Env} {PC : PgCalendar} {GF : GoFmt}.

(** A row of the secrets table that a bearer matches. *)
Definition secret_on_record (d : db) (a : bytes) (secret : gostring) : Prop :=
  ∃ row s, row ∈ accounts_secrets_2 d ∧ rtrim (sr_eoa_addr row) = rtrim (addr_lower a)
           ∧ sr_secret row = Some s ∧ rtrim s = rtrim (ToLower secret).

Lemma count_secrets_spec a secret now d n d' :
  count_secrets (addr_lower a) (ToLower secret) now d = Ok (n, d') →
  d' = d ∧ (n ≠ 0 ↔ secret_on_record d a secret).
Proof.
  unfold count_secrets. intros [= <- <-]. split; [done|]. split.
  - intros Hn. destruct (filter _ _) as [|row l] eqn:E; [done|].
    assert (row ∈ row :: l) as Hrow by apply list_elem_of_here.
    rewrite <-E in Hrow. apply list_elem_of_filter in Hrow as [Hm Hin].
    unfold secret_matches in Hm. apply andb_true_iff in Hm as [Ha Hs].
    destruct (sr_secret row) as [s|] eqn:Es; [|done].
    apply bool_decide_eq_true in Ha, Hs. by exists row, s.
  - intros (row & s & Hin & Ha & Hs & Ht).
    assert (row ∈ filter (λ r, secret_matches (addr_lower a) (ToLower secret) r = true)
                    (accounts_secrets_2 d)) as Hf.
    { apply list_elem_of_filter. split; [|done]. unfold secret_matches. rewrite Hs.
      unfold bpchar_eq. by rewrite !bool_decide_true. }
    destruct (filter _ _); [by apply not_elem_of_nil in Hf|]. cbn. lia.
Qed.

(** The three things that can happen to a request, whatever server is behind
    the middleware. *)
Inductive verdict :=
| Answered (rw : ResponseWriter)
| Passed (ctx : Ctx) (rw : ResponseWriter)
| Died (why : gostring).

Definition apply_verdict (v : verdict) (srv : Ctx → ResponseWriter → io ResponseWriter) (w : world)
    : outcome ResponseWriter * world :=
  match v with
  | Answered rw => (Ok rw, w)
  | Passed ctx rw => srv ctx rw w
  | Died why => (Fatal why, w)
  end.

(** When a context says who the caller is, the bearer said so with a secret
    on record for that address. *)
Definition ctx_justified (adminSecret : gostring) (r : Request) (d : db) (ctx : Ctx) : Prop :=
  (authed_of ctx = true ∨ ctx_eoa ctx ≠ None →
   ∃ addr secret a, Header_Authorization r = addr ++ lit ":" ++ secret
     ∧ IsHexAddress addr = true ∧ a = HexToAddress addr ∧ ctx_eoa ctx = Some a
     ∧ authed_of ctx = true ∧ secret_on_record d a secret)
  ∧ (ctx_is_admin ctx = Some true → Header_Authorization r = adminSecret ∧ adminSecret ≠ []).

Definition verdict_ok (adminSecret : gostring) (r : Request) (d : db) (v : verdict) : Prop :=
  match v with
  | Answered rw => rw_status rw = Some 204 ∨ rw_status rw = Some 400 ∨ rw_status rw = Some 401
  | Passed ctx rw => rw = set_cors (Header_Origin r) fresh_writer
                     ∧ ctx_justified adminSecret r d ctx
  | Died _ => True
  end.

Lemma set_cors_status o : rw_status (set_cors o fresh_writer) = None.
Proof. unfold set_cors. by case_decide. Qed.

(** The database's answer, or the end of the process. *)
Lemma count_secrets_run pre a secret w :
  (∃ why w1, or_fatal pre (db_run (count_secrets (addr_lower a) (ToLower secret))) w = (Fatal why, w1)
             ∧ w_db w1 = w_db w ∧ w_trace w1 = w_trace w)
  ∨ (∃ n, or_fatal pre (db_run (count_secrets (addr_lower a) (ToLower secret))) w
          = (Ok n, ticked w)
          ∧ (n ≠ 0 ↔ secret_on_record (w_db w) a secret)).
Proof.
  destruct (db_run (count_secrets (addr_lower a) (ToLower secret)) w) as [[n|e|p|p] w1] eqn:E.
  - right. exists n. rewrite or_fatal_Ok. pose proof E as (d' & Hc & ->)%db_run_Ok.
    apply count_secrets_spec in Hc as [-> Hc]. rewrite E. by destruct w.
  - left. exists (lit pre ++ e), w1. unfold or_fatal. rewrite run_on_err, E.
    split; [done|]. unfold db_run in E. rewrite run_perform in E. cbn in E. unfold exec_db in E. by destruct (env_db (w_tick w)); simplify_eq/=.
  - unfold db_run in E. rewrite run_perform in E. cbn in E. unfold exec_db in E. by destruct (env_db _).
  - unfold db_run in E. rewrite run_perform in E. cbn in E. unfold exec_db in E. by destruct (env_db _).
Qed.

Lemma answered_ok adminSecret r d o code :
  code = 204 ∨ code = 400 ∨ code = 401 →
  verdict_ok adminSecret r d (Answered (WriteHeader code (set_cors o fresh_writer))).
Proof. intros H. cbn. rewrite set_cors_status. cbn. naive_solver. Qed.

Lemma not_justified adminSecret r d ctx :
  authed_of ctx = false → ctx_eoa ctx = None → ctx_is_admin ctx ≠ Some true →
  ctx_justified adminSecret r d ctx.
Proof. intros H1 H2 H3. split; [intros [E|E]; congruence|done]. Qed.

(** A request answered on the spot, at world [w]. *)
Ltac answered w :=
  eexists (Answered _), w; split; [done|]; do 2 (split; [done|]);
  apply answered_ok; unfold StatusBadRequest, StatusUnauthorized; lia.

(** The bearer of a user: an address and a secret. *)
Lemma bearer_verdict `{CLaws : !EthCommonLaws} adminSecret r addr secret snowflake w1 :
  Header_Authorization r = addr ++ lit ":" ++ secret →
  ∃ v w2,
    (∀ srv : Ctx → ResponseWriter → io ResponseWriter,
     ((if negb (IsHexAddress addr)
      then mret (WriteHeader StatusBadRequest (set_cors (Header_Origin r) fresh_writer))
      else
        match hex_DecodeString secret with
        | Ok _ =>
            count ← or_fatal "error scanning secrets, snowflake: snowflake: "
                      (db_run (count_secrets (ToLower (Address_String (HexToAddress addr)))
                                 (ToLower secret)));
            if count =? 0
            then mret (writeUnauthorised
                         (WriteHeader StatusUnauthorized (set_cors (Header_Origin r) fresh_writer)))
            else srv (mk_Ctx (Some snowflake) (Some true)
                        (Some (HexToAddress (ToLower (Address_String (HexToAddress addr))))) None)
                   (set_cors (Header_Origin r) fresh_writer)
        | _ => mret (WriteHeader StatusBadRequest (set_cors (Header_Origin r) fresh_writer))
        end) : io ResponseWriter) w1 = apply_verdict v srv w2)
    ∧ w_db w2 = w_db w1 ∧ w_trace w2 = w_trace w1
    ∧ verdict_ok adminSecret r (w_db w1) v.
Proof.
  intros Hb. pose proof (HexToAddress_length addr) as Hl.
  rewrite !Address_String_lower, !HexToAddress_lower by done.
  destruct (IsHexAddress addr) eqn:Hh; cbn [negb];
    [|answered w1].
  destruct (hex_DecodeString secret) eqn:Hs;
    [|answered w1..].
  destruct (count_secrets_run "error scanning secrets, snowflake: snowflake: "
              (HexToAddress addr) secret w1) as [(why & w2 & E & Hd & Ht)|(n & E & Hn)].
  { exists (Died why), w2. split; [|done]. intros srv. rewrite run_bind. by rewrite E. }
  destruct (Z.eqb_spec n 0) as [->|Hn0].
  - eexists (Answered _), (ticked w1). split; [intros srv; by rewrite (io_bind_run _ _ _ _ _ E)|].
    do 2 (split; [done|]). right; right. cbn. by rewrite set_cors_status.
  - eexists (Passed _ _), (ticked w1). split.
    { intros srv. rewrite (io_bind_run _ _ _ _ _ E), (proj2 (Z.eqb_neq _ _) Hn0). done. }
    do 3 (split; [done|]). split; [|done]. intros _.
    exists addr, secret, (HexToAddress addr). do 5 (split; [done|]). by apply Hn.
Qed.

(** C5: the middleware decides each request without looking at the server
    behind it: it answers it (204, 400 or 401), ends the process, or passes it
    on. It never writes to the database or sends a transaction. A request
    passed on as authenticated presented, for exactly the address put in the
    context, a secret on record for that address; one passed on as
    administrator presented the configured, non-empty secret. *)
Theorem ServeHTTP_sound `{CLaws : !EthCommonLaws} (adminSecret : gostring) (r : Request) (w : world) :
  ∃ v w1,
    (∀ srv, ServeHTTP adminSecret srv r fresh_writer w = apply_verdict v srv w1)
    ∧ w_db w1 = w_db w ∧ w_trace w1 = w_trace w
    ∧ verdict_ok adminSecret r (w_db w) v.
Proof.
  unfold ServeHTTP. case_decide as Hm.
  { answered w. }
  case_decide as Hb.
  { eexists (Passed _ _), (ticked w). split; [done|]. do 3 (split; [done|]). by apply not_justified. }
  case_decide as Ha.
  { eexists (Passed _ _), (ticked w). split; [done|]. do 3 (split; [done|]).
    split; [by intros []|]. intros _. split; [done|congruence]. }
  destruct (Split (Header_Authorization r) x3a) as [|x [|y [|z l]]] eqn:Es;
    [answered (ticked w)|answered (ticked w)| |answered (ticked w)].
  apply Split_two in Es as (Es & _ & _).
  destruct (bearer_verdict adminSecret r x y (env_int (w_tick w)) (ticked w) Es)
    as (v & w2 & Hv & Hd & Ht & Hok).
  exists v, w2. split; [exact Hv|]. done.
Qed.

Lemma hex_no_colon b : x3a ∉ hex_EncodeToString b.
Proof.
  assert (∀ n, 0 ≤ n < 16 → hex_digit n ≠ x3a) as Hd.
  { intros n Hn E. apply (f_equal reverseHexTable) in E. by rewrite reverseHexTable_digit in E. }
  induction b as [|x b IH]; [apply not_elem_of_nil|]. rewrite hex_encode_cons.
  pose proof (nibbles x) as (H1 & H2 & _).
  rewrite !not_elem_of_cons. split; [|split]; [by apply not_eq_sym, Hd..|done].
Qed.

(** A request that presents [addr] and [secret] as its bearer. *)
Definition bears (r : Request) (adminSecret addr secret : gostring) : Prop :=
  Method r ≠ lit "OPTIONS" ∧ Header_Authorization r = addr ++ lit ":" ++ secret
  ∧ Header_Authorization r ≠ adminSecret ∧ IsHexAddress addr = true ∧ x3a ∉ addr.

(** The context of a caller authenticated as [a]. *)
Definition user_ctx (a : bytes) (snowflake : Z) : Ctx :=
  mk_Ctx (Some snowflake) (Some true) (Some a) None.

Lemma bearer_passes `{CLaws : !EthCommonLaws} adminSecret r addr raw w srv :
  bears r adminSecret addr (hex_EncodeToString raw) →
  has_secret (w_db w) (HexToAddress addr) (hex_EncodeToString raw) →
  env_db (S (w_tick w)) = DbRuns →
  ServeHTTP adminSecret srv r fresh_writer w
  = srv (user_ctx (HexToAddress addr) (env_int (w_tick w)))
      (set_cors (Header_Origin r) fresh_writer) (ticked (ticked w)).
Proof.
  intros (Hm & Hb & Hadm & Hh & Hcolon) [until Hrow] Hrun.
  pose proof (HexToAddress_length addr) as Hl.
  unfold ServeHTTP. rewrite decide_False by done.
  etrans; [apply io_bind_run; reflexivity|]. cbv beta zeta.
  rewrite decide_False by (rewrite Hb; by destruct addr).
  rewrite decide_False by done.
  rewrite (proj2 (Split_two _ x3a addr (hex_EncodeToString raw)))
    by (split; [exact Hb|split; [done|apply hex_no_colon]]).
  rewrite Hh. cbn [negb].
  rewrite (proj2 (hex_DecodeString_Ok _ _) (hex_parse_encode raw)).
  rewrite !Address_String_lower, !HexToAddress_lower by done.
  destruct (count_secrets_spec (HexToAddress addr) (hex_EncodeToString raw)
    (env_now (w_tick (ticked w))) (w_db (ticked w)) _ _ eq_refl) as [_ Hn].
  etrans; [apply io_bind_run, on_err_run, db_run_runs; [exact Hrun|reflexivity]|].
  cbv beta. rewrite (proj2 (Z.eqb_neq _ _)); [by destruct w|].
  apply Hn. eexists _, _. split; [exact Hrow|]. cbn. by rewrite hex_encode_lower.
Qed.

(** C13: a secret obtained by [requestSecret] authenticates its owner from then
    on. Whatever requests follow, a request that presents the address, in any
    accepted spelling, and the secret is passed on as authenticated as exactly
    that address, unless the database cannot be reached. *)
Theorem requested_secret_authenticates `{CLaws : !EthCommonLaws} (rs : Resolver) (ctx : Ctx)
    (addr addr' : gostring) (nonce v : Z) (sr ss : gostring) (dryrun : option bool)
    (w : world) (secret : gostring) (w' : world) (l : list (Ctx * mutation * option bool))
    (adminSecret : gostring) (r : Request) (srv : Ctx → ResponseWriter → io ResponseWriter) :
  RequestSecret rs ctx addr nonce v sr ss dryrun w = (Ok secret, w') →
  isDryrun dryrun = false →
  bears r adminSecret addr' secret → HexToAddress addr' = HexToAddress addr →
  let w1 := serve_requests rs l w' in
  env_db (S (w_tick w1)) = DbRuns →
  ServeHTTP adminSecret srv r fresh_writer w1
  = srv (user_ctx (HexToAddress addr) (env_int (w_tick w1)))
      (set_cors (Header_Origin r) fresh_writer) (ticked (ticked w1)).
Proof.
  intros H Hd Hb Ha w1 Hrun.
  apply RequestSecret_Ok in H as (_ & _ & _ & _ & raw & _ & -> & H). rewrite Hd in H.
  destruct H as (_ & until & Hdb). rewrite <-Ha. apply (bearer_passes _ _ _ raw); [done| |done].
  eapply has_secret_grows; [apply serve_requests_grows|].
  rewrite Hdb, Ha. apply with_secret_has.
Qed.

(** So does the secret returned by [createAccountExec]. *)
Theorem created_account_authenticates `{AL : !AbiLaws, CLaws : !EthCommonLaws} (rs : Resolver)
    (ctx : Ctx) (ca : model.CreateAccount) (mint : option model.Mint) (dryrun : option bool)
    (w : world) (res : model.CreateAccountExec) (w' : world)
    (l : list (Ctx * mutation * option bool)) (adminSecret addr' : gostring) (r : Request)
    (srv : Ctx → ResponseWriter → io ResponseWriter) :
  CreateAccountExec rs ctx ca mint dryrun w = (Ok res, w') →
  isDryrun dryrun = false →
  bears r adminSecret addr' (model.Secret res) →
  HexToAddress addr' = HexToAddress (model.EoaAddr ca) →
  let w1 := serve_requests rs l w' in
  env_db (S (w_tick w1)) = DbRuns →
  ServeHTTP adminSecret srv r fresh_writer w1
  = srv (user_ctx (HexToAddress (model.EoaAddr ca)) (env_int (w_tick w1)))
      (set_cors (Header_Origin r) fresh_writer) (ticked (ticked w1)).
Proof.
  intros H Hd Hb Ha w1 Hrun.
  apply CreateAccountExec_Ok in H as (_ & f & raw & _ & _ & _ & Hs & H).
  rewrite Hd in H. rewrite Hs in H, Hb. rewrite <-Ha. apply (bearer_passes _ _ _ raw); [done| |done].
  eapply has_secret_grows; [apply serve_requests_grows|]. by rewrite Ha.
Qed.
End AuthFacts.

(** * Reference requests *)

Definition ref_http (bearer : gostring) : Request := mk_Request (lit "POST") [] bearer.

Lemma ServeHTTP_sound_witness :
  ∃ v w1, (∀ srv, ServeHTTP [] srv (ref_http (lit "nobody")) fresh_writer ref_world
                  = apply_verdict v srv w1)
    ∧ w_db w1 = w_db ref_world ∧ w_trace w1 = w_trace ref_world
    ∧ verdict_ok [] (ref_http (lit "nobody")) (w_db ref_world) v.
Proof. exact (ServeHTTP_sound [] (ref_http (lit "nobody")) ref_world). Defined.

Lemma not_empty_bearer addr secret : addr ++ lit ":" ++ secret ≠ [].
Proof. by destruct addr. Qed.

Lemma requested_secret_authenticates_witness :
  ∃ secret w1, ∀ srv,
    ServeHTTP [] srv (ref_http (addr_lower ref_eoa ++ lit ":" ++ secret)) fresh_writer w1
    = srv (user_ctx (HexToAddress (addr_lower ref_eoa)) (env_int (w_tick w1))) fresh_writer
        (ticked (ticked w1)).
Proof.
  destruct (is_ok_run _ ref_request_Ok) as (secret & w' & E).
  exists secret, (serve_requests ref_resolver [] w'). intros srv.
  assert (IsHexAddress (addr_lower ref_eoa) = true) as Hh by (vm_compute; reflexivity).
  assert (x3a ∉ addr_lower ref_eoa) as Hc by (apply (bool_decide_unpack _); vm_compute; exact I).
  apply (requested_secret_authenticates ref_resolver ref_no_ctx (addr_lower ref_eoa)
           (addr_lower ref_eoa) 5 27 ref_sigR ref_sigS None ref_world secret w' [] []
           (ref_http (addr_lower ref_eoa ++ lit ":" ++ secret)) srv E eq_refl);
    [|reflexivity|reflexivity].
  split_and!; [done|done|apply not_empty_bearer|exact Hh|exact Hc].
Defined.

Lemma created_account_authenticates_witness :
  ∃ secret w1, ∀ srv,
    ServeHTTP [] srv (ref_http (ref_market ++ lit ":" ++ secret)) fresh_writer w1
    = srv (user_ctx (HexToAddress ref_market) (env_int (w_tick w1))) fresh_writer
        (ticked (ticked w1)).
Proof.
  destruct (is_ok_run _ ref_create_Ok) as (res & w' & E).
  exists (model.Secret res), (serve_requests ref_resolver [] w'). intros srv.
  assert (IsHexAddress ref_market = true) as Hh by (vm_compute; reflexivity).
  assert (x3a ∉ ref_market) as Hc by (apply (bool_decide_unpack _); vm_compute; exact I).
  apply (created_account_authenticates ref_resolver ref_no_ctx ref_create (Some ref_model_mint)
           None ref_world res w' [] [] ref_market
           (ref_http (ref_market ++ lit ":" ++ model.Secret res)) srv E eq_refl);
    [|reflexivity|reflexivity].
  split_and!; [done|done|apply not_empty_bearer|exact Hh|exact Hc].
Defined.
