(* ===== verification/Config.v ===== *)
(** * Config: the server's configuration (the first half of [main], main.go)

    [main] reads the environment, refuses to start on a bad value with
    [log.Fatal], and builds the resolver and the middleware. The rest of
    [main] is in Mux. *)
From stdpp Require Import base numbers strings list.
From Stdlib Require Import Strings.Byte ZArith Lia.
From S2P Require Import Prelude GoStd External Reference Utils.

(** [ethclient.Dial] and [sql.Open]: whether they accept an address. *)
Class Dialers := {
  ethclient_Dial : gostring → outcome unit;
  sql_Open : gostring → outcome unit
}.

Section Config.
Context {EC : EthCommon} {DI : Dialers}.

Definition EnvGethAddr : gostring := lit "SPN_GETH_URL".
Definition EnvTimescaleUri : gostring := lit "SPN_TIMESCALE".
Definition EnvChainId : gostring := lit "SPN_CHAIN_ID".
Definition EnvAccountsFactoryAddr : gostring := lit "SPN_ACCOUNTS_ADDR".
Definition EnvAccPrivateKey : gostring := lit "SPN_ACCOUNTS_PRIVATE_KEY".
Definition EnvAccPublicKey : gostring := lit "SPN_ACCOUNTS_PUBLIC_KEY".
Definition EnvAdminSecret : gostring := lit "SPN_ADMIN_SECRET".
Definition EnvClaimantHelperAddr : gostring := lit "SPN_CLAIMANT_HELPER".
Definition EnvAlarmWebhook : gostring := lit "SPN_ALARM_WEBHOOK".
Definition EnvFeatureClaimDisabled : gostring := lit "SPN_FEATURE_CLAIM_DISABLED".
Definition EnvFeatureMintDisabled : gostring := lit "SPN_FEATURE_MINT_DISABLED".
Definition EnvFeatureCheckCode : gostring := lit "SPN_FEATURE_CHECK_CODE".
Definition EnvMinimumAmount : gostring := lit "SPN_MINIMUM_AMOUNT".
Definition EnvSafetyRouter : gostring := lit "SPN_SAFETY_ROUTER_ADDR".

(** [if err != nil { log.Fatalf("prefix%v", err) }]. *)
Definition fatal_on_err {A} (pre : string) (m : outcome A) : outcome A :=
  match m with
  | Err e => Fatal (lit pre ++ e)
  | m => m
  end.

Definition check_fatal (ok : bool) (why : gostring) : outcome unit :=
  if ok then Ok tt else Fatal why.

Definition nonempty (s : gostring) : bool := negb (bool_decide (s = [])).

(** The resolver and the middleware's admin secret. *)
Definition main_config (Getenv : gostring → gostring) : outcome (Resolver * gostring) :=
  fatal_on_err "failed to dial out: " (ethclient_Dial (Getenv EnvGethAddr));;
  fatal_on_err "connect database: " (sql_Open (Getenv EnvTimescaleUri));;
  chainId ← from_option Ok (Fatal (lit "chain id not set")) (big_SetString (Getenv EnvChainId));
  minAmt ←
    (let s := Getenv EnvMinimumAmount in
     if nonempty s
     then from_option Ok (Fatal (lit "bad minimum amount: " ++ s)) (big_SetString s)
     else Ok 0);
  let safetyRouterAddrS := Getenv EnvSafetyRouter in
  check_fatal (IsHexAddress safetyRouterAddrS) (lit "safety router addr not set");;
  let safetyRouterAddr := HexToAddress safetyRouterAddrS in
  let accountsFactoryAddrS := Getenv EnvAccountsFactoryAddr in
  check_fatal (IsHexAddress accountsFactoryAddrS) (lit "accounts factory addr not set");;
  let accountsFactoryAddr := HexToAddress accountsFactoryAddrS in
  fatal_on_err "accounts private key needs to be set: "
    (hex_DecodeString (Getenv EnvAccPrivateKey));;
  accPubKeyB ← fatal_on_err "accounts public key: " (hex_DecodeString (Getenv EnvAccPublicKey));
  let claimDisabled := nonempty (Getenv EnvFeatureClaimDisabled) in
  let mintDisabled := nonempty (Getenv EnvFeatureMintDisabled) in
  let checkCode := nonempty (Getenv EnvFeatureCheckCode) in
  let alarmWebhook := Getenv EnvAlarmWebhook in
  let accPubKey := copy_into (zeros 32) accPubKeyB in
  let adminSecret := Getenv EnvAdminSecret in
  let claimantHelper := HexToAddress (Getenv EnvClaimantHelperAddr) in
  mret (mk_Resolver chainId minAmt accountsFactoryAddr claimantHelper safetyRouterAddr accPubKey
          alarmWebhook claimDisabled mintDisabled checkCode, adminSecret).
End Config.

(** ** What a server that starts has *)

(** The array types of the resolver's fields. *)
Definition wf_Resolver (r : Resolver) : Prop :=
  length (AccountsFactoryAddr r) = 20%nat ∧ length (ClaimantHelperAddr r) = 20%nat
  ∧ length (SafetyRouterAddr r) = 20%nat ∧ length (AccPubKey r) = 32%nat.

Section ConfigFacts.
Context {EC : EthCommon} {DI : Dialers} {UN : Unicode}.

(** The dialers return or fail; they do not panic. *)
Class DialersLaws : Prop := {
  Dial_returns s : match ethclient_Dial s with Ok _ | Err _ => True | _ => False end;
  Open_returns s : match sql_Open s with Ok _ | Err _ => True | _ => False end
}.

Lemma hex_DecodeString_cases s :
  match hex_DecodeString s with
  | Ok b => hex_parse s = Some b
  | Panic _ => False
  | _ => hex_parse s = None
  end.
Proof.
  pose proof (hex_DecodeString_no_panic s) as Hp.
  destruct (hex_DecodeString s) as [b|e|p|p] eqn:E; [by apply hex_DecodeString_Ok| |by apply Hp|];
    (destruct (hex_parse s) as [b|] eqn:Eb; [|done]); apply hex_DecodeString_Ok in Eb; congruence.
Qed.

Lemma minimum_amount_cases (s : gostring) :
  match (if nonempty s then from_option Ok (Fatal (lit "bad minimum amount: " ++ s)) (big_SetString s)
         else Ok 0) with
  | Ok m => if decide (s = []) then m = 0 else big_SetString s = Some m
  | Fatal _ => s ≠ [] ∧ big_SetString s = None
  | _ => False
  end.
Proof.
  unfold nonempty. destruct (decide (s = [])) as [->|Hs]; [done|].
  rewrite bool_decide_false by done. by destruct (big_SetString s).
Qed.

(** One step of the configuration. *)
Ltac step :=
  cbn [mbind outcome_bind fatal_on_err check_fatal from_option mret outcome_ret is_ok].

(** [copy] into an array of zeros: cut off, or padded. *)
Lemma copy_into_padded n b : copy_into (zeros n) b = take n (b ++ zeros n).
Proof.
  unfold copy_into. rewrite zeros_length, take_app. f_equal.
  unfold zeros. rewrite drop_replicate, take_replicate. f_equal. lia.
Qed.

(** What a resolver and an admin secret have to do with the environment. *)
Record configured (Getenv : gostring → gostring) (r : Resolver) (adminSecret : gostring) : Prop := {
  cf_geth : is_ok (ethclient_Dial (Getenv EnvGethAddr)) = true;
  cf_database : is_ok (sql_Open (Getenv EnvTimescaleUri)) = true;
  cf_chain_id : big_SetString (Getenv EnvChainId) = Some (ChainId r);
  cf_minimum :
    if decide (Getenv EnvMinimumAmount = []) then MinimumAmount r = 0
    else big_SetString (Getenv EnvMinimumAmount) = Some (MinimumAmount r);
  cf_router_set : IsHexAddress (Getenv EnvSafetyRouter) = true;
  cf_router : SafetyRouterAddr r = HexToAddress (Getenv EnvSafetyRouter);
  cf_factory_set : IsHexAddress (Getenv EnvAccountsFactoryAddr) = true;
  cf_factory : AccountsFactoryAddr r = HexToAddress (Getenv EnvAccountsFactoryAddr);
  cf_private_key : is_Some (hex_parse (Getenv EnvAccPrivateKey));
  cf_public_key : ∃ key, hex_parse (Getenv EnvAccPublicKey) = Some key
                       ∧ AccPubKey r = take 32 (key ++ zeros 32);
  cf_claimant : ClaimantHelperAddr r = HexToAddress (Getenv EnvClaimantHelperAddr);
  cf_alarm : UrlAlarm r = Getenv EnvAlarmWebhook;
  cf_claim_disabled : FeatureClaimDisabled r = nonempty (Getenv EnvFeatureClaimDisabled);
  cf_mint_disabled : FeatureMintDisabled r = nonempty (Getenv EnvFeatureMintDisabled);
  cf_check_code : FeatureCheckCode r = nonempty (Getenv EnvFeatureCheckCode);
  cf_secret : adminSecret = Getenv EnvAdminSecret
}.

Lemma configured_unique Getenv r s r' s' :
  configured Getenv r s → configured Getenv r' s' → (r, s) = (r', s').
Proof.
  intros [_ _ Ec Em _ Er _ Ef _ (k & Hk & Ek) Eh Ea Ed Ei Eo Es]
         [_ _ Ec' Em' _ Er' _ Ef' _ (k' & Hk' & Ek') Eh' Ea' Ed' Ei' Eo' Es'].
  destruct r, r'. cbn in *. case_decide; congruence.
Qed.

(** What [main] has found when it goes on, and when it does not. *)
Lemma main_config_cases `{DLaws : !DialersLaws} (Getenv : gostring → gostring) :
  match main_config Getenv with
  | Ok (r, adminSecret) => configured Getenv r adminSecret
  | Fatal _ => ∀ r s, ~ configured Getenv r s
  | _ => False
  end.
Proof.
  unfold main_config.
  pose proof (Dial_returns (Getenv EnvGethAddr)).
  pose proof (Open_returns (Getenv EnvTimescaleUri)).
  pose proof (hex_DecodeString_cases (Getenv EnvAccPrivateKey)) as Hpriv.
  pose proof (hex_DecodeString_cases (Getenv EnvAccPublicKey)) as Hpub.
  destruct (ethclient_Dial _) eqn:Edial; step; [|by intros r s [Hc]; rewrite Edial in Hc|done..].
  destruct (sql_Open _) eqn:Eopen; step; [|by intros r s [? Hc]; rewrite Eopen in Hc|done..].
  destruct (big_SetString (Getenv EnvChainId)) as [c|] eqn:Ec; step;
    [|intros r s [_ _ Hc]; congruence].
  pose proof (minimum_amount_cases (Getenv EnvMinimumAmount)) as Hmin.
  destruct (if nonempty (Getenv EnvMinimumAmount) then _ else _) as [m| | |]; step;
    [|done|done|intros r s [_ _ _ Hc]; destruct Hmin; rewrite decide_False in Hc by done; congruence].
  destruct (IsHexAddress (Getenv EnvSafetyRouter)) eqn:Er; step;
    [|intros r s [_ _ _ _ Hc]; congruence].
  destruct (IsHexAddress (Getenv EnvAccountsFactoryAddr)) eqn:Ef; step;
    [|intros r s [_ _ _ _ _ _ Hc]; congruence].
  destruct (hex_DecodeString (Getenv EnvAccPrivateKey)) as [pk| | |]; step;
    [|intros r s [_ _ _ _ _ _ _ _ [? Hc]]; congruence|done
     |intros r s [_ _ _ _ _ _ _ _ [? Hc]]; congruence].
  destruct (hex_DecodeString (Getenv EnvAccPublicKey)) as [k| | |]; step;
    [|intros r s [_ _ _ _ _ _ _ _ _ (? & Hc & _)]; congruence|done
     |intros r s [_ _ _ _ _ _ _ _ _ (? & Hc & _)]; congruence].
  split; try done.
  - by rewrite Edial.
  - by rewrite Eopen.
  - by exists k; split; [|apply copy_into_padded].
Qed.

(** C37: the server starts exactly when every required setting is present and
    well formed, with exactly the resolver and the admin secret the settings
    say, and otherwise ends the process, without panicking. Required are a
    node and a database that can be opened, a decimal chain id, a decimal
    minimum amount if one is set (none is zero), the addresses of the safety
    router and the factory, and a private and a public key in hex. The
    resolver has those values, the address of the claimant helper and the
    alarm's URL as set, the feature switches on exactly when set, and the
    public key's bytes cut off or padded with zeros to 32. *)
Theorem main_config_spec `{CLaws : !EthCommonLaws, DLaws : !DialersLaws}
    (Getenv : gostring → gostring) :
  (∀ r adminSecret,
     main_config Getenv = Ok (r, adminSecret) ↔ configured Getenv r adminSecret)
  ∧ ((∀ r adminSecret, ~ configured Getenv r adminSecret) ↔ ∃ why, main_config Getenv = Fatal why)
  ∧ ∀ r adminSecret, configured Getenv r adminSecret → wf_Resolver r.
Proof.
  pose proof (main_config_cases Getenv) as Hc.
  split_and!.
  - intros r s. split; [by intros E; rewrite E in Hc|]. intros Hr.
    destruct (main_config Getenv) as [[r' s']| | |why]; try done; [|by apply Hc in Hr].
    f_equal. by eapply configured_unique.
  - destruct (main_config Getenv) as [[r s]| | |why]; try done; [|by split; [eauto|]].
    split; [by intros Hn; apply Hn in Hc|by intros [why [=]]].
  - intros r s [_ _ _ _ _ Er _ Ef _ (k & _ & Ek) Eh]. unfold wf_Resolver.
    rewrite Er, Ef, Eh, Ek. split_and!; try apply HexToAddress_length.
    rewrite length_take, length_app, zeros_length. lia.
Qed.
End ConfigFacts.

#[export] Instance ref_dialers : Dialers :=
  {| ethclient_Dial _ := Ok tt; sql_Open _ := Ok tt |}.

#[export] Instance ref_dialers_laws : DialersLaws.
Proof. done. Qed.

(** An environment with every required setting. *)
Definition ref_getenv (k : gostring) : gostring :=
  if decide (k = EnvChainId) then lit "55244"
  else if decide (k = EnvMinimumAmount) then lit "1000000"
  else if decide (k = EnvSafetyRouter ∨ k = EnvAccountsFactoryAddr)
  then lit "0xF9f8355363ba4712422e6bB39347673Dde896c21"
  else if decide (k = EnvAccPrivateKey ∨ k = EnvAccPublicKey)
  then hex_EncodeToString (replicate 32 x2a)
  else [].

Lemma main_config_spec_witness :
  ∃ r, configured ref_getenv r [] ∧ wf_Resolver r
       ∧ ChainId r = 55244 ∧ MinimumAmount r = 1000000 ∧ AccPubKey r = replicate 32 x2a.
Proof.
  destruct (main_config_spec ref_getenv) as (Hok & _ & Hwf).
  assert (main_config ref_getenv = Ok (mk_Resolver 55244 1000000
    (HexToAddress (lit "0xF9f8355363ba4712422e6bB39347673Dde896c21")) (HexToAddress [])
    (HexToAddress (lit "0xF9f8355363ba4712422e6bB39347673Dde896c21")) (replicate 32 x2a) []
    false false false, [])) as E by (vm_compute; reflexivity).
  apply Hok in E. eexists. split; [exact E|]. split; [exact (Hwf _ _ E)|]. repeat split.
Defined.
