(* ===== verification/Mux.v ===== *)
(** * Mux: which handler a request reaches (the end of [main], main.go)

    [main] registers the middleware for "/" and a playground for "/playground"
    on the default [http.ServeMux], and serves it on the sockets that systemd
    passes. The multiplexer first redirects a path that is not in canonical
    form; the standard library's [path.Clean] on rooted paths is modelled. *)
From stdpp Require Import base numbers strings list.
From Stdlib Require Import Strings.Byte ZArith Lia.
From S2P Require Import Prelude GoStd External Reference Utils Auth Config.

(** ** Canonical paths *)

Definition slash : byte := x2f.

(** One segment: empty ones and [.] are dropped, [..] drops the one before. *)
Definition clean_segment (done : list gostring) (s : gostring) : list gostring :=
  if decide (s = [] ∨ s = lit ".") then done
  else if decide (s = lit "..") then removelast done
  else done ++ [s].

Definition clean_segments (p : gostring) : list gostring :=
  foldl clean_segment [] (Split p slash).

Definition join_path (l : list gostring) : gostring := concat (map (cons slash) l).

(** [path.Clean(p)] for [p] that begins with a slash. *)
Definition path_Clean (p : gostring) : gostring :=
  match clean_segments p with
  | [] => [slash]
  | l => join_path l
  end.

Definition ends_in_slash (p : gostring) : bool := bool_decide (last p = Some slash).

(** net/http: [cleanPath]. *)
Definition cleanPath (p : gostring) : gostring :=
  match p with
  | [] => [slash]
  | c :: _ =>
      let p := if decide (c = slash) then p else slash :: p in
      let np := path_Clean p in
      if ends_in_slash p && negb (bool_decide (np = [slash])) then np ++ [slash] else np
  end.

(** ** The patterns of [main] *)

Inductive target :=
| ToMiddleware
| ToPlayground
| ToRedirect (url : gostring)
| ToNotFound.

(** [mux.findHandler] for the two patterns: "/playground" matches only itself,
    "/" every path. Paths of [CONNECT] are taken as they are. *)
Definition route (method path : gostring) : target :=
  let p := if decide (method = lit "CONNECT") then path else cleanPath path in
  if decide (p = path) then
    if decide (p = lit "/playground") then ToPlayground
    else match p with [] => ToNotFound | c :: _ => if decide (c = slash) then ToMiddleware else ToNotFound end
  else ToRedirect p.

(** ** The pages of the multiplexer itself *)

Definition is_alnum (c : byte) : bool :=
  let z := byte_Z c in
  ((97 <=? z) && (z <=? 122)) || ((65 <=? z) && (z <=? 90)) || ((48 <=? z) && (z <=? 57)).

(** net/url: [shouldEscape(c, encodePath)] is false for these. *)
Definition path_safe (c : byte) : bool :=
  is_alnum c || bool_decide (c ∈ lit "-_.~$&+,/:;=@").

(** net/url: [escape(s, encodePath)], with upper-case digits. *)
Definition url_escape (s : gostring) : gostring :=
  concat (map (λ c, if path_safe c then [c] else [x25; upper_hex (byte_Z c / 16); upper_hex (byte_Z c mod 16)]) s).

(** [(&url.URL{Path: path, RawQuery: query}).String()] for a rooted path. *)
Definition URL_String (path query : gostring) : gostring :=
  url_escape path ++ (if decide (query = []) then [] else lit "?" ++ query).

(** net/http: [hexEscapeNonASCII]. *)
Definition hexEscapeNonASCII (s : gostring) : gostring :=
  concat (map (λ c, if byte_Z c <? 128 then [c] else lit "%" ++ hex_EncodeToString [c]) s).

(** net/http: [htmlEscape]. *)
Definition htmlEscape (s : gostring) : gostring :=
  concat (map (λ c,
    if decide (c = x26) then lit "&amp;" else if decide (c = x3c) then lit "&lt;"
    else if decide (c = x3e) then lit "&gt;" else if decide (c = x22) then lit "&#34;"
    else if decide (c = x27) then lit "&#39;" else [c]) s).

(** [http.Redirect(w, r, url, http.StatusMovedPermanently)] for a canonical
    [url]; only [GET] has a body. *)
Definition Redirect (method url : gostring) (w : ResponseWriter) : ResponseWriter :=
  let w := Header_Set (lit "Location") (hexEscapeNonASCII url) w in
  let w := if decide (method = lit "GET" ∨ method = lit "HEAD")
           then Header_Set (lit "Content-Type") (lit "text/html; charset=utf-8") w else w in
  let w := WriteHeader 301 w in
  if decide (method = lit "GET")
  then Write (lit "<a href=" ++ [x22] ++ htmlEscape url ++ [x22] ++ lit ">Moved Permanently</a>."
              ++ [x0a; x0a]) w
  else w.

(** [http.NotFound]. *)
Definition NotFound (w : ResponseWriter) : ResponseWriter :=
  Write (lit "404 page not found" ++ [x0a])
    (WriteHeader 404
       (Header_Set (lit "X-Content-Type-Options") (lit "nosniff")
          (Header_Set (lit "Content-Type") (lit "text/plain; charset=utf-8") w))).

(** github.com/99designs/gqlgen's page of the playground. *)
Class Playground := playground_Handler : Request → ResponseWriter → ResponseWriter.

(** The default multiplexer as [main] has set it up, before the middleware. *)
Definition ServeMux `{Playground} {M : Type → Type} `{MRet M}
    (authMiddleware : Request → ResponseWriter → M ResponseWriter)
    (r : Request) (path query : gostring) (w : ResponseWriter) : M ResponseWriter :=
  match route (Method r) path with
  | ToMiddleware => authMiddleware r w
  | ToPlayground => mret (playground_Handler r w)
  | ToRedirect p => mret (Redirect (Method r) (URL_String p query) w)
  | ToNotFound => mret (NotFound w)
  end.

(** ** Listening

    What [main] does once it is configured: none when no socket was passed, as
    there is nothing to wait for; it serves the sockets otherwise. *)
Section Main.
Context {EC : EthCommon} {DI : Dialers}.

Definition main_start {Listener : Type} (Getenv : gostring → gostring)
    (Listeners : outcome (list Listener)) : outcome (option (Resolver * gostring * list Listener)) :=
  c ← main_config Getenv;
  l ← fatal_on_err "listeners: " Listeners;
  match l with
  | [] => mret None
  | _ => mret (Some (c, l))
  end.
End Main.

(** ** Properties *)

(** Segments of canonical paths. *)
Definition plain (s : gostring) : Prop :=
  s ≠ [] ∧ s ≠ lit "." ∧ s ≠ lit ".." ∧ slash ∉ s.

Lemma Split_no_sep s sep : Forall (λ x, sep ∉ x) (Split s sep).
Proof.
  induction s as [|c s IH]; cbn; [constructor; [apply not_elem_of_nil|done]|].
  case_decide as Hc; [constructor; [apply not_elem_of_nil|done]|].
  destruct (Split s sep) as [|w ws];
    [constructor; [|done]; intros [-> | []%not_elem_of_nil]%elem_of_cons; done|].
  apply Forall_cons in IH as [H1 H2]. constructor; [|done]. apply not_elem_of_cons. by split.
Qed.

Lemma clean_segments_plain p : Forall plain (clean_segments p).
Proof.
  unfold clean_segments. pose proof (Split_no_sep p slash) as Hs.
  assert (Forall plain []) as Hd by constructor. revert Hd. generalize (@nil gostring) as d.
  induction Hs as [|s l Hs _ IH]; intros d Hd; cbn; [done|]. apply IH. unfold clean_segment.
  case_decide as H1; [done|]. case_decide as H2.
  - destruct d as [|x d _] using rev_ind; [done|]. rewrite removelast_last.
    by apply Forall_app in Hd as [? _].
  - apply Forall_app. split; [done|]. apply Forall_singleton. repeat split; tauto.
Qed.

Lemma Split_plain s rest : slash ∉ s → Split (s ++ slash :: rest) slash = s :: Split rest slash.
Proof.
  induction s as [|c s IH]; cbn; [done|]. intros [Hc Hs]%not_elem_of_cons.
  rewrite decide_False by congruence. by rewrite IH.
Qed.

Lemma Split_last s : slash ∉ s → Split s slash = [s].
Proof. intros Hs. by apply Split_one. Qed.

Lemma Split_join g gs tail :
  slash ∉ g → Forall plain gs → (tail = [] ∨ tail = [slash]) →
  Split (g ++ join_path gs ++ tail) slash = g :: gs ++ (if decide (tail = []) then [] else [[]]).
Proof.
  intros Hg Hgs Ht. revert g Hg. induction Hgs as [|h gs Hh _ IH]; intros g Hg.
  - destruct Ht as [-> | ->]; cbn; [rewrite app_nil_r; by apply Split_last|]. by rewrite Split_plain.
  - change (join_path (h :: gs)) with (slash :: h ++ join_path gs). cbn [app].
    rewrite Split_plain, <-app_assoc by done. rewrite IH by apply Hh. done.
Qed.

Lemma clean_plain d gs : Forall plain gs → foldl clean_segment d gs = d ++ gs.
Proof.
  intros H. revert d. induction H as [|g gs Hg _ IH]; intros d; cbn; [by rewrite app_nil_r|].
  destruct Hg as (H1 & H2 & H3 & _).
  rewrite IH. unfold clean_segment. rewrite !decide_False by tauto. by rewrite <-app_assoc.
Qed.

(** The segments of a canonical path are its own. *)
Lemma clean_segments_join gs tail :
  Forall plain gs → (tail = [] ∨ tail = [slash]) → gs ≠ [] →
  clean_segments (join_path gs ++ tail) = gs.
Proof.
  intros Hgs Ht Hne. destruct gs as [|g gs]; [done|]. apply Forall_cons in Hgs as [Hg Hgs].
  unfold clean_segments. change (join_path (g :: gs)) with (slash :: g ++ join_path gs).
  cbn [app Split]. rewrite decide_True, <-app_assoc, Split_join by (done || apply Hg).
  match goal with |- foldl _ [] ([] :: ?l) = _ =>
    change (foldl clean_segment [] l = g :: gs) end.
  match goal with |- foldl _ _ (g :: gs ++ ?l) = _ =>
    change (g :: gs ++ l) with ((g :: gs) ++ l) end.
  rewrite foldl_app, (clean_plain [] (g :: gs)) by by constructor.
  destruct Ht as [-> | ->]; by case_decide.
Qed.

Lemma join_path_last gs g : plain g → ends_in_slash (join_path (gs ++ [g])) = false.
Proof.
  intros (Hne & _ & _ & Hs). apply bool_decide_eq_false. intros E. apply Hs.
  unfold join_path in E. rewrite map_app, concat_app in E. cbn in E. rewrite app_nil_r in E.
  destruct g as [|c g _] using rev_ind; [done|].
  change (slash :: g ++ [c]) with ((slash :: g) ++ [c]) in E. rewrite app_assoc, last_snoc in E.
  injection E as ->. apply elem_of_app. right. apply list_elem_of_here.
Qed.

(** A path is redirected once: where a redirect leads is canonical. *)
Lemma cleanPath_canonical p : cleanPath (cleanPath p) = cleanPath p.
Proof.
  assert (∀ gs tail, Forall plain gs → gs ≠ [] → (tail = [] ∨ tail = [slash]) →
            cleanPath (join_path gs ++ tail) = join_path gs ++ tail) as Hcanon.
  { intros gs tail Hgs Hne Ht.
    pose proof (clean_segments_join gs tail Hgs Ht Hne) as Hseg.
    assert (∃ x, join_path gs ++ tail = slash :: x) as [x Ex].
    { destruct gs as [|g gs]; [done|]. by eexists. }
    unfold cleanPath. rewrite Ex. rewrite decide_True by done. rewrite <-Ex.
    unfold path_Clean. rewrite Hseg. destruct gs as [|g0 gs0] eqn:Eg; [done|]. rewrite <-Eg in *.
    assert (bool_decide (join_path gs = [slash]) = false) as ->.
    { apply bool_decide_eq_false. rewrite Eg in *. apply Forall_cons in Hgs as [(Hg & _) _].
      unfold join_path. cbn. destruct g0; [done|]. done. }
    rewrite andb_true_r. destruct Ht as [-> | ->].
    - rewrite app_nil_r. destruct gs as [|g gs _] using rev_ind; [done|].
      apply Forall_app in Hgs as [_ [Hg _]%Forall_cons]. by rewrite join_path_last.
    - unfold ends_in_slash. by rewrite last_snoc, bool_decide_eq_true_2. }
  destruct p as [|c p0]; [done|]. unfold cleanPath at 2 3.
  set (q := if decide (c = slash) then c :: p0 else slash :: c :: p0). unfold path_Clean.
  pose proof (clean_segments_plain q) as Hpl. destruct (clean_segments q) as [|g gs]; [|].
  - rewrite (bool_decide_eq_true_2 ([slash] = _)), andb_false_r by done. done.
  - destruct (ends_in_slash q && _); [by apply Hcanon; auto|].
    pose proof (Hcanon (g :: gs) []) as H. rewrite app_nil_r in H. by apply H; auto.
Qed.

Lemma cleanPath_rooted p : ∃ x, cleanPath p = slash :: x.
Proof.
  unfold cleanPath. destruct p as [|c p]; [by eexists|].
  set (q := if decide (c = slash) then c :: p else slash :: c :: p). unfold path_Clean.
  destruct (clean_segments q) as [|g gs]; destruct (_ && _); by eexists.
Qed.

(** Every path leads somewhere: to the playground, the middleware, or once to
    another path that does. *)
Lemma redirects_once method path url :
  method ≠ lit "CONNECT" → route method path = ToRedirect url →
  route method url = ToPlayground ∨ route method url = ToMiddleware.
Proof.
  intros Hm.
  assert (∀ q, route method q =
            if decide (cleanPath q = q) then
              if decide (q = lit "/playground") then ToPlayground else ToMiddleware
            else ToRedirect (cleanPath q)) as Hr.
  { intros q. unfold route. rewrite (decide_False (P := method = _)) by done.
    case_decide as E; [|done]. destruct (cleanPath_rooted q) as [x Hx].
    rewrite E in Hx |- *. case_decide; [done|]. destruct q as [|c q]; [done|].
    rewrite decide_True; [done|congruence]. }
  rewrite !Hr. case_decide as E; [by case_decide|]. intros [= <-].
  rewrite cleanPath_canonical, decide_True by done. case_decide; auto.
Qed.

(** The server serves exactly when its settings are good and systemd passed it
    a socket; without one it ends, without error. *)
Lemma main_serves {EC : EthCommon} {DI : Dialers} {Listener} Getenv (l : list Listener) x :
  main_start Getenv (Ok l) = Ok x ↔
  ∃ c, main_config Getenv = Ok c ∧ x = match l with [] => None | _ => Some (c, l) end.
Proof.
  unfold main_start. split.
  - destruct (main_config Getenv) as [c|?|?|?]; cbn; try discriminate. intros E. exists c.
    split; [done|]. destruct l; by injection E.
  - intros (c & -> & ->). by destruct l.
Qed.
