(* ===== verification/Tools.v ===== *)
(** * Tools: the command-line programs of tools/

    leftpad-int, keccak256-hex, sign-stdin and make-permit. A program is a
    function of its arguments and its input to its output. *)
From stdpp Require Import base numbers strings list.
From Stdlib Require Import Strings.Byte ZArith Lia.
From S2P Require Import Prelude GoStd Types Sha512 External Keccak BorshRef Reference Ninelives.
From S2P Require Import Convertor ConvertorFacts Db World RefWorld Client Utils Resolvers.
From S2P Require Import ResolverFacts.

Section Tools.
Context {EC : EthCommon} {CR : EthCrypto}.

(** [os.Args\[i\]]. *)
Definition os_Arg (args : list gostring) (i : nat) : outcome gostring :=
  from_option Ok (Panic (lit "runtime error: index out of range")) (args !! i).

(** ** tools/leftpad-int *)
Definition leftpad_int (args : list gostring) : outcome bytes :=
  a ← os_Arg args 1;
  v ← from_option Ok (Panic (lit "bad arg")) (big_SetString a);
  let b := big_Bytes v in
  (if (length b <=? 32)%nat then Ok tt
   else Panic (lit "runtime error: makeslice: len out of range"));;
  let c := zeros (32 - length b) in
  mret (hex_EncodeToString (c ++ b) ++ [x0a]).

(** ** tools/keccak256-hex *)

(** The bytes before the first newline. *)
Fixpoint until_newline (l : bytes) : option bytes :=
  match l with
  | [] => None
  | c :: l' => if decide (c = x0a) then Some [] else (c ::.) <$> until_newline l'
  end.

Definition drop_last_cr (l : bytes) : bytes :=
  match last l with
  | Some x0d => removelast l
  | _ => l
  end.

(** [bufio.NewReader(os.Stdin).ReadLine()] with the default buffer of 4096
    bytes: a line that fills the buffer comes back in parts, of which the
    program reads the first. *)
Definition ReadLine (stdin : bytes) : outcome bytes :=
  match until_newline (take 4096 stdin) with
  | Some l => Ok (drop_last_cr l)
  | None =>
      if decide (stdin = []) then Err (lit "EOF")
      else if decide (length stdin < 4096)%nat then Ok stdin
      else Ok (drop_last_cr (take 4096 stdin))
  end.

Definition keccak256_hex (stdin : bytes) : outcome bytes :=
  l ← panic_on_err (ReadLine stdin);
  b ← panic_on_err (hex_DecodeString l);
  mret (hex_EncodeToString (Keccak256 [b])).

(** ** tools/sign-stdin *)

(** The fields both signing tools print. *)
Record sig_fields := mk_sig_fields { sig_R : gostring; sig_S : gostring; sig_V : byte }.

Definition json_string (s : gostring) : gostring := [x22] ++ s ++ [x22].

(** [s\[0:32\]], [s\[32:64\]] and [s\[64\]]. *)
Definition split_sig (s : bytes) : outcome (bytes * bytes * byte) :=
  match s !! 64%nat with
  | Some v => Ok (take 32 s, take 32 (drop 32 s), v)
  | None => Panic (lit "runtime error: slice bounds out of range")
  end.

Definition sign_stdin_fields (args : list gostring) (stdin : bytes) : outcome sig_fields :=
  a ← os_Arg args 1;
  p ← panic_on_err (HexToECDSA (TrimPrefix a (lit "0x")));
  let preimage := [x19] ++ lit "Ethereum Signed Message:" ++ [x0a]
                  ++ fmt_d (Z.of_nat (length stdin)) ++ stdin in
  let d := Keccak256 [preimage] in
  s ← panic_on_err (crypto_Sign d p);
  x ← split_sig s;
  let '(r, s, v) := x in
  mret (mk_sig_fields (hex_EncodeToString r) (hex_EncodeToString s) (byte_of_Z (byte_Z v + 27))).

Definition sign_stdin (args : list gostring) (stdin : bytes) : outcome bytes :=
  f ← sign_stdin_fields args stdin;
  mret (lit "{" ++ json_string (lit "r") ++ lit ":" ++ json_string (sig_R f)
        ++ lit "," ++ json_string (lit "s") ++ lit ":" ++ json_string (sig_S f)
        ++ lit "," ++ json_string (lit "v") ++ lit ":" ++ fmt_d (byte_Z (sig_V f))
        ++ lit "}" ++ [x0a]).

(** ** tools/make-permit *)

Definition TokenName : gostring := lit "Bridged USDC (Stargate)".
Definition TokenVersion : gostring := lit "2".
Definition permit_ChainId : Z := 55244.

(** [ethCommon.BigToHash(n).Bytes()]: the last 32 bytes, padded. *)
Definition BigToHash (n : Z) : bytes :=
  let b := big_Bytes n in
  let b := drop (length b - 32) b in
  zeros (32 - length b) ++ b.

Definition MaxHash : bytes := replicate 32 xff.

Definition domainSep (tokenAddr : bytes) : bytes :=
  Keccak256 [
    Keccak256 [lit "EIP712Domain(string name,string version,uint256 chainId,address verifyingContract)"];
    Keccak256 [TokenName];
    Keccak256 [TokenVersion];
    BigToHash permit_ChainId;
    LeftPadBytes tokenAddr 32].

Definition structHash (ownerAddr accountsAddr : bytes) (nonce deadline : Z) : bytes :=
  let permitHash := Keccak256
    [lit "Permit(address owner,address spender,uint256 value,uint256 nonce,uint256 deadline)"] in
  Keccak256 [
    permitHash;
    LeftPadBytes ownerAddr 32;
    LeftPadBytes accountsAddr 32;
    MaxHash;
    LeftPadBytes (big_Bytes nonce) 32;
    LeftPadBytes (big_Bytes deadline) 32].

Definition make_permit_fields (args : list gostring) : outcome sig_fields :=
  a1 ← os_Arg args 1;
  privKey ← panic_on_err (HexToECDSA a1);
  a2 ← os_Arg args 2;
  let accountsAddr := HexToAddress a2 in
  a3 ← os_Arg args 3;
  nonce ← from_option Ok (Panic (lit "bad nonce")) (big_SetString a3);
  let ownerAddr := PubkeyToAddress (Public privKey) in
  a4 ← os_Arg args 4;
  let tokenAddr := HexToAddress a4 in
  a5 ← os_Arg args 5;
  deadline ← from_option Ok (Panic (lit "bad deadline")) (big_SetString a5);
  let d := Keccak256 [[x19; x01]; domainSep tokenAddr;
                      structHash ownerAddr accountsAddr nonce deadline] in
  sig ← panic_on_err (crypto_Sign d privKey);
  x ← split_sig sig;
  let '(r, s, v) := x in
  let v := if byte_Z v <? 27 then byte_of_Z (byte_Z v + 27) else v in
  mret (mk_sig_fields (hex_EncodeToString r) (hex_EncodeToString s) v).

Definition make_permit (args : list gostring) : outcome bytes :=
  f ← make_permit_fields args;
  mret (lit "{" ++ json_string (lit "v") ++ lit ":" ++ fmt_d (byte_Z (sig_V f))
        ++ lit "," ++ json_string (lit "r") ++ lit ":" ++ json_string (sig_R f)
        ++ lit "," ++ json_string (lit "s") ++ lit ":" ++ json_string (sig_S f)
        ++ lit "}" ++ [x0a]).
End Tools.

(** * What the tools print *)

Lemma padded_be_split z n :
  Z.abs z < 256 ^ Z.of_nat n →
  zeros (n - length (big_Bytes z)) ++ big_Bytes z = be_split n (Z.abs z).
Proof.
  intros Hz. pose proof (proj2 (big_Bytes_le z n) Hz) as Hl. apply be_val_inj.
  - rewrite length_app, zeros_length, be_split_length. lia.
  - rewrite be_val_padded, be_val_split_small by lia. done.
Qed.

(** Leftpad-int prints the 32-byte big-endian form of every number below
    2^256, as 64 hexadecimal digits and a newline, and panics on a larger
    one or on an argument that is not a decimal number. *)
Theorem leftpad_int_spec (prog a : gostring) :
  match big_SetString a with
  | Some v =>
      if decide (Z.abs v < 2 ^ 256)
      then leftpad_int [prog; a] = Ok (hex_EncodeToString (be_split 32 (Z.abs v)) ++ [x0a])
      else panics (leftpad_int [prog; a])
  | None => panics (leftpad_int [prog; a])
  end.
Proof.
  unfold leftpad_int. change (os_Arg [prog; a] 1) with (Ok a).
  cbn [mbind outcome_bind]. destruct (big_SetString a) as [v|]; [|done].
  cbn [mbind outcome_bind from_option].
  pose proof (big_Bytes_le v 32) as Hle. change (256 ^ Z.of_nat 32) with (2 ^ 256) in Hle.
  case_decide as Hv.
  - apply Hle in Hv. rewrite (proj2 (Nat.leb_le _ _)) by done.
    cbn [mbind outcome_bind]. rewrite padded_be_split by (apply Hle; done). done.
  - rewrite (proj2 (Nat.leb_gt _ _)) by (apply not_le; by rewrite Hle). done.
Qed.

Section ToolsFacts.
Context {UN : Unicode} {EC : EthCommon} {CR : EthCrypto}.

(** A signature splits into the parts the tools print. *)
Lemma split_sig_app R S v :
  length R = 32%nat → length S = 32%nat → split_sig (R ++ S ++ [v]) = Ok (R, S, v).
Proof.
  intros HR HS. unfold split_sig.
  rewrite app_assoc, lookup_app_r by (rewrite length_app; lia).
  rewrite length_app, HR, HS. cbn. rewrite <-app_assoc.
  rewrite drop_app_length' by done. by rewrite !take_app_length'.
Qed.

(** Adding 27 to the recovery bit is undone by the server. *)
Lemma normalise_v_27 v :
  v = x00 ∨ v = x01 → normalise_v (byte_of_Z (byte_Z (byte_of_Z (byte_Z v + 27)))) = v.
Proof. by intros [-> | ->]. Qed.

(** What sign-stdin signs, the server accepts. Given the 72 bytes of the
    server's public key and the nonce in hexadecimal, and any private key, the
    R, S and V printed are a valid request for a secret of that key's
    address. *)
Theorem sign_stdin_accepted `{CrLaws : !EthCryptoLaws, SLaws : !EthSignLaws} (r : Resolver)
    (prog keyX : gostring) (key : PrivateKey) (nonce : Z) :
  length (AccPubKey r) = 32%nat →
  HexToECDSA (TrimPrefix keyX (lit "0x")) = Ok key →
  ∃ f, sign_stdin_fields [prog; keyX]
         (hex_EncodeToString (AccPubKey r) ++ hex_EncodeToString (binary_BigEndian_int32 nonce))
       = Ok f
    ∧ secret_signature_valid r (PubkeyToAddress (Public key)) nonce (byte_Z (sig_V f))
        (sig_R f) (sig_S f).
Proof.
  intros Hkey Hk. unfold sign_stdin_fields. change (os_Arg [prog; keyX] 1) with (Ok keyX).
  cbn [mbind outcome_bind]. rewrite Hk. cbn [panic_on_err mbind outcome_bind].
  set (msg := hex_EncodeToString (AccPubKey r) ++ _).
  assert (length msg = 72%nat) as Hlen.
  { subst msg. rewrite length_app, !hex_encode_length, Hkey.
    unfold binary_BigEndian_int32. by rewrite be_split_length. }
  rewrite Hlen. change (fmt_d (Z.of_nat 72)) with (lit "72"). subst msg.
  fold (secret_preimage (AccPubKey r) nonce).
  set (d := Keccak256 [secret_preimage (AccPubKey r) nonce]).
  pose proof (crypto_Sign_total d key (Keccak256_length _)) as Ht.
  destruct (crypto_Sign d key) as [sg| | |] eqn:Es; try done.
  apply crypto_Sign_spec in Es as (Hrec & R & S & v & -> & HR & HS & Hlow & Hv).
  cbn [panic_on_err mbind outcome_bind]. rewrite split_sig_app by done.
  eexists. split; [done|]. exists R, S, (Public key). cbn [sig_R sig_S sig_V].
  do 2 (split; [by apply hex_DecodeString_Ok, hex_parse_encode|]).
  split; [done|]. split; [pose proof (byte_Z_range (byte_of_Z (byte_Z v + 27))); lia|].
  split; [|done]. rewrite !copy_into_full, normalise_v_27 by done. exact Hrec.
Qed.

(** ** EIP-712 *)

(** The digest of ERC-2612's Permit for an unlimited allowance, as EIP-712
    defines it: every member of a struct is one 32-byte word. *)
Definition eip712_permit_digest (owner spender token : bytes) (nonce deadline : Z) : bytes :=
  let K b := Keccak256 [b] in
  let domain := K (
    K (lit "EIP712Domain(string name,string version,uint256 chainId,address verifyingContract)")
    ++ K (lit "Bridged USDC (Stargate)") ++ K (lit "2") ++ be_split 32 55244
    ++ abi_word_left token) in
  let permit := K (
    K (lit "Permit(address owner,address spender,uint256 value,uint256 nonce,uint256 deadline)")
    ++ abi_word_left owner ++ abi_word_left spender ++ be_split 32 (2 ^ 256 - 1)
    ++ be_split 32 nonce ++ be_split 32 deadline) in
  K ([x19; x01] ++ domain ++ permit).

Lemma permit_digest_eip712 `{CLaws : !EthCommonLaws, CrLaws : !EthCryptoLaws} owner spender token
    nonce deadline :
  0 ≤ nonce < 2 ^ 256 → 0 ≤ deadline < 2 ^ 256 →
  Keccak256 [[x19; x01]; domainSep token; structHash owner spender nonce deadline]
  = eip712_permit_digest owner spender token nonce deadline.
Proof.
  intros Hn Hd. unfold domainSep, structHash, eip712_permit_digest.
  rewrite !(Keccak256_concat (_ :: _ :: _)). cbn [concat]. rewrite !app_nil_r, !LeftPadBytes_spec.
  rewrite !padded_be_split, !Z.abs_eq by (change (256 ^ Z.of_nat 32) with (2 ^ 256); lia).
  change (BigToHash permit_ChainId) with (be_split 32 55244).
  replace MaxHash with (be_split 32 (2 ^ 256 - 1)) by (vm_compute; reflexivity). done.
Qed.

(** Make-permit signs the EIP-712 digest of the permit: the V, R and S it
    prints recover, over that digest, to the owner of the private key, and the
    server's [NewPermitGraph] accepts them as they are. *)
Theorem make_permit_spec `{CLaws : !EthCommonLaws, CrLaws : !EthCryptoLaws, SLaws : !EthSignLaws,
      AS : Assets} (asset : Asset)
    (prog keyX spenderX nonceX tokenX deadlineX : gostring) (key : PrivateKey)
    (nonce deadline : Z) :
  HexToECDSA keyX = Ok key →
  big_SetString nonceX = Some nonce → 0 ≤ nonce < 2 ^ 256 →
  big_SetString deadlineX = Some deadline → 0 ≤ deadline < 2 ^ 256 →
  ∃ f R S v,
    make_permit_fields [prog; keyX; spenderX; nonceX; tokenX; deadlineX] = Ok f
    ∧ SigToPub (eip712_permit_digest (PubkeyToAddress (Public key)) (HexToAddress spenderX)
                  (HexToAddress tokenX) nonce deadline) (R ++ S ++ [v]) = Ok (Public key)
    ∧ byte_Z (sig_V f) = byte_Z v + 27
    ∧ NewPermitGraph asset deadline (byte_Z (sig_V f)) (sig_R f) (sig_S f)
      = Ok (mk_Permit asset deadline (sig_V f) R S).
Proof.
  intros Hk Hn Hn' Hd Hd'. unfold make_permit_fields, os_Arg.
  cbn [lookup list_lookup from_option mbind outcome_bind].
  rewrite Hk, Hn, Hd. cbn [panic_on_err from_option mbind outcome_bind].
  rewrite permit_digest_eip712 by done. set (dg := eip712_permit_digest _ _ _ _ _).
  pose proof (crypto_Sign_total dg key (Keccak256_length _)) as Ht.
  destruct (crypto_Sign dg key) as [sg| | |] eqn:Es; try done.
  apply crypto_Sign_spec in Es as (Hrec & R & S & v & -> & HR & HS & _ & Hv).
  cbn [panic_on_err mbind outcome_bind]. rewrite split_sig_app by done.
  assert (byte_Z (if byte_Z v <? 27 then byte_of_Z (byte_Z v + 27) else v) = byte_Z v + 27) as HV
    by (by destruct Hv as [-> | ->]).
  eexists _, R, S, v. split; [done|]. split; [exact Hrec|]. cbn [sig_V sig_R sig_S].
  split; [exact HV|]. unfold NewPermitGraph, strToBytes32.
  set (V := if byte_Z v <? 27 then _ else _) in *. pose proof (byte_Z_range V).
  rewrite !(proj2 (Z.leb_le _ _)) by lia. cbn [andb ensure mbind outcome_bind].
  assert (∀ b, length b = 32%nat → decode_exact 32 (hex_EncodeToString b) = Ok b) as Hdec.
  { intros b Hb. by rewrite decode_exact_Ok, TrimPrefix_hex, hex_parse_encode. }
  rewrite !Hdec by done. cbn [wrap mbind outcome_bind mret outcome_ret].
  unfold NewPermit. by rewrite byte_of_Z_byte_Z.
Qed.
End ToolsFacts.

(** The 32-byte word of 258. *)
Example leftpad_int_runs :
  leftpad_int [lit "leftpad-int"; lit "258"]
  = Ok (lit "0000000000000000000000000000000000000000000000000000000000000102" ++ [x0a]).
Proof. vm_compute. reflexivity. Qed.

(** The hash of no bytes, from an empty line. *)
Example keccak256_hex_runs :
  keccak256_hex [x0d; x0a]
  = Ok (lit "c5d2460186f7233c927e7db2dcc703c0e500b653ca82273b7bfad8045d85a470").
Proof. vm_compute. reflexivity. Qed.

Definition ref_private : @PrivateKey ref_eth_crypto := replicate 32 x0a.

Lemma sign_stdin_accepted_witness :
  ∃ f, secret_signature_valid ref_resolver (PubkeyToAddress (Public ref_private)) 5
         (byte_Z (sig_V f)) (sig_R f) (sig_S f).
Proof.
  destruct (sign_stdin_accepted ref_resolver (lit "sign-stdin") (lit "0x" ++ ref_key x0a)
              ref_private 5 eq_refl eq_refl) as (f & _ & Hf).
  exists f. exact Hf.
Defined.

Lemma make_permit_spec_witness :
  ∃ f R S v,
    make_permit_fields [lit "make-permit"; ref_key x0a; ref_market; lit "3"; ref_market;
                        lit "1800000000"] = Ok f
    ∧ SigToPub (eip712_permit_digest (PubkeyToAddress (Public ref_private))
                  (HexToAddress ref_market) (HexToAddress ref_market) 3 1800000000)
        (R ++ S ++ [v]) = Ok (Public ref_private)
    ∧ byte_Z (sig_V f) = byte_Z v + 27
    ∧ NewPermitGraph AssetUsdc 1800000000 (byte_Z (sig_V f)) (sig_R f) (sig_S f)
      = Ok (mk_Permit AssetUsdc 1800000000 (sig_V f) R S).
Proof.
  apply (make_permit_spec AssetUsdc (lit "make-permit") (ref_key x0a) ref_market (lit "3")
           ref_market (lit "1800000000") ref_private 3 1800000000);
    [reflexivity|reflexivity|lia|reflexivity|lia].
Defined.
