(* ===== verification/GraphInput.v ===== *)
(** * GraphInput: decoding GraphQL arguments (graph/generated.go)

    The part of the generated executor that turns the untyped arguments of an
    operation into the resolvers' typed ones. gqlgen's own scalar coercions
    and error paths are the class [Gqlgen]. *)
From stdpp Require Import base numbers strings list.
From Stdlib Require Import Strings.Byte ZArith Lia.
From S2P Require Import Prelude GoStd Types Resolvers ResolverFacts.

(** A value of type [any] as the GraphQL parser and the JSON decoder of the
    variables produce it. The keys of a map are distinct. *)
Inductive any :=
| Nil
| AString (s : gostring)
| AInt (z : Z)
| ABool (b : bool)
| AList (l : list any)
| AMap (m : list (gostring * any))
| AOther.

(** An element of a path: a field or an index. *)
Inductive path_elem :=
| PField (s : gostring)
| PIndex (i : nat).
Abbreviation path := (list path_elem).

(** [v, ok := m\[k\]]. *)
Fixpoint map_get {A} (k : gostring) (m : list (gostring * A)) : option A :=
  match m with
  | [] => None
  | (k', v) :: m' => if decide (k = k') then Some v else map_get k m'
  end.

(** github.com/99designs/gqlgen/graphql. *)
Class Gqlgen := {
  UnmarshalString : any → outcome gostring;
  UnmarshalInt32 : any → outcome Z;
  UnmarshalBoolean : any → outcome bool;
  CoerceList : any → list any;
  (** The text of an error reported at a path. *)
  ErrorOnPath : path → gostring → gostring;
  (** The argument's zero value, its name, and the decoder of its value. *)
  ProcessArgField : ∀ {T : Type}, path → list (gostring * any) → T → gostring →
                    (path → any → outcome T) → outcome T
}.

Class GqlgenLaws `{Gqlgen} : Prop := {
  UnmarshalString_string s : UnmarshalString (AString s) = Ok s;
  UnmarshalInt32_int z : model.int32 z → UnmarshalInt32 (AInt z) = Ok z;
  UnmarshalBoolean_bool b : UnmarshalBoolean (ABool b) = Ok b;
  UnmarshalString_returns v : returns (UnmarshalString v) = true;
  UnmarshalInt32_returns v : returns (UnmarshalInt32 v) = true;
  UnmarshalBoolean_returns v : returns (UnmarshalBoolean v) = true;
  CoerceList_list l : CoerceList (AList l) = l;
  ProcessArgField_absent {T} p raw (zero : T) name f :
    map_get name raw = None → ProcessArgField p raw zero name f = Ok zero;
  ProcessArgField_present {T} p raw (zero : T) name f v :
    map_get name raw = Some v → ∃ p', ProcessArgField p raw zero name f = f p' v
}.

Section GraphInput.
Context {GQ : Gqlgen}.

(** [return res, graphql.ErrorOnPath(ctx, err)]. *)
Definition on_path {A} (p : path) (m : outcome A) : outcome A :=
  match m with
  | Err e => Err (ErrorOnPath p e)
  | m => m
  end.

(** ** Scalars *)

Definition unmarshalNString2string (p : path) (v : any) : outcome gostring :=
  on_path p (UnmarshalString v).
Definition unmarshalNInt2int32 (p : path) (v : any) : outcome Z := on_path p (UnmarshalInt32 v).

(** [if v == nil { return nil, nil }]. *)
Definition optional {A} (f : path → any → outcome A) (p : path) (v : any) : outcome (option A) :=
  match v with
  | Nil => Ok None
  | v => x ← f p v; mret (Some x)
  end.

Definition unmarshalOBoolean2bool : path → any → outcome (option bool) :=
  optional (λ p v, on_path p (UnmarshalBoolean v)).
Definition unmarshalOString2string : path → any → outcome (option gostring) :=
  optional (λ p v, on_path p (UnmarshalString v)).

(** The variants that do not return a pointer. *)
Definition unmarshalNBoolean2bool (p : path) (v : any) : outcome bool := on_path p (UnmarshalBoolean v).
Definition unmarshalOBoolean2bool_value (p : path) (v : any) : outcome bool :=
  on_path p (UnmarshalBoolean v).
Definition unmarshalN__DirectiveLocation2string (p : path) (v : any) : outcome gostring :=
  on_path p (UnmarshalString v).
Definition unmarshalN__TypeKind2string (p : path) (v : any) : outcome gostring :=
  on_path p (UnmarshalString v).

(** The loop over a list's elements stops at the first error. *)
Fixpoint unmarshal_elems {A} (f : path → any → outcome A) (p : path) (i : nat) (l : list any)
    : outcome (list A) :=
  match l with
  | [] => Ok []
  | v :: l' =>
      x ← f (p ++ [PIndex i]) v;
      xs ← unmarshal_elems f p (S i) l';
      mret (x :: xs)
  end.

Definition unmarshalNString2strings (p : path) (v : any) : outcome (list gostring) :=
  unmarshal_elems unmarshalNString2string p 0 (CoerceList v).

Definition unmarshalN__DirectiveLocation2strings (p : path) (v : any) : outcome (list gostring) :=
  unmarshal_elems unmarshalN__DirectiveLocation2string p 0 (CoerceList v).

(** ** Input objects *)

(** [obj.(map\[string\]any)] panics on anything else; nil is the zero value. *)
Definition as_object {A} (zero : A) (obj : any) (f : list (gostring * any) → outcome A) : outcome A :=
  match obj with
  | Nil => Ok zero
  | AMap m => f m
  | _ => Panic (lit "interface conversion")
  end.

(** One field, in the order of [fieldsInOrder]: an absent one keeps its zero
    value. *)
Definition field {A} (p : path) (m : list (gostring * any)) (k : string) (zero : A)
    (f : path → any → outcome A) : outcome A :=
  match map_get (lit k) m with
  | None => Ok zero
  | Some v => f (p ++ [PField (lit k)]) v
  end.

Definition zero_CreateAccount : model.CreateAccount := model.mk_CreateAccount [] 0 [] [] None.

Definition unmarshalInputCreateAccount (p : path) (obj : any) : outcome model.CreateAccount :=
  as_object zero_CreateAccount obj (λ m,
    EoaAddr ← field p m "eoa_addr" [] unmarshalNString2string;
    SigV ← field p m "sigV" 0 unmarshalNInt2int32;
    SigR ← field p m "sigR" [] unmarshalNString2string;
    SigS ← field p m "sigS" [] unmarshalNString2string;
    Authority ← field p m "authority" None unmarshalOString2string;
    mret (model.mk_CreateAccount EoaAddr SigV SigR SigS Authority)).

Definition zero_Permit : model.Permit := model.mk_Permit 0 0 [] [].

Definition unmarshalInputPermit (p : path) (obj : any) : outcome model.Permit :=
  as_object zero_Permit obj (λ m,
    Deadline ← field p m "deadline" 0 unmarshalNInt2int32;
    PermitV ← field p m "permitV" 0 unmarshalNInt2int32;
    PermitR ← field p m "permitR" [] unmarshalNString2string;
    PermitS ← field p m "permitS" [] unmarshalNString2string;
    mret (model.mk_Permit Deadline PermitV PermitR PermitS)).

Definition unmarshalOPermit : path → any → outcome (option model.Permit) :=
  optional (λ p v, on_path p (unmarshalInputPermit p v)).

Definition zero_Mint : model.Mint := model.mk_Mint [] [] [] None [] [].

Definition unmarshalInputMint (p : path) (obj : any) : outcome model.Mint :=
  as_object zero_Mint obj (λ m,
    Market ← field p m "market" [] unmarshalNString2string;
    Outcome ← field p m "outcome" [] unmarshalNString2string;
    Amount ← field p m "amount" [] unmarshalNString2string;
    Permit ← field p m "permit" None unmarshalOPermit;
    Referrer ← field p m "referrer" [] unmarshalNString2string;
    MsTs ← field p m "ms_ts" [] unmarshalNString2string;
    mret (model.mk_Mint Market Outcome Amount Permit Referrer MsTs)).

Definition unmarshalNCreateAccount (p : path) (v : any) : outcome model.CreateAccount :=
  on_path p (unmarshalInputCreateAccount p v).
Definition unmarshalNMint (p : path) (v : any) : outcome model.Mint :=
  on_path p (unmarshalInputMint p v).
Definition unmarshalOMint : path → any → outcome (option model.Mint) :=
  optional (λ p v, on_path p (unmarshalInputMint p v)).

(** *** Inputs that no operation takes *)

(** [(e *Asset) UnmarshalGQL]: the enumeration is set even when the string is
    not one of its values. *)
Definition UnmarshalGQL (e : model.Asset) (v : any) : outcome unit * model.Asset :=
  match v with
  | AString str =>
      (if model.IsValid str then Ok tt else Err (str ++ lit " is not a valid Asset"), str)
  | _ => (Err (lit "enums must be strings"), e)
  end.

Definition unmarshalNPermit (p : path) (v : any) : outcome model.Permit :=
  on_path p (unmarshalInputPermit p v).
Definition unmarshalNPermits (p : path) (v : any) : outcome (list model.Permit) :=
  unmarshal_elems unmarshalNPermit p 0 (CoerceList v).

Definition zero_FromArgs : model.FromArgs := model.mk_FromArgs [] [] [].

Definition unmarshalInputFromArgs (p : path) (obj : any) : outcome model.FromArgs :=
  as_object zero_FromArgs obj (λ m,
    Token ← field p m "token" [] unmarshalNString2string;
    ToTake ← field p m "to_take" [] unmarshalNString2string;
    MaxUnspent ← field p m "max_unspent" [] unmarshalNString2string;
    mret (model.mk_FromArgs Token ToTake MaxUnspent)).

Definition unmarshalNFromArgs (p : path) (v : any) : outcome model.FromArgs :=
  on_path p (unmarshalInputFromArgs p v).
Definition unmarshalNFromArgss (p : path) (v : any) : outcome (list model.FromArgs) :=
  unmarshal_elems unmarshalNFromArgs p 0 (CoerceList v).

Definition zero_SolveArgs : model.SolveArgs := model.mk_SolveArgs [] [] [] [] [].

Definition unmarshalInputSolveArgs (p : path) (obj : any) : outcome model.SolveArgs :=
  as_object zero_SolveArgs obj (λ m,
    Permit ← field p m "permit" [] unmarshalNPermits;
    From ← field p m "from" [] unmarshalNFromArgss;
    Target ← field p m "target" [] unmarshalNString2string;
    Cd ← field p m "cd" [] unmarshalNString2string;
    MsTs ← field p m "ms_ts" [] unmarshalNString2string;
    mret (model.mk_SolveArgs Permit From Target Cd MsTs)).

(** ** The arguments of each operation *)

Definition field_Mutation_claimRewards_args (p : path) (raw : list (gostring * any))
    : outcome (mutation * option bool) :=
  markets ← ProcessArgField p raw [] (lit "markets") unmarshalNString2strings;
  msTs ← ProcessArgField p raw [] (lit "msTs") unmarshalNString2string;
  dryrun ← ProcessArgField p raw None (lit "dryrun") unmarshalOBoolean2bool;
  mret (claimRewards markets msTs, dryrun).

Definition field_Mutation_createAccountExec_args (p : path) (raw : list (gostring * any))
    : outcome (mutation * option bool) :=
  createAccount ← ProcessArgField p raw zero_CreateAccount (lit "createAccount")
                    unmarshalNCreateAccount;
  mint ← ProcessArgField p raw None (lit "mint") unmarshalOMint;
  dryrun ← ProcessArgField p raw None (lit "dryrun") unmarshalOBoolean2bool;
  mret (createAccountExec createAccount mint, dryrun).

Definition field_Mutation_ninelivesMint_args (p : path) (raw : list (gostring * any))
    : outcome (mutation * option bool) :=
  mint ← ProcessArgField p raw zero_Mint (lit "mint") unmarshalNMint;
  dryrun ← ProcessArgField p raw None (lit "dryrun") unmarshalOBoolean2bool;
  mret (ninelivesMint mint, dryrun).

Definition field_Mutation_requestSecret_args (p : path) (raw : list (gostring * any))
    : outcome (mutation * option bool) :=
  eoa_addr ← ProcessArgField p raw [] (lit "eoa_addr") unmarshalNString2string;
  nonce ← ProcessArgField p raw 0 (lit "nonce") unmarshalNInt2int32;
  sigV ← ProcessArgField p raw 0 (lit "sigV") unmarshalNInt2int32;
  sigR ← ProcessArgField p raw [] (lit "sigR") unmarshalNString2string;
  sigS ← ProcessArgField p raw [] (lit "sigS") unmarshalNString2string;
  dryrun ← ProcessArgField p raw None (lit "dryrun") unmarshalOBoolean2bool;
  mret (requestSecret eoa_addr nonce sigV sigR sigS, dryrun).

Definition field_Query_eoaForAddress_args (p : path) (raw : list (gostring * any)) : outcome gostring :=
  ProcessArgField p raw [] (lit "address") unmarshalNString2string.

Definition field_Query_hasCreated_args (p : path) (raw : list (gostring * any)) : outcome gostring :=
  ProcessArgField p raw [] (lit "address") unmarshalNString2string.

Definition field_Query___type_args (p : path) (raw : list (gostring * any)) : outcome gostring :=
  ProcessArgField p raw [] (lit "name") unmarshalNString2string.

(** The arguments of introspection fields. *)
Definition field___Directive_args_args (p : path) (raw : list (gostring * any))
    : outcome (option bool) :=
  ProcessArgField p raw None (lit "includeDeprecated") unmarshalOBoolean2bool.
Definition field___Field_args_args (p : path) (raw : list (gostring * any))
    : outcome (option bool) :=
  ProcessArgField p raw None (lit "includeDeprecated") unmarshalOBoolean2bool.
Definition field___Type_enumValues_args (p : path) (raw : list (gostring * any)) : outcome bool :=
  ProcessArgField p raw false (lit "includeDeprecated") unmarshalOBoolean2bool_value.
Definition field___Type_fields_args (p : path) (raw : list (gostring * any)) : outcome bool :=
  ProcessArgField p raw false (lit "includeDeprecated") unmarshalOBoolean2bool_value.

(** The switch of [_Mutation] on a field's name, up to the call of its
    resolver ([__typename], which calls none, aside). A name is a GraphQL
    identifier, so quoting it adds quotes only. *)
Definition decode_mutation (p : path) (name : gostring) (raw : list (gostring * any))
    : outcome (mutation * option bool) :=
  if decide (name = lit "createAccountExec") then field_Mutation_createAccountExec_args p raw
  else if decide (name = lit "requestSecret") then field_Mutation_requestSecret_args p raw
  else if decide (name = lit "ninelivesMint") then field_Mutation_ninelivesMint_args p raw
  else if decide (name = lit "claimRewards") then field_Mutation_claimRewards_args p raw
  else Panic (lit "unknown field " ++ [x22] ++ name ++ [x22]).
End GraphInput.

(** * Encoding requests *)

Definition any_of_option {A} (f : A → any) (o : option A) : any :=
  match o with None => Nil | Some x => f x end.

Definition any_of_Permit (g : model.Permit) : any :=
  AMap [(lit "deadline", AInt (model.Deadline g)); (lit "permitV", AInt (model.PermitV g));
        (lit "permitR", AString (model.PermitR g)); (lit "permitS", AString (model.PermitS g))].

Definition any_of_Mint (m : model.Mint) : any :=
  AMap [(lit "market", AString (model.Market m)); (lit "outcome", AString (model.Outcome m));
        (lit "amount", AString (model.Amount m));
        (lit "permit", any_of_option any_of_Permit (model.Mint_Permit m));
        (lit "referrer", AString (model.Referrer m)); (lit "ms_ts", AString (model.MsTs m))].

Definition any_of_CreateAccount (c : model.CreateAccount) : any :=
  AMap [(lit "eoa_addr", AString (model.EoaAddr c)); (lit "sigV", AInt (model.SigV c));
        (lit "sigR", AString (model.SigR c)); (lit "sigS", AString (model.SigS c));
        (lit "authority", any_of_option AString (model.Authority c))].

Definition any_of_FromArgs (a : model.FromArgs) : any :=
  AMap [(lit "token", AString (model.Token a)); (lit "to_take", AString (model.ToTake a));
        (lit "max_unspent", AString (model.MaxUnspent a))].

Definition any_of_SolveArgs (a : model.SolveArgs) : any :=
  AMap [(lit "permit", AList (map any_of_Permit (model.SolveArgs_Permit a)));
        (lit "from", AList (map any_of_FromArgs (model.From a)));
        (lit "target", AString (model.Target a)); (lit "cd", AString (model.Cd a));
        (lit "ms_ts", AString (model.SolveArgs_MsTs a))].

(** A mutation as a client sends it: the field's name and its arguments. *)
Definition encode_mutation (m : mutation) (dryrun : option bool)
    : gostring * list (gostring * any) :=
  let dry := (lit "dryrun", any_of_option ABool dryrun) in
  match m with
  | createAccountExec c mint =>
      (lit "createAccountExec",
       [(lit "createAccount", any_of_CreateAccount c);
        (lit "mint", any_of_option any_of_Mint mint); dry])
  | requestSecret a n v r s =>
      (lit "requestSecret",
       [(lit "eoa_addr", AString a); (lit "nonce", AInt n); (lit "sigV", AInt v);
        (lit "sigR", AString r); (lit "sigS", AString s); dry])
  | ninelivesMint mint => (lit "ninelivesMint", [(lit "mint", any_of_Mint mint); dry])
  | claimRewards l t =>
      (lit "claimRewards", [(lit "markets", AList (map AString l)); (lit "msTs", AString t); dry])
  end.

Definition wf_Mint (m : model.Mint) : Prop :=
  match model.Mint_Permit m with Some g => model.wf_Permit g | None => True end.

(** The widths of the [int32] arguments. *)
Definition wf_mutation (m : mutation) : Prop :=
  match m with
  | createAccountExec c mint =>
      model.wf_CreateAccount c ∧ match mint with Some m => wf_Mint m | None => True end
  | requestSecret _ n v _ _ => model.int32 n ∧ model.int32 v
  | ninelivesMint mint => wf_Mint mint
  | claimRewards _ _ => True
  end.

Section GraphInputFacts.
Context {GQ : Gqlgen} {GL : GqlgenLaws}.

Lemma arg_present {T} p raw (zero : T) name f v x :
  map_get name raw = Some v → (∀ p', f p' v = Ok x) →
  ProcessArgField p raw zero name f = Ok x.
Proof. intros Hv Hf. destruct (ProcessArgField_present p raw zero name f v Hv) as [p' ->]. auto. Qed.

Lemma string_ok p s : unmarshalNString2string p (AString s) = Ok s.
Proof. unfold unmarshalNString2string. by rewrite UnmarshalString_string. Qed.

Lemma int_ok p z : model.int32 z → unmarshalNInt2int32 p (AInt z) = Ok z.
Proof. intros. unfold unmarshalNInt2int32. by rewrite UnmarshalInt32_int. Qed.

Lemma dryrun_ok p o : unmarshalOBoolean2bool p (any_of_option ABool o) = Ok o.
Proof. destruct o; [|done]. cbn. by rewrite UnmarshalBoolean_bool. Qed.

Lemma strings_ok p i l :
  unmarshal_elems unmarshalNString2string p i (map AString l) = Ok l.
Proof.
  revert i. induction l as [|s l IH]; intros i; [done|]. cbn [map unmarshal_elems].
  rewrite string_ok. cbn. by rewrite IH.
Qed.

Lemma field_present {A} p m k (zero : A) f v x :
  map_get (lit k) m = Some v → (∀ p', f p' v = Ok x) → field p m k zero f = Ok x.
Proof. intros Hv Hf. unfold field. by rewrite Hv. Qed.

(** The next field or argument, whose value is known to decode. *)
Ltac decode_next H :=
  eapply bind_eq;
  [first [eapply field_present | eapply arg_present]; [reflexivity|exact H]|].

Lemma Permit_ok p g : model.wf_Permit g → unmarshalInputPermit p (any_of_Permit g) = Ok g.
Proof.
  intros [Hd Hv]. unfold unmarshalInputPermit, any_of_Permit, as_object.
  decode_next (λ p', int_ok p' _ Hd). decode_next (λ p', int_ok p' _ Hv).
  decode_next (λ p', string_ok p' (model.PermitR g)).
  decode_next (λ p', string_ok p' (model.PermitS g)). by destruct g.
Qed.

Lemma elems_ok {A} (f : path → any → outcome A) g (l : list A) p i :
  Forall (λ x, ∀ p', f p' (g x) = Ok x) l → unmarshal_elems f p i (map g l) = Ok l.
Proof.
  intros Hl. revert i. induction Hl as [|x l Hx _ IH]; intros i; [done|].
  cbn [map unmarshal_elems]. rewrite Hx. cbn. by rewrite IH.
Qed.

Lemma FromArgs_ok p a : unmarshalInputFromArgs p (any_of_FromArgs a) = Ok a.
Proof.
  unfold unmarshalInputFromArgs, any_of_FromArgs, as_object.
  decode_next (λ p', string_ok p' (model.Token a)).
  decode_next (λ p', string_ok p' (model.ToTake a)).
  decode_next (λ p', string_ok p' (model.MaxUnspent a)). by destruct a.
Qed.

(** The input object of a general call, which no operation takes, decodes to
    what was sent. *)
Lemma SolveArgs_ok p a :
  Forall model.wf_Permit (model.SolveArgs_Permit a) →
  unmarshalInputSolveArgs p (any_of_SolveArgs a) = Ok a.
Proof.
  intros Ha. unfold unmarshalInputSolveArgs, any_of_SolveArgs, as_object.
  assert (∀ p', unmarshalNPermits p' (AList (map any_of_Permit (model.SolveArgs_Permit a)))
                = Ok (model.SolveArgs_Permit a)) as Hp.
  { intros p'. unfold unmarshalNPermits. rewrite CoerceList_list. apply elems_ok.
    eapply Forall_impl; [exact Ha|]. intros g Hg p''. unfold unmarshalNPermit.
    by rewrite Permit_ok. }
  assert (∀ p', unmarshalNFromArgss p' (AList (map any_of_FromArgs (model.From a)))
                = Ok (model.From a)) as Hf.
  { intros p'. unfold unmarshalNFromArgss. rewrite CoerceList_list. apply elems_ok, Forall_forall.
    intros g _ p''. unfold unmarshalNFromArgs. by rewrite FromArgs_ok. }
  decode_next Hp. decode_next Hf. decode_next (λ p', string_ok p' (model.Target a)).
  decode_next (λ p', string_ok p' (model.Cd a)).
  decode_next (λ p', string_ok p' (model.SolveArgs_MsTs a)). by destruct a.
Qed.

Lemma OPermit_ok p o :
  match o with Some g => model.wf_Permit g | None => True end →
  unmarshalOPermit p (any_of_option any_of_Permit o) = Ok o.
Proof.
  destruct o as [g|]; [|done]. intros Hg. unfold unmarshalOPermit, any_of_option, optional.
  pose proof (Permit_ok p g Hg) as E. unfold any_of_Permit in *. by rewrite E.
Qed.

Lemma Mint_ok p m : wf_Mint m → unmarshalInputMint p (any_of_Mint m) = Ok m.
Proof.
  intros Hm. unfold unmarshalInputMint, any_of_Mint, as_object.
  decode_next (λ p', string_ok p' (model.Market m)).
  decode_next (λ p', string_ok p' (model.Outcome m)).
  decode_next (λ p', string_ok p' (model.Amount m)).
  decode_next (λ p', OPermit_ok p' _ Hm).
  decode_next (λ p', string_ok p' (model.Referrer m)).
  decode_next (λ p', string_ok p' (model.MsTs m)). by destruct m.
Qed.

Lemma OMint_ok p o :
  match o with Some m => wf_Mint m | None => True end →
  unmarshalOMint p (any_of_option any_of_Mint o) = Ok o.
Proof.
  destruct o as [m|]; [|done]. intros Hm. unfold unmarshalOMint, any_of_option, optional.
  pose proof (Mint_ok p m Hm) as E. unfold any_of_Mint in *. by rewrite E.
Qed.

Lemma NMint_ok p m : wf_Mint m → unmarshalNMint p (any_of_Mint m) = Ok m.
Proof. intros Hm. unfold unmarshalNMint. by rewrite Mint_ok. Qed.

Lemma OString_ok p o : unmarshalOString2string p (any_of_option AString o) = Ok o.
Proof. destruct o; [|done]. cbn. by rewrite UnmarshalString_string. Qed.

Lemma CreateAccount_ok p c :
  model.wf_CreateAccount c → unmarshalInputCreateAccount p (any_of_CreateAccount c) = Ok c.
Proof.
  intros Hc. unfold unmarshalInputCreateAccount, any_of_CreateAccount, as_object.
  decode_next (λ p', string_ok p' (model.EoaAddr c)). decode_next (λ p', int_ok p' _ Hc).
  decode_next (λ p', string_ok p' (model.SigR c)). decode_next (λ p', string_ok p' (model.SigS c)).
  decode_next (λ p', OString_ok p' (model.Authority c)). by destruct c.
Qed.

Lemma NCreateAccount_ok p c :
  model.wf_CreateAccount c → unmarshalNCreateAccount p (any_of_CreateAccount c) = Ok c.
Proof. intros Hc. unfold unmarshalNCreateAccount. by rewrite CreateAccount_ok. Qed.

(** The enumeration takes exactly its values. *)
Lemma UnmarshalGQL_ok e v :
  is_ok (UnmarshalGQL e v).1 = true ↔ ∃ a, a ∈ model.AllAsset ∧ v = AString a.
Proof.
  destruct v; cbn; try (split; [done|]; intros (a & _ & E); done). unfold model.IsValid.
  split.
  - intros H. exists s. split; [|done]. unfold model.AllAsset.
    repeat (case_bool_decide; [subst; repeat constructor|]); done.
  - intros (a & Ha & [= ->]). unfold model.AllAsset in Ha.
    rewrite !elem_of_cons, elem_of_nil in Ha. by destruct Ha as [->|[->|[->|[]]]].
Qed.

Lemma decode_encode p m dryrun :
  wf_mutation m →
  decode_mutation p (encode_mutation m dryrun).1 (encode_mutation m dryrun).2 = Ok (m, dryrun).
Proof.
  destruct m as [c mint|a n v sr ss|mint|l t]; intros Hm; cbn [encode_mutation fst snd];
    unfold decode_mutation; rewrite ?decide_True, ?decide_False by done.
  - destruct Hm as [Hc Hm]. unfold field_Mutation_createAccountExec_args.
    decode_next (λ p', NCreateAccount_ok p' c Hc). decode_next (λ p', OMint_ok p' mint Hm).
    by decode_next (λ p', dryrun_ok p' dryrun).
  - destruct Hm as [Hn Hv]. unfold field_Mutation_requestSecret_args.
    decode_next (λ p', string_ok p' a). decode_next (λ p', int_ok p' n Hn).
    decode_next (λ p', int_ok p' v Hv). decode_next (λ p', string_ok p' sr).
    decode_next (λ p', string_ok p' ss). by decode_next (λ p', dryrun_ok p' dryrun).
  - unfold field_Mutation_ninelivesMint_args. decode_next (λ p', NMint_ok p' mint Hm).
    by decode_next (λ p', dryrun_ok p' dryrun).
  - unfold field_Mutation_claimRewards_args.
    assert (∀ p', unmarshalNString2strings p' (AList (map AString l)) = Ok l) as Hl.
    { intros p'. unfold unmarshalNString2strings. rewrite CoerceList_list. apply strings_ok. }
    decode_next Hl. decode_next (λ p', string_ok p' t). by decode_next (λ p', dryrun_ok p' dryrun).
Qed.

(** The arguments of a mutation decode to exactly what was sent: encoding
    any mutation whose integers fit 32 bits, with or without a permit, a mint,
    an authority or a dry-run flag, and decoding it gives it back. *)
Theorem decode_mutation_roundtrip (p : path) (m : mutation) (dryrun : option bool) :
  wf_mutation m →
  decode_mutation p (encode_mutation m dryrun).1 (encode_mutation m dryrun).2
  = Ok (m, dryrun).
Proof. apply decode_encode. Qed.

End GraphInputFacts.

(** * A reference decoder *)

#[export] Instance ref_gqlgen : Gqlgen := {|
  UnmarshalString v := match v with AString s => Ok s | _ => Err (lit "not a string") end;
  UnmarshalInt32 v :=
    match v with
    | AInt z => if decide (- 2 ^ 31 ≤ z ∧ z < 2 ^ 31) then Ok z else Err (lit "overflows int32")
    | _ => Err (lit "not an int")
    end;
  UnmarshalBoolean v := match v with ABool b => Ok b | _ => Err (lit "not a bool") end;
  CoerceList v := match v with AList l => l | v => [v] end;
  ErrorOnPath p e := e;
  ProcessArgField T p raw zero name f :=
    match map_get name raw with
    | Some v => f (p ++ [PField name]) v
    | None => Ok zero
    end
|}.

#[export] Instance ref_gqlgen_laws : GqlgenLaws.
Proof.
  split; cbn; try done.
  - intros z [H1 H2]. by rewrite decide_True.
  - by intros [].
  - intros []; try done. by case_decide.
  - by intros [].
  - intros T p raw zero name f ->. done.
  - intros T p raw zero name f v ->. eauto.
Qed.

Definition ref_mutation : mutation := requestSecret (lit "0x00") 5 27 (lit "aa") (lit "bb").

Lemma decode_mutation_roundtrip_witness :
  decode_mutation [] (lit "requestSecret") (encode_mutation ref_mutation (Some true)).2
  = Ok (ref_mutation, Some true).
Proof.
  apply (decode_mutation_roundtrip [] ref_mutation (Some true)).
  split; unfold model.int32; lia.
Defined.
