(* ===== verification/AssetText.v ===== *)
(** * AssetText: the text of the assets' enumeration (graph/model/models_gen.go)

    [MarshalGQL], [MarshalJSON] and [UnmarshalJSON] of [Asset], with strconv's
    [Quote] and [Unquote] that they call. *)
From stdpp Require Import base numbers strings list.
From Stdlib Require Import Strings.Byte ZArith Lia.
From S2P Require Import Prelude GoStd Types GraphInput.
#[local] Open Scope Z_scope.

(** ** unicode/utf8 *)

Definition RuneSelf : Z := 128.
Definition RuneError : Z := 65533.

Definition ValidRune (r : Z) : bool :=
  ((0 <=? r) && (r <? 55296)) || ((57343 <? r) && (r <=? 1114111)).

Definition within (lo hi : Z) (b : byte) : bool := (lo <=? byte_Z b) && (byte_Z b <=? hi).

(** The bytes that may follow the first one. *)
Definition second_range (b0 : Z) : Z * Z :=
  if b0 =? 224 then (160, 191) else if b0 =? 237 then (128, 159)
  else if b0 =? 240 then (144, 191) else if b0 =? 244 then (128, 143) else (128, 191).

(** [utf8.DecodeRuneInString]: the rune and its width. *)
Definition DecodeRune (s : gostring) : Z * nat :=
  match s with
  | [] => (RuneError, 0%nat)
  | c0 :: s' =>
      let b0 := byte_Z c0 in
      let '(lo, hi) := second_range b0 in
      if b0 <? RuneSelf then (b0, 1%nat)
      else if (b0 <? 194) || (244 <? b0) then (RuneError, 1%nat)
      else match s' with
      | c1 :: s1 =>
          if negb (within lo hi c1) then (RuneError, 1%nat)
          else if b0 <? 224 then (Z.lor (Z.shiftl (Z.land b0 31) 6) (Z.land (byte_Z c1) 63), 2%nat)
          else match s1 with
          | c2 :: s2 =>
              if negb (within 128 191 c2) then (RuneError, 1%nat)
              else if b0 <? 240 then
                (Z.lor (Z.lor (Z.shiftl (Z.land b0 15) 12) (Z.shiftl (Z.land (byte_Z c1) 63) 6))
                   (Z.land (byte_Z c2) 63), 3%nat)
              else match s2 with
              | c3 :: _ =>
                  if negb (within 128 191 c3) then (RuneError, 1%nat)
                  else
                    (Z.lor (Z.lor (Z.lor (Z.shiftl (Z.land b0 7) 18) (Z.shiftl (Z.land (byte_Z c1) 63) 12))
                              (Z.shiftl (Z.land (byte_Z c2) 63) 6)) (Z.land (byte_Z c3) 63), 4%nat)
              | [] => (RuneError, 1%nat)
              end
          | [] => (RuneError, 1%nat)
          end
      | [] => (RuneError, 1%nat)
      end
  end.

(** [utf8.AppendRune(nil, r)]. *)
Definition EncodeRune (r : Z) : gostring :=
  let r := if ValidRune r then r else RuneError in
  let tail k := byte_of_Z (Z.lor 128 (Z.land (Z.shiftr r k) 63)) in
  if r <? 128 then [byte_of_Z r]
  else if r <? 2048 then [byte_of_Z (Z.lor 192 (Z.shiftr r 6)); tail 0]
  else if r <? 65536 then [byte_of_Z (Z.lor 224 (Z.shiftr r 12)); tail 6; tail 0]
  else [byte_of_Z (Z.lor 240 (Z.shiftr r 18)); tail 12; tail 6; tail 0].

(** Each step takes a byte at least. *)
Fixpoint valid_utf8 (fuel : nat) (s : gostring) : bool :=
  match s, fuel with
  | [], _ => true
  | _, O => false
  | _, S fuel =>
      let '(r, n) := DecodeRune s in
      negb ((r =? RuneError) && (n =? 1)%nat) && valid_utf8 fuel (drop n s)
  end.
Definition ValidString (s : gostring) : bool := valid_utf8 (length s) s.

(** ** strconv *)

(** The runes above Latin-1 that are printable. *)
Class Printable := print_table : Z → bool.

Section Strconv.
Context {PT : Printable}.

Definition IsPrint (r : Z) : bool :=
  if r <=? 255 then
    if (32 <=? r) && (r <? 127) then true
    else if (161 <=? r) && (r <=? 255) then negb (r =? 173) else false
  else print_table r.

Definition hex_nibble (r k : Z) : byte := hex_digit (Z.land (Z.shiftr r k) 15).

Definition appendEscapedRune (r : Z) (quote : byte) : gostring :=
  if (r =? byte_Z quote) || (r =? 92) then [x5c; byte_of_Z r]
  else if IsPrint r then EncodeRune r
  else if r =? 7 then lit "\a" else if r =? 8 then lit "\b" else if r =? 12 then lit "\f"
  else if r =? 10 then lit "\n" else if r =? 13 then lit "\r" else if r =? 9 then lit "\t"
  else if r =? 11 then lit "\v"
  else if (r <? 32) || (r =? 127) then lit "\x" ++ [hex_nibble r 4; hex_nibble r 0]
  else
    let r := if ValidRune r then r else RuneError in
    if r <? 65536 then lit "\u" ++ map (hex_nibble r) [12; 8; 4; 0]
    else lit "\U" ++ map (hex_nibble r) [28; 24; 20; 16; 12; 8; 4; 0].

Fixpoint quoteWith (fuel : nat) (s : gostring) : gostring :=
  match s, fuel with
  | [], _ | _, O => []
  | c :: _, S fuel =>
      let '(r, width) := if byte_Z c <? RuneSelf then (byte_Z c, 1%nat) else DecodeRune s in
      (if (width =? 1)%nat && (r =? RuneError)
       then lit "\x" ++ [hex_nibble (byte_Z c) 4; hex_nibble (byte_Z c) 0]
       else appendEscapedRune r x22)
      ++ quoteWith fuel (drop width s)
  end.

Definition Quote (s : gostring) : gostring := [x22] ++ quoteWith (length s) s ++ [x22].

Definition ErrSyntax : gostring := lit "invalid syntax".

(** The value of the first digits of [s], none if one is not a digit. *)
Definition hex_value (s : gostring) : option Z :=
  foldl (λ v c, v ← v; x ← reverseHexTable c; Some (Z.lor (Z.shiftl v 4) x)) (Some 0) s.

(** [strconv.UnquoteChar]: the rune, whether it takes several bytes, the rest. *)
Definition UnquoteChar (s : gostring) (quote : byte) : option (Z * bool * gostring) :=
  match s with
  | [] => None
  | c :: s' =>
      if bool_decide (c = quote) && ((byte_Z quote =? 39) || (byte_Z quote =? 34)) then None
      else if RuneSelf <=? byte_Z c then
        let '(r, size) := DecodeRune s in Some (r, true, drop size s)
      else if negb (bool_decide (c = x5c)) then Some (byte_Z c, false, s')
      else match s' with
      | [] => None
      | c :: s =>
          let hex (n : nat) (multibyte : bool) : option (Z * bool * gostring) :=
            if (length s <? n)%nat then None
            else v ← hex_value (take n s);
                 if multibyte then
                   if ValidRune v then Some (v, true, drop n s) else None
                 else Some (v, false, drop n s) in
          if decide (c = x61) then Some (7, false, s)
          else if decide (c = x62) then Some (8, false, s)
          else if decide (c = x66) then Some (12, false, s)
          else if decide (c = x6e) then Some (10, false, s)
          else if decide (c = x72) then Some (13, false, s)
          else if decide (c = x74) then Some (9, false, s)
          else if decide (c = x76) then Some (11, false, s)
          else if decide (c = x78) then hex 2%nat false
          else if decide (c = x75) then hex 4%nat true
          else if decide (c = x55) then hex 8%nat true
          else if within 48 55 c then
            match s with
            | c1 :: c2 :: rest =>
                if within 48 55 c1 && within 48 55 c2 then
                  let v := (byte_Z c - 48) * 64 + (byte_Z c1 - 48) * 8 + (byte_Z c2 - 48) in
                  if 255 <? v then None else Some (v, false, rest)
                else None
            | _ => None
            end
          else if decide (c = x5c) then Some (92, false, s)
          else if decide (c = x27 ∨ c = x22) then
            if decide (c = quote) then Some (byte_Z c, false, s) else None
          else None
      end
  end.

(** The loop of [unquote]: what it has read and the rest, at the quote. A
    single-quoted literal is one character. *)
Fixpoint unquote_loop (fuel : nat) (quote : byte) (s : gostring) : option (gostring * gostring) :=
  match s, fuel with
  | [], _ | _, O => Some ([], s)
  | c :: _, S fuel =>
      if decide (c = quote) then Some ([], s)
      else
        '(r, multibyte, rem) ← UnquoteChar s quote;
        if decide (c = x0a) then None
        else
          let out := if (r <? RuneSelf) || negb multibyte then [byte_of_Z r] else EncodeRune r in
          if decide (quote = x27) then Some (out, rem)
          else '(more, rest) ← unquote_loop fuel quote rem; Some (out ++ more, rest)
  end.

Definition contains (c : byte) (s : gostring) : bool := bool_decide (c ∈ s).

(** [unquote(in, true)]: the contents of the literal that [s] begins with, and
    what follows it. *)
Definition unquote (s : gostring) : option (gostring * gostring) :=
  match s with
  | quote :: (_ :: _) as rest =>
      e ← fst <$> list_find (eq quote) rest;
      let inner := take e rest in
      let after := drop (S e) rest in
      let slow :=
        '(out, rem) ← unquote_loop (length rest) quote rest;
        match rem with
        | c :: rem => if decide (c = quote) then Some (out, rem) else None
        | [] => None
        end in
      if decide (quote = x60) then Some (filter (λ c, c ≠ x0d) inner, after)
      else if decide (quote = x22 ∨ quote = x27) then
        if contains x5c inner || contains x0a inner then slow
        else if decide (quote = x22) then if ValidString inner then Some (inner, after) else slow
        else let '(r, n) := DecodeRune inner in
             if (n =? length inner)%nat && (negb (r =? RuneError) || negb (n =? 1)%nat)
             then Some (inner, after) else slow
      else None
  | _ => None
  end.

Definition Unquote (s : gostring) : outcome gostring :=
  match unquote s with
  | Some (out, []) => Ok out
  | _ => Err ErrSyntax
  end.

(** ** The enumeration *)

(** What [(e Asset) MarshalGQL(w)] writes. *)
Definition MarshalGQL (e : model.Asset) : bytes := Quote (model.Asset_String e).

Definition MarshalJSON (e : model.Asset) : outcome bytes := Ok (MarshalGQL e).

Definition UnmarshalJSON (e : model.Asset) (b : bytes) : outcome unit * model.Asset :=
  match Unquote b with
  | Ok s => UnmarshalGQL e (AString s)
  | Err err => (Err err, e)
  | Panic p => (Panic p, e)
  | Fatal p => (Fatal p, e)
  end.

(** ** Properties *)

(** The text of an asset is read back as that asset. *)
Lemma asset_json_roundtrip e e0 :
  e ∈ model.AllAsset →
  ∃ b, MarshalJSON e = Ok b ∧ UnmarshalJSON e0 b = (Ok tt, e).
Proof.
  intros He. unfold model.AllAsset in He. rewrite !elem_of_cons, elem_of_nil in He.
  destruct He as [->|[->|[->|[]]]]; by eexists.
Qed.

(** Whatever is read, what is accepted is one of the assets. *)
Lemma asset_json_sound e0 b e :
  UnmarshalJSON e0 b = (Ok tt, e) → e ∈ model.AllAsset.
Proof.
  unfold UnmarshalJSON. destruct (Unquote b) as [s|?|?|?]; [|done..]. intros E.
  destruct (proj1 (UnmarshalGQL_ok e0 (AString s))) as (a & Ha & [= ->]); [by rewrite E|].
  cbn in E. by case_match; simplify_eq.
Qed.
End Strconv.
