(* ===== verification/Complexity.v ===== *)
(** * Complexity: the cost of a field (graph/generated.go)

    Custom costs of fields, by type and name; a field without one has the
    default cost, which is what the server uses (main.go sets none). *)
From stdpp Require Import base numbers strings list.
From Stdlib Require Import Strings.Byte ZArith Lia.
From S2P Require Import Prelude GoStd Types Resolvers ResolverFacts GraphInput.

(** Each function takes the cost of the children and the arguments; nil when
    it is not set. *)
Record ComplexityRoot := mk_ComplexityRoot {
  CreateAccountExec_Hash : option (Z → Z);
  CreateAccountExec_Secret : option (Z → Z);
  FlorinOpenPositionResult_Hash : option (Z → Z);
  Mutation_ClaimRewards : option (Z → list gostring → gostring → option bool → Z);
  Mutation_CreateAccountExec :
    option (Z → model.CreateAccount → option model.Mint → option bool → Z);
  Mutation_NinelivesMint : option (Z → model.Mint → option bool → Z);
  Mutation_RequestSecret :
    option (Z → gostring → Z → Z → gostring → gostring → option bool → Z);
  Query_EoaForAddress : option (Z → gostring → Z);
  Query_HasCreated : option (Z → gostring → Z);
  Query_Publickey : option (Z → Z);
  Query_Statistics : option (Z → Z);
  Statistics_Action : option (Z → Z);
  Statistics_AvgGasLimit24Hours : option (Z → Z);
  Statistics_AvgGasLimitAllTime : option (Z → Z);
  Statistics_AvgGasLimitWeek : option (Z → Z);
  Statistics_Tx24Hours : option (Z → Z);
  Statistics_TxAllTime : option (Z → Z);
  Statistics_TxWeek : option (Z → Z)
}.

Definition no_complexity : ComplexityRoot :=
  mk_ComplexityRoot None None None None None None None None None None None None None None None None
    None None.

Section Complexity.
Context {GQ : Gqlgen}.

(** [if f == nil { break }; return f(childComplexity), true]. *)
Definition scalar_complexity (f : option (Z → Z)) (childComplexity : Z) : outcome (Z * bool) :=
  match f with
  | None => Ok (0, false)
  | Some f => Ok (f childComplexity, true)
  end.

(** With arguments: an error of theirs gives the default. *)
Definition args_complexity {F A} (f : option F) (args : outcome A) (call : F → A → Z)
    : outcome (Z * bool) :=
  match f with
  | None => Ok (0, false)
  | Some f =>
      match args with
      | Ok args => Ok (call f args, true)
      | Err _ => Ok (0, false)
      | Panic p => Panic p
      | Fatal p => Fatal p
      end
  end.

(** A call with the arguments of a mutation's own field; their types are the
    ones its decoder makes. *)
Definition call_ClaimRewards (c : Z) f (a : mutation * option bool) : Z :=
  match a with (claimRewards l t, dry) => f c l t dry | _ => 0 end.
Definition call_CreateAccountExec (c : Z) f (a : mutation * option bool) : Z :=
  match a with (createAccountExec x m, dry) => f c x m dry | _ => 0 end.
Definition call_NinelivesMint (c : Z) f (a : mutation * option bool) : Z :=
  match a with (ninelivesMint m, dry) => f c m dry | _ => 0 end.
Definition call_RequestSecret (c : Z) f (a : mutation * option bool) : Z :=
  match a with (requestSecret x n v sr ss, dry) => f c x n v sr ss dry | _ => 0 end.

Definition Complexity (e : ComplexityRoot) (p : path) (typeName field : gostring)
    (childComplexity : Z) (rawArgs : list (gostring * any)) : outcome (Z * bool) :=
  let key := typeName ++ lit "." ++ field in
  if decide (key = lit "CreateAccountExec.hash") then
    scalar_complexity (CreateAccountExec_Hash e) childComplexity
  else if decide (key = lit "CreateAccountExec.secret") then
    scalar_complexity (CreateAccountExec_Secret e) childComplexity
  else if decide (key = lit "FlorinOpenPositionResult.hash") then
    scalar_complexity (FlorinOpenPositionResult_Hash e) childComplexity
  else if decide (key = lit "Mutation.claimRewards") then
    args_complexity (Mutation_ClaimRewards e) (field_Mutation_claimRewards_args p rawArgs)
      (call_ClaimRewards childComplexity)
  else if decide (key = lit "Mutation.createAccountExec") then
    args_complexity (Mutation_CreateAccountExec e)
      (field_Mutation_createAccountExec_args p rawArgs) (call_CreateAccountExec childComplexity)
  else if decide (key = lit "Mutation.ninelivesMint") then
    args_complexity (Mutation_NinelivesMint e) (field_Mutation_ninelivesMint_args p rawArgs)
      (call_NinelivesMint childComplexity)
  else if decide (key = lit "Mutation.requestSecret") then
    args_complexity (Mutation_RequestSecret e) (field_Mutation_requestSecret_args p rawArgs)
      (call_RequestSecret childComplexity)
  else if decide (key = lit "Query.eoaForAddress") then
    args_complexity (Query_EoaForAddress e) (field_Query_eoaForAddress_args p rawArgs)
      (λ f a, f childComplexity a)
  else if decide (key = lit "Query.hasCreated") then
    args_complexity (Query_HasCreated e) (field_Query_hasCreated_args p rawArgs)
      (λ f a, f childComplexity a)
  else if decide (key = lit "Query.publickey") then
    scalar_complexity (Query_Publickey e) childComplexity
  else if decide (key = lit "Query.statistics") then
    scalar_complexity (Query_Statistics e) childComplexity
  else if decide (key = lit "Statistics.action") then
    scalar_complexity (Statistics_Action e) childComplexity
  else if decide (key = lit "Statistics.avgGasLimit24Hours") then
    scalar_complexity (Statistics_AvgGasLimit24Hours e) childComplexity
  else if decide (key = lit "Statistics.avgGasLimitAllTime") then
    scalar_complexity (Statistics_AvgGasLimitAllTime e) childComplexity
  else if decide (key = lit "Statistics.avgGasLimitWeek") then
    scalar_complexity (Statistics_AvgGasLimitWeek e) childComplexity
  else if decide (key = lit "Statistics.tx24Hours") then
    scalar_complexity (Statistics_Tx24Hours e) childComplexity
  else if decide (key = lit "Statistics.txAllTime") then
    scalar_complexity (Statistics_TxAllTime e) childComplexity
  else if decide (key = lit "Statistics.txWeek") then
    scalar_complexity (Statistics_TxWeek e) childComplexity
  else Ok (0, false).
End Complexity.

(** The cost the configuration gives a mutation. *)
Definition mutation_complexity (e : ComplexityRoot) (m : mutation) (dry : option bool) (c : Z)
    : option Z :=
  match m with
  | createAccountExec x mint => f ← Mutation_CreateAccountExec e; Some (f c x mint dry)
  | requestSecret a n v sr ss => f ← Mutation_RequestSecret e; Some (f c a n v sr ss dry)
  | ninelivesMint mint => f ← Mutation_NinelivesMint e; Some (f c mint dry)
  | claimRewards l t => f ← Mutation_ClaimRewards e; Some (f c l t dry)
  end.

Section ComplexityFacts.
Context {GQ : Gqlgen} {GL : GqlgenLaws}.

(** Without custom costs every field has the default one. *)
Lemma Complexity_default p typeName field c raw :
  Complexity no_complexity p typeName field c raw = Ok (0, false).
Proof. unfold Complexity. by repeat case_decide. Qed.

Lemma args_complexity_ok {F A} (f : option F) (a : A) call :
  args_complexity f (Ok a) call
  = Ok (match f with Some f => (call f a, true) | None => (0, false) end).
Proof. by destruct f. Qed.

(** A mutation costs what its own cost function says of the arguments that
    were sent, decoded; without one it has the default cost. *)
Theorem Complexity_mutation (e : ComplexityRoot) (p : path) (m : mutation) (dry : option bool)
    (c : Z) :
  wf_mutation m →
  Complexity e p (lit "Mutation") (encode_mutation m dry).1 c (encode_mutation m dry).2
  = Ok (match mutation_complexity e m dry c with Some z => (z, true) | None => (0, false) end).
Proof.
  intros Hm. pose proof (decode_encode p m dry Hm) as Hd.
  destruct m as [x mint|a n v sr ss|mint|l t]; cbn [encode_mutation fst snd] in *;
    unfold decode_mutation in Hd;
    repeat first [rewrite decide_True in Hd by done | rewrite decide_False in Hd by done];
    unfold Complexity; cbv zeta;
    repeat first [rewrite decide_True by done | rewrite decide_False by done];
    rewrite Hd, args_complexity_ok; unfold mutation_complexity.
  - by destruct (Mutation_CreateAccountExec e).
  - by destruct (Mutation_RequestSecret e).
  - by destruct (Mutation_NinelivesMint e).
  - by destruct (Mutation_ClaimRewards e).
Qed.
End ComplexityFacts.

(** The signature components cost a point each. *)
Definition ref_complexity : ComplexityRoot :=
  mk_ComplexityRoot None None None None None None
    (Some (λ c _ _ _ sr ss _, c + Z.of_nat (length sr) + Z.of_nat (length ss)))
    None None None None None None None None None None None.

Lemma Complexity_mutation_witness :
  Complexity ref_complexity [] (lit "Mutation") (encode_mutation ref_mutation None).1 1
    (encode_mutation ref_mutation None).2
  = Ok (5, true).
Proof.
  rewrite (Complexity_mutation ref_complexity [] ref_mutation None 1); [reflexivity|].
  split; unfold model.int32; lia.
Defined.
