(* ===== verification/GraphExec.v ===== *)
(** * GraphExec: executing GraphQL operations (graph/generated.go)

    The generated executor behind the HTTP middleware: it resolves each field
    of an operation and assembles the response, nulls included. A resolved
    field is its value and the errors reported meanwhile. gqlgen's own
    functions are the class [Graphql]; a selection set is given as the fields
    [graphql.CollectFields] makes of it, at every level, since each type has
    one implementor. *)
From stdpp Require Import base numbers strings list.
From Stdlib Require Import Strings.Byte ZArith Lia.
From S2P Require Import Prelude GoStd Types External Db World Utils Convertor Resolvers.
From S2P Require Import ResolverFacts GraphInput.

(** [graphql.CollectedField], with its arguments after the variables are
    substituted. *)
Inductive CollectedField := mk_CollectedField {
  Name : gostring;
  Alias : gostring;
  ArgumentMap : list (gostring * any);
  Selections : list CollectedField
}.

(** The object types whose fields are looked up by name. *)
Inductive object_type :=
| OCreateAccountExec
| OStatistics
| O__Directive
| O__EnumValue
| O__Field
| O__InputValue
| O__Schema
| O__Type.

(** The function [Child] of a context: the lookup [childFields_*] among the
    fields of a type, or the error it always returns. The contexts of the
    introspection types lead to each other, so the lookup is named here and
    carried out by [child] (Introspection.v). *)
Inductive children :=
| NoChildren (err : gostring)
| childFields (type : object_type).

(** [graphql.FieldContext], without the arguments. *)
Record FieldContext := mk_FieldContext {
  Object : gostring;
  IsMethod : bool;
  IsResolver : bool;
  Child : children
}.

(** A computation without effects that gives a value or panics. *)
Definition calm `{CR : EthCrypto, CL : !EthClient} {A} (m : io A) : Prop :=
  match m with Done (Ok _) | Done (Panic _) => True | _ => False end.

(** github.com/99designs/gqlgen/graphql. *)
Class Graphql `{CR : EthCrypto, CL : !EthClient, FL : Float64} := {
  Marshaler : Type;
  Null : Marshaler;
  RequiredNull : Marshaler;
  (** The zero value of the interface. *)
  nil_Marshaler : Marshaler;
  (** The comparison of two marshalers by Go's [==]. *)
  same : Marshaler → Marshaler → bool;
  MarshalString : gostring → Marshaler;
  MarshalBoolean : bool → Marshaler;
  MarshalInt32 : Z → Marshaler;
  (** [WrapContextMarshaler(ctx, MarshalFloatContext(v))]. *)
  MarshalFloat : float64 → Marshaler;
  (** A [FieldSet] whose values are all set, by alias. *)
  FieldSet : list (gostring * Marshaler) → Marshaler;
  MarshalArray : list Marshaler → Marshaler;
  (** The text reported for a recovered panic. *)
  Recover : gostring → gostring;
  NewScalarFieldContext : gostring → CollectedField → bool → bool → gostring → outcome FieldContext;
  (** Around a root field, with what its function reports on the side. *)
  RootResolverMiddleware : ∀ {A : Type}, io A → io A;
  (** The field, its context with the errors reported while making it, its
      resolver, and the marshaling of the result with the field's selections. *)
  ResolveField : ∀ {I T : Type}, CollectedField → outcome I * list gostring → (I → io T) →
    (T → io (Marshaler * list gostring)) → bool → io (Marshaler * list gostring);
  MarshalSliceConcurrently : nat → (nat → io (Marshaler * list gostring)) →
    io (list Marshaler * list gostring)
}.

Class GraphqlLaws `{GR : Graphql} : Prop := {
  same_Null : same Null Null = true;
  RequiredNull_Null : same RequiredNull Null = false ∧ same Null RequiredNull = false;
  MarshalString_value s : same (MarshalString s) Null = false
                          ∧ same (MarshalString s) RequiredNull = false;
  MarshalBoolean_value b : same (MarshalBoolean b) Null = false
                           ∧ same (MarshalBoolean b) RequiredNull = false;
  MarshalInt32_value z : same (MarshalInt32 z) Null = false
                         ∧ same (MarshalInt32 z) RequiredNull = false;
  MarshalFloat_value x : same (MarshalFloat x) Null = false
                         ∧ same (MarshalFloat x) RequiredNull = false;
  FieldSet_value l : same (FieldSet l) Null = false ∧ same (FieldSet l) RequiredNull = false;
  MarshalArray_value l : same (MarshalArray l) Null = false
                         ∧ same (MarshalArray l) RequiredNull = false;
  NewScalarFieldContext_ok o f m r e : is_ok (NewScalarFieldContext o f m r e) = true;
  (** No interceptor of root fields is installed. *)
  RootResolverMiddleware_id {A} (m : io A) : RootResolverMiddleware m = m;
  (** A field whose context cannot be made is null. A resolver's error or
      panic, and a panic of the marshaling, is reported and the field is
      null. *)
  ResolveField_spec {I T} field (init : outcome I * list gostring) (resolver : I → io T) marshal nn :
    ResolveField field init resolver marshal nn =
    match init.1 with
    | Ok fc =>
        recovering (v ← resolver fc; marshal v)
          (λ o, pure match o with
                     | Ok r => Ok r
                     | Err e => Ok (Null, [e])
                     | Panic p => Ok (Null, [Recover p])
                     | Fatal p => Fatal p
                     end)
    | Fatal p => pure (Fatal p)
    | _ => mret (Null, init.2)
    end;
  (** The elements are marshaled in goroutines; without effects of their own
      the result is the array of their values. *)
  MarshalSliceConcurrently_spec n f r :
    (∀ i, (i < n)%nat → f i = mret (r i)) →
    MarshalSliceConcurrently n f
    = mret (map (λ i, (r i).1) (seq 0 n), concat (map (λ i, (r i).2) (seq 0 n)));
  MarshalSliceConcurrently_calm n f :
    (∀ i, (i < n)%nat → calm (f i)) → calm (MarshalSliceConcurrently n f)
}.

(** A resolved field: its value and the errors reported. *)
Abbreviation resolved := (Marshaler * list gostring)%type.

Section GraphExec.
Context {UN : Unicode} {AS : Assets} {EC : EthCommon} {CR : EthCrypto} {BO : Borsh}
  {AB : Abi} {EX : Exec} {CL : EthClient} {EN : Env} {PC : PgCalendar} {GF : GoFmt}
  {FL : Float64} {GQ : Gqlgen} {GR : Graphql}.

Definition null_not_allowed : gostring :=
  lit "the requested element is null which the schema does not allow".

(** ** Scalars *)

(** No error has been reported at the field when its value is marshaled. *)
Definition required_value (res : Marshaler) : io resolved :=
  mret (res, if same res Null then [null_not_allowed] else []).

Definition marshalNString2string (v : gostring) : io resolved := required_value (MarshalString v).
Definition marshalNBoolean2bool (v : bool) : io resolved := required_value (MarshalBoolean v).
Definition marshalNInt2int32 (v : Z) : io resolved := required_value (MarshalInt32 v).
Definition marshalNFloat2float64 (v : float64) : io resolved := required_value (MarshalFloat v).

(** ** Field contexts *)

Definition no_child (t : string) : gostring :=
  lit "field of type " ++ lit t ++ lit " does not have child fields".

(** A field without arguments. *)
Definition no_args {A} (fc : outcome A) : outcome (A * unit) * list gostring :=
  (fc ← fc; mret (fc, tt), []).

(** The arguments of a field: an error is reported and returned; so is what is
    recovered from a panic. *)
Definition with_args {A} (fc : FieldContext) (args : outcome A)
    : outcome (FieldContext * A) * list gostring :=
  match args with
  | Ok args => (Ok (fc, args), [])
  | Err e => (Err e, [e])
  | Panic p => (Err (Recover p), [Recover p])
  | Fatal p => (Fatal p, [])
  end.

Definition no_field (field : CollectedField) (type : string) : outcome FieldContext :=
  Err (lit "no field named " ++ [x22] ++ Name field ++ [x22] ++ lit " was found under type "
       ++ lit type).

Definition fieldContext_CreateAccountExec_hash (field : CollectedField) : outcome FieldContext :=
  NewScalarFieldContext (lit "CreateAccountExec") field false false (no_child "String").
Definition fieldContext_CreateAccountExec_secret (field : CollectedField) : outcome FieldContext :=
  NewScalarFieldContext (lit "CreateAccountExec") field false false (no_child "String").

Definition childFields_CreateAccountExec (field : CollectedField) : outcome FieldContext :=
  if decide (Name field = lit "hash") then fieldContext_CreateAccountExec_hash field
  else if decide (Name field = lit "secret") then fieldContext_CreateAccountExec_secret field
  else no_field field "CreateAccountExec".

Definition field_path (field : CollectedField) : path := [PField (Alias field)].

Definition fieldContext_Mutation_createAccountExec (field : CollectedField)
    : outcome (FieldContext * (mutation * option bool)) * list gostring :=
  with_args (mk_FieldContext (lit "Mutation") true true (childFields OCreateAccountExec))
    (field_Mutation_createAccountExec_args (field_path field) (ArgumentMap field)).

(** The children of a field of type String. *)
Definition string_child : children := NoChildren (no_child "String").

Definition fieldContext_Mutation_requestSecret (field : CollectedField)
    : outcome (FieldContext * (mutation * option bool)) * list gostring :=
  with_args (mk_FieldContext (lit "Mutation") true true string_child)
    (field_Mutation_requestSecret_args (field_path field) (ArgumentMap field)).

Definition fieldContext_Mutation_ninelivesMint (field : CollectedField)
    : outcome (FieldContext * (mutation * option bool)) * list gostring :=
  with_args (mk_FieldContext (lit "Mutation") true true string_child)
    (field_Mutation_ninelivesMint_args (field_path field) (ArgumentMap field)).

Definition fieldContext_Mutation_claimRewards (field : CollectedField)
    : outcome (FieldContext * (mutation * option bool)) * list gostring :=
  with_args (mk_FieldContext (lit "Mutation") true true string_child)
    (field_Mutation_claimRewards_args (field_path field) (ArgumentMap field)).

(** ** Objects *)

(** What the loop of an object does with a field: its value, the errors, and
    whether it makes the object invalid. *)
Definition non_null (m : io resolved) : io (resolved * bool) :=
  r ← m; mret (r, same (r : resolved).1 Null).
Definition nullable (m : io resolved) : io (resolved * bool) :=
  r ← m; mret (r, same (r : resolved).1 RequiredNull).

Definition typename (t : string) : io (resolved * bool) :=
  mret ((MarshalString (lit t), []), false).

(** A name is a GraphQL identifier, so quoting it adds quotes only. *)
Definition unknown_field (field : CollectedField) : io (resolved * bool) :=
  pure (Panic (lit "unknown field " ++ [x22] ++ Name field ++ [x22])).

(** [out.Values\[i\] = ..; if .. { out.Invalids++ }]. *)
Definition add_field (alias : gostring) (x : resolved * bool)
    (y : list (gostring * Marshaler) * list gostring * nat)
    : list (gostring * Marshaler) * list gostring * nat :=
  ((alias, x.1.1) :: y.1.1, x.1.2 ++ y.1.2, ((if x.2 then 1 else 0) + y.2)%nat).

(** [if out.Invalids > 0 { return graphql.Null }; ..; return out]: nothing is
    ever deferred. *)
Definition close_object (y : list (gostring * Marshaler) * list gostring * nat) : resolved :=
  (if (0 <? y.2)%nat then Null else FieldSet y.1.1, y.1.2).

(** The values by alias, the errors, and the number of invalid fields. *)
Fixpoint object_fields (F : CollectedField → io (resolved * bool)) (fields : list CollectedField)
    : io (list (gostring * Marshaler) * list gostring * nat) :=
  match fields with
  | [] => mret ([], [], 0%nat)
  | field :: fields' =>
      x ← F field;
      y ← object_fields F fields';
      mret (add_field (Alias field) x y)
  end.

Definition object (F : CollectedField → io (resolved * bool)) (fields : list CollectedField)
    : io resolved :=
  y ← object_fields F fields;
  mret (close_object y).

(** *** CreateAccountExec *)

Definition _CreateAccountExec_hash (field : CollectedField) (obj : model.CreateAccountExec)
    : io resolved :=
  ResolveField field (no_args (fieldContext_CreateAccountExec_hash field))
    (λ _, mret (model.Hash obj)) marshalNString2string true.

Definition _CreateAccountExec_secret (field : CollectedField) (obj : model.CreateAccountExec)
    : io resolved :=
  ResolveField field (no_args (fieldContext_CreateAccountExec_secret field))
    (λ _, mret (model.Secret obj)) marshalNString2string true.

Definition _CreateAccountExec (fields : list CollectedField) (obj : model.CreateAccountExec)
    : io resolved :=
  object (λ field,
    if decide (Name field = lit "__typename") then typename "CreateAccountExec"
    else if decide (Name field = lit "hash") then non_null (_CreateAccountExec_hash field obj)
    else if decide (Name field = lit "secret") then non_null (_CreateAccountExec_secret field obj)
    else unknown_field field) fields.

Definition marshalOCreateAccountExec (fields : list CollectedField)
    (v : option model.CreateAccountExec) : io resolved :=
  match v with
  | None => mret (Null, [])
  | Some v => _CreateAccountExec fields v
  end.

(** *** Mutation *)

(** The arguments of a field in its context hold the types its resolver
    asserts. *)
Definition bad_args {A} : io A := pure (Panic (lit "interface conversion")).

Definition _Mutation_createAccountExec (r : Resolver) (ctx : Ctx) (field : CollectedField)
    : io resolved :=
  ResolveField field (fieldContext_Mutation_createAccountExec field)
    (λ fc, match fc.2 with
           | (createAccountExec c m, dryrun) => v ← CreateAccountExec r ctx c m dryrun; mret (Some v)
           | _ => bad_args
           end)
    (marshalOCreateAccountExec (Selections field)) false.

Definition _Mutation_requestSecret (r : Resolver) (ctx : Ctx) (field : CollectedField)
    : io resolved :=
  ResolveField field (fieldContext_Mutation_requestSecret field)
    (λ fc, match fc.2 with
           | (requestSecret a n v sr ss, dryrun) => RequestSecret r ctx a n v sr ss dryrun
           | _ => bad_args
           end)
    marshalNString2string true.

Definition _Mutation_ninelivesMint (r : Resolver) (ctx : Ctx) (field : CollectedField)
    : io resolved :=
  ResolveField field (fieldContext_Mutation_ninelivesMint field)
    (λ fc, match fc.2 with
           | (ninelivesMint m, dryrun) => NinelivesMint r ctx m dryrun
           | _ => bad_args
           end)
    marshalNString2string true.

Definition _Mutation_claimRewards (r : Resolver) (ctx : Ctx) (field : CollectedField)
    : io resolved :=
  ResolveField field (fieldContext_Mutation_claimRewards field)
    (λ fc, match fc.2 with
           | (claimRewards l t, dryrun) => ClaimRewards r ctx l t dryrun
           | _ => bad_args
           end)
    marshalNString2string true.

(** The body of the loop of [_Mutation]. *)
Definition mutation_field (r : Resolver) (ctx : Ctx) (field : CollectedField)
    : io (resolved * bool) :=
  if decide (Name field = lit "__typename") then typename "Mutation"
  else if decide (Name field = lit "createAccountExec") then
    nullable (RootResolverMiddleware (_Mutation_createAccountExec r ctx field))
  else if decide (Name field = lit "requestSecret") then
    non_null (RootResolverMiddleware (_Mutation_requestSecret r ctx field))
  else if decide (Name field = lit "ninelivesMint") then
    non_null (RootResolverMiddleware (_Mutation_ninelivesMint r ctx field))
  else if decide (Name field = lit "claimRewards") then
    non_null (RootResolverMiddleware (_Mutation_claimRewards r ctx field))
  else unknown_field field.

Definition _Mutation (r : Resolver) (ctx : Ctx) (fields : list CollectedField) : io resolved :=
  object (mutation_field r ctx) fields.

(** *** Statistics *)

Definition fieldContext_Statistics_action (field : CollectedField) : outcome FieldContext :=
  NewScalarFieldContext (lit "Statistics") field false false (no_child "String").
Definition _Statistics_action (field : CollectedField) (obj : Statistics_row) : io resolved :=
  ResolveField field (no_args (fieldContext_Statistics_action field))
    (λ _, mret (Action obj)) marshalNString2string true.

Definition fieldContext_Statistics_avgGasLimit24Hours (field : CollectedField) : outcome FieldContext :=
  NewScalarFieldContext (lit "Statistics") field false false (no_child "Float").
Definition _Statistics_avgGasLimit24Hours (field : CollectedField) (obj : Statistics_row) : io resolved :=
  ResolveField field (no_args (fieldContext_Statistics_avgGasLimit24Hours field))
    (λ _, mret (AvgGasLimit24Hours obj)) marshalNFloat2float64 true.

Definition fieldContext_Statistics_avgGasLimitWeek (field : CollectedField) : outcome FieldContext :=
  NewScalarFieldContext (lit "Statistics") field false false (no_child "Float").
Definition _Statistics_avgGasLimitWeek (field : CollectedField) (obj : Statistics_row) : io resolved :=
  ResolveField field (no_args (fieldContext_Statistics_avgGasLimitWeek field))
    (λ _, mret (AvgGasLimitWeek obj)) marshalNFloat2float64 true.

Definition fieldContext_Statistics_avgGasLimitAllTime (field : CollectedField) : outcome FieldContext :=
  NewScalarFieldContext (lit "Statistics") field false false (no_child "Float").
Definition _Statistics_avgGasLimitAllTime (field : CollectedField) (obj : Statistics_row) : io resolved :=
  ResolveField field (no_args (fieldContext_Statistics_avgGasLimitAllTime field))
    (λ _, mret (AvgGasLimitAllTime obj)) marshalNFloat2float64 true.

Definition fieldContext_Statistics_tx24Hours (field : CollectedField) : outcome FieldContext :=
  NewScalarFieldContext (lit "Statistics") field false false (no_child "Int").
Definition _Statistics_tx24Hours (field : CollectedField) (obj : Statistics_row) : io resolved :=
  ResolveField field (no_args (fieldContext_Statistics_tx24Hours field))
    (λ _, mret (Tx24Hours obj)) marshalNInt2int32 true.

Definition fieldContext_Statistics_txWeek (field : CollectedField) : outcome FieldContext :=
  NewScalarFieldContext (lit "Statistics") field false false (no_child "Int").
Definition _Statistics_txWeek (field : CollectedField) (obj : Statistics_row) : io resolved :=
  ResolveField field (no_args (fieldContext_Statistics_txWeek field))
    (λ _, mret (TxWeek obj)) marshalNInt2int32 true.

Definition fieldContext_Statistics_txAllTime (field : CollectedField) : outcome FieldContext :=
  NewScalarFieldContext (lit "Statistics") field false false (no_child "Int").
Definition _Statistics_txAllTime (field : CollectedField) (obj : Statistics_row) : io resolved :=
  ResolveField field (no_args (fieldContext_Statistics_txAllTime field))
    (λ _, mret (TxAllTime obj)) marshalNInt2int32 true.

Definition childFields_Statistics (field : CollectedField) : outcome FieldContext :=
  if decide (Name field = lit "action") then fieldContext_Statistics_action field
  else if decide (Name field = lit "avgGasLimit24Hours") then fieldContext_Statistics_avgGasLimit24Hours field
  else if decide (Name field = lit "avgGasLimitWeek") then fieldContext_Statistics_avgGasLimitWeek field
  else if decide (Name field = lit "avgGasLimitAllTime") then fieldContext_Statistics_avgGasLimitAllTime field
  else if decide (Name field = lit "tx24Hours") then fieldContext_Statistics_tx24Hours field
  else if decide (Name field = lit "txWeek") then fieldContext_Statistics_txWeek field
  else if decide (Name field = lit "txAllTime") then fieldContext_Statistics_txAllTime field
  else no_field field "Statistics".

Definition _Statistics (fields : list CollectedField) (obj : Statistics_row) : io resolved :=
  object (λ field,
    if decide (Name field = lit "__typename") then typename "Statistics"
    else if decide (Name field = lit "action") then non_null (_Statistics_action field obj)
    else if decide (Name field = lit "avgGasLimit24Hours") then non_null (_Statistics_avgGasLimit24Hours field obj)
    else if decide (Name field = lit "avgGasLimitWeek") then non_null (_Statistics_avgGasLimitWeek field obj)
    else if decide (Name field = lit "avgGasLimitAllTime") then non_null (_Statistics_avgGasLimitAllTime field obj)
    else if decide (Name field = lit "tx24Hours") then non_null (_Statistics_tx24Hours field obj)
    else if decide (Name field = lit "txWeek") then non_null (_Statistics_txWeek field obj)
    else if decide (Name field = lit "txAllTime") then non_null (_Statistics_txAllTime field obj)
    else unknown_field field) fields.

(** The pointers of the list a resolver returns are never nil. *)
Definition marshalNStatistics (fields : list CollectedField) (v : option Statistics_row)
    : io resolved :=
  match v with
  | None => mret (Null, [null_not_allowed])
  | Some v => _Statistics fields v
  end.

(** An index out of the range of a slice. *)
Definition out_of_range {A} : io A := pure (Panic (lit "index out of range")).

(** [for _, e := range ret { if e == graphql.Null { return graphql.Null } }]. *)
Definition close_array (ret : list Marshaler * list gostring) : resolved :=
  (if existsb (λ e, same e Null) ret.1 then Null else MarshalArray ret.1, ret.2).

(** The elements of a list of required elements. *)
Definition marshal_elements {A} (f : A → io resolved) (v : list A) : io resolved :=
  ret ← MarshalSliceConcurrently (length v)
          (λ i, match v !! i with Some x => f x | None => out_of_range end);
  mret (close_array ret).

(** The resolver makes its slice, so it is not nil. *)
Definition marshalOStatistics (fields : list CollectedField) (v : option (list Statistics_row))
    : io resolved :=
  match v with
  | None => mret (Null, [])
  | Some v => marshal_elements (λ x, marshalNStatistics fields (Some x)) v
  end.

(** *** FlorinOpenPositionResult, which no operation returns *)

Definition fieldContext_FlorinOpenPositionResult_hash (field : CollectedField)
    : outcome FieldContext :=
  NewScalarFieldContext (lit "FlorinOpenPositionResult") field false false (no_child "String").

Definition _FlorinOpenPositionResult_hash (field : CollectedField)
    (obj : model.FlorinOpenPositionResult) : io resolved :=
  ResolveField field (no_args (fieldContext_FlorinOpenPositionResult_hash field))
    (λ _, mret (model.Florin_Hash obj)) marshalNString2string true.

Definition _FlorinOpenPositionResult (fields : list CollectedField)
    (obj : model.FlorinOpenPositionResult) : io resolved :=
  object (λ field,
    if decide (Name field = lit "__typename") then typename "FlorinOpenPositionResult"
    else if decide (Name field = lit "hash") then
      non_null (_FlorinOpenPositionResult_hash field obj)
    else unknown_field field) fields.

(** *** The fields of Query *)

Definition fieldContext_Query_publickey (field : CollectedField) : outcome FieldContext :=
  NewScalarFieldContext (lit "Query") field true true (no_child "String").

Definition _Query_publickey (r : Resolver) (field : CollectedField) : io resolved :=
  ResolveField field (no_args (fieldContext_Query_publickey field))
    (λ _, Publickey r) marshalNString2string true.

Definition fieldContext_Query_eoaForAddress (field : CollectedField)
    : outcome (FieldContext * gostring) * list gostring :=
  with_args (mk_FieldContext (lit "Query") true true string_child)
    (field_Query_eoaForAddress_args (field_path field) (ArgumentMap field)).

Definition _Query_eoaForAddress (r : Resolver) (field : CollectedField) : io resolved :=
  ResolveField field (fieldContext_Query_eoaForAddress field)
    (λ fc, EoaForAddress r fc.2) marshalNString2string true.

Definition fieldContext_Query_hasCreated (field : CollectedField)
    : outcome (FieldContext * gostring) * list gostring :=
  with_args (mk_FieldContext (lit "Query") true true (NoChildren (no_child "Boolean")))
    (field_Query_hasCreated_args (field_path field) (ArgumentMap field)).

Definition _Query_hasCreated (field : CollectedField) : io resolved :=
  ResolveField field (fieldContext_Query_hasCreated field)
    (λ fc, HasCreated fc.2) marshalNBoolean2bool true.

Definition fieldContext_Query_statistics (field : CollectedField) : outcome FieldContext :=
  Ok (mk_FieldContext (lit "Query") true true (childFields OStatistics)).

Definition _Query_statistics (field : CollectedField) : io resolved :=
  ResolveField field (no_args (fieldContext_Query_statistics field))
    (λ _, v ← Statistics; mret (Some v)) (marshalOStatistics (Selections field)) false.
End GraphExec.
