(* ===== verification/GraphExecFacts.v ===== *)
(** * GraphExecFacts: what the executor does with a mutation

    The executor is compared with a plain account of it: the resolvers run one
    after the other on the decoded arguments, and the response collects their
    answers. *)
From stdpp Require Import base numbers strings list.
From Stdlib Require Import Strings.Byte ZArith Lia.
From S2P Require Import Prelude GoStd Types External Db World Utils Convertor Resolvers.
From S2P Require Import Sha512 Keccak BorshRef Reference Ninelives Proxy RefWorld Client.
From S2P Require Import ResolverFacts AccountFacts GraphInput GraphExec.

Section GraphExecFacts.
Context {UN : Unicode} {AS : Assets} {EC : EthCommon} {CR : EthCrypto} {BO : Borsh}
  {AB : Abi} {EX : Exec} {CL : EthClient} {EN : Env} {PC : PgCalendar} {GF : GoFmt}
  {FL : Float64} {GQ : Gqlgen} {GR : Graphql} {GRL : GraphqlLaws}.

(** ** Computations without effects that do not fail but by panicking *)

Lemma calm_bind {A B} (m : io A) (f : A → io B) : calm m → (∀ a, calm (f a)) → calm (m ≫= f).
Proof. intros Hm Hf. destruct m as [[]|]; try done. apply Hf. Qed.

Lemma calm_object_fields F fields : (∀ f, calm (F f)) → calm (object_fields F fields).
Proof.
  intros HF. induction fields as [|f fields IH]; [done|].
  apply calm_bind; [apply HF|intros x]. by apply calm_bind.
Qed.

Lemma calm_object F fields : (∀ f, calm (F f)) → calm (object F fields).
Proof. intros HF. apply calm_bind; [by apply calm_object_fields|done]. Qed.

(** A recovered field is a value. *)
Lemma calm_ResolveField {I T} field (init : outcome I * list gostring) (resolver : I → io T)
    marshal nn :
  is_ok init.1 = true → (∀ fc, calm (resolver fc)) → (∀ v, calm (marshal v)) →
  ∃ r, ResolveField field init resolver marshal nn = mret r.
Proof.
  intros Hi Hr Hm. rewrite ResolveField_spec. destruct init.1 as [fc| | |]; try done.
  assert (calm (resolver fc ≫= marshal)) as Hc by (by apply calm_bind).
  destruct (resolver fc ≫= marshal) as [[a|e|p|p]|]; try done; by eexists.
Qed.

Lemma calm_scalar {T} field (fc : outcome FieldContext) (v : T) marshal nn :
  is_ok fc = true → (∀ v, calm (marshal v)) →
  calm (ResolveField field (no_args fc) (λ _, mret v) marshal nn).
Proof.
  intros Hfc Hm. destruct (calm_ResolveField field (no_args fc) (λ _, mret v) marshal nn) as [r ->];
    [by destruct fc|done|done|done].
Qed.

Lemma calm_non_null m : calm m → calm (non_null m).
Proof. intros. by apply calm_bind. Qed.

Lemma calm_CreateAccountExec fields obj : calm (_CreateAccountExec fields obj).
Proof.
  apply calm_object. intros f. repeat case_decide; try done;
    apply calm_non_null, calm_scalar; try done; apply NewScalarFieldContext_ok.
Qed.

(** An object is null or a value, never the null of a required field. *)
Lemma object_not_required F fields r :
  object F fields = Done (Ok r) → same r.1 RequiredNull = false.
Proof.
  unfold object. destruct (object_fields F fields) as [[y| | |]|]; try done.
  intros [= <-]. unfold close_object. cbn. case_match; [apply RequiredNull_Null|apply FieldSet_value].
Qed.

(** ** A plain account of a mutation *)

Definition is_typename (f : CollectedField) : bool := bool_decide (Name f = lit "__typename").

(** The field's mutation, as its arguments decode. *)
Definition decoded (f : CollectedField) : outcome (mutation * option bool) :=
  decode_mutation (field_path f) (Name f) (ArgumentMap f).

(** The requests that reach a resolver, in order. *)
Definition requests (ctx : Ctx) (fields : list CollectedField)
    : list (Ctx * mutation * option bool) :=
  omap (λ f, if is_typename f then None
             else match decoded f with Ok (m, dry) => Some (ctx, m, dry) | _ => None end) fields.

Definition string_answer (o : outcome gostring) : Marshaler :=
  match o with Ok s => MarshalString s | _ => Null end.

(** The value of a field whose turn comes at [w]. *)
Definition answer (r : Resolver) (ctx : Ctx) (f : CollectedField) (w : world) : Marshaler :=
  if is_typename f then MarshalString (lit "Mutation")
  else
    match decoded f with
    | Ok (createAccountExec c m, dry) =>
        match (CreateAccountExec r ctx c m dry w).1 with
        | Ok v => match _CreateAccountExec (Selections f) v with Done (Ok x) => x.1 | _ => Null end
        | _ => Null
        end
    | Ok (requestSecret a n v sr ss, dry) => string_answer (RequestSecret r ctx a n v sr ss dry w).1
    | Ok (ninelivesMint m, dry) => string_answer (NinelivesMint r ctx m dry w).1
    | Ok (claimRewards l t, dry) => string_answer (ClaimRewards r ctx l t dry w).1
    | _ => Null
    end.

(** The answers of the fields in their order, each at the world the ones
    before it left. *)
Fixpoint answers (r : Resolver) (ctx : Ctx) (fields : list CollectedField) (w : world)
    : list (gostring * Marshaler) :=
  match fields with
  | [] => []
  | f :: fields' =>
      (Alias f, answer r ctx f w) :: answers r ctx fields' (serve_requests r (requests ctx [f]) w)
  end.

(** The schema lets only the result of [createAccountExec] be null. *)
Definition required (f : CollectedField) : bool :=
  negb (is_typename f) && negb (bool_decide (Name f = lit "createAccountExec")).

(** A required field is null. *)
Fixpoint spoiled (r : Resolver) (ctx : Ctx) (fields : list CollectedField) (w : world) : bool :=
  match fields with
  | [] => false
  | f :: fields' =>
      (required f && same (answer r ctx f w) Null)
      || spoiled r ctx fields' (serve_requests r (requests ctx [f]) w)
  end.

(** The fields a validated document can select. *)
Definition mutation_names : list gostring :=
  [lit "__typename"; lit "createAccountExec"; lit "requestSecret"; lit "ninelivesMint";
   lit "claimRewards"].
Definition known (f : CollectedField) : Prop := Name f ∈ mutation_names.

(** ** One field *)

(** How a field's step ends: the process has ended, or the field has its
    answer; either way the world is the one its request leaves. *)
Definition field_step (r : Resolver) (ctx : Ctx) (f : CollectedField) (w : world) : Prop :=
  let w' := serve_requests r (requests ctx [f]) w in
  (∃ p, mutation_field r ctx f w = (Fatal p, w'))
  ∨ ∃ errs, mutation_field r ctx f w
            = (Ok ((answer r ctx f w, errs), required f && same (answer r ctx f w) Null), w').

(** What [ResolveField] makes of a resolver's outcome. *)
Lemma run_ResolveField {I T} field (init : outcome I * list gostring) fc (resolver : I → io T)
    marshal nn w :
  init.1 = Ok fc →
  ResolveField field init resolver marshal nn w
  = let x := (resolver fc ≫= marshal) w in
    (match x.1 with
     | Ok r => Ok r
     | Err e => Ok (Null, [e])
     | Panic p => Ok (Null, [Recover p])
     | Fatal p => Fatal p
     end, x.2).
Proof. intros Hi. rewrite ResolveField_spec, Hi, run_recovering. done. Qed.

Lemma marshal_string_ret s : marshalNString2string s = mret (MarshalString s, []).
Proof. unfold marshalNString2string, required_value. by rewrite (proj1 (MarshalString_value s)). Qed.

(** A field of type String. *)
Lemma string_field {I} field (init : outcome I * list gostring) fc (resolver : I → io gostring) w :
  init.1 = Ok fc →
  let x := resolver fc w in
  (∃ p, x.1 = Fatal p
        ∧ non_null (ResolveField field init resolver marshalNString2string true) w = (Fatal p, x.2))
  ∨ ∃ errs, non_null (ResolveField field init resolver marshalNString2string true) w
            = (Ok ((string_answer x.1, errs), same (string_answer x.1) Null), x.2).
Proof.
  intros Hi x. unfold non_null. rewrite run_bind, (run_ResolveField _ _ _ _ _ _ _ Hi), run_bind.
  cbv zeta. fold x. destruct x as [[s|e|p|p] w1]; cbn; [|by eauto..].
  right. exists []. rewrite marshal_string_ret. unfold run. cbn.
  by rewrite (proj1 (MarshalString_value s)).
Qed.

(** A field whose context cannot be made. *)
Lemma failed_field {I T} field (init : outcome I * list gostring) (resolver : I → io T) marshal nn w :
  (∀ fc, init.1 ≠ Ok fc) → (∀ p, init.1 ≠ Fatal p) →
  ResolveField field init resolver marshal nn w = (Ok (Null, init.2), w).
Proof.
  intros H1 H2. rewrite ResolveField_spec.
  destruct init.1 as [fc|e|p|p]; [by destruct (H1 fc)|done|done|by destruct (H2 p)].
Qed.

(** The context of a field with arguments, and the field when it fails. *)
Lemma with_args_fails {A T} field fc (args : outcome A) (resolver : FieldContext * A → io T)
    marshal nn w :
  is_ok args = false →
  (∃ p, ResolveField field (with_args fc args) resolver marshal nn w = (Fatal p, w))
  ∨ ∃ errs, ResolveField field (with_args fc args) resolver marshal nn w = (Ok (Null, errs), w).
Proof.
  intros Ha. destruct args as [a|e|p|p]; [done| | |].
  - right. eexists. by apply failed_field.
  - right. eexists. by apply failed_field.
  - left. exists p. by rewrite ResolveField_spec.
Qed.

Lemma serve_one r ctx m dry w : serve_requests r [(ctx, m, dry)] w = (run_mutation r ctx m dry w).2.
Proof. done. Qed.

(** Forgetting a result does not change the world. *)
Lemma forget_world {A} (m : io A) w : ((m;; mret tt) w).2 = (m w).2.
Proof. rewrite run_bind. by destruct (m w) as [[]]. Qed.

Lemma required_string f :
  Name f ≠ lit "__typename" → Name f ≠ lit "createAccountExec" →
  is_typename f = false ∧ required f = true.
Proof.
  intros H1 H2. unfold required, is_typename. by rewrite !bool_decide_false by done.
Qed.

Lemma requests_one ctx f m dry :
  is_typename f = false → decoded f = Ok (m, dry) → requests ctx [f] = [(ctx, m, dry)].
Proof. intros Hty Hd. unfold requests. cbn. by rewrite Hty, Hd. Qed.

(** Arguments that do not decode. *)
Lemma undecoded r ctx f w :
  is_typename f = false → is_ok (decoded f) = false →
  requests ctx [f] = [] ∧ answer r ctx f w = Null.
Proof.
  intros Hty Hd. unfold requests, answer. cbn. rewrite Hty. by destruct (decoded f).
Qed.

(** The fields that answer with a string share their step. *)
Lemma string_field_step r ctx f (args : outcome (mutation * option bool)) fc
    (resolver : FieldContext * (mutation * option bool) → io gostring) w :
  Name f ≠ lit "__typename" → Name f ≠ lit "createAccountExec" →
  decoded f = args →
  mutation_field r ctx f
  = non_null (RootResolverMiddleware
                (ResolveField f (with_args fc args) resolver marshalNString2string true)) →
  (∀ m dry, args = Ok (m, dry) →
     answer r ctx f w = string_answer (resolver (fc, (m, dry)) w).1
     ∧ (run_mutation r ctx m dry w).2 = (resolver (fc, (m, dry)) w).2) →
  field_step r ctx f w.
Proof.
  intros Ht Hc Hd Hf Hok. destruct (required_string f Ht Hc) as [Hty Hreq].
  unfold field_step. rewrite Hf, RootResolverMiddleware_id, Hreq, andb_true_l.
  destruct (is_ok args) eqn:Ha.
  - destruct args as [[m dry]| | |]; try done. destruct (Hok m dry eq_refl) as [-> Hw].
    rewrite (requests_one _ _ _ _ Hty Hd), serve_one, Hw.
    destruct (string_field f (with_args fc (Ok (m, dry))) (fc, (m, dry)) resolver w eq_refl)
      as [(p & _ & ->)|(errs & ->)]; eauto.
  - rewrite <-Hd in Ha. destruct (undecoded r ctx f w Hty Ha) as [-> ->]. rewrite Hd in Ha.
    unfold non_null. rewrite run_bind.
    destruct (with_args_fails f fc args resolver marshalNString2string true w Ha)
      as [(p & ->)|(errs & ->)]; [by eauto|]. right. by exists errs.
Qed.

(** The account a successful creation returns, as the field's value. *)
Definition account_answer (fields : list CollectedField) (o : outcome (option model.CreateAccountExec))
    : Marshaler :=
  match o with
  | Ok (Some v) => match _CreateAccountExec fields v with Done (Ok x) => x.1 | _ => Null end
  | _ => Null
  end.

Lemma account_field {I} field (init : outcome I * list gostring) fc
    (resolver : I → io (option model.CreateAccountExec)) fields w :
  init.1 = Ok fc →
  let x := resolver fc w in
  (∃ p, nullable (ResolveField field init resolver (marshalOCreateAccountExec fields) false) w
        = (Fatal p, x.2))
  ∨ ∃ errs, nullable (ResolveField field init resolver (marshalOCreateAccountExec fields) false) w
            = (Ok ((account_answer fields x.1, errs), false), x.2).
Proof.
  intros Hi x. unfold nullable. rewrite run_bind, (run_ResolveField _ _ _ _ _ _ _ Hi), run_bind.
  cbv zeta. fold x. pose proof (proj2 RequiredNull_Null) as Hnull.
  destruct x as [[[v|]|e|p|p] w1]; cbn -[run].
  2-4: right; eexists; unfold run; cbn; rewrite Hnull; reflexivity.
  2: by eauto.
  pose proof (calm_CreateAccountExec fields v) as Hc.
  destruct (_CreateAccountExec fields v) as [[y|e|p|p]|] eqn:Ey; try done.
  - right. exists y.2. unfold run. cbn. rewrite (object_not_required _ _ _ Ey). by destruct y.
  - right. exists [Recover p]. unfold run. cbn. by rewrite Hnull.
Qed.

(** Only the result of [createAccountExec] may be null. *)
Lemma createAccountExec_step r ctx f w :
  Name f = lit "createAccountExec" → field_step r ctx f w.
Proof.
  intros Hn. assert (is_typename f = false) as Hty
    by (unfold is_typename; rewrite bool_decide_false; [done|by rewrite Hn]).
  assert (required f = false) as Hreq
    by (unfold required; rewrite (bool_decide_true (Name f = _)) by done; by rewrite andb_false_r).
  assert (decoded f = field_Mutation_createAccountExec_args (field_path f) (ArgumentMap f)) as Hd
    by (unfold decoded, decode_mutation; by rewrite decide_True).
  unfold field_step, mutation_field. rewrite Hreq, andb_false_l.
  rewrite decide_False, decide_True by (by rewrite ?Hn). rewrite RootResolverMiddleware_id.
  unfold _Mutation_createAccountExec, fieldContext_Mutation_createAccountExec. rewrite <-Hd.
  unfold nullable. rewrite run_bind. destruct (is_ok (decoded f)) eqn:Ha.
  - destruct (decoded f) as [[m dry]| | |] eqn:Em; try done.
    assert (∃ c mint, m = createAccountExec c mint) as (c & mint & ->).
    { symmetry in Hd. unfold field_Mutation_createAccountExec_args in Hd.
      bind_step Hd as c Hc. bind_step Hd as mint Hmint. bind_step Hd as d Hdry.
      injection Hd as <- _. eauto. }
    rewrite (requests_one _ _ _ _ Hty Em), serve_one. unfold answer. rewrite Hty, Em.
    cbn [run_mutation]. rewrite forget_world.
    destruct (account_field f (with_args (mk_FieldContext (lit "Mutation") true true
      (childFields OCreateAccountExec)) (Ok (createAccountExec c mint, dry))) _
      (λ fc, match fc.2 with
           | (createAccountExec c m, dryrun) => v ← CreateAccountExec r ctx c m dryrun; mret (Some v)
           | _ => bad_args
           end) (Selections f) w eq_refl) as [(p & E)|(errs & E)];
      unfold nullable in E; rewrite run_bind in E; cbn [snd] in E; rewrite run_bind in E;
      rewrite E; [left|right]; destruct (CreateAccountExec r ctx c mint dry w) as [[]]; eauto.
  - destruct (undecoded r ctx f w Hty Ha) as [-> ->].
    destruct (with_args_fails f (mk_FieldContext (lit "Mutation") true true (childFields OCreateAccountExec))
      (decoded f) (λ fc, match fc.2 with
           | (createAccountExec c m, dryrun) => v ← CreateAccountExec r ctx c m dryrun; mret (Some v)
           | _ => bad_args
           end) (marshalOCreateAccountExec (Selections f)) false w Ha)
      as [(p & ->)|(errs & ->)]; [by eauto|]. right. exists errs. cbn -[run].
    by rewrite (proj2 RequiredNull_Null).
Qed.

(** What the decoder of a field's arguments makes. *)
Lemma requestSecret_args_shape p raw m dry :
  field_Mutation_requestSecret_args p raw = Ok (m, dry) →
  ∃ a n v sr ss, m = requestSecret a n v sr ss.
Proof.
  unfold field_Mutation_requestSecret_args. intros H.
  bind_step H as a Ha. bind_step H as n Hn. bind_step H as v Hv. bind_step H as sr Hsr.
  bind_step H as ss Hss. bind_step H as d Hd. injection H as <- _. eauto 6.
Qed.

Lemma ninelivesMint_args_shape p raw m dry :
  field_Mutation_ninelivesMint_args p raw = Ok (m, dry) → ∃ x, m = ninelivesMint x.
Proof.
  unfold field_Mutation_ninelivesMint_args. intros H.
  bind_step H as x Hx. bind_step H as d Hd. injection H as <- _. eauto.
Qed.

Lemma claimRewards_args_shape p raw m dry :
  field_Mutation_claimRewards_args p raw = Ok (m, dry) → ∃ l t, m = claimRewards l t.
Proof.
  unfold field_Mutation_claimRewards_args. intros H.
  bind_step H as l Hl. bind_step H as t Ht. bind_step H as d Hd. injection H as <- _. eauto.
Qed.

Lemma typename_step r ctx f w : Name f = lit "__typename" → field_step r ctx f w.
Proof.
  intros Hn. assert (is_typename f = true) as Hty by (by apply bool_decide_true).
  right. exists []. unfold mutation_field, answer, requests, required. cbn.
  rewrite decide_True, Hty by done. done.
Qed.

Lemma not_typename f : Name f ≠ lit "__typename" → is_typename f = false.
Proof. apply bool_decide_false. Qed.

(** The step of a field named by [Hn], whose decoded arguments have the shape
    that [shape] shows. *)
Ltac pick_name Hn :=
  rewrite ?(decide_False (P := Name _ = _)) by (by rewrite Hn); rewrite ?decide_True by done.
Ltac string_step Hn shape :=
  eapply string_field_step;
  [by rewrite Hn|by rewrite Hn|unfold decoded, decode_mutation; by pick_name Hn
  |unfold mutation_field; by pick_name Hn|];
  intros m dry Hm; pose proof (shape _ _ _ _ Hm) as Hs; destruct_and?;
  repeat match goal with H : ∃ _, _ |- _ => destruct H end; subst m;
  unfold answer, decoded, decode_mutation;
  rewrite not_typename by (by rewrite Hn);
  pick_name Hn; rewrite Hm; split; [done|]; apply forget_world.

Lemma known_step r ctx f w : known f → field_step r ctx f w.
Proof.
  unfold known, mutation_names. rewrite !elem_of_cons, elem_of_nil.
  intros [Hn|[Hn|[Hn|[Hn|[Hn|[]]]]]]; [by apply typename_step|by apply createAccountExec_step|..].
  - string_step Hn requestSecret_args_shape.
  - string_step Hn ninelivesMint_args_shape.
  - string_step Hn claimRewards_args_shape.
Qed.

(** ** The whole mutation *)

Lemma requests_cons ctx f fields : requests ctx (f :: fields) = requests ctx [f] ++ requests ctx fields.
Proof. unfold requests. by rewrite <-omap_app. Qed.

Lemma serve_app r l l' w : serve_requests r (l ++ l') w = serve_requests r l' (serve_requests r l w).
Proof. unfold serve_requests. by rewrite foldl_app. Qed.

Lemma mutation_fields_run r ctx fields w :
  Forall known fields →
  (∃ p k, object_fields (mutation_field r ctx) fields w
          = (Fatal p, serve_requests r (requests ctx (take k fields)) w))
  ∨ ∃ y, object_fields (mutation_field r ctx) fields w
         = (Ok y, serve_requests r (requests ctx fields) w)
         ∧ y.1.1 = answers r ctx fields w ∧ (0 <? y.2)%nat = spoiled r ctx fields w.
Proof.
  intros Hk. revert w. induction Hk as [|f fields Hf Hk IH]; intros w.
  { right. by exists ([], [], 0%nat). }
  cbn [object_fields]. rewrite run_bind.
  destruct (known_step r ctx f w Hf) as [(p & ->)|(errs & ->)].
  { left. exists p, 1%nat. cbn -[requests]. by rewrite firstn_O. }
  cbv zeta. cbn [fst snd]. rewrite run_bind.
  destruct (IH (serve_requests r (requests ctx [f]) w)) as [(p & k & ->)|(y & -> & Hy & Hn)].
  { left. exists p, (S k). cbn [firstn].
    by rewrite (requests_cons ctx f (take k fields)), serve_app. }
  right. eexists. split; [by rewrite (requests_cons ctx f fields), serve_app|].
  cbn -[requests]. rewrite Hy, <-Hn. split; [done|].
  by destruct (required f && same (answer r ctx f w) Null).
Qed.

(** C25: a mutation document is executed as the plain account says. The
    selected operations run once each, in the order selected, on their decoded
    arguments, whether or not the ones before them failed, unless one ends the
    process; the response has their answers under their aliases, and is null
    as a whole exactly when an operation other than [createAccountExec] or its
    arguments failed. *)
Theorem Mutation_executes (r : Resolver) (ctx : Ctx) (fields : list CollectedField) (w : world) :
  Forall known fields →
  match _Mutation r ctx fields w with
  | (Ok (data, _), w') =>
      w' = serve_requests r (requests ctx fields) w
      ∧ data = if spoiled r ctx fields w then Null else FieldSet (answers r ctx fields w)
  | (Fatal _, w') => ∃ k, w' = serve_requests r (requests ctx (take k fields)) w
  | _ => False
  end.
Proof.
  intros Hk. unfold _Mutation, object. rewrite run_bind.
  destruct (mutation_fields_run r ctx fields w Hk) as [(p & k & ->)|(y & -> & Hy & Hn)].
  - by exists k.
  - cbv zeta. cbn [fst snd]. rewrite run_ret. unfold close_object. by rewrite Hn, Hy.
Qed.
End GraphExecFacts.

(** * A reference executor *)

Inductive ref_json :=
| RNull (required : bool)
| RNil
| RString (s : gostring)
| RBool (b : bool)
| RInt (z : Z)
| RFloat (x : QArith_base.Q)
| RArray (l : list ref_json)
| RObject (l : list (gostring * ref_json)).

Definition ref_same (a b : ref_json) : bool :=
  match a, b with
  | RNull x, RNull y => Bool.eqb x y
  | _, _ => false
  end.

(** The elements one after the other. *)
Fixpoint ref_slice (f : nat → io (ref_json * list gostring)) (i n : nat)
    : io (list ref_json * list gostring) :=
  match n with
  | 0%nat => mret ([], [])
  | S n =>
      x ← f i;
      y ← ref_slice f (S i) n;
      mret (fst x :: fst y, snd x ++ snd y)
  end.

#[export] Instance ref_graphql : Graphql := {|
  Marshaler := ref_json;
  Null := RNull false;
  RequiredNull := RNull true;
  nil_Marshaler := RNil;
  same := ref_same;
  MarshalString := RString;
  MarshalBoolean := RBool;
  MarshalInt32 := RInt;
  MarshalFloat := RFloat;
  FieldSet := RObject;
  MarshalArray := RArray;
  Recover p := lit "internal system error";
  NewScalarFieldContext o f m r e := Ok (mk_FieldContext o m r (NoChildren e));
  RootResolverMiddleware A m := m;
  ResolveField I T field init resolver marshal nn :=
    match init.1 with
    | Ok fc =>
        recovering (v ← resolver fc; marshal v)
          (λ o, pure match o with
                     | Ok r => Ok r
                     | Err e => Ok (RNull false, [e])
                     | Panic p => Ok (RNull false, [lit "internal system error"])
                     | Fatal p => Fatal p
                     end)
    | Fatal p => pure (Fatal p)
    | _ => mret (RNull false, init.2)
    end;
  MarshalSliceConcurrently n f := ref_slice f 0 n
|}.

Lemma ref_slice_ret f r i n :
  (∀ j, (i ≤ j < i + n)%nat → f j = mret (r j)) →
  ref_slice f i n = mret (map (λ j, (r j).1) (seq i n), concat (map (λ j, (r j).2) (seq i n))).
Proof.
  revert i. induction n as [|n IH]; intros i Hf; [done|]. cbn [ref_slice].
  rewrite Hf by lia. rewrite (IH (S i)) by (intros j Hj; apply Hf; lia). done.
Qed.

Lemma ref_slice_calm f i n :
  (∀ j, (i ≤ j < i + n)%nat → calm (f j)) → calm (ref_slice f i n).
Proof.
  revert i. induction n as [|n IH]; intros i Hf; [done|]. cbn [ref_slice].
  apply calm_bind; [apply Hf; lia|]. intros x. apply calm_bind; [|done].
  apply IH. intros j Hj. apply Hf. lia.
Qed.

#[export] Instance ref_graphql_laws : GraphqlLaws.
Proof.
  split; try done.
  - intros n f r Hf. apply ref_slice_ret. intros j Hj. apply Hf. lia.
  - intros n f Hf. apply ref_slice_calm. intros j Hj. apply Hf. lia.
Qed.

Definition ref_field (alias : string) (m : mutation) (sel : list CollectedField) : CollectedField :=
  mk_CollectedField (encode_mutation m None).1 (lit alias) (encode_mutation m None).2 sel.

(** A request for a secret and, in the same document, a mint by a caller that
    is not authenticated. *)
Definition ref_document : list CollectedField :=
  [ref_field "secret" (requestSecret (addr_lower ref_eoa) 5 27 ref_sigR ref_sigS) [];
   ref_field "mint" (ninelivesMint ref_model_mint) []].

Lemma Mutation_executes_witness :
  match _Mutation ref_resolver ref_no_ctx ref_document ref_world with
  | (Ok (data, _), w') =>
      w' = serve_requests ref_resolver (requests ref_no_ctx ref_document) ref_world
      ∧ data = if spoiled ref_resolver ref_no_ctx ref_document ref_world then Null
               else FieldSet (answers ref_resolver ref_no_ctx ref_document ref_world)
  | (Fatal _, w') =>
      ∃ k, w' = serve_requests ref_resolver (requests ref_no_ctx (take k ref_document)) ref_world
  | _ => False
  end.
Proof.
  apply (Mutation_executes ref_resolver ref_no_ctx ref_document ref_world).
  repeat constructor.
Defined.

(** The failed mint makes the response null: the secret handed out is not
    returned, and its nonce is used up. *)
Example failed_sibling_discards_secret :
  match _Mutation ref_resolver ref_no_ctx ref_document ref_world with
  | (Ok (RNull _, _), w') => length (accounts_secrets_nonces_2 (w_db w'))
  | _ => 0%nat
  end = 1%nat.
Proof. vm_compute. reflexivity. Qed.
