(* ===== verification/Introspection.v ===== *)
(** * Introspection: the schema's own types (graph/generated.go)

    The fields of the introspection types and the loops over them. The schema
    as gqlgen presents it (package introspection) is a class: what is
    generated only reads it. A type leads to its fields, a field to its type,
    so the functions recurse over the selection, which is finite; the schema
    itself may be cyclic. *)
From stdpp Require Import base numbers strings list.
From Stdlib Require Import Strings.Byte ZArith Lia.
From S2P Require Import Prelude GoStd Types External Db World Utils Convertor Resolvers.
From S2P Require Import ResolverFacts GraphInput GraphExec.

(** github.com/99designs/gqlgen/graphql/introspection: the structs, their
    fields and their methods, and the two lookups of an execution context. A
    pointer or a slice that may be nil is an option. *)
Module introspection.
Class Introspection := {
  Directive : Type;
  EnumValue : Type;
  Field : Type;
  InputValue : Type;
  Schema : Type;
  Type_ : Type;
  Directive_Name : Directive → gostring;
  Directive_Description : Directive → option gostring;
  Directive_IsRepeatable : Directive → bool;
  Directive_Locations : Directive → list gostring;
  Directive_Args : Directive → list InputValue;
  EnumValue_Name : EnumValue → gostring;
  EnumValue_Description : EnumValue → option gostring;
  EnumValue_IsDeprecated : EnumValue → bool;
  EnumValue_DeprecationReason : EnumValue → option gostring;
  Field_Name : Field → gostring;
  Field_Description : Field → option gostring;
  Field_Args : Field → list InputValue;
  Field_Type : Field → option Type_;
  Field_IsDeprecated : Field → bool;
  Field_DeprecationReason : Field → option gostring;
  InputValue_Name : InputValue → gostring;
  InputValue_Description : InputValue → option gostring;
  InputValue_Type : InputValue → option Type_;
  InputValue_DefaultValue : InputValue → option gostring;
  InputValue_IsDeprecated : InputValue → bool;
  InputValue_DeprecationReason : InputValue → option gostring;
  Schema_Description : Schema → option gostring;
  Schema_Types : Schema → list Type_;
  Schema_QueryType : Schema → option Type_;
  Schema_MutationType : Schema → option Type_;
  Schema_SubscriptionType : Schema → option Type_;
  Schema_Directives : Schema → list Directive;
  Type_Kind : Type_ → gostring;
  Type_Name : Type_ → option gostring;
  Type_Description : Type_ → option gostring;
  Type_SpecifiedByURL : Type_ → option gostring;
  Type_Fields : Type_ → bool → option (list Field);
  Type_Interfaces : Type_ → option (list Type_);
  Type_PossibleTypes : Type_ → option (list Type_);
  Type_EnumValues : Type_ → bool → option (list EnumValue);
  Type_InputFields : Type_ → option (list InputValue);
  Type_OfType : Type_ → option Type_;
  Type_IsOneOf : Type_ → bool;
  IntrospectSchema : outcome (option Schema);
  IntrospectType : gostring → outcome (option Type_)
}.

(** The lookups return: they fail with an error where introspection is
    disabled. A field and an argument have a type, and a schema has a query
    type. *)
Class IntrospectionLaws `{Introspection} : Prop := {
  IntrospectSchema_returns : returns IntrospectSchema = true;
  IntrospectType_returns name : returns (IntrospectType name) = true;
  Field_Type_set f : is_Some (Field_Type f);
  InputValue_Type_set v : is_Some (InputValue_Type v);
  Schema_QueryType_set s : is_Some (Schema_QueryType s)
}.
End introspection.

Section Introspection.
Context {UN : Unicode} {AS : Assets} {EC : EthCommon} {CR : EthCrypto} {BO : Borsh}
  {AB : Abi} {EX : Exec} {CL : EthClient} {EN : Env} {PC : PgCalendar} {GF : GoFmt}
  {FL : Float64} {GQ : Gqlgen} {GR : Graphql} {IN : introspection.Introspection}.

(** ** Scalars *)

Definition marshalOString2string (v : option gostring) : io resolved :=
  match v with
  | None => mret (Null, [])
  | Some v => mret (MarshalString v, [])
  end.
Definition marshalOBoolean2bool (v : bool) : io resolved := mret (MarshalBoolean v, []).
Definition marshalN__TypeKind2string (v : gostring) : io resolved :=
  required_value (MarshalString v).
Definition marshalN__DirectiveLocation2string (v : gostring) : io resolved :=
  required_value (MarshalString v).
Definition marshalN__DirectiveLocation2strings (v : list gostring) : io resolved :=
  marshal_elements marshalN__DirectiveLocation2string v.

(** ** Field contexts *)

Definition fieldContext___Directive_name (field : CollectedField) : outcome FieldContext :=
  NewScalarFieldContext (lit "__Directive") field false false (no_child "String").
Definition fieldContext___Directive_description (field : CollectedField) : outcome FieldContext :=
  NewScalarFieldContext (lit "__Directive") field true false (no_child "String").
Definition fieldContext___Directive_isRepeatable (field : CollectedField)
    : outcome FieldContext :=
  NewScalarFieldContext (lit "__Directive") field false false (no_child "Boolean").
Definition fieldContext___Directive_locations (field : CollectedField) : outcome FieldContext :=
  NewScalarFieldContext (lit "__Directive") field false false (no_child "__DirectiveLocation").
Definition fieldContext___Directive_args (field : CollectedField)
    : outcome (FieldContext * option bool) * list gostring :=
  with_args (mk_FieldContext (lit "__Directive") false false (childFields O__InputValue))
    (field___Directive_args_args (field_path field) (ArgumentMap field)).
Definition fieldContext___EnumValue_name (field : CollectedField) : outcome FieldContext :=
  NewScalarFieldContext (lit "__EnumValue") field false false (no_child "String").
Definition fieldContext___EnumValue_description (field : CollectedField) : outcome FieldContext :=
  NewScalarFieldContext (lit "__EnumValue") field true false (no_child "String").
Definition fieldContext___EnumValue_isDeprecated (field : CollectedField)
    : outcome FieldContext :=
  NewScalarFieldContext (lit "__EnumValue") field true false (no_child "Boolean").
Definition fieldContext___EnumValue_deprecationReason (field : CollectedField)
    : outcome FieldContext :=
  NewScalarFieldContext (lit "__EnumValue") field true false (no_child "String").
Definition fieldContext___Field_name (field : CollectedField) : outcome FieldContext :=
  NewScalarFieldContext (lit "__Field") field false false (no_child "String").
Definition fieldContext___Field_description (field : CollectedField) : outcome FieldContext :=
  NewScalarFieldContext (lit "__Field") field true false (no_child "String").
Definition fieldContext___Field_args (field : CollectedField)
    : outcome (FieldContext * option bool) * list gostring :=
  with_args (mk_FieldContext (lit "__Field") false false (childFields O__InputValue))
    (field___Field_args_args (field_path field) (ArgumentMap field)).
Definition fieldContext___Field_type (field : CollectedField) : outcome FieldContext :=
  Ok (mk_FieldContext (lit "__Field") false false (childFields O__Type)).
Definition fieldContext___Field_isDeprecated (field : CollectedField) : outcome FieldContext :=
  NewScalarFieldContext (lit "__Field") field true false (no_child "Boolean").
Definition fieldContext___Field_deprecationReason (field : CollectedField)
    : outcome FieldContext :=
  NewScalarFieldContext (lit "__Field") field true false (no_child "String").
Definition fieldContext___InputValue_name (field : CollectedField) : outcome FieldContext :=
  NewScalarFieldContext (lit "__InputValue") field false false (no_child "String").
Definition fieldContext___InputValue_description (field : CollectedField)
    : outcome FieldContext :=
  NewScalarFieldContext (lit "__InputValue") field true false (no_child "String").
Definition fieldContext___InputValue_type (field : CollectedField) : outcome FieldContext :=
  Ok (mk_FieldContext (lit "__InputValue") false false (childFields O__Type)).
Definition fieldContext___InputValue_defaultValue (field : CollectedField)
    : outcome FieldContext :=
  NewScalarFieldContext (lit "__InputValue") field false false (no_child "String").
Definition fieldContext___InputValue_isDeprecated (field : CollectedField)
    : outcome FieldContext :=
  NewScalarFieldContext (lit "__InputValue") field true false (no_child "Boolean").
Definition fieldContext___InputValue_deprecationReason (field : CollectedField)
    : outcome FieldContext :=
  NewScalarFieldContext (lit "__InputValue") field true false (no_child "String").
Definition fieldContext___Schema_description (field : CollectedField) : outcome FieldContext :=
  NewScalarFieldContext (lit "__Schema") field true false (no_child "String").
Definition fieldContext___Schema_types (field : CollectedField) : outcome FieldContext :=
  Ok (mk_FieldContext (lit "__Schema") true false (childFields O__Type)).
Definition fieldContext___Schema_queryType (field : CollectedField) : outcome FieldContext :=
  Ok (mk_FieldContext (lit "__Schema") true false (childFields O__Type)).
Definition fieldContext___Schema_mutationType (field : CollectedField) : outcome FieldContext :=
  Ok (mk_FieldContext (lit "__Schema") true false (childFields O__Type)).
Definition fieldContext___Schema_subscriptionType (field : CollectedField)
    : outcome FieldContext :=
  Ok (mk_FieldContext (lit "__Schema") true false (childFields O__Type)).
Definition fieldContext___Schema_directives (field : CollectedField) : outcome FieldContext :=
  Ok (mk_FieldContext (lit "__Schema") true false (childFields O__Directive)).
Definition fieldContext___Type_kind (field : CollectedField) : outcome FieldContext :=
  NewScalarFieldContext (lit "__Type") field true false (no_child "__TypeKind").
Definition fieldContext___Type_name (field : CollectedField) : outcome FieldContext :=
  NewScalarFieldContext (lit "__Type") field true false (no_child "String").
Definition fieldContext___Type_description (field : CollectedField) : outcome FieldContext :=
  NewScalarFieldContext (lit "__Type") field true false (no_child "String").
Definition fieldContext___Type_specifiedByURL (field : CollectedField) : outcome FieldContext :=
  NewScalarFieldContext (lit "__Type") field true false (no_child "String").
Definition fieldContext___Type_fields (field : CollectedField)
    : outcome (FieldContext * bool) * list gostring :=
  with_args (mk_FieldContext (lit "__Type") true false (childFields O__Field))
    (field___Type_fields_args (field_path field) (ArgumentMap field)).
Definition fieldContext___Type_interfaces (field : CollectedField) : outcome FieldContext :=
  Ok (mk_FieldContext (lit "__Type") true false (childFields O__Type)).
Definition fieldContext___Type_possibleTypes (field : CollectedField) : outcome FieldContext :=
  Ok (mk_FieldContext (lit "__Type") true false (childFields O__Type)).
Definition fieldContext___Type_enumValues (field : CollectedField)
    : outcome (FieldContext * bool) * list gostring :=
  with_args (mk_FieldContext (lit "__Type") true false (childFields O__EnumValue))
    (field___Type_enumValues_args (field_path field) (ArgumentMap field)).
Definition fieldContext___Type_inputFields (field : CollectedField) : outcome FieldContext :=
  Ok (mk_FieldContext (lit "__Type") true false (childFields O__InputValue)).
Definition fieldContext___Type_ofType (field : CollectedField) : outcome FieldContext :=
  Ok (mk_FieldContext (lit "__Type") true false (childFields O__Type)).
Definition fieldContext___Type_isOneOf (field : CollectedField) : outcome FieldContext :=
  NewScalarFieldContext (lit "__Type") field true false (no_child "Boolean").

(** A context without its arguments; the errors of the arguments are
    reported. *)
Definition context_only {A} (fc : outcome (FieldContext * A) * list gostring)
    : outcome FieldContext :=
  fc ← fc.1; mret fc.1.

Definition childFields___Directive (field : CollectedField) : outcome FieldContext :=
  if decide (Name field = lit "name") then fieldContext___Directive_name field
  else if decide (Name field = lit "description") then fieldContext___Directive_description field
  else if decide (Name field = lit "isRepeatable") then
    fieldContext___Directive_isRepeatable field
  else if decide (Name field = lit "locations") then fieldContext___Directive_locations field
  else if decide (Name field = lit "args") then context_only (fieldContext___Directive_args field)
  else no_field field "__Directive".

Definition childFields___EnumValue (field : CollectedField) : outcome FieldContext :=
  if decide (Name field = lit "name") then fieldContext___EnumValue_name field
  else if decide (Name field = lit "description") then fieldContext___EnumValue_description field
  else if decide (Name field = lit "isDeprecated") then
    fieldContext___EnumValue_isDeprecated field
  else if decide (Name field = lit "deprecationReason") then
    fieldContext___EnumValue_deprecationReason field
  else no_field field "__EnumValue".

Definition childFields___Field (field : CollectedField) : outcome FieldContext :=
  if decide (Name field = lit "name") then fieldContext___Field_name field
  else if decide (Name field = lit "description") then fieldContext___Field_description field
  else if decide (Name field = lit "args") then context_only (fieldContext___Field_args field)
  else if decide (Name field = lit "type") then fieldContext___Field_type field
  else if decide (Name field = lit "isDeprecated") then fieldContext___Field_isDeprecated field
  else if decide (Name field = lit "deprecationReason") then
    fieldContext___Field_deprecationReason field
  else no_field field "__Field".

Definition childFields___InputValue (field : CollectedField) : outcome FieldContext :=
  if decide (Name field = lit "name") then fieldContext___InputValue_name field
  else if decide (Name field = lit "description") then fieldContext___InputValue_description field
  else if decide (Name field = lit "type") then fieldContext___InputValue_type field
  else if decide (Name field = lit "defaultValue") then
    fieldContext___InputValue_defaultValue field
  else if decide (Name field = lit "isDeprecated") then
    fieldContext___InputValue_isDeprecated field
  else if decide (Name field = lit "deprecationReason") then
    fieldContext___InputValue_deprecationReason field
  else no_field field "__InputValue".

Definition childFields___Schema (field : CollectedField) : outcome FieldContext :=
  if decide (Name field = lit "description") then fieldContext___Schema_description field
  else if decide (Name field = lit "types") then fieldContext___Schema_types field
  else if decide (Name field = lit "queryType") then fieldContext___Schema_queryType field
  else if decide (Name field = lit "mutationType") then fieldContext___Schema_mutationType field
  else if decide (Name field = lit "subscriptionType") then
    fieldContext___Schema_subscriptionType field
  else if decide (Name field = lit "directives") then fieldContext___Schema_directives field
  else no_field field "__Schema".

Definition childFields___Type (field : CollectedField) : outcome FieldContext :=
  if decide (Name field = lit "kind") then fieldContext___Type_kind field
  else if decide (Name field = lit "name") then fieldContext___Type_name field
  else if decide (Name field = lit "description") then fieldContext___Type_description field
  else if decide (Name field = lit "specifiedByURL") then fieldContext___Type_specifiedByURL field
  else if decide (Name field = lit "fields") then context_only (fieldContext___Type_fields field)
  else if decide (Name field = lit "interfaces") then fieldContext___Type_interfaces field
  else if decide (Name field = lit "possibleTypes") then fieldContext___Type_possibleTypes field
  else if decide (Name field = lit "enumValues") then
    context_only (fieldContext___Type_enumValues field)
  else if decide (Name field = lit "inputFields") then fieldContext___Type_inputFields field
  else if decide (Name field = lit "ofType") then fieldContext___Type_ofType field
  else if decide (Name field = lit "isOneOf") then fieldContext___Type_isOneOf field
  else no_field field "__Type".

(** The function [Child] of a field context. *)
Definition child (c : children) (field : CollectedField) : outcome FieldContext :=
  match c with
  | NoChildren err => Err err
  | childFields OCreateAccountExec => childFields_CreateAccountExec field
  | childFields OStatistics => childFields_Statistics field
  | childFields O__Directive => childFields___Directive field
  | childFields O__EnumValue => childFields___EnumValue field
  | childFields O__Field => childFields___Field field
  | childFields O__InputValue => childFields___InputValue field
  | childFields O__Schema => childFields___Schema field
  | childFields O__Type => childFields___Type field
  end.

(** ** __EnumValue *)

Definition ___EnumValue_name (field : CollectedField) (obj : introspection.EnumValue)
    : io resolved :=
  ResolveField field (no_args (fieldContext___EnumValue_name field))
    (λ _, mret (introspection.EnumValue_Name obj)) marshalNString2string true.

Definition ___EnumValue_description (field : CollectedField) (obj : introspection.EnumValue)
    : io resolved :=
  ResolveField field (no_args (fieldContext___EnumValue_description field))
    (λ _, mret (introspection.EnumValue_Description obj)) marshalOString2string false.

Definition ___EnumValue_isDeprecated (field : CollectedField) (obj : introspection.EnumValue)
    : io resolved :=
  ResolveField field (no_args (fieldContext___EnumValue_isDeprecated field))
    (λ _, mret (introspection.EnumValue_IsDeprecated obj)) marshalNBoolean2bool true.

Definition ___EnumValue_deprecationReason (field : CollectedField) (obj : introspection.EnumValue)
    : io resolved :=
  ResolveField field (no_args (fieldContext___EnumValue_deprecationReason field))
    (λ _, mret (introspection.EnumValue_DeprecationReason obj)) marshalOString2string false.

(** The body of the loop. *)
Definition ___EnumValue_switch (field : CollectedField) (obj : introspection.EnumValue)
    : io (resolved * bool) :=
  if decide (Name field = lit "__typename") then typename "__EnumValue"
  else if decide (Name field = lit "name") then non_null (___EnumValue_name field obj)
  else if decide (Name field = lit "description") then
    nullable (___EnumValue_description field obj)
  else if decide (Name field = lit "isDeprecated") then
    non_null (___EnumValue_isDeprecated field obj)
  else if decide (Name field = lit "deprecationReason") then
    nullable (___EnumValue_deprecationReason field obj)
  else unknown_field field.

Definition ___EnumValue (sel : list CollectedField) (obj : introspection.EnumValue) : io resolved :=
  object (λ field, ___EnumValue_switch field obj) sel.

Definition marshalN__EnumValue (sel : list CollectedField) (v : introspection.EnumValue)
    : io resolved :=
  ___EnumValue sel v.

(** [if v == nil { return graphql.Null }] of a slice. *)
Definition marshalO_slice {A} (f : A → io resolved) (v : option (list A)) : io resolved :=
  match v with
  | None => mret (Null, [])
  | Some v => marshal_elements f v
  end.

Definition marshalO__EnumValues (sel : list CollectedField)
    (v : option (list introspection.EnumValue)) : io resolved :=
  marshalO_slice (marshalN__EnumValue sel) v.

(** ** The types that lead to each other

    The fields, given the objects they lead to. *)
Section Objects.
Context (___Type : list CollectedField → introspection.Type_ → io resolved)
  (___Field : list CollectedField → introspection.Field → io resolved)
  (___InputValue : list CollectedField → introspection.InputValue → io resolved).

Definition marshalN__Type (sel : list CollectedField) (v : introspection.Type_) : io resolved :=
  ___Type sel v.
Definition marshalN__Types (sel : list CollectedField) (v : list introspection.Type_)
    : io resolved :=
  marshal_elements (marshalN__Type sel) v.
Definition marshalN__Type2ptr (sel : list CollectedField) (v : option introspection.Type_)
    : io resolved :=
  match v with
  | None => mret (Null, [null_not_allowed])
  | Some v => ___Type sel v
  end.
Definition marshalO__Types (sel : list CollectedField) (v : option (list introspection.Type_))
    : io resolved :=
  marshalO_slice (marshalN__Type sel) v.
Definition marshalO__Type2ptr (sel : list CollectedField) (v : option introspection.Type_)
    : io resolved :=
  match v with
  | None => mret (Null, [])
  | Some v => ___Type sel v
  end.

Definition marshalN__InputValue (sel : list CollectedField) (v : introspection.InputValue)
    : io resolved :=
  ___InputValue sel v.
Definition marshalN__InputValues (sel : list CollectedField) (v : list introspection.InputValue)
    : io resolved :=
  marshal_elements (marshalN__InputValue sel) v.
Definition marshalO__InputValues (sel : list CollectedField)
    (v : option (list introspection.InputValue)) : io resolved :=
  marshalO_slice (marshalN__InputValue sel) v.

Definition marshalN__Field (sel : list CollectedField) (v : introspection.Field) : io resolved :=
  ___Field sel v.
Definition marshalO__Fields (sel : list CollectedField) (v : option (list introspection.Field))
    : io resolved :=
  marshalO_slice (marshalN__Field sel) v.

(** *** __InputValue *)

Definition ___InputValue_name (field : CollectedField) (obj : introspection.InputValue)
    : io resolved :=
  ResolveField field (no_args (fieldContext___InputValue_name field))
    (λ _, mret (introspection.InputValue_Name obj)) marshalNString2string true.

Definition ___InputValue_description (field : CollectedField) (obj : introspection.InputValue)
    : io resolved :=
  ResolveField field (no_args (fieldContext___InputValue_description field))
    (λ _, mret (introspection.InputValue_Description obj)) marshalOString2string false.

Definition ___InputValue_type (field : CollectedField) (obj : introspection.InputValue)
    : io resolved :=
  ResolveField field (no_args (fieldContext___InputValue_type field))
    (λ _, mret (introspection.InputValue_Type obj)) (marshalN__Type2ptr (Selections field)) true.

Definition ___InputValue_defaultValue (field : CollectedField) (obj : introspection.InputValue)
    : io resolved :=
  ResolveField field (no_args (fieldContext___InputValue_defaultValue field))
    (λ _, mret (introspection.InputValue_DefaultValue obj)) marshalOString2string false.

Definition ___InputValue_isDeprecated (field : CollectedField) (obj : introspection.InputValue)
    : io resolved :=
  ResolveField field (no_args (fieldContext___InputValue_isDeprecated field))
    (λ _, mret (introspection.InputValue_IsDeprecated obj)) marshalNBoolean2bool true.

Definition ___InputValue_deprecationReason (field : CollectedField) (obj : introspection.InputValue)
    : io resolved :=
  ResolveField field (no_args (fieldContext___InputValue_deprecationReason field))
    (λ _, mret (introspection.InputValue_DeprecationReason obj)) marshalOString2string false.

Definition ___InputValue_switch (field : CollectedField) (obj : introspection.InputValue)
    : io (resolved * bool) :=
  if decide (Name field = lit "__typename") then typename "__InputValue"
  else if decide (Name field = lit "name") then non_null (___InputValue_name field obj)
  else if decide (Name field = lit "description") then
    nullable (___InputValue_description field obj)
  else if decide (Name field = lit "type") then non_null (___InputValue_type field obj)
  else if decide (Name field = lit "defaultValue") then
    nullable (___InputValue_defaultValue field obj)
  else if decide (Name field = lit "isDeprecated") then
    non_null (___InputValue_isDeprecated field obj)
  else if decide (Name field = lit "deprecationReason") then
    nullable (___InputValue_deprecationReason field obj)
  else unknown_field field.

(** *** __Field *)

Definition ___Field_name (field : CollectedField) (obj : introspection.Field) : io resolved :=
  ResolveField field (no_args (fieldContext___Field_name field))
    (λ _, mret (introspection.Field_Name obj)) marshalNString2string true.

Definition ___Field_description (field : CollectedField) (obj : introspection.Field)
    : io resolved :=
  ResolveField field (no_args (fieldContext___Field_description field))
    (λ _, mret (introspection.Field_Description obj)) marshalOString2string false.

Definition ___Field_args (field : CollectedField) (obj : introspection.Field) : io resolved :=
  ResolveField field (fieldContext___Field_args field)
    (λ _, mret (introspection.Field_Args obj)) (marshalN__InputValues (Selections field)) true.

Definition ___Field_type (field : CollectedField) (obj : introspection.Field) : io resolved :=
  ResolveField field (no_args (fieldContext___Field_type field))
    (λ _, mret (introspection.Field_Type obj)) (marshalN__Type2ptr (Selections field)) true.

Definition ___Field_isDeprecated (field : CollectedField) (obj : introspection.Field)
    : io resolved :=
  ResolveField field (no_args (fieldContext___Field_isDeprecated field))
    (λ _, mret (introspection.Field_IsDeprecated obj)) marshalNBoolean2bool true.

Definition ___Field_deprecationReason (field : CollectedField) (obj : introspection.Field)
    : io resolved :=
  ResolveField field (no_args (fieldContext___Field_deprecationReason field))
    (λ _, mret (introspection.Field_DeprecationReason obj)) marshalOString2string false.

Definition ___Field_switch (field : CollectedField) (obj : introspection.Field)
    : io (resolved * bool) :=
  if decide (Name field = lit "__typename") then typename "__Field"
  else if decide (Name field = lit "name") then non_null (___Field_name field obj)
  else if decide (Name field = lit "description") then nullable (___Field_description field obj)
  else if decide (Name field = lit "args") then non_null (___Field_args field obj)
  else if decide (Name field = lit "type") then non_null (___Field_type field obj)
  else if decide (Name field = lit "isDeprecated") then non_null (___Field_isDeprecated field obj)
  else if decide (Name field = lit "deprecationReason") then
    nullable (___Field_deprecationReason field obj)
  else unknown_field field.

(** *** __Type *)

Definition ___Type_kind (field : CollectedField) (obj : introspection.Type_) : io resolved :=
  ResolveField field (no_args (fieldContext___Type_kind field))
    (λ _, mret (introspection.Type_Kind obj)) marshalN__TypeKind2string true.

Definition ___Type_name (field : CollectedField) (obj : introspection.Type_) : io resolved :=
  ResolveField field (no_args (fieldContext___Type_name field))
    (λ _, mret (introspection.Type_Name obj)) marshalOString2string false.

Definition ___Type_description (field : CollectedField) (obj : introspection.Type_)
    : io resolved :=
  ResolveField field (no_args (fieldContext___Type_description field))
    (λ _, mret (introspection.Type_Description obj)) marshalOString2string false.

Definition ___Type_specifiedByURL (field : CollectedField) (obj : introspection.Type_)
    : io resolved :=
  ResolveField field (no_args (fieldContext___Type_specifiedByURL field))
    (λ _, mret (introspection.Type_SpecifiedByURL obj)) marshalOString2string false.

Definition ___Type_fields (field : CollectedField) (obj : introspection.Type_) : io resolved :=
  ResolveField field (fieldContext___Type_fields field)
    (λ fc, mret (introspection.Type_Fields obj fc.2)) (marshalO__Fields (Selections field)) false.

Definition ___Type_interfaces (field : CollectedField) (obj : introspection.Type_)
    : io resolved :=
  ResolveField field (no_args (fieldContext___Type_interfaces field))
    (λ _, mret (introspection.Type_Interfaces obj)) (marshalO__Types (Selections field)) false.

Definition ___Type_possibleTypes (field : CollectedField) (obj : introspection.Type_)
    : io resolved :=
  ResolveField field (no_args (fieldContext___Type_possibleTypes field))
    (λ _, mret (introspection.Type_PossibleTypes obj)) (marshalO__Types (Selections field)) false.

Definition ___Type_enumValues (field : CollectedField) (obj : introspection.Type_)
    : io resolved :=
  ResolveField field (fieldContext___Type_enumValues field)
    (λ fc, mret (introspection.Type_EnumValues obj fc.2))
    (marshalO__EnumValues (Selections field)) false.

Definition ___Type_inputFields (field : CollectedField) (obj : introspection.Type_)
    : io resolved :=
  ResolveField field (no_args (fieldContext___Type_inputFields field))
    (λ _, mret (introspection.Type_InputFields obj))
    (marshalO__InputValues (Selections field)) false.

Definition ___Type_ofType (field : CollectedField) (obj : introspection.Type_) : io resolved :=
  ResolveField field (no_args (fieldContext___Type_ofType field))
    (λ _, mret (introspection.Type_OfType obj)) (marshalO__Type2ptr (Selections field)) false.

Definition ___Type_isOneOf (field : CollectedField) (obj : introspection.Type_) : io resolved :=
  ResolveField field (no_args (fieldContext___Type_isOneOf field))
    (λ _, mret (introspection.Type_IsOneOf obj)) marshalOBoolean2bool false.

Definition ___Type_switch (field : CollectedField) (obj : introspection.Type_)
    : io (resolved * bool) :=
  if decide (Name field = lit "__typename") then typename "__Type"
  else if decide (Name field = lit "kind") then non_null (___Type_kind field obj)
  else if decide (Name field = lit "name") then nullable (___Type_name field obj)
  else if decide (Name field = lit "description") then nullable (___Type_description field obj)
  else if decide (Name field = lit "specifiedByURL") then
    nullable (___Type_specifiedByURL field obj)
  else if decide (Name field = lit "fields") then nullable (___Type_fields field obj)
  else if decide (Name field = lit "interfaces") then nullable (___Type_interfaces field obj)
  else if decide (Name field = lit "possibleTypes") then
    nullable (___Type_possibleTypes field obj)
  else if decide (Name field = lit "enumValues") then nullable (___Type_enumValues field obj)
  else if decide (Name field = lit "inputFields") then nullable (___Type_inputFields field obj)
  else if decide (Name field = lit "ofType") then nullable (___Type_ofType field obj)
  else if decide (Name field = lit "isOneOf") then nullable (___Type_isOneOf field obj)
  else unknown_field field.
End Objects.

(** One field of each loop, with the objects below it. *)
Fixpoint type_field (field : CollectedField) (obj : introspection.Type_) {struct field}
    : io (resolved * bool) :=
  ___Type_switch (λ sel o, object (λ f, type_field f o) sel)
    (λ sel o, object (λ f, field_field f o) sel)
    (λ sel o, object (λ f, input_value_field f o) sel) field obj
with field_field (field : CollectedField) (obj : introspection.Field) {struct field}
    : io (resolved * bool) :=
  ___Field_switch (λ sel o, object (λ f, type_field f o) sel)
    (λ sel o, object (λ f, input_value_field f o) sel) field obj
with input_value_field (field : CollectedField) (obj : introspection.InputValue) {struct field}
    : io (resolved * bool) :=
  ___InputValue_switch (λ sel o, object (λ f, type_field f o) sel) field obj.

Definition ___Type (sel : list CollectedField) (obj : introspection.Type_) : io resolved :=
  object (λ field, type_field field obj) sel.
Definition ___Field (sel : list CollectedField) (obj : introspection.Field) : io resolved :=
  object (λ field, field_field field obj) sel.
Definition ___InputValue (sel : list CollectedField) (obj : introspection.InputValue)
    : io resolved :=
  object (λ field, input_value_field field obj) sel.

(** ** __Directive *)

Definition ___Directive_name (field : CollectedField) (obj : introspection.Directive)
    : io resolved :=
  ResolveField field (no_args (fieldContext___Directive_name field))
    (λ _, mret (introspection.Directive_Name obj)) marshalNString2string true.

Definition ___Directive_description (field : CollectedField) (obj : introspection.Directive)
    : io resolved :=
  ResolveField field (no_args (fieldContext___Directive_description field))
    (λ _, mret (introspection.Directive_Description obj)) marshalOString2string false.

Definition ___Directive_isRepeatable (field : CollectedField) (obj : introspection.Directive)
    : io resolved :=
  ResolveField field (no_args (fieldContext___Directive_isRepeatable field))
    (λ _, mret (introspection.Directive_IsRepeatable obj)) marshalNBoolean2bool true.

Definition ___Directive_locations (field : CollectedField) (obj : introspection.Directive)
    : io resolved :=
  ResolveField field (no_args (fieldContext___Directive_locations field))
    (λ _, mret (introspection.Directive_Locations obj)) marshalN__DirectiveLocation2strings true.

Definition ___Directive_args (field : CollectedField) (obj : introspection.Directive)
    : io resolved :=
  ResolveField field (fieldContext___Directive_args field)
    (λ _, mret (introspection.Directive_Args obj))
    (marshalN__InputValues ___InputValue (Selections field)) true.

Definition ___Directive_switch (field : CollectedField) (obj : introspection.Directive)
    : io (resolved * bool) :=
  if decide (Name field = lit "__typename") then typename "__Directive"
  else if decide (Name field = lit "name") then non_null (___Directive_name field obj)
  else if decide (Name field = lit "description") then
    nullable (___Directive_description field obj)
  else if decide (Name field = lit "isRepeatable") then
    non_null (___Directive_isRepeatable field obj)
  else if decide (Name field = lit "locations") then non_null (___Directive_locations field obj)
  else if decide (Name field = lit "args") then non_null (___Directive_args field obj)
  else unknown_field field.

Definition ___Directive (sel : list CollectedField) (obj : introspection.Directive) : io resolved :=
  object (λ field, ___Directive_switch field obj) sel.

Definition marshalN__Directive (sel : list CollectedField) (v : introspection.Directive)
    : io resolved :=
  ___Directive sel v.
Definition marshalN__Directives (sel : list CollectedField) (v : list introspection.Directive)
    : io resolved :=
  marshal_elements (marshalN__Directive sel) v.

(** ** __Schema *)

Definition ___Schema_description (field : CollectedField) (obj : introspection.Schema)
    : io resolved :=
  ResolveField field (no_args (fieldContext___Schema_description field))
    (λ _, mret (introspection.Schema_Description obj)) marshalOString2string false.

Definition ___Schema_types (field : CollectedField) (obj : introspection.Schema) : io resolved :=
  ResolveField field (no_args (fieldContext___Schema_types field))
    (λ _, mret (introspection.Schema_Types obj))
    (marshalN__Types ___Type (Selections field)) true.

Definition ___Schema_queryType (field : CollectedField) (obj : introspection.Schema)
    : io resolved :=
  ResolveField field (no_args (fieldContext___Schema_queryType field))
    (λ _, mret (introspection.Schema_QueryType obj))
    (marshalN__Type2ptr ___Type (Selections field)) true.

Definition ___Schema_mutationType (field : CollectedField) (obj : introspection.Schema)
    : io resolved :=
  ResolveField field (no_args (fieldContext___Schema_mutationType field))
    (λ _, mret (introspection.Schema_MutationType obj))
    (marshalO__Type2ptr ___Type (Selections field)) false.

Definition ___Schema_subscriptionType (field : CollectedField) (obj : introspection.Schema)
    : io resolved :=
  ResolveField field (no_args (fieldContext___Schema_subscriptionType field))
    (λ _, mret (introspection.Schema_SubscriptionType obj))
    (marshalO__Type2ptr ___Type (Selections field)) false.

Definition ___Schema_directives (field : CollectedField) (obj : introspection.Schema)
    : io resolved :=
  ResolveField field (no_args (fieldContext___Schema_directives field))
    (λ _, mret (introspection.Schema_Directives obj))
    (marshalN__Directives (Selections field)) true.

Definition ___Schema_switch (field : CollectedField) (obj : introspection.Schema)
    : io (resolved * bool) :=
  if decide (Name field = lit "__typename") then typename "__Schema"
  else if decide (Name field = lit "description") then nullable (___Schema_description field obj)
  else if decide (Name field = lit "types") then non_null (___Schema_types field obj)
  else if decide (Name field = lit "queryType") then non_null (___Schema_queryType field obj)
  else if decide (Name field = lit "mutationType") then
    nullable (___Schema_mutationType field obj)
  else if decide (Name field = lit "subscriptionType") then
    nullable (___Schema_subscriptionType field obj)
  else if decide (Name field = lit "directives") then non_null (___Schema_directives field obj)
  else unknown_field field.

Definition ___Schema (sel : list CollectedField) (obj : introspection.Schema) : io resolved :=
  object (λ field, ___Schema_switch field obj) sel.

Definition marshalO__Schema (sel : list CollectedField) (v : option introspection.Schema)
    : io resolved :=
  match v with
  | None => mret (Null, [])
  | Some v => ___Schema sel v
  end.

(** ** The introspection fields of Query *)

Definition fieldContext_Query___type (field : CollectedField)
    : outcome (FieldContext * gostring) * list gostring :=
  with_args (mk_FieldContext (lit "Query") true false (childFields O__Type))
    (field_Query___type_args (field_path field) (ArgumentMap field)).

Definition _Query___type (field : CollectedField) : io resolved :=
  ResolveField field (fieldContext_Query___type field)
    (λ fc, pure (introspection.IntrospectType fc.2))
    (marshalO__Type2ptr ___Type (Selections field)) false.

Definition fieldContext_Query___schema (field : CollectedField) : outcome FieldContext :=
  Ok (mk_FieldContext (lit "Query") true false (childFields O__Schema)).

Definition _Query___schema (field : CollectedField) : io resolved :=
  ResolveField field (no_args (fieldContext_Query___schema field))
    (λ _, pure introspection.IntrospectSchema) (marshalO__Schema (Selections field)) false.
End Introspection.
