(* ===== verification/IntrospectionFacts.v ===== *)
(** * IntrospectionFacts: introspection is free of effects and answers

    Whatever a query asks of the schema, the answer is computed without
    effects and without ending the process; a selection whose fields the
    generated lookups know is answered in full, without errors. *)
From stdpp Require Import base numbers strings list.
From Stdlib Require Import Strings.Byte ZArith Lia.
From S2P Require Import Prelude GoStd Types External Db World Utils Convertor Resolvers.
From S2P Require Import Sha512 Keccak BorshRef Reference Ninelives Proxy RefWorld Client.
From S2P Require Import ResolverFacts AccountFacts GraphInput GraphExec GraphExecFacts.
From S2P Require Import Introspection.
Import introspection.

(** Induction over a field and the fields it selects. *)
Lemma CollectedField_ind' (P : CollectedField → Prop) :
  (∀ f, Forall P (Selections f) → P f) → ∀ f, P f.
Proof.
  intros H. fix IH 1. intros [n a m sel]. apply H. cbn.
  induction sel as [|f sel IHsel]; constructor; [apply IH|apply IHsel].
Qed.

Definition not_fatal {A} (m : outcome A) : bool :=
  match m with Fatal _ => false | _ => true end.

Create HintDb calmdb.

Section Calm.
Context {UN : Unicode} {AS : Assets} {EC : EthCommon} {CR : EthCrypto} {BO : Borsh}
  {AB : Abi} {EX : Exec} {CL : EthClient} {EN : Env} {PC : PgCalendar} {GF : GoFmt}
  {FL : Float64} {GQ : Gqlgen} {GQL : GqlgenLaws} {GR : Graphql} {GRL : GraphqlLaws}
  {IN : Introspection} {INL : IntrospectionLaws}.

(** ** Contexts *)

Lemma not_fatal_no_args {A} (fc : outcome A) : is_ok fc = true → not_fatal (no_args fc).1 = true.
Proof. by destruct fc. Qed.

Lemma not_fatal_with_args {A} fc (args : outcome A) :
  returns args = true → not_fatal (with_args fc args).1 = true.
Proof. by destruct args. Qed.

Lemma returns_on_path {A} p (m : outcome A) : returns m = true → returns (on_path p m) = true.
Proof. by destruct m. Qed.

Lemma returns_string p v : returns (unmarshalNString2string p v) = true.
Proof. apply returns_on_path, UnmarshalString_returns. Qed.

Lemma returns_bool p v : returns (unmarshalOBoolean2bool_value p v) = true.
Proof. apply returns_on_path, UnmarshalBoolean_returns. Qed.

Lemma returns_optional_bool p v : returns (unmarshalOBoolean2bool p v) = true.
Proof.
  pose proof (returns_on_path p _ (UnmarshalBoolean_returns v)) as H.
  destruct v; [done|..]; unfold unmarshalOBoolean2bool, optional; by destruct (on_path p _).
Qed.

Lemma returns_arg {T} p raw (zero : T) name f :
  (∀ p v, returns (f p v) = true) → returns (ProcessArgField p raw zero name f) = true.
Proof.
  intros Hf. destruct (map_get name raw) as [v|] eqn:E.
  - by destruct (ProcessArgField_present p raw zero name f v E) as [p' ->].
  - by rewrite ProcessArgField_absent.
Qed.

(** ** Fields *)

(** A field that needs no effects has a value. *)
Lemma resolve_ret {I T} field (init : outcome I * list gostring) (resolver : I → outcome T)
    marshal nn :
  not_fatal init.1 = true → (∀ fc, not_fatal (resolver fc) = true) → (∀ v, calm (marshal v)) →
  ∃ x, ResolveField field init (λ fc, pure (resolver fc)) marshal nn = mret x.
Proof.
  intros Hi Hr Hm. rewrite ResolveField_spec. destruct init.1 as [fc|e|p|p]; [|by eexists..|done].
  specialize (Hr fc). destruct (resolver fc) as [v|e|p|p]; [|by eexists..|done].
  change (pure (Ok v) ≫= (λ v, marshal v)) with (marshal v). specialize (Hm v).
  destruct (marshal v) as [[]|]; try done; by eexists.
Qed.

Lemma calm_resolve {I T} field (init : outcome I * list gostring) (resolver : I → outcome T)
    marshal nn :
  not_fatal init.1 = true → (∀ fc, not_fatal (resolver fc) = true) → (∀ v, calm (marshal v)) →
  calm (ResolveField field init (λ fc, pure (resolver fc)) marshal nn).
Proof. intros Hi Hr Hm. by destruct (resolve_ret field init resolver marshal nn) as [x ->]. Qed.

Lemma calm_value {I T} field (init : outcome I * list gostring) (v : I → T) marshal nn :
  not_fatal init.1 = true → (∀ v, calm (marshal v)) →
  calm (ResolveField field init (λ fc, mret (v fc)) marshal nn).
Proof. intros Hi Hm. by apply (calm_resolve field init (λ fc, Ok (v fc))). Qed.

Lemma calm_nullable m : calm m → calm (nullable m).
Proof. intros. by apply calm_bind. Qed.

Lemma calm_required v : calm (required_value v).
Proof. done. Qed.

Lemma calm_elements {A} (f : A → io resolved) v : (∀ x, calm (f x)) → calm (marshal_elements f v).
Proof.
  intros Hf. apply calm_bind; [|done]. apply MarshalSliceConcurrently_calm. intros i Hi.
  by destruct (v !! i).
Qed.

Lemma calm_slice {A} (f : A → io resolved) v : (∀ x, calm (f x)) → calm (marshalO_slice f v).
Proof. intros. destruct v; [by apply calm_elements|done]. Qed.

Lemma calm_optional_string v : calm (marshalOString2string v).
Proof. by destruct v. Qed.
End Calm.

#[export] Hint Resolve returns_string returns_bool returns_optional_bool calm_optional_string
  calm_required : calmdb.
#[export] Hint Extern 1 (calm _) =>
  progress unfold marshalN__Type, marshalN__InputValue, marshalN__Field, marshalN__Directive,
    marshalN__EnumValue, marshalN__DirectiveLocation2string : calmdb.

(** The context of a field: a scalar's, an object's, or one with arguments. *)
Ltac not_fatal_context :=
  first [ apply not_fatal_no_args; first [apply NewScalarFieldContext_ok | reflexivity]
        | apply not_fatal_with_args, returns_arg; intros; auto with calmdb ].

(** A marshaler, given those of the elements. *)
Ltac calm_marshal :=
  intros; first [ done | solve [auto with calmdb]
                | apply calm_elements; intros; auto with calmdb
                | apply calm_slice; intros; auto with calmdb ].

(** A switch over the name of a field, branch by branch. *)
Ltac calm_switch :=
  repeat case_decide; try done;
  first [apply calm_non_null | apply calm_nullable];
  (apply calm_value; [not_fatal_context|calm_marshal]).

Section Introspection.
Context {UN : Unicode} {AS : Assets} {EC : EthCommon} {CR : EthCrypto} {BO : Borsh}
  {AB : Abi} {EX : Exec} {CL : EthClient} {EN : Env} {PC : PgCalendar} {GF : GoFmt}
  {FL : Float64} {GQ : Gqlgen} {GQL : GqlgenLaws} {GR : Graphql} {GRL : GraphqlLaws}
  {IN : Introspection} {INL : IntrospectionLaws}.

(** ** No effects *)

Lemma calm_EnumValue sel obj : calm (___EnumValue sel obj).
Proof. apply calm_object. intros f. unfold ___EnumValue_switch. calm_switch. Qed.

Section Objects.
Context (T : list CollectedField → Type_ → io resolved) (F : list CollectedField → Field → io resolved)
  (V : list CollectedField → InputValue → io resolved).

Lemma calm_type_ptr sel v : (∀ o, calm (T sel o)) → calm (marshalN__Type2ptr T sel v).
Proof. intros H. destruct v; [apply H|done]. Qed.
Lemma calm_type_optional sel v : (∀ o, calm (T sel o)) → calm (marshalO__Type2ptr T sel v).
Proof. intros H. destruct v; [apply H|done]. Qed.
Hint Resolve calm_type_ptr calm_type_optional calm_EnumValue : calmdb.

Lemma calm_InputValue_switch f obj :
  (∀ o, calm (T (Selections f) o)) → calm (___InputValue_switch T f obj).
Proof. intros HT. unfold ___InputValue_switch. calm_switch. Qed.

Lemma calm_Field_switch f obj :
  (∀ o, calm (T (Selections f) o)) → (∀ o, calm (V (Selections f) o)) →
  calm (___Field_switch T V f obj).
Proof. intros HT HV. unfold ___Field_switch. calm_switch. Qed.

Lemma calm_Type_switch f obj :
  (∀ o, calm (T (Selections f) o)) → (∀ o, calm (F (Selections f) o)) →
  (∀ o, calm (V (Selections f) o)) → calm (___Type_switch T F V f obj).
Proof. intros HT HF HV. unfold ___Type_switch. calm_switch. Qed.
End Objects.

Lemma calm_selected {O} (F : CollectedField → O → io (resolved * bool)) sel :
  Forall (λ f, ∀ o, calm (F f o)) sel → ∀ o, calm (object (λ f, F f o) sel).
Proof.
  intros HF o. apply calm_bind; [|done].
  induction HF as [|f sel Hf _ IH]; [done|]. apply calm_bind; [apply Hf|].
  intros x. by apply calm_bind.
Qed.

Lemma calm_fields f :
  (∀ o, calm (type_field f o)) ∧ (∀ o, calm (field_field f o)) ∧ (∀ o, calm (input_value_field f o)).
Proof.
  induction f as [f IH] using CollectedField_ind'. rewrite !Forall_and in IH.
  destruct IH as (HT & HF & HV).
  pose proof (calm_selected _ _ HT). pose proof (calm_selected _ _ HF).
  pose proof (calm_selected _ _ HV).
  destruct f as [n a m sel]. split_and!; intros o; cbn [type_field field_field input_value_field].
  - by apply calm_Type_switch.
  - by apply calm_Field_switch.
  - by apply calm_InputValue_switch.
Qed.

Lemma calm_Type sel obj : calm (___Type sel obj).
Proof. apply calm_object. intros f. apply calm_fields. Qed.

Lemma calm_InputValue sel obj : calm (___InputValue sel obj).
Proof. apply calm_object. intros f. apply calm_fields. Qed.
Hint Resolve calm_Type calm_InputValue calm_type_ptr calm_type_optional : calmdb.

Lemma calm_Directive sel obj : calm (___Directive sel obj).
Proof. apply calm_object. intros f. unfold ___Directive_switch. calm_switch. Qed.
Hint Resolve calm_Directive : calmdb.

Lemma calm_Schema sel obj : calm (___Schema sel obj).
Proof. apply calm_object. intros f. unfold ___Schema_switch. calm_switch. Qed.

(** Whatever a query asks of the schema. *)
Lemma Query___type_ret field : ∃ x, _Query___type field = mret x.
Proof.
  apply resolve_ret; [not_fatal_context| |].
  - intros fc. pose proof (IntrospectType_returns fc.2) as H. by destruct (IntrospectType fc.2).
  - intros v. auto with calmdb.
Qed.

Lemma Query___schema_ret field : ∃ x, _Query___schema field = mret x.
Proof.
  apply (resolve_ret field _ (λ _, IntrospectSchema)); [not_fatal_context| |].
  - intros fc. pose proof IntrospectSchema_returns as H. by destruct IntrospectSchema.
  - intros [v|]; [apply calm_Schema|done].
Qed.

(** ** Selections that are answered *)

(** A field, and those it selects, are known to the lookups of child
    contexts. *)
Fixpoint selects (c : children) (f : CollectedField) {struct f} : bool :=
  if decide (Name f = lit "__typename") then true
  else match child c f with
       | Ok fc => forallb (selects (Child fc)) (Selections f)
       | _ => false
       end.

(** A value without errors that no enclosing object rejects. *)
Definition answered (m : io resolved) : Prop :=
  ∃ r, m = mret (r, []) ∧ same r Null = false ∧ same r RequiredNull = false.
(** It may be null where the schema allows it. *)
Definition admitted (m : io resolved) : Prop :=
  ∃ r, m = mret (r, []) ∧ same r RequiredNull = false.
Definition accepted (m : io (resolved * bool)) : Prop := ∃ r, m = mret ((r, []), false).

Lemma answered_admitted m : answered m → admitted m.
Proof. intros (r & -> & _ & H). by exists r. Qed.

Lemma accepted_non_null m : answered m → accepted (non_null m).
Proof.
  intros (r & -> & H & _). exists r.
  trans (mret ((r, []), same r Null) : io (resolved * bool)); [done|by rewrite H].
Qed.

Lemma accepted_nullable m : admitted m → accepted (nullable m).
Proof.
  intros (r & -> & H). exists r.
  trans (mret ((r, []), same r RequiredNull) : io (resolved * bool)); [done|by rewrite H].
Qed.

Lemma resolve_value {I T} field (init : outcome I * list gostring) (v : I → T) marshal nn i x :
  init.1 = Ok i → marshal (v i) = mret x →
  ResolveField field init (λ fc, mret (v fc)) marshal nn = mret x.
Proof.
  intros Hi Hm. rewrite ResolveField_spec, Hi.
  change ((mret (v i) : io T) ≫= (λ v, marshal v)) with (marshal (v i)). by rewrite Hm.
Qed.

Lemma answered_resolve {I T} field (init : outcome I * list gostring) (v : I → T) marshal nn i :
  init.1 = Ok i → answered (marshal (v i)) →
  answered (ResolveField field init (λ fc, mret (v fc)) marshal nn).
Proof. intros Hi (r & Hm & Hr). exists r. split; [by eapply resolve_value|done]. Qed.

Lemma admitted_resolve {I T} field (init : outcome I * list gostring) (v : I → T) marshal nn i :
  init.1 = Ok i → admitted (marshal (v i)) →
  admitted (ResolveField field init (λ fc, mret (v fc)) marshal nn).
Proof. intros Hi (r & Hm & Hr). exists r. split; [by eapply resolve_value|done]. Qed.

Lemma object_accepted F sel :
  Forall (λ f, accepted (F f)) sel →
  ∃ l, object F sel = mret (FieldSet l, []) ∧ map fst l = map Alias sel.
Proof.
  intros HF. assert (∃ l, object_fields F sel = mret (l, [], 0%nat) ∧ map fst l = map Alias sel)
    as (l & E & Hl); [|exists l; split; [|done]; unfold object; by rewrite E].
  induction HF as [|f sel [r Hr] _ (l & E & Hl)]; [by exists []|].
  exists ((Alias f, r) :: l). cbn [object_fields map fst]. rewrite Hr, Hl. split; [|done].
  trans (object_fields F sel ≫= λ y, mret (add_field (Alias f) ((r, []), false) y)); [done|].
  by rewrite E.
Qed.

Lemma object_answered F sel : Forall (λ f, accepted (F f)) sel → answered (object F sel).
Proof.
  intros HF. destruct (object_accepted F sel HF) as (l & -> & _). exists (FieldSet l).
  split; [done|]. apply FieldSet_value.
Qed.

Lemma elements_answered {A} (f : A → io resolved) v :
  (∀ x, answered (f x)) → answered (marshal_elements f v).
Proof.
  intros Hf. set (g := λ i, match v !! i with Some x => f x | None => out_of_range end).
  set (r := λ i, match g i with Done (Ok a) => a | _ => (Null, []) end).
  assert (∀ i, (i < length v)%nat →
            g i = mret (r i) ∧ (r i).2 = [] ∧ same (r i).1 Null = false) as Hg.
  { intros i Hi. destruct (lookup_lt_is_Some_2 v i Hi) as [x Hx].
    destruct (Hf x) as (a & Ha & Hn & _). unfold r, g. rewrite Hx, Ha. done. }
  unfold marshal_elements. fold g.
  rewrite (MarshalSliceConcurrently_spec _ g r) by (intros i Hi; by apply Hg).
  assert (concat (map (λ i, (r i).2) (seq 0 (length v))) = []) as ->.
  { apply concat_nil_Forall, Forall_map, Forall_seq. intros i Hi. apply Hg. lia. }
  set (l := map (λ i, (r i).1) (seq 0 (length v))). exists (MarshalArray l).
  split; [|apply MarshalArray_value].
  trans (mret (close_array (l, [])) : io resolved); [done|]. unfold close_array. cbn [fst snd].
  destruct (existsb (λ e, same e Null) l) eqn:E; [|done].
  apply existsb_exists in E as (e & He & Hs). apply in_map_iff in He as (i & <- & Hi).
  apply in_seq in Hi. destruct (Hg i) as (_ & _ & Hn); [lia|]. congruence.
Qed.

Lemma slice_admitted {A} (f : A → io resolved) v :
  (∀ x, answered (f x)) → admitted (marshalO_slice f v).
Proof.
  intros Hf. destruct v as [v|]; [by apply answered_admitted, elements_answered|].
  exists Null. split; [done|]. apply RequiredNull_Null.
Qed.

Lemma string_answered s : answered (marshalNString2string s).
Proof.
  exists (MarshalString s). destruct (MarshalString_value s) as [H1 H2]. split; [|done].
  unfold marshalNString2string, required_value. by rewrite H1.
Qed.

Lemma bool_answered b : answered (marshalNBoolean2bool b).
Proof.
  exists (MarshalBoolean b). destruct (MarshalBoolean_value b) as [H1 H2]. split; [|done].
  unfold marshalNBoolean2bool, required_value. by rewrite H1.
Qed.

Lemma optional_string_admitted v : admitted (marshalOString2string v).
Proof.
  destruct v as [v|]; eexists; (split; [done|]); [apply MarshalString_value|apply RequiredNull_Null].
Qed.

Lemma optional_bool_admitted v : admitted (marshalOBoolean2bool v).
Proof. eexists. split; [done|]. apply MarshalBoolean_value. Qed.

Lemma no_args_ok {A} (fc : outcome A) : is_ok fc = true → ∃ i, (no_args fc).1 = Ok i.
Proof. destruct fc; [by eexists|done..]. Qed.

Lemma accepted_answered {I T} field (init : outcome I * list gostring) (v : I → T) marshal nn :
  (∃ i, init.1 = Ok i) → (∀ i, answered (marshal (v i))) →
  accepted (non_null (ResolveField field init (λ fc, mret (v fc)) marshal nn)).
Proof. intros [i Hi] Hm. by eapply accepted_non_null, answered_resolve. Qed.

Lemma accepted_admitted {I T} field (init : outcome I * list gostring) (v : I → T) marshal nn :
  (∃ i, init.1 = Ok i) → (∀ i, admitted (marshal (v i))) →
  accepted (nullable (ResolveField field init (λ fc, mret (v fc)) marshal nn)).
Proof. intros [i Hi] Hm. by eapply accepted_nullable, admitted_resolve. Qed.

Lemma selects_eq c f :
  selects c f = if decide (Name f = lit "__typename") then true
                else match child c f with
                     | Ok fc => forallb (selects (Child fc)) (Selections f)
                     | _ => false
                     end.
Proof. by destruct f. Qed.

(** What is selected below a field is answered, when it is known. *)
Definition serves {O} (t : object_type) (f : CollectedField)
    (G : list CollectedField → O → io resolved) : Prop :=
  forallb (selects (childFields t)) (Selections f) = true → ∀ o, answered (G (Selections f) o).

Lemma type_ptr_answered (T : list CollectedField → Type_ → io resolved) sel v :
  is_Some v → (∀ o, answered (T sel o)) → answered (marshalN__Type2ptr T sel v).
Proof. intros [t ->] H. apply H. Qed.

Lemma type_optional_admitted (T : list CollectedField → Type_ → io resolved) sel v :
  (∀ o, answered (T sel o)) → admitted (marshalO__Type2ptr T sel v).
Proof.
  intros H. destruct v as [t|]; [apply answered_admitted, H|].
  exists Null. split; [done|]. apply RequiredNull_Null.
Qed.

Lemma args_known {A} fc (args : outcome A) (P : FieldContext → bool) :
  match context_only (with_args fc args) with Ok c => P c | _ => false end = true →
  P fc = true ∧ ∃ i, (with_args fc args).1 = Ok i.
Proof. destruct args; [|done..]. split; [done|by eexists]. Qed.
End Introspection.

(** An object below the field. *)
Ltac served := intros; match goal with H : serves _ _ _ |- _ => by apply H end.

(** The value of a field. *)
Ltac answer_leaf :=
  first [ apply string_answered | apply bool_answered | apply optional_string_admitted
        | apply optional_bool_admitted
        | apply type_ptr_answered;
          [auto using Field_Type_set, InputValue_Type_set, Schema_QueryType_set|served]
        | apply type_optional_admitted; served
        | apply elements_answered; first [intros; apply string_answered | served]
        | apply slice_admitted; served ].

(** A switch over the name of a field that the lookups know. *)
Ltac answer_switch Hsel :=
  rewrite selects_eq in Hsel; cbn [child] in Hsel;
  unfold childFields___Directive, childFields___EnumValue, childFields___Field,
    childFields___InputValue, childFields___Schema, childFields___Type in Hsel;
  revert Hsel;
  repeat case_decide; intros Hsel; [by eexists|..];
  first
    [ done
    | apply accepted_answered; [apply no_args_ok, NewScalarFieldContext_ok|intros; answer_leaf]
    | apply accepted_admitted; [apply no_args_ok, NewScalarFieldContext_ok|intros; answer_leaf]
    | apply accepted_answered; [by apply no_args_ok|intros; answer_leaf]
    | apply accepted_admitted; [by apply no_args_ok|intros; answer_leaf]
    | apply args_known in Hsel as [Hsel Hargs];
      first [apply accepted_answered | apply accepted_admitted]; [exact Hargs|intros; answer_leaf] ].

Section Answers.
Context {UN : Unicode} {AS : Assets} {EC : EthCommon} {CR : EthCrypto} {BO : Borsh}
  {AB : Abi} {EX : Exec} {CL : EthClient} {EN : Env} {PC : PgCalendar} {GF : GoFmt}
  {FL : Float64} {GQ : Gqlgen} {GQL : GqlgenLaws} {GR : Graphql} {GRL : GraphqlLaws}
  {IN : Introspection} {INL : IntrospectionLaws}.

Lemma EnumValue_switch_accepted f obj :
  selects (childFields O__EnumValue) f = true → accepted (___EnumValue_switch f obj).
Proof. intros Hsel. unfold ___EnumValue_switch. answer_switch Hsel. Qed.

(** The fields selected below one, each answered when it is known. *)
Lemma object_serves {O} t f (G : CollectedField → O → io (resolved * bool)) :
  Forall (λ g, selects (childFields t) g = true → ∀ o, accepted (G g o)) (Selections f) →
  serves t f (λ sel o, object (λ g, G g o) sel).
Proof.
  intros HG Hsel o. apply object_answered. apply Forall_forall. intros g Hg.
  apply (proj1 (Forall_forall _ _) HG g Hg).
  apply (proj1 (forallb_forall _ _) Hsel). by apply list_elem_of_In.
Qed.

Lemma EnumValue_serves f : serves O__EnumValue f ___EnumValue.
Proof.
  apply (object_serves _ f ___EnumValue_switch), Forall_forall.
  intros g _ Hg o. by apply EnumValue_switch_accepted.
Qed.

Section Objects.
Context (T : list CollectedField → Type_ → io resolved) (F : list CollectedField → Field → io resolved)
  (V : list CollectedField → InputValue → io resolved).

Lemma InputValue_switch_accepted f obj :
  serves O__Type f T → selects (childFields O__InputValue) f = true →
  accepted (___InputValue_switch T f obj).
Proof. intros HT Hsel. unfold ___InputValue_switch. answer_switch Hsel. Qed.

Lemma Field_switch_accepted f obj :
  serves O__Type f T → serves O__InputValue f V → selects (childFields O__Field) f = true →
  accepted (___Field_switch T V f obj).
Proof. intros HT HV Hsel. unfold ___Field_switch. answer_switch Hsel. Qed.

Lemma Type_switch_accepted f obj :
  serves O__Type f T → serves O__Field f F → serves O__InputValue f V →
  selects (childFields O__Type) f = true → accepted (___Type_switch T F V f obj).
Proof.
  intros HT HF HV Hsel. pose proof (EnumValue_serves f) as HE. unfold ___Type_switch.
  answer_switch Hsel.
Qed.
End Objects.

Lemma fields_accepted f :
  (selects (childFields O__Type) f = true → ∀ o, accepted (type_field f o))
  ∧ (selects (childFields O__Field) f = true → ∀ o, accepted (field_field f o))
  ∧ (selects (childFields O__InputValue) f = true → ∀ o, accepted (input_value_field f o)).
Proof.
  induction f as [f IH] using CollectedField_ind'. rewrite !Forall_and in IH.
  destruct IH as (HT & HF & HV).
  apply object_serves in HT. apply object_serves in HF. apply object_serves in HV.
  destruct f as [n a m sel]. split_and!; intros Hsel o;
    cbn [type_field field_field input_value_field].
  - by apply Type_switch_accepted.
  - by apply Field_switch_accepted.
  - by apply InputValue_switch_accepted.
Qed.

Lemma Type_serves f : serves O__Type f ___Type.
Proof.
  apply (object_serves _ f type_field), Forall_forall. intros g _. apply fields_accepted.
Qed.

Lemma InputValue_serves f : serves O__InputValue f ___InputValue.
Proof.
  apply (object_serves _ f input_value_field), Forall_forall. intros g _. apply fields_accepted.
Qed.

Lemma Directive_switch_accepted f obj :
  selects (childFields O__Directive) f = true → accepted (___Directive_switch f obj).
Proof.
  intros Hsel. pose proof (InputValue_serves f) as HV. unfold ___Directive_switch.
  answer_switch Hsel.
Qed.

Lemma Directive_serves f : serves O__Directive f ___Directive.
Proof.
  apply (object_serves _ f ___Directive_switch), Forall_forall.
  intros g _ Hg o. by apply Directive_switch_accepted.
Qed.

Lemma Schema_switch_accepted f obj :
  selects (childFields O__Schema) f = true → accepted (___Schema_switch f obj).
Proof.
  intros Hsel. pose proof (Type_serves f) as HT. pose proof (Directive_serves f) as HD.
  unfold ___Schema_switch. answer_switch Hsel.
Qed.

Lemma selected_accepted {O} t (G : CollectedField → O → io (resolved * bool)) sel o :
  forallb (selects (childFields t)) sel = true →
  (∀ g, selects (childFields t) g = true → accepted (G g o)) →
  ∃ l, object (λ g, G g o) sel = mret (FieldSet l, []) ∧ map fst l = map Alias sel.
Proof.
  intros Hsel HG. apply object_accepted, Forall_forall. intros g Hg. apply HG.
  apply (proj1 (forallb_forall _ _) Hsel). by apply list_elem_of_In.
Qed.

Lemma resolve_lookup {I T} field (init : outcome I * list gostring) (v : I → outcome T) marshal nn
    i a x :
  init.1 = Ok i → v i = Ok a → marshal a = mret x →
  ResolveField field init (λ fc, pure (v fc)) marshal nn = mret x.
Proof.
  intros Hi Hv Hm. rewrite ResolveField_spec, Hi, Hv.
  change (pure (Ok a) ≫= (λ v, marshal v)) with (marshal a). by rewrite Hm.
Qed.

(** C34: a query for the schema is answered in full. When every field it
    selects, at every depth, is one the generated lookups of child contexts
    know, with arguments that decode, the answer has exactly the selected
    aliases and no errors: the lookups and the loops over the fields agree on
    all the introspection types, and no null makes an object invalid. *)
Theorem introspection_answers (field : CollectedField) (s : Schema) :
  IntrospectSchema = Ok (Some s) →
  forallb (selects (childFields O__Schema)) (Selections field) = true →
  ∃ l, _Query___schema field = mret (FieldSet l, [])
       ∧ map fst l = map Alias (Selections field).
Proof.
  intros Hs Hsel.
  destruct (selected_accepted O__Schema ___Schema_switch (Selections field) s Hsel) as (l & Hl & Ha).
  { intros g Hg. by apply Schema_switch_accepted. }
  exists l. split; [|done]. by eapply resolve_lookup.
Qed.

(** The same for the lookup of a type by name. *)
Lemma type_introspection_answers (field : CollectedField) name t :
  field_Query___type_args (field_path field) (ArgumentMap field) = Ok name →
  IntrospectType name = Ok (Some t) →
  forallb (selects (childFields O__Type)) (Selections field) = true →
  ∃ l, _Query___type field = mret (FieldSet l, []) ∧ map fst l = map Alias (Selections field).
Proof.
  intros Hn Ht Hsel.
  destruct (selected_accepted O__Type type_field (Selections field) t Hsel) as (l & Hl & Ha).
  { intros g Hg. by apply fields_accepted. }
  exists l. split; [|done].
  apply (resolve_lookup field (fieldContext_Query___type field) (λ fc, IntrospectType fc.2) _ _
           (mk_FieldContext (lit "Query") true false (childFields O__Type), name) (Some t));
    [|done|done].
  unfold fieldContext_Query___type. by rewrite Hn.
Qed.
End Answers.

(** * A reference schema

    One scalar type that has a field of its own type. *)
#[export] Instance ref_introspection : Introspection := {|
  Directive := unit; EnumValue := unit; Field := unit; InputValue := unit; Schema := unit;
  Type_ := unit;
  Directive_Name _ := lit "skip";
  Directive_Description _ := None;
  Directive_IsRepeatable _ := false;
  Directive_Locations _ := [lit "FIELD"];
  Directive_Args _ := [];
  EnumValue_Name _ := lit "USDC";
  EnumValue_Description _ := None;
  EnumValue_IsDeprecated _ := false;
  EnumValue_DeprecationReason _ := None;
  Field_Name _ := lit "self";
  Field_Description _ := None;
  Field_Args _ := [];
  Field_Type _ := Some tt;
  Field_IsDeprecated _ := false;
  Field_DeprecationReason _ := None;
  InputValue_Name _ := lit "name";
  InputValue_Description _ := None;
  InputValue_Type _ := Some tt;
  InputValue_DefaultValue _ := None;
  InputValue_IsDeprecated _ := false;
  InputValue_DeprecationReason _ := None;
  Schema_Description _ := None;
  Schema_Types _ := [tt];
  Schema_QueryType _ := Some tt;
  Schema_MutationType _ := Some tt;
  Schema_SubscriptionType _ := None;
  Schema_Directives _ := [tt];
  Type_Kind _ := lit "OBJECT";
  Type_Name _ := Some (lit "Query");
  Type_Description _ := None;
  Type_SpecifiedByURL _ := None;
  Type_Fields _ _ := Some [tt];
  Type_Interfaces _ := Some [];
  Type_PossibleTypes _ := None;
  Type_EnumValues _ _ := None;
  Type_InputFields _ := None;
  Type_OfType _ := None;
  Type_IsOneOf _ := false;
  IntrospectSchema := Ok (Some tt);
  IntrospectType _ := Ok (Some tt)
|}.

#[export] Instance ref_introspection_laws : IntrospectionLaws.
Proof. split; by eauto. Qed.

Definition ref_plain (name : string) (sel : list CollectedField) : CollectedField :=
  mk_CollectedField (lit name) (lit name) [] sel.

(** [{ __schema { types { name fields { name type { kind } } } subscriptionType { name } } }]. *)
Definition ref_schema_query : CollectedField :=
  ref_plain "__schema"
    [ref_plain "types"
       [ref_plain "name" [];
        ref_plain "fields" [ref_plain "name" []; ref_plain "type" [ref_plain "kind" []]]];
     ref_plain "subscriptionType" [ref_plain "name" []]].

Lemma introspection_answers_witness :
  ∃ l, _Query___schema ref_schema_query = mret (FieldSet l, [])
       ∧ map fst l = [lit "types"; lit "subscriptionType"].
Proof.
  apply (introspection_answers (IN := ref_introspection) ref_schema_query tt); [reflexivity|]. vm_compute. reflexivity.
Defined.
