(* ===== verification/Query.v ===== *)
(** * Query: executing a query (graph/generated.go)

    The fields of a query are resolved at the same time: the loop over them
    resolves the introspection fields at once and hands the others to
    [Dispatch], which runs them in goroutines and waits. gqlgen's [Dispatch] is
    a class; what is known of it is that the effects of the fields interleave
    in some order. *)
From stdpp Require Import base numbers strings list.
From Stdlib Require Import Strings.Byte ZArith Lia.
From S2P Require Import Prelude GoStd Types External Db World Utils Convertor Resolvers.
From S2P Require Import ResolverFacts GraphInput GraphExec Introspection.

Section Interleaving.
Context {CR : EthCrypto} {CL : EthClient} {EN : Env}.

(** [interleaves ms m]: [m] performs the effects of [ms], in some order that
    may depend on their answers, and returns all their results. When one of
    them ends the process, so does [m]. *)
Inductive interleaves {A} : list (io A) → io (list A) → Prop :=
| interleaves_done ms xs :
    Forall2 (λ m x, m = Done (Ok x)) ms xs → interleaves ms (Done (Ok xs))
| interleaves_fatal ms i p :
    ms !! i = Some (Done (Fatal p)) → interleaves ms (Done (Fatal p))
| interleaves_step ms i R (e : effect R) k K :
    ms !! i = Some (Step e k) → (∀ o, interleaves (<[i := k o]> ms) (K o)) →
    interleaves ms (Step e K).

(** A computation that ends with a value, or ends the process. *)
Fixpoint steady {A} (m : io A) : Prop :=
  match m with
  | Done (Ok _) | Done (Fatal _) => True
  | Done _ => False
  | Step e k => ∀ o, steady (k o)
  end.
End Interleaving.

(** [FieldSet.Dispatch]: the computations given to [Concurrently]. *)
Class Dispatcher `{CR : EthCrypto, CL : !EthClient} :=
  Dispatch : ∀ {A : Type}, list (io A) → io (list A).

(** A goroutine that panics ends the process, so this is said of computations
    that do not. *)
Class DispatcherLaws `{DI : Dispatcher} : Prop :=
  Dispatch_interleaves :
    ∀ {A} (ms : list (io A)), Forall steady ms → interleaves ms (Dispatch ms).

Section Query.
Context {UN : Unicode} {AS : Assets} {EC : EthCommon} {CR : EthCrypto} {BO : Borsh}
  {AB : Abi} {EX : Exec} {CL : EthClient} {EN : Env} {PC : PgCalendar} {GF : GoFmt}
  {FL : Float64} {GQ : Gqlgen} {GR : Graphql} {IN : introspection.Introspection} {DI : Dispatcher}.

(** [innerFunc]: the field, and whether it makes the response invalid. A panic
    is reported, and leaves the result unset. *)
Definition innerFunc (m : io (resolved * bool)) : io (resolved * bool) :=
  recovering m (λ o, pure match o with
                          | Panic p => Ok ((nil_Marshaler, [Recover p]), false)
                          | o => o
                          end).

(** A value of the response that is known, or one that [Concurrently] delays. *)
Inductive slot :=
| Now (x : resolved * bool)
| Later (m : io (resolved * bool)).

Definition rrm (m : io (resolved * bool)) : slot := Later (RootResolverMiddleware (innerFunc m)).

(** The body of the loop of [_Query]. *)
Definition query_slot (r : Resolver) (field : CollectedField) : io slot :=
  if decide (Name field = lit "__typename") then x ← typename "Query"; mret (Now x)
  else if decide (Name field = lit "publickey") then
    mret (rrm (non_null (_Query_publickey r field)))
  else if decide (Name field = lit "eoaForAddress") then
    mret (rrm (non_null (_Query_eoaForAddress r field)))
  else if decide (Name field = lit "hasCreated") then
    mret (rrm (non_null (_Query_hasCreated field)))
  else if decide (Name field = lit "statistics") then
    mret (rrm (nullable (_Query_statistics field)))
  else if decide (Name field = lit "__type") then
    x ← nullable (RootResolverMiddleware (_Query___type field)); mret (Now x)
  else if decide (Name field = lit "__schema") then
    x ← nullable (RootResolverMiddleware (_Query___schema field)); mret (Now x)
  else x ← unknown_field field; mret (Now x).

(** The loop: a slot for each field. *)
Fixpoint query_slots (r : Resolver) (fields : list CollectedField) : io (list slot) :=
  match fields with
  | [] => mret []
  | field :: fields' =>
      s ← query_slot r field;
      l ← query_slots r fields';
      mret (s :: l)
  end.

(** What is left to [Dispatch]. *)
Definition delayed (l : list slot) : list (io (resolved * bool)) :=
  omap (λ s, match s with Later m => Some m | Now _ => None end) l.

(** The values of all slots, given those of the delayed ones. *)
Fixpoint fill (l : list slot) (xs : list (resolved * bool)) : list (resolved * bool) :=
  match l, xs with
  | Now x :: l', xs => x :: fill l' xs
  | Later _ :: l', x :: xs' => x :: fill l' xs'
  | _, _ => []
  end.

(** The response. The errors are listed in the order of the fields; in the
    response they come in the order they were reported. *)
Definition collect (fields : list CollectedField) (xs : list (resolved * bool)) : resolved :=
  close_object (foldr (λ fx, add_field (Alias fx.1) fx.2) ([], [], 0%nat) (zip fields xs)).

Definition _Query (r : Resolver) (fields : list CollectedField) : io resolved :=
  l ← query_slots r fields;
  xs ← Dispatch (delayed l);
  mret (collect fields (fill l xs)).
End Query.
