(* ===== verification/QueryFacts.v ===== *)
(** * QueryFacts: what a query does

    Whatever the order in which the effects of its fields fall, a query only
    reads, and each field has the answer its resolver gives alone. *)
From stdpp Require Import base numbers strings list sets.
From Stdlib Require Import Strings.Byte ZArith Lia.
From S2P Require Import Prelude GoStd Types External Db World Schedule Utils Convertor Resolvers.
From S2P Require Import Sha512 Keccak BorshRef Reference Ninelives Proxy RefWorld Client.
From S2P Require Import ResolverFacts AccountFacts GraphInput GraphExec GraphExecFacts.
From S2P Require Import ConvertorFacts Introspection IntrospectionFacts Query.

(** ** Interleavings *)

Section Interleavings.
Context {CR : EthCrypto} {CL : EthClient} {EN : Env}.

(** Only the clock has moved. *)
Definition reading (w w' : world) : Prop :=
  w_db w' = w_db w ∧ w_trace w' = w_trace w ∧ w_chain w' = w_chain w.

#[export] Instance reading_preorder : PreOrder reading.
Proof. split; [done|]. intros w1 w2 w3 (? & ? & ?) (? & ? & ?). split_and!; congruence. Qed.

Lemma interleaves_keeps (R : world → world → Prop) {A} (ms : list (io A)) m :
  interleaves ms m → Forall (keeps R) ms → keeps R m.
Proof.
  induction 1 as [| |ms i T e k K Hi _ IH]; intros Hk; [done..|].
  destruct (proj1 (Forall_lookup _ _) Hk i _ Hi) as [He Hk']. split; [done|]. intros o.
  apply IH, Forall_insert; [done|]. apply Hk'.
Qed.

Lemma sum_list_insert (b : list nat) i x y :
  b !! i = Some x → (sum_list (<[i := y]> b) + x = sum_list b + y)%nat.
Proof.
  revert i. induction b as [|z b IH]; intros [|i] Hi; simplify_eq/=; [lia|].
  specialize (IH i Hi). lia.
Qed.

Lemma interleaves_costs {A} (ms : list (io A)) m :
  interleaves ms m → ∀ b, Forall2 (λ n m, costs one n m) b ms → costs one (sum_list b) m.
Proof.
  induction 1 as [| |ms i T e k K Hi _ IH]; intros b Hb; [done..|].
  destruct (Forall2_lookup_r _ _ _ _ _ Hb Hi) as (n & Hn & Hone & Hk). unfold one in Hone.
  pose proof (sum_list_insert b i n (n - 1) Hn) as Hs. split; [unfold one; lia|]. intros o.
  replace (sum_list b - one T e)%nat with (sum_list (<[i := (n - 1)%nat]> b)) by (unfold one; lia).
  apply IH, Forall2_insert; [done|]. apply Hk.
Qed.

Lemma costs_none {A} (m : io A) : costs one 0 m → ∃ o, m = Done o.
Proof. destruct m as [o|T e k]; [by eauto|]. intros [H _]. unfold one in H. lia. Qed.

(** Computations that perform one effect at most and only read: the result of
    each is the one it has alone, at some point of the run. *)
Lemma interleaves_solo {A} (ms : list (io A)) m :
  interleaves ms m → ∀ w, Forall (costs one 1) ms → Forall (keeps reading) ms →
  match m w with
  | (Ok xs, w') =>
      reading w w' ∧ Forall2 (λ (mi : io A) x, ∃ wi, reading w wi ∧ (mi wi).1 = Ok x) ms xs
  | (Fatal p, w') => ∃ i (mi : io A) wi, ms !! i = Some mi ∧ (mi wi).1 = Fatal p
  | _ => False
  end.
Proof.
  induction 1 as [ms xs Hd|ms i p Hi|ms i T e k K Hi _ IH]; intros w Hc Hk.
  - split; [done|]. eapply Forall2_impl; [exact Hd|]. intros mi x ->. by exists w.
  - by exists i, (Done (Fatal p)), w.
  - destruct (proj1 (Forall_lookup _ _) Hc i _ Hi) as [_ Hci].
    destruct (proj1 (Forall_lookup _ _) Hk i _ Hi) as [He Hki].
    set (o := (exec e w).1). set (w1 := (exec e w).2).
    destruct (costs_none (k o)) as [out Hout]; [apply Hci|].
    assert (reading w w1) as Hr by apply He.
    specialize (IH o w1). rewrite Hout in IH.
    change (Step e K w) with (K o w1).
    destruct (K o w1) as [[xs|e'|p|p] w'].
    + destruct IH as [Hr' Hxs]; [by apply Forall_insert|by apply Forall_insert|].
      split; [by etrans|].
      apply Forall2_same_length_lookup. split.
      { by rewrite <-(Forall2_length _ _ _ Hxs), length_insert. }
      intros j mj x Hj Hx. destruct (decide (i = j)) as [<-|Hn].
      * rewrite Hi in Hj. injection Hj as <-. exists w. split; [done|].
        change ((Step e k) w) with (k o w1). rewrite Hout.
        destruct (Forall2_lookup_lr _ _ _ i (Done out) x Hxs) as (wi & _ & Hwi); [|done|done].
        apply list_lookup_insert_eq. by eapply lookup_lt_Some.
      * destruct (Forall2_lookup_lr _ _ _ j mj x Hxs) as (wi & Hwi & Hmj);
          [by rewrite list_lookup_insert_ne|done|].
        exists wi. split; [by etrans|done].
    + by apply IH; apply Forall_insert.
    + by apply IH; apply Forall_insert.
    + destruct IH as (j & mj & wj & Hj & Hf); [by apply Forall_insert|by apply Forall_insert|].
      apply list_lookup_insert_Some in Hj as [(<- & Hj & _)|[Hn Hj]]; [|by eauto].
      subst mj. exists i, (Step e k), w. split; [done|].
      change ((Step e k) w) with (k o w1). by rewrite Hout.
Qed.
End Interleavings.

(** ** Fields *)

Section Fields.
Context {UN : Unicode} {AS : Assets} {EC : EthCommon} {CR : EthCrypto} {BO : Borsh}
  {AB : Abi} {EX : Exec} {CL : EthClient} {EN : Env} {PC : PgCalendar} {GF : GoFmt}
  {FL : Float64} {GQ : Gqlgen} {GR : Graphql} {GRL : GraphqlLaws}.

Lemma calm_keeps (R : world → world → Prop) {A} (m : io A) : calm m → keeps R m.
Proof. by destruct m. Qed.

Lemma calm_costs n {A} (m : io A) : calm m → costs one n m.
Proof. by destruct m. Qed.

Lemma costs_forget n {A B} (m : io A) (f : A → B) : costs one n m → costs one n (x ← m; mret (f x)).
Proof. intros. by apply (costs_bind_le _ n). Qed.

Lemma costs_ResolveField n {I T} field (init : outcome I * list gostring) (resolver : I → io T)
    marshal nn :
  (∀ fc, costs one n (resolver fc)) → (∀ v, calm (marshal v)) →
  costs one n (ResolveField field init resolver marshal nn).
Proof.
  intros Hr Hm. rewrite ResolveField_spec. destruct init.1 as [fc|e|p|p]; [|done..].
  rewrite <-(Nat.add_0_r n). apply costs_recovering; [|done].
  apply (costs_bind_le _ n); [done|apply Hr|]. intros v. by apply calm_costs.
Qed.

Lemma keeps_ResolveField (R : world → world → Prop) {I T} field (init : outcome I * list gostring)
    (resolver : I → io T) marshal nn :
  (∀ fc, keeps R (resolver fc)) → (∀ v, calm (marshal v)) →
  keeps R (ResolveField field init resolver marshal nn).
Proof.
  intros Hr Hm. rewrite ResolveField_spec. destruct init.1 as [fc|e|p|p]; [|done..].
  apply keeps_recovering; [|done]. apply keeps_bind; [apply Hr|]. intros v. by apply calm_keeps.
Qed.

Lemma keeps_forget (R : world → world → Prop) {A B} (m : io A) (f : A → B) :
  keeps R m → keeps R (x ← m; mret (f x)).
Proof. intros. by apply keeps_bind. Qed.

Lemma steady_recovering {A B} (m : io A) (h : outcome A → io B) :
  (∀ o, steady (h o)) → steady (recovering m h).
Proof. intros Hh. induction m as [o|T e k IH]; [apply Hh|]. intros o. apply IH. Qed.

(** A field always has a value, unless the process ends. *)
Lemma steady_ResolveField {I T} field (init : outcome I * list gostring) (resolver : I → io T)
    marshal nn : steady (ResolveField field init resolver marshal nn).
Proof.
  rewrite ResolveField_spec. destruct init.1; try done. apply steady_recovering. by intros [].
Qed.

Lemma steady_forget {A B} (m : io A) (f : A → B) : steady m → steady (x ← m; mret (f x)).
Proof.
  intros Hm. induction m as [[]|T e k IH]; try done. intros o. apply IH, Hm.
Qed.

(** A field whose resolver's outcome is known, and which does not end the
    process. *)
Lemma run_field {I T} field (init : outcome I * list gostring) fc (resolver : I → io T) marshal nn w :
  init.1 = Ok fc → (∀ v, calm (marshal v)) → not_fatal (resolver fc w).1 = true →
  ∃ errs, ResolveField field init resolver marshal nn w
          = (Ok (match (resolver fc w).1 with
                 | Ok v => match marshal v with Done (Ok x) => x.1 | _ => Null end
                 | _ => Null
                 end, errs), (resolver fc w).2).
Proof.
  intros Hi Hm Hf. rewrite (run_ResolveField _ _ _ _ _ _ _ Hi), run_bind. cbv zeta.
  destruct (resolver fc w) as [[v|e|p|p] w1]; cbn [fst snd]; [|by eexists..|done].
  specialize (Hm v). destruct (marshal v) as [[x|e|p|p]|]; try done.
  - exists x.2. by destruct x.
  - by eexists.
Qed.
End Fields.

(** ** A plain account of a query *)

Section QueryFacts.
Context {UN : Unicode} {AS : Assets} {EC : EthCommon} {CR : EthCrypto} {BO : Borsh}
  {AB : Abi} {EX : Exec} {CL : EthClient} {EN : Env} {PC : PgCalendar} {GF : GoFmt}
  {FL : Float64} {GQ : Gqlgen} {GQL : GqlgenLaws} {GR : Graphql} {GRL : GraphqlLaws}
  {IN : introspection.Introspection} {INL : introspection.IntrospectionLaws}
  {DI : Dispatcher} {DIL : DispatcherLaws}.

(** What a resolver's outcome is in the response. *)
Definition answer_of {T} (marshal : T → io resolved) (o : outcome T) : Marshaler :=
  match o with
  | Ok v => match marshal v with Done (Ok x) => x.1 | _ => Null end
  | _ => Null
  end.

(** The outcome of a resolver for the argument of a field. *)
Definition with_arg {T} (arg : outcome gostring) (resolver : gostring → io T) (w : world)
    : outcome T :=
  match arg with Ok a => (resolver a w).1 | _ => Err [] end.

(** The value of a field that is resolved at [w]. *)
Definition query_answer (r : Resolver) (f : CollectedField) (w : world) : Marshaler :=
  if decide (Name f = lit "__typename") then MarshalString (lit "Query")
  else if decide (Name f = lit "publickey") then
    answer_of marshalNString2string (Publickey r w).1
  else if decide (Name f = lit "eoaForAddress") then
    answer_of marshalNString2string
      (with_arg (field_Query_eoaForAddress_args (field_path f) (ArgumentMap f)) (EoaForAddress r) w)
  else if decide (Name f = lit "hasCreated") then
    answer_of marshalNBoolean2bool
      (with_arg (field_Query_hasCreated_args (field_path f) (ArgumentMap f)) HasCreated w)
  else if decide (Name f = lit "statistics") then
    answer_of (λ v, marshalOStatistics (Selections f) (Some v)) (Statistics w).1
  else if decide (Name f = lit "__type") then
    match _Query___type f with Done (Ok x) => x.1 | _ => Null end
  else match _Query___schema f with Done (Ok x) => x.1 | _ => Null end.

(** The schema lets only these be null. *)
Definition query_nullable : list gostring :=
  [lit "__typename"; lit "statistics"; lit "__type"; lit "__schema"].
Definition query_names : list gostring :=
  [lit "publickey"; lit "eoaForAddress"; lit "hasCreated"] ++ query_nullable.

Definition query_known (f : CollectedField) : Prop := Name f ∈ query_names.

(** The field makes the response null. *)
Definition query_spoils (f : CollectedField) (v : Marshaler) : bool :=
  negb (bool_decide (Name f ∈ query_nullable)) && same v Null.

(** A field alone: what the loop does with it, and what it delays. *)
Definition query_field (r : Resolver) (f : CollectedField) : io (resolved * bool) :=
  s ← query_slot r f;
  match s with Now x => mret x | Later m => m end.

(** *** The fields only read, and perform one effect at most *)

Lemma calm_statistics_list fields v : calm (marshalOStatistics fields v).
Proof.
  destruct v as [v|]; [|done]. apply calm_elements. intros x. apply calm_object. intros f.
  repeat case_decide; try done; apply calm_non_null, calm_scalar; try done;
    apply NewScalarFieldContext_ok.
Qed.

Lemma reading_query {A} (s : stmt A) :
  (∀ now d r, s now d = Ok r → r.2 = d) → keeps reading (db_run s).
Proof.
  intros Hs. split; [|done]. intros w. cbn. unfold exec_db, stmt_result.
  destruct (s _ _) as [[a d]| | |] eqn:E, (env_db _); try done; apply Hs in E; cbn in E; by subst.
Qed.

Lemma reading_HasCreated a : keeps reading (HasCreated a).
Proof.
  apply keeps_forget, keeps_wrap, reading_query. intros now d r [= <-]. done.
Qed.

Lemma reading_Statistics : keeps reading Statistics.
Proof.
  apply keeps_bind; [|done]. apply keeps_on_err; [|done]. apply reading_query.
  intros now d r [= <-]. done.
Qed.

Lemma keeps_rrm (R : world → world → Prop) m :
  keeps R m → keeps R (RootResolverMiddleware (innerFunc m)).
Proof. intros. rewrite RootResolverMiddleware_id. apply keeps_recovering; [done|by intros []]. Qed.

Lemma costs_rrm n m : costs one n m → costs one n (RootResolverMiddleware (innerFunc m)).
Proof.
  intros. rewrite RootResolverMiddleware_id, <-(Nat.add_0_r n).
  apply costs_recovering; [done|by intros []].
Qed.

Lemma steady_rrm m : steady m → steady (RootResolverMiddleware (innerFunc m)).
Proof.
  intros Hm. rewrite RootResolverMiddleware_id. unfold innerFunc.
  induction m as [[]|T e k IH]; try done. intros o. apply IH, Hm.
Qed.

(** What is delayed. *)
Definition mild (m : io (resolved * bool)) : Prop :=
  steady m ∧ costs one 1 m ∧ keeps reading m.

Lemma mild_field {I T} field (init : outcome I * list gostring) (resolver : I → io T) marshal nn
    (f : resolved → bool) :
  (∀ fc, costs one 1 (resolver fc)) → (∀ fc, keeps reading (resolver fc)) →
  (∀ v, calm (marshal v)) →
  mild (RootResolverMiddleware
          (innerFunc (x ← ResolveField field init resolver marshal nn; mret (x, f x)))).
Proof.
  intros Hc Hk Hm. split_and!.
  - apply steady_rrm, steady_forget, steady_ResolveField.
  - by apply costs_rrm, costs_forget, costs_ResolveField.
  - by apply keeps_rrm, keeps_forget, keeps_ResolveField.
Qed.

Lemma costs_query {A B} (s : stmt A) h (f : A → outcome B) :
  (∀ e, costs one 0 (h e)) → costs one 1 (x ← on_err (db_run s) h; pure (f x)).
Proof.
  intros Hh. spend 1%nat; [|done]. apply (costs_on_err_le _ 1); [lia|by split|apply Hh].
Qed.

(** Each field has its value at once, or is delayed; the loop panics on a name
    it does not know. *)
Lemma query_slot_cases r f :
  (∃ x, query_slot r f = mret (Now x))
  ∨ (∃ m, query_slot r f = mret (Later m) ∧ mild m)
  ∨ (¬ query_known f ∧ ∃ p, query_slot r f = Done (Panic p)).
Proof.
  unfold query_slot. case_decide; [by left; eexists|].
  case_decide.
  { right; left. eexists. split; [done|]. by apply mild_field. }
  case_decide.
  { right; left. eexists. split; [done|]. apply mild_field; try done.
    - intros fc. by spend 0%nat.
    - intros fc. by apply keeps_bind. }
  case_decide.
  { right; left. eexists. split; [done|]. apply mild_field; try done.
    - intros fc. spend 1%nat; [|done]. apply costs_wrap. by split.
    - intros fc. apply reading_HasCreated. }
  case_decide.
  { right; left. eexists. split; [done|]. apply mild_field.
    - intros fc. apply costs_forget. by apply (costs_query _ _ scan_rows).
    - intros fc. apply keeps_forget, reading_Statistics.
    - intros v. apply calm_statistics_list. }
  case_decide.
  { left. rewrite RootResolverMiddleware_id. destruct (Query___type_ret f) as [x ->]. by eexists. }
  case_decide.
  { left. rewrite RootResolverMiddleware_id. destruct (Query___schema_ret f) as [x ->]. by eexists. }
  right; right. split; [|by eexists]. unfold query_known, query_names, query_nullable.
  cbn [app]. set_solver.
Qed.

(** *** The answer of a field *)

Lemma run_rrm (m : io (resolved * bool)) w x w' :
  m w = (Ok x, w') → RootResolverMiddleware (innerFunc m) w = (Ok x, w').
Proof. intros E. rewrite RootResolverMiddleware_id. unfold innerFunc. by rewrite run_recovering, E. Qed.

Lemma run_forget {A B} (m : io A) (f : A → B) w a w' :
  m w = (Ok a, w') → (x ← m; mret (f x)) w = (Ok (f a), w').
Proof. intros E. by rewrite run_bind, E. Qed.

(** A field with no arguments, one with an argument, and one whose argument
    does not decode. *)
Lemma plain_answer {T} field (fc : outcome FieldContext) (resolver : io T) marshal nn w :
  is_ok fc = true → (∀ v, calm (marshal v)) → not_fatal (resolver w).1 = true →
  ∃ errs w', ResolveField field (no_args fc) (λ _, resolver) marshal nn w
             = (Ok (answer_of marshal (resolver w).1, errs), w').
Proof.
  intros Hfc Hm Hf. destruct (no_args_ok fc Hfc) as [i Hi].
  destruct (run_field field (no_args fc) i (λ _, resolver) marshal nn w Hi Hm Hf) as [errs E]. eauto.
Qed.

Lemma arg_answer {T} field fc arg (resolver : gostring → io T) marshal nn w :
  returns arg = true → (∀ v, calm (marshal v)) → (∀ a, not_fatal (resolver a w).1 = true) →
  ∃ errs w', ResolveField field (with_args fc arg) (λ fc, resolver fc.2) marshal nn w
             = (Ok (answer_of marshal (with_arg arg resolver w), errs), w').
Proof.
  intros Ha Hm Hf. destruct (is_ok arg) eqn:Ho.
  - destruct arg as [a| | |]; try done.
    destruct (run_field field (with_args fc (Ok a)) (fc, a) (λ fc, resolver fc.2) marshal nn w
                eq_refl Hm (Hf a)) as [errs E]. eauto.
  - destruct (with_args_fails field fc arg (λ fc, resolver fc.2) marshal nn w Ho)
      as [(p & E)|(errs & E)].
    + destruct arg; try done; by rewrite ResolveField_spec in E.
    + destruct arg; try done; eauto.
Qed.

Lemma stmt_not_fatal {A} (s : stmt A) w :
  (∀ now d, is_ok (s now d) = true) → not_fatal (db_run s w).1 = true.
Proof.
  intros Hs. unfold db_run. rewrite run_perform. cbn. unfold exec_db, stmt_result.
  specialize (Hs (env_now (w_tick w)) (w_db w)). destruct (s _ _), (env_db _); done.
Qed.

Lemma HasCreated_not_fatal a w : not_fatal (HasCreated a w).1 = true.
Proof.
  unfold HasCreated, io_wrap. rewrite run_bind, run_on_err.
  pose proof (stmt_not_fatal (count_created (ToLower a)) w (λ _ _, eq_refl)) as H.
  by destruct (db_run _ w) as [[]].
Qed.

Lemma scan_rows_not_fatal l : not_fatal (scan_rows l) = true.
Proof.
  induction l as [|x l IH]; [done|]. cbn. unfold scan_statistics.
  repeat case_match; try done. by destruct (scan_rows l).
Qed.

Lemma Statistics_not_fatal w : not_fatal (Statistics w).1 = true.
Proof.
  unfold Statistics. rewrite run_bind, run_on_err.
  pose proof (stmt_not_fatal accounts_transaction_statistics_1 w (λ _ _, eq_refl)) as H.
  destruct (db_run _ w) as [[]]; try done. apply scan_rows_not_fatal.
Qed.

Lemma EoaForAddress_not_fatal r a w : not_fatal (EoaForAddress r a w).1 = true.
Proof. unfold EoaForAddress. rewrite run_bind. unfold guard. by destruct (IsHexAddress a). Qed.

(** The list of statistics is null or an array. *)
Lemma statistics_not_required fields o :
  same (answer_of (λ v, marshalOStatistics fields (Some v)) o) RequiredNull = false.
Proof.
  pose proof RequiredNull_Null as [_ Hn]. destruct o as [v| | |]; try done. cbn.
  assert (∀ l, same (close_array l).1 RequiredNull = false) as Hl.
  { intros l. unfold close_array. cbn. case_match; [done|apply MarshalArray_value]. }
  unfold marshal_elements. destruct (MarshalSliceConcurrently _ _) as [[l| | |]|]; try done.
  apply Hl.
Qed.

Lemma resolve_not_required {I T} field (init : outcome I * list gostring)
    (resolver : I → outcome T) marshal nn x :
  (∀ v y, marshal v = Done (Ok y) → same y.1 RequiredNull = false) →
  ResolveField field init (λ fc, pure (resolver fc)) marshal nn = mret x →
  same x.1 RequiredNull = false.
Proof.
  pose proof RequiredNull_Null as [_ Hn]. intros Hm. rewrite ResolveField_spec.
  destruct init.1 as [fc|e|p|p]; try (by intros [= <-]).
  destruct (resolver fc) as [v|e|p|p]; try (by intros [= <-]).
  change (pure (Ok v) ≫= (λ v, marshal v)) with (marshal v).
  destruct (marshal v) as [[y|e|p|p]|] eqn:E; try (by intros [= <-]).
  intros [= <-]. by eapply Hm.
Qed.

Lemma Query___type_not_required f x :
  _Query___type f = mret x → same x.1 RequiredNull = false.
Proof.
  apply resolve_not_required. intros [v|] y E; [by eapply object_not_required|].
  injection E as <-. apply RequiredNull_Null.
Qed.

Lemma Query___schema_not_required f x :
  _Query___schema f = mret x → same x.1 RequiredNull = false.
Proof.
  apply (resolve_not_required f _ (λ _, introspection.IntrospectSchema)). intros [v|] y E.
  - by eapply object_not_required.
  - injection E as <-. apply RequiredNull_Null.
Qed.

(** A field that may not be null, and one that may. *)
Lemma required_run r f (m : io resolved) w v errs w' :
  Name f ∉ query_nullable → query_field r f = RootResolverMiddleware (innerFunc (non_null m)) →
  m w = (Ok (v, errs), w') →
  query_field r f w = (Ok ((v, errs), query_spoils f v), w').
Proof.
  intros Hn -> E. unfold query_spoils. rewrite bool_decide_false by done.
  by apply run_rrm, (run_forget m (λ x, (x, same x.1 Null)) w (v, errs) w').
Qed.

Lemma nullable_spoils f v : Name f ∈ query_nullable → query_spoils f v = false.
Proof. intros Hn. unfold query_spoils. by rewrite bool_decide_true. Qed.

(** A field that is asked for by name, alone. *)
Definition field_run (r : Resolver) (f : CollectedField) (w : world) (v : Marshaler) : Prop :=
  ∃ errs w', query_field r f w = (Ok ((v, errs), query_spoils f v), w').

(** The branch of a switch that a field's name selects. *)
Ltac switch_to H :=
  repeat (rewrite decide_False by (by rewrite H)); try rewrite (decide_True _ _ H).

Lemma publickey_run r f w :
  Name f = lit "publickey" → field_run r f w (answer_of marshalNString2string (Publickey r w).1).
Proof.
  intros H. destruct (plain_answer f (fieldContext_Query_publickey f) (Publickey r)
    marshalNString2string true w) as (errs & w' & E); [apply NewScalarFieldContext_ok|done|done|].
  exists errs, w'. refine (required_run _ _ _ _ _ _ _ _ _ E); [rewrite H; set_solver|].
  unfold query_field, query_slot. by switch_to H.
Qed.

Lemma eoaForAddress_run r f w :
  Name f = lit "eoaForAddress" →
  field_run r f w (answer_of marshalNString2string
    (with_arg (field_Query_eoaForAddress_args (field_path f) (ArgumentMap f)) (EoaForAddress r) w)).
Proof.
  intros H. destruct (arg_answer f (mk_FieldContext (lit "Query") true true string_child)
    (field_Query_eoaForAddress_args (field_path f) (ArgumentMap f)) (EoaForAddress r)
    marshalNString2string true w) as (errs & w' & E);
    [apply returns_arg, returns_string|done|intros; apply EoaForAddress_not_fatal|].
  exists errs, w'. refine (required_run _ _ _ _ _ _ _ _ _ E); [rewrite H; set_solver|].
  unfold query_field, query_slot. by switch_to H.
Qed.

Lemma hasCreated_run r f w :
  Name f = lit "hasCreated" →
  field_run r f w (answer_of marshalNBoolean2bool
    (with_arg (field_Query_hasCreated_args (field_path f) (ArgumentMap f)) HasCreated w)).
Proof.
  intros H. destruct (arg_answer f
    (mk_FieldContext (lit "Query") true true (NoChildren (no_child "Boolean")))
    (field_Query_hasCreated_args (field_path f) (ArgumentMap f)) HasCreated
    marshalNBoolean2bool true w) as (errs & w' & E);
    [apply returns_arg, returns_string|done|intros; apply HasCreated_not_fatal|].
  exists errs, w'. refine (required_run _ _ _ _ _ _ _ _ _ E); [rewrite H; set_solver|].
  unfold query_field, query_slot. by switch_to H.
Qed.

Lemma statistics_run r f w :
  Name f = lit "statistics" →
  field_run r f w (answer_of (λ v, marshalOStatistics (Selections f) (Some v)) (Statistics w).1).
Proof.
  intros H. set (m := v ← Statistics; mret (Some v) : io (option (list Statistics_row))).
  assert ((m w).1 = match (Statistics w).1 with
                    | Ok v => Ok (Some v) | Err e => Err e | Panic p => Panic p | Fatal p => Fatal p
                    end) as Hm.
  { unfold m. rewrite run_bind. by destruct (Statistics w) as [[]]. }
  pose proof (Statistics_not_fatal w) as Hf.
  destruct (plain_answer f (fieldContext_Query_statistics f) m (marshalOStatistics (Selections f))
    false w) as (errs & w' & E);
    [done|apply calm_statistics_list|by rewrite Hm; destruct (Statistics w).1|].
  exists errs, w'. rewrite nullable_spoils by (rewrite H; set_solver).
  unfold query_field, query_slot. switch_to H. apply run_rrm.
  replace (answer_of (λ v, marshalOStatistics (Selections f) (Some v)) (Statistics w).1)
    with (answer_of (marshalOStatistics (Selections f)) (m w).1)
    by (rewrite Hm; by destruct (Statistics w).1).
  unfold nullable. erewrite (run_forget _ (λ x, (x, same x.1 RequiredNull))); [|exact E]. cbn [fst].
  rewrite Hm. pose proof (statistics_not_required (Selections f) (Statistics w).1) as Hn.
  destruct (Statistics w).1; cbn in *; by rewrite Hn.
Qed.

Lemma introspection_run r f w :
  (Name f = lit "__type" → field_run r f w match _Query___type f with Done (Ok x) => x.1 | _ => Null end)
  ∧ (Name f = lit "__schema" →
     field_run r f w match _Query___schema f with Done (Ok x) => x.1 | _ => Null end).
Proof.
  split; intros H; unfold field_run; (rewrite nullable_spoils by (rewrite H; set_solver));
    unfold query_field, query_slot; switch_to H; rewrite RootResolverMiddleware_id.
  - destruct (Query___type_ret f) as [x E]. pose proof (Query___type_not_required f x E) as Hn.
    exists x.2, w. rewrite E.
    trans ((mret (x, same x.1 RequiredNull) : io (resolved * bool)) w); [done|].
    rewrite Hn. by destruct x.
  - destruct (Query___schema_ret f) as [x E]. pose proof (Query___schema_not_required f x E) as Hn.
    exists x.2, w. rewrite E.
    trans ((mret (x, same x.1 RequiredNull) : io (resolved * bool)) w); [done|].
    rewrite Hn. by destruct x.
Qed.

Lemma query_field_run r f w : query_known f → field_run r f w (query_answer r f w).
Proof.
  intros Hk. unfold query_answer. repeat case_decide.
  - exists [], w. rewrite nullable_spoils by (rewrite H; set_solver).
    unfold query_field, query_slot. by switch_to H.
  - by apply publickey_run.
  - by apply eoaForAddress_run.
  - by apply hasCreated_run.
  - by apply statistics_run.
  - by apply introspection_run.
  - apply introspection_run. unfold query_known, query_names, query_nullable in Hk. cbn [app] in Hk.
    set_solver.
Qed.

(** *** The whole query *)

(** What the loop leaves for a field. *)
Definition slot_for (r : Resolver) (f : CollectedField) (s : slot) : Prop :=
  query_slot r f = mret s ∧ match s with Now _ => True | Later m => mild m end.

Lemma query_slots_known r fields :
  Forall query_known fields →
  ∃ l, query_slots r fields = mret l ∧ Forall2 (slot_for r) fields l.
Proof.
  induction 1 as [|f fields Hf _ (l & E & Hl)]; [by exists []|].
  assert (∃ s, slot_for r f s) as (s & Hs).
  { destruct (query_slot_cases r f) as [[x Hx]|[(m & Hm & Hmild)|[Hn _]]]; [by eexists|by eexists|done]. }
  exists (s :: l). split; [|by constructor]. cbn [query_slots]. rewrite (proj1 Hs).
  trans (query_slots r fields ≫= λ l, mret (s :: l)); [done|]. by rewrite E.
Qed.

Lemma slot_field r f s :
  query_slot r f = mret s → query_field r f = match s with Now x => mret x | Later m => m end.
Proof. intros E. unfold query_field. by rewrite E. Qed.

(** The delayed computations are those of the fields. *)
Lemma delayed_fields r fields l i m :
  Forall2 (slot_for r) fields l → delayed l !! i = Some m →
  mild m ∧ ∃ f, f ∈ fields ∧ query_field r f = m.
Proof.
  intros Hl. revert i. induction Hl as [|f s fields l [Hs Hm] _ IH]; intros i Hi; [done|].
  apply slot_field in Hs. destruct s as [x|m'].
  - destruct (IH i Hi) as (H1 & g & Hg & H2). split; [done|]. exists g. split; [by right|done].
  - destruct i as [|i]; [injection Hi as <-; split; [done|]; exists f; split; [by left|done]|].
    destruct (IH i Hi) as (H1 & g & Hg & H2). split; [done|]. exists g. split; [by right|done].
Qed.

Lemma fill_fields r fields l xs w :
  Forall2 (slot_for r) fields l →
  Forall2 (λ (m : io (resolved * bool)) x, ∃ wi, reading w wi ∧ (m wi).1 = Ok x) (delayed l) xs →
  Forall2 (λ f x, ∃ wi, reading w wi ∧ (query_field r f wi).1 = Ok x) fields (fill l xs).
Proof.
  intros Hl. revert xs. induction Hl as [|f s fields l [Hs Hm] _ IH]; intros xs Hxs; [constructor|].
  apply slot_field in Hs. destruct s as [x|m].
  - constructor; [|by apply IH]. exists w. by rewrite Hs.
  - apply Forall2_cons_inv_l in Hxs as (x & xs' & Hx & Hxs' & ->).
    constructor; [by rewrite Hs|by apply IH].
Qed.

(** The response collects the values. *)
Lemma collect_values fields (xs : list (resolved * bool)) :
  length xs = length fields →
  ∃ errs, collect fields xs
          = (if existsb snd xs then Null
             else FieldSet (zip (map Alias fields) (map (λ x, x.1.1) xs)), errs).
Proof.
  intros Hlen. unfold collect.
  assert (∃ errs n,
    foldr (λ fx, add_field (Alias fx.1) fx.2) ([], [], 0%nat) (zip fields xs)
    = (zip (map Alias fields) (map (λ x, x.1.1) xs), errs, n) ∧ (0 <? n)%nat = existsb snd xs)
    as (errs & n & -> & Hn); [|exists errs; unfold close_object; cbn [fst snd]; by rewrite Hn].
  revert xs Hlen. induction fields as [|f fields IH]; intros [|[[v e] b] xs] Hlen; try done;
    [by eexists _, _|].
  destruct (IH xs) as (errs & n & E & Hn); [by injection Hlen|].
  exists (e ++ errs), ((if b then 1 else 0) + n)%nat. cbn [zip zip_with foldr map existsb fst snd].
  rewrite E. split; [done|]. by destruct b.
Qed.

Lemma values_answers r fields (xs : list (resolved * bool)) w :
  Forall query_known fields →
  Forall2 (λ f x, ∃ wi, reading w wi ∧ (query_field r f wi).1 = Ok x) fields xs →
  Forall2 (λ f v, ∃ wi, reading w wi ∧ v = query_answer r f wi) fields (map (λ x, x.1.1) xs)
  ∧ existsb snd xs
    = existsb (λ fv, query_spoils fv.1 fv.2) (zip fields (map (λ x, x.1.1) xs)).
Proof.
  intros Hk Hxs. induction Hxs as [|f x fields xs (wi & Hr & Hx) _ IH]; [done|].
  apply Forall_cons in Hk as [Hf Hk]. destruct (IH Hk) as [IH1 IH2].
  destruct (query_field_run r f wi Hf) as (errs & w' & E). rewrite E in Hx. injection Hx as <-.
  split; [constructor; [by exists wi|done]|]. cbn [map zip zip_with existsb fst snd]. by rewrite IH2.
Qed.

(** C26: a query is answered as if its fields were resolved alone, and changes
    nothing. Whatever the order in which the effects of its fields interleave,
    the world is left as it was but for the clock, each value of the response
    is the answer of the field's resolver at such a world, and the response is
    null only when a field that may not be null is. *)
Theorem Query_executes (r : Resolver) (fields : list CollectedField) (w : world) :
  Forall query_known fields →
  ∃ values errs w',
    _Query r fields w
    = (Ok (if existsb (λ fv, query_spoils fv.1 fv.2) (zip fields values) then Null
           else FieldSet (zip (map Alias fields) values), errs), w')
    ∧ reading w w'
    ∧ Forall2 (λ f v, ∃ wi, reading w wi ∧ v = query_answer r f wi) fields values.
Proof.
  intros Hk. destruct (query_slots_known r fields Hk) as (l & El & Hl).
  assert (Forall mild (delayed l)) as Hmild.
  { apply Forall_lookup. intros i m Hi. by apply (delayed_fields r fields l i m Hl). }
  pose proof (interleaves_solo (delayed l) (Dispatch (delayed l))) as Hsolo.
  specialize (Hsolo (Dispatch_interleaves _ (Forall_impl _ _ _ Hmild (λ m H, proj1 H))) w
    (Forall_impl _ _ _ Hmild (λ m H, proj1 (proj2 H)))
    (Forall_impl _ _ _ Hmild (λ m H, proj2 (proj2 H)))).
  assert (∃ xs w', Dispatch (delayed l) w = (Ok xs, w') ∧ reading w w'
            ∧ Forall2 (λ f x, ∃ wi, reading w wi ∧ (query_field r f wi).1 = Ok x) fields (fill l xs))
    as (xs & w' & Ed & Hr & Hxs).
  { destruct (Dispatch (delayed l) w) as [[xs|e|p|p] w']; try done.
    - destruct Hsolo as [Hr Hxs]. exists xs, w'. split; [done|]. split; [done|]. by apply fill_fields.
    - destruct Hsolo as (i & m & wi & Hi & Hf).
      destruct (delayed_fields r fields l i m Hl Hi) as (_ & f & Hin & <-).
      rewrite Forall_forall in Hk.
      destruct (query_field_run r f wi (Hk f Hin)) as (errs & w1 & E). by rewrite E in Hf. }
  destruct (collect_values fields (fill l xs)) as [errs Ec];
    [symmetry; by eapply Forall2_length|].
  destruct (values_answers r fields (fill l xs) w Hk Hxs) as [Hv Hs].
  exists (map (λ x, x.1.1) (fill l xs)), errs, w'. split; [|split; [done|]].
  - unfold _Query. rewrite El.
    trans ((xs ← Dispatch (delayed l); mret (collect fields (fill l xs))) w); [done|].
    rewrite run_bind, Ed. cbv zeta. cbn [fst snd]. by rewrite run_ret, Ec, Hs.
  - done.
Qed.

(** *** Any document *)

Lemma query_slots_cases r fields :
  (∃ p, query_slots r fields = Done (Panic p))
  ∨ ∃ l, query_slots r fields = mret l ∧ Forall mild (delayed l)
         ∧ (length (delayed l) ≤ length fields)%nat.
Proof.
  induction fields as [|f fields IH]; [by right; exists []|]. cbn [query_slots length].
  destruct (query_slot_cases r f) as [[x ->]|[(m & -> & Hm)|[_ [p ->]]]]; [| |by left; exists p].
  - destruct IH as [[p E]|(l & E & Hl & Hn)].
    + left. exists p. trans (query_slots r fields ≫= λ l, mret (Now x :: l)); [done|]. by rewrite E.
    + right. exists (Now x :: l). split; [|split; [done|by apply le_S]].
      trans (query_slots r fields ≫= λ l, mret (Now x :: l)); [done|]. by rewrite E.
  - destruct IH as [[p E]|(l & E & Hl & Hn)].
    + left. exists p. trans (query_slots r fields ≫= λ l, mret (Later m :: l)); [done|]. by rewrite E.
    + right. exists (Later m :: l). split; [|split; [by constructor|by apply le_n_S]].
      trans (query_slots r fields ≫= λ l, mret (Later m :: l)); [done|]. by rewrite E.
Qed.

(** A query only reads, and performs one effect per field at most. *)
Lemma Query_mild r fields :
  keeps reading (_Query r fields) ∧ costs one (length fields) (_Query r fields).
Proof.
  unfold _Query. destruct (query_slots_cases r fields) as [[p ->]|(l & -> & Hl & Hn)]; [done|].
  set (g := λ xs, collect fields (fill l xs)).
  assert (interleaves (delayed l) (Dispatch (delayed l))) as Hi
    by exact (Dispatch_interleaves _ (Forall_impl _ _ _ Hl (λ m H, proj1 H))).
  change (keeps reading (xs ← Dispatch (delayed l); mret (g xs))
          ∧ costs one (length fields) (xs ← Dispatch (delayed l); mret (g xs))).
  split.
  - apply keeps_forget, (interleaves_keeps _ _ _ Hi).
    exact (Forall_impl _ _ _ Hl (λ m H, proj2 (proj2 H))).
  - apply costs_forget. apply (costs_mono _ (sum_list (replicate (length (delayed l)) 1%nat))).
    { rewrite sum_list_replicate. lia. }
    apply (interleaves_costs _ _ Hi). clear -Hl. induction Hl as [|m ms Hm _ IH]; constructor;
      [apply Hm|apply IH].
Qed.
End QueryFacts.

(** * A reference dispatcher

    One computation after the other, with the results so far. *)
Fixpoint ref_dispatch_from {A} (done : list A) (ms : list (io A)) : io (list A) :=
  match ms with
  | [] => mret done
  | m :: ms' => x ← m; ref_dispatch_from (done ++ [x]) ms'
  end.

#[export] Instance ref_dispatcher : Dispatcher := λ A ms, ref_dispatch_from [] ms.

Lemma ref_dispatch_interleaves {A} (ms : list (io A)) xs :
  Forall steady ms →
  interleaves (map (λ x, Done (Ok x)) xs ++ ms) (ref_dispatch_from xs ms).
Proof.
  intros Hs. revert xs. induction Hs as [|m ms Hm _ IH]; intros xs.
  { rewrite app_nil_r. apply interleaves_done. induction xs; by constructor. }
  cbn [ref_dispatch_from]. induction m as [[x|e|p|p]|T e k IHm]; try done.
  - specialize (IH (xs ++ [x])). rewrite map_app, <-app_assoc in IH. exact IH.
  - apply (interleaves_fatal _ (length xs)). by rewrite lookup_app_r, length_map, Nat.sub_diag
      by (rewrite length_map; lia).
  - apply (interleaves_step _ (length xs) _ e k).
    { by rewrite lookup_app_r, length_map, Nat.sub_diag by (rewrite length_map; lia). }
    intros o. rewrite insert_app_r_alt, length_map, Nat.sub_diag by (rewrite length_map; lia).
    apply IHm, Hm.
Qed.

#[export] Instance ref_dispatcher_laws : DispatcherLaws.
Proof. intros A ms Hs. by apply (ref_dispatch_interleaves ms []). Qed.

(** [{ publickey hasCreated(address: ..) statistics { action } __typename }]. *)
Definition ref_query : list CollectedField :=
  [ref_plain "publickey" [];
   mk_CollectedField (lit "hasCreated") (lit "created") [(lit "address", AString ref_market)] [];
   ref_plain "statistics" [ref_plain "action" []];
   ref_plain "__typename" []].

Lemma Query_executes_witness :
  ∃ values errs w',
    _Query ref_resolver ref_query ref_world
    = (Ok (if existsb (λ fv, query_spoils fv.1 fv.2) (zip ref_query values) then Null
           else FieldSet (zip (map Alias ref_query) values), errs), w')
    ∧ reading ref_world w'
    ∧ Forall2 (λ f v, ∃ wi, reading ref_world wi ∧ v = query_answer ref_resolver f wi)
        ref_query values.
Proof.
  apply (Query_executes ref_resolver ref_query ref_world).
  repeat constructor; apply (bool_decide_unpack _); reflexivity.
Defined.

(** No account has been created, so the answer is [false]. *)
Example ref_query_answers :
  match _Query ref_resolver ref_query ref_world with
  | (Ok (RObject [(_, RString _); (_, RBool false); (_, RArray []); (_, RString t)], []), _) => t
  | _ => []
  end = lit "Query".
Proof. vm_compute. reflexivity. Qed.
