(* ===== verification/Races.v ===== *)
(** * Races: operations that run at the same time

    The operations themselves, as pools: of the requests that present one
    nonce at most one succeeds, every operation ends after a bounded number of
    effects, and serving requests one after the other is one of the possible
    schedules. *)
From stdpp Require Import base numbers strings list relations.
From Stdlib Require Import Strings.Byte ZArith Lia.
From S2P Require Import Prelude GoStd Types Sha512 External Keccak BorshRef Reference Ninelives.
From S2P Require Import Proxy Convertor ConvertorFacts Db World Schedule RefWorld Client Utils.
From S2P Require Import Resolvers ResolverFacts AccountFacts.

(** An operation with its caller. *)
Abbreviation operation := (Ctx * mutation * option bool)%type.

Section Races.
Context {UN : Unicode} {AS : Assets} {EC : EthCommon} {CR : EthCrypto} {BO : Borsh}
  {AB : Abi} {EX : Exec} {CL : EthClient} {EN : Env} {PC : PgCalendar} {GF : GoFmt}.

Definition operate (r : Resolver) (q : operation) : io unit :=
  run_mutation r q.1.1 q.1.2 q.2.

(** ** One nonce, one secret *)

(** The nonce has not been used for the address. *)
Definition unused (a : bytes) (nonce : Z) (w : world) : Prop :=
  (addr_lower a, nonce) ∉ accounts_secrets_nonces_2 (w_db w).

(** An effect that uses it up, answered so. *)
Definition uses (a : bytes) (nonce : Z) (R : Type) (e : effect R) (o : outcome R) : Prop :=
  ∀ w, (exec e w).1 = o → unused a nonce w ∧ ¬ unused a nonce (exec e w).2.

Lemma insert_nonce_secret_uses a secret nonce now d u d' :
  length a = 20%nat →
  accounts_insert_nonce_secret_3 (addr_lower a) secret nonce now d = Ok (u, d') →
  (addr_lower a, nonce) ∉ accounts_secrets_nonces_2 d
  ∧ (addr_lower a, nonce) ∈ accounts_secrets_nonces_2 d'.
Proof.
  intros Ha. unfold accounts_insert_nonce_secret_3, insert_nonce_2, insert_secret_2.
  rewrite char_n_addr by done. cbn. case_decide as Hin; [done|]. cbn.
  destruct (char_n 64 secret); [|done..]. cbn. intros [= _ <-]. split; [done|].
  cbn. apply elem_of_app. right. apply list_elem_of_here.
Qed.

(** A request cannot succeed without using its nonce. *)
Lemma claims_RequestSecret `{CLaws : !EthCommonLaws} r ctx addr nonce v sr ss dryrun :
  isDryrun dryrun = false →
  claims (uses (HexToAddress addr) nonce) (RequestSecret r ctx addr nonce v sr ss dryrun).
Proof.
  intros Hd. set (a := HexToAddress addr).
  assert (length a = 20%nat) as Ha by apply HexToAddress_length.
  unfold RequestSecret. fold a. do 8 (apply claims_bind_r; intros ?).
  do 2 (apply claims_bind_r; intros ?). apply claims_bind_l. rewrite Hd.
  apply claims_on_err; [|done]. rewrite Address_String_lower by done.
  intros [u|e|p|p]; [left|by right..]. intros w Hw. cbn in Hw |- *.
  unfold exec_db, stmt_result in *.
  destruct (accounts_insert_nonce_secret_3 _ _ _ _ _) as [[u' d']| | |] eqn:E,
    (env_db (w_tick w)); try done.
  apply insert_nonce_secret_uses in E as [H1 H2]; [|done]. split; [done|]. by intros H.
Qed.

(** A request for a secret that presents the nonce for the address. *)
Definition presents (a : bytes) (nonce : Z) (q : operation) : Prop :=
  ∃ ctx addr v sr ss dry, q = (ctx, requestSecret addr nonce v sr ss, dry)
    ∧ HexToAddress addr = a ∧ isDryrun dry = false.

(** C8: a nonce is good for one secret, even when requests race. Of any number
    of requests that present the same nonce for the same address, however they
    spell it, arriving among any others and with their effects interleaved in
    any way, at most one succeeds. *)
Theorem nonce_race `{CLaws : !EthCommonLaws} (r : Resolver) (w : world) (l : pool operation unit)
    (w' : world) (a : bytes) (nonce : Z) (i j : nat) (q q' : operation) :
  rtc (serving (operate r)) ([], w) (l, w') →
  presents a nonce q → presents a nonce q' →
  l !! i = Some (q, Done (Ok tt)) → l !! j = Some (q', Done (Ok tt)) → i = j.
Proof.
  intros Hs Hq Hq' Hi Hj. destruct (decide (i = j)) as [|Hne]; [done|]. exfalso.
  assert (race (uses a nonce) (unused a nonce) (presents a nonce) l w') as [_ Hrace].
  { apply (race_serving (uses a nonce) (unused a nonce)
      (λ R e w H, H w eq_refl) grows) with (prog := operate r) (l := []) (w := w).
    - intros w1 w2 [(_ & _ & [k Hk] & _) _] Hu Hin. apply Hu. rewrite Hk. apply elem_of_app. by left.
    - intros q0 (ctx & addr & v & sr & ss & dry & -> & <- & Hd).
      by apply claims_bind_l, claims_RequestSecret.
    - intros q0. apply run_mutation_grows.
    - done.
    - apply race_nil.
    - done. }
  destruct (Hrace i j q q' _ _ Hne Hi Hj Hq Hq'); done.
Qed.

(** ** Every operation ends *)

Lemma costs_node n {A} (f : Chain → outcome A * Chain) : (1 ≤ n)%nat → costs one n (node f).
Proof. intros. by split. Qed.

Lemma costs_db n {A} (s : stmt A) : (1 ≤ n)%nat → costs one n (db_run s).
Proof. intros. by split. Qed.

Lemma costs_alarm n url k e : (2 ≤ n)%nat → costs one n (activateSoftAlarm url k e).
Proof.
  intros Hn. apply (costs_mono _ 2); [done|]. unfold activateSoftAlarm. case_decide; [done|].
  spend 1%nat; [by split|]. spend 1%nat; [by split|]. by case_match.
Qed.

Lemma costs_alarm_unless r ctx e t n :
  (2 ≤ n)%nat → costs one n (alarm_unless_ignorable r ctx e t).
Proof. intros. unfold alarm_unless_ignorable. case_match; [done|]. by apply costs_alarm. Qed.

Lemma costs_pick : costs one 1 PickPrivateKey.
Proof.
  unfold PickPrivateKey. spend 1%nat; [|spend 0%nat; [by apply costs_wrap|done]].
  apply costs_wrap. spend 1%nat; [by apply costs_db|done].
Qed.

Lemma costs_Send router use c k from to b eth dry :
  costs one 6 (Send router use c k from to b eth dry).
Proof.
  unfold Send. destruct (frame router use to b) as [target data].
  spend 1%nat; [by apply (costs_on_err_le _ 1); [lia|apply costs_node; lia|]|].
  do 3 (spend 1%nat; [by apply costs_wrap, costs_node; lia|]).
  spend 0%nat; [done|]. spend 0%nat; [by apply costs_wrap|]. spend 2%nat; [|done].
  destruct dry; (spend 1%nat; [by split|]).
  - spend 1%nat; [by apply costs_wrap, costs_node; lia|done].
  - apply costs_wrap, costs_node. lia.
Qed.

Lemma costs_SendArguments router use c k from to a dry :
  costs one 6 (SendArguments router use c k from to a dry).
Proof. unfold SendArguments. spend 0%nat; [by apply costs_wrap|]. apply costs_Send. Qed.

Lemma costs_trackTx e h g t : costs one 1 (trackTx e h g t).
Proof. apply (costs_on_err_le _ 1); [lia|by apply costs_db|done]. Qed.

Lemma costs_makeSecret : costs one 1 makeSecret.
Proof. unfold makeSecret. spend 1%nat; [by split|]. repeat case_match; done. Qed.

(** A call is sent, and a failure raises an alarm. *)
Lemma costs_send_or_alarm (m : io (bytes * Z)) (alarm : gostring → io unit) (text : gostring → gostring) :
  costs one 6 m → (∀ e, costs one 2 (alarm e)) →
  costs one 8 (on_err m (λ e, alarm e;; pure (Err (text e)))).
Proof.
  intros Hm Ha. apply (costs_on_err_le _ 6); [lia|done|]. intros e. by spend 2%nat.
Qed.

Lemma costs_CreateAccountExec r ctx c mint dry : costs one 12 (CreateAccountExec r ctx c mint dry).
Proof.
  unfold CreateAccountExec. spend 0%nat; [by apply costs_wrap|]. spend 0%nat; [done|].
  spend 0%nat;
    [unfold tag_mint; destruct mint; [by apply (costs_bind_le _ 0); [lia|apply costs_wrap|]|done]|].
  spend 1%nat; [apply costs_fatal, costs_pick|].
  spend 8%nat;
    [apply costs_send_or_alarm; [apply costs_SendArguments|intros; by apply costs_alarm_unless]|].
  spend 1%nat; [apply costs_makeSecret|]. spend 2%nat; [|done]. destruct (isDryrun dry); [done|].
  spend 1%nat; [|apply costs_trackTx]. apply (costs_on_err_le _ 1); [lia|by apply costs_db|done].
Qed.

Lemma costs_RequestSecret r ctx addr nonce v sr ss dry :
  costs one 12 (RequestSecret r ctx addr nonce v sr ss dry).
Proof.
  unfold RequestSecret. spend 0%nat; [done|]. do 2 (spend 0%nat; [by apply costs_wrap|]).
  do 3 (spend 0%nat; [done|]). spend 0%nat; [by apply costs_wrap|]. spend 0%nat; [done|].
  spend 1%nat; [|spend 1%nat; [apply costs_makeSecret|spend 1%nat; [|done]]].
  - destruct (FeatureCheckCode r); [|done]. spend 1%nat; [|done].
    apply (costs_on_err_le _ 1); [lia|by apply costs_node|done].
  - destruct (isDryrun dry); [done|]. apply (costs_on_err_le _ 1); [lia|by apply costs_db|done].
Qed.

Lemma costs_NinelivesMint r ctx mint dry : costs one 12 (NinelivesMint r ctx mint dry).
Proof.
  unfold NinelivesMint. do 5 (spend 0%nat; [done|]). spend 1%nat; [apply costs_fatal, costs_pick|].
  spend 2%nat; [apply (costs_on_err_le _ 0); [lia|done|]|].
  { intros e. spend 2%nat; [by apply costs_alarm_unless|done]. }
  spend 0%nat; [by apply costs_wrap|].
  spend 8%nat;
    [apply costs_send_or_alarm; [apply costs_SendArguments|intros; by apply costs_alarm_unless]|].
  spend 1%nat; [|done]. destruct (isDryrun dry); [done|apply costs_trackTx].
Qed.

Lemma costs_ClaimRewards r ctx ms t dry : costs one 12 (ClaimRewards r ctx ms t dry).
Proof.
  unfold ClaimRewards. do 3 (spend 0%nat; [done|]). spend 1%nat; [apply costs_fatal, costs_pick|].
  do 2 (spend 0%nat; [by apply costs_wrap|]).
  spend 8%nat;
    [apply costs_send_or_alarm; [apply costs_SendArguments|intros; by apply costs_alarm]|].
  spend 1%nat; [|done]. destruct (isDryrun dry); [done|apply costs_trackTx].
Qed.

(** ** One after the other *)

(** The requests with their outcomes when each is served before the next
    arrives, as far as the process lives. *)
Fixpoint one_by_one (r : Resolver) (qs : list operation) (w : world)
    : pool operation unit * world :=
  match qs with
  | [] => ([], w)
  | q :: qs' =>
      let o := operate r q w in
      match o.1 with
      | Fatal p => ([(q, Done (Fatal p))], o.2)
      | _ => let rest := one_by_one r qs' o.2 in ((q, Done o.1) :: rest.1, rest.2)
      end
  end.

Lemma one_by_one_after r qs w l :
  alive l → rtc (serving (operate r)) (l, w) (l ++ (one_by_one r qs w).1, (one_by_one r qs w).2).
Proof.
  revert w l. induction qs as [|q qs IH]; intros w l Hl; [by rewrite app_nil_r|].
  eapply rtc_l; [by apply (serving_arrival _ l q)|].
  etrans.
  { eapply rtc_subrel; [|by apply run_schedule]. intros c c'. apply serving_effect. }
  cbn [one_by_one]. set (o := operate r q w).
  destruct (is_fatal (Done o.1)) eqn:Ho; [by destruct o.1|].
  assert (alive (l ++ [(q, Done o.1)])) as Hl'.
  { apply Forall_app. split; [done|]. by apply Forall_singleton. }
  specialize (IH o.2 _ Hl'). rewrite <-app_assoc in IH. by destruct o.1.
Qed.

Lemma one_by_one_serving r qs w :
  rtc (serving (operate r)) ([], w) ((one_by_one r qs w).1, (one_by_one r qs w).2).
Proof. exact (one_by_one_after r qs w [] (Forall_nil_2 _)). Qed.

(** What is computed by serving requests one after the other, as the
    theorems on single requests have it, is what one of the server's schedules
    does: with each request served before the next arrives the outcomes and
    the world are those of the runs, up to a run that ends the process. *)
Theorem one_by_one_is_schedule (r : Resolver) (qs : list operation) (w : world) :
  rtc (serving (operate r)) ([], w) (one_by_one r qs w)
  ∧ (alive (one_by_one r qs w).1 →
     (one_by_one r qs w).2 = serve_requests r qs w ∧ map fst (one_by_one r qs w).1 = qs).
Proof.
  split.
  - pose proof (one_by_one_serving r qs w) as H. by destruct (one_by_one r qs w).
  - revert w. induction qs as [|[[ctx m] dry] qs IH]; intros w; [done|]. cbn [one_by_one].
    set (o := operate r (ctx, m, dry) w).
    destruct (is_fatal (Done o.1)) eqn:Ho.
    { destruct o.1; try done. intros Ha. by apply Forall_cons in Ha as [? _]. }
    intros Ha. assert (alive (one_by_one r qs o.2).1) as Ha'
      by (destruct o.1; try done; by apply Forall_cons in Ha as [_ ?]).
    destruct (IH o.2 Ha') as [Hw Hq]. destruct o.1; try done; cbn; by rewrite Hw, Hq.
Qed.
End Races.

(** The same signed request, the second time without the prefix of the
    address. *)
Definition ref_operation (addr : gostring) : operation :=
  (ref_no_ctx, requestSecret addr 5 27 ref_sigR ref_sigS, None).
Definition ref_operations : list operation :=
  [ref_operation (addr_lower ref_eoa); ref_operation (hex_EncodeToString ref_eoa)].

Lemma ref_operation_Ok :
  is_ok (operate ref_resolver (ref_operation (addr_lower ref_eoa)) ref_world).1 = true.
Proof. vm_compute. reflexivity. Qed.

Lemma one_by_one_head {UN : Unicode} {AS : Assets} {EC : EthCommon} {CR : EthCrypto} {BO : Borsh}
    {AB : Abi} {EX : Exec} {CL : EthClient} {EN : Env} {PC : PgCalendar} {GF : GoFmt} r q qs w :
  is_ok (operate r q w).1 = true → (one_by_one r (q :: qs) w).1 !! 0%nat = Some (q, Done (Ok tt)).
Proof. cbn [one_by_one]. by destruct (operate r q w).1 as [[]| | |]. Qed.

(** The first is answered, and no other request of the pool that presents the
    nonce succeeds. *)
Lemma nonce_race_witness :
  ∃ l w', rtc (serving (operate ref_resolver)) ([], ref_world) (l, w')
    ∧ l !! 0%nat = Some (ref_operation (addr_lower ref_eoa), Done (Ok tt))
    ∧ ∀ j q, presents ref_eoa 5 q → l !! j = Some (q, Done (Ok tt)) → 0%nat = j.
Proof.
  exists (one_by_one ref_resolver ref_operations ref_world).1,
    (one_by_one ref_resolver ref_operations ref_world).2.
  pose proof (one_by_one_serving ref_resolver ref_operations ref_world) as Hs.
  pose proof (one_by_one_head _ _ [ref_operation (hex_EncodeToString ref_eoa)] _ ref_operation_Ok)
    as H0.
  split; [exact Hs|]. split; [exact H0|]. intros j q Hq Hj.
  apply (nonce_race ref_resolver ref_world _ _ ref_eoa 5 0%nat j _ q Hs) with (3 := H0);
    [|exact Hq|exact Hj].
  exists ref_no_ctx, (addr_lower ref_eoa), 27, ref_sigR, ref_sigS, None.
  split; [reflexivity|]. split; [vm_compute; reflexivity|reflexivity].
Defined.

(** ** Schedules one can run *)

Section Play.
Context {EC : EthCrypto} {CL : EthClient} {EN : Env}.

(** The requests named one after the other perform their next effect. *)
Fixpoint play {Req A} (schedule : list nat) (l : pool Req A) (w : world) : pool Req A * world :=
  match schedule with
  | [] => (l, w)
  | i :: schedule' =>
      if forallb (λ p, negb (is_fatal p.2)) l then
        match l !! i with
        | Some (q, Step e k) => play schedule' (<[i := (q, k (exec e w).1)]> l) (exec e w).2
        | _ => play schedule' l w
        end
      else (l, w)
  end.

Lemma play_effects {Req A} schedule (l : pool Req A) w : rtc effect_step (l, w) (play schedule l w).
Proof.
  revert l w. induction schedule as [|i schedule IH]; intros l w; [done|]. cbn [play].
  destruct (forallb _ l) eqn:Ha; [|done].
  destruct (l !! i) as [[q [o|R e k]]|] eqn:Hi; [apply IH| |apply IH].
  eapply rtc_l; [|apply IH]. apply (effect_step_intro l i); [|done].
  apply Forall_forall. intros p Hp. apply list_elem_of_In in Hp.
  apply (proj1 (forallb_forall _ _) Ha) in Hp. by destruct (is_fatal p.2).
Qed.

Lemma arrivals {Req A} (prog : Req → io A) l qs w :
  Forall (λ q, is_fatal (prog q) = false) qs → alive l →
  rtc (serving prog) (l, w) (l ++ map (λ q, (q, prog q)) qs, w).
Proof.
  intros Hqs. revert l. induction Hqs as [|q qs Hq _ IH]; intros l Hl; [by rewrite app_nil_r|].
  eapply rtc_l; [by apply (serving_arrival _ l q)|].
  specialize (IH (l ++ [(q, prog q)])). rewrite <-app_assoc in IH. apply IH.
  apply Forall_app. split; [done|]. by apply Forall_singleton.
Qed.
End Play.

(** Three mints at once, with two sender keys: the third is given the key of
    the first, and asks for its nonce before the first has sent. *)
Definition ref_mint_operation : operation := (ref_user, ninelivesMint ref_model_mint, None).
Definition ref_three : pool operation unit :=
  map (λ q, (q, operate ref_resolver q)) (replicate 3 ref_mint_operation).
Definition ref_schedule : list nat :=
  replicate 5 0%nat ++ [1%nat] ++ replicate 5 2%nat ++ replicate 2 0%nat ++ replicate 2 2%nat.

Definition same_nonce (l : list (DynamicFeeTx * bytes)) : bool :=
  match l with
  | [(t1, k1); (t2, k2)] => bool_decide (Nonce t1 = Nonce t2) && bool_decide (k1 = k2)
  | _ => false
  end.

Lemma ref_three_same_nonce :
  same_nonce (sent (play ref_schedule ref_three ref_world).2) = true.
Proof. vm_compute. reflexivity. Qed.

Lemma ref_three_serving :
  rtc (serving (operate ref_resolver)) ([], ref_world) (play ref_schedule ref_three ref_world).
Proof.
  etrans.
  - apply (arrivals (operate ref_resolver) [] (replicate 3 ref_mint_operation)); [|constructor].
    apply Forall_replicate. reflexivity.
  - eapply rtc_subrel; [|apply play_effects]. intros c c'. apply serving_effect.
Qed.

(** C40: concurrent requests can spoil each other's transactions. The nonce of a
    sender key is read from the node before the transaction is sent, and nothing
    keeps another request with the same key out in between: with two keys and
    three mints at once there is a schedule in which two transactions are sent
    with the same key and the same nonce, of which a chain accepts one. *)
Theorem sends_share_nonce :
  ∃ l w' (tx1 tx2 : DynamicFeeTx) (key : bytes),
    rtc (serving (operate ref_resolver)) ([], ref_world) (l, w')
    ∧ sent w' = [(tx1, key); (tx2, key)] ∧ Nonce tx1 = Nonce tx2.
Proof.
  pose proof ref_three_serving as Hs. pose proof ref_three_same_nonce as Hn.
  destruct (play ref_schedule ref_three ref_world) as [l w']. cbn [snd] in Hn.
  destruct (sent w') as [|[t1 k1] [|[t2 k2] [|]]] eqn:E; try done. cbn in Hn.
  apply andb_true_iff in Hn as [H1 H2]. apply bool_decide_eq_true in H1, H2. subst k2.
  by exists l, w', t1, t2, k1.
Qed.
