(* ===== verification/Serving.v ===== *)
(** * Serving: the server under concurrent requests

    Any number of requests, arriving at any time, with their effects
    interleaved in any way. What one request relies on of the others is that
    records only grow; what each guarantees at every step is more: a secret is
    only recorded for an address that signed for it or whose account creation
    was sent, and a transaction is only sent to create an account or for the
    account of a caller with a secret on record. *)
From stdpp Require Import base numbers strings list relations.
From Stdlib Require Import Strings.Byte ZArith Lia.
From S2P Require Import Prelude GoStd Types Sha512 External Keccak BorshRef Reference Ninelives.
From S2P Require Import Proxy Convertor ConvertorFacts Db World Schedule RefWorld Client Utils.
From S2P Require Import Resolvers ResolverFacts AccountFacts Auth GraphInput GraphExec.

Section Serving.
Context {UN : Unicode} {AS : Assets} {EC : EthCommon} {CR : EthCrypto} {BO : Borsh}
  {AB : Abi} {EX : Exec} {CL : EthClient} {EN : Env} {PC : PgCalendar} {GF : GoFmt}.

(** ** What every step guarantees *)

(** A transaction with the given target and payload, signed by some key. *)
Definition carries (r : Resolver) (use : bool) (to payload : bytes) (signed : SignedTx) : Prop :=
  ∃ tx key, (To tx, Data tx) = frame (SafetyRouterAddr r) use to payload ∧ Value tx = 0
    ∧ SignTx tx (ChainId r) key = Ok signed.

(** The transaction asks the factory for the account of [a]. *)
Definition creates (r : Resolver) (a : bytes) (signed : SignedTx) : Prop :=
  ∃ f b, FreshBackwards_EoaAddr f = a ∧ FreshBackwards_Key f = AccPubKey r ∧ borsh_Args (fresh_args f) = Ok b
    ∧ carries r false (AccountsFactoryAddr r) b signed.

(** The transaction acts for the account of [a], through the router. *)
Definition acts_for (r : Resolver) (a : bytes) (signed : SignedTx) : Prop :=
  ∃ b, carries r true (GetClientAddr (AccountsFactoryAddr r) a) b signed.

(** A secret is on record for [a]. *)
Definition account_holder (a : bytes) (w : world) : Prop :=
  ∃ secret, secret_on_record (w_db w) a secret.

(** Why a transaction may be sent at [w]. *)
Definition authorised (r : Resolver) (signed : SignedTx) (w : world) : Prop :=
  (∃ a, creates r a signed) ∨ ∃ a, acts_for r a signed ∧ account_holder a w.

(** Why a secret may be recorded for [a] at [w]. *)
Definition entitled (r : Resolver) (a : bytes) (w : world) : Prop :=
  (∃ nonce v sr ss, secret_signature_valid r a nonce v sr ss)
  ∨ ∃ signed, signed ∈ sent w ∧ creates r a signed.

Definition guar (r : Resolver) (w w' : world) : Prop :=
  grows w w'
  ∧ (∀ row, row ∈ accounts_secrets_2 (w_db w') →
       row ∈ accounts_secrets_2 (w_db w)
       ∨ ∃ a, length a = 20%nat ∧ sr_eoa_addr row = addr_lower a ∧ entitled r a w)
  ∧ (∀ signed, signed ∈ sent w' → signed ∈ sent w ∨ authorised r signed w).

Lemma guar_grows r w w' : guar r w w' → grows w w'.
Proof. by intros [H _]. Qed.

(** Nothing is sent and no secret recorded. *)
Definition quiet (w w' : world) : Prop :=
  grows w w' ∧ accounts_secrets_2 (w_db w') = accounts_secrets_2 (w_db w) ∧ sent w' = sent w.

Lemma quiet_guar r w w' : quiet w w' → guar r w w'.
Proof. intros (H1 & H2 & H3). split; [done|]. rewrite H2, H3. auto. Qed.

Lemma keeps_quiet_guar r {A} (m : io A) : keeps quiet m → keeps (guar r) m.
Proof. apply keeps_mono, quiet_guar. Qed.

Lemma inert_quiet w w' : inert w w' → quiet w w'.
Proof. intros H. split; [by apply inert_grows|]. destruct H as [Hs (_ & H2 & _)]. done. Qed.

Lemma keeps_inert_quiet {A} (m : io A) : keeps inert m → keeps quiet m.
Proof. apply keeps_mono, inert_quiet. Qed.

(** Records grow, the secrets aside. *)
Definition other_records_grow (d d' : db) : Prop :=
  records_grow d d' ∧ accounts_secrets_2 d' = accounts_secrets_2 d.

#[export] Instance other_records_grow_refl : Reflexive other_records_grow.
Proof. by split. Qed.

Lemma quiet_trackTx e h g t : keeps quiet (trackTx e h g t).
Proof.
  unfold trackTx. keeps_tac. apply (keeps_db_run _ other_records_grow).
  - by intros w d [H1 H2].
  - intros now d u d' H. unfold insert_transaction_2 in H. inv_ok.
    split; [|done]. repeat split; cbn; try done. by apply prefix_app_r.
Qed.
(** ** Stable knowledge *)

Lemma stable_holder a : stable grows (account_holder a).
Proof.
  intros w w' (secret & row & s & Hin & H) [(_ & [k Hk] & _) _].
  exists secret, row, s. rewrite Hk. split; [|done]. apply elem_of_app. by left.
Qed.

Lemma stable_sent signed : stable grows (λ w, signed ∈ sent w).
Proof. intros w w' H [_ [k Hk]]. rewrite Hk. apply elem_of_app. by left. Qed.

Lemma stable_True : stable grows (λ _, True).
Proof. done. Qed.

End Serving.

Abbreviation rgs r := (rg grows (guar r)).

#[export] Hint Resolve keeps_quiet_guar keeps_inert_quiet quiet_trackTx inert_node inert_ask
  keeps_guard keeps_tag_mint inert_alarm_event inert_call_event inert_alarm inert_alarm_unless
  inert_pick inert_makeSecret : keepsdb.

(** A step before which nothing is known to matter. *)
Ltac rg_skip := apply (rg_seq _ _ (guar_grows _)); [assumption|solve [keeps_tac]|intros ?].

Section Operations.
Context {UN : Unicode} {AS : Assets} {EC : EthCommon} {CR : EthCrypto} {BO : Borsh}
  {AB : Abi} {EX : Exec} {CL : EthClient} {EN : Env} {PC : PgCalendar} {GF : GoFmt}.

(** ** Sending *)

Lemma emit_send_guar r signed w :
  authorised r signed w → guar r w (exec (EEmit (EvSendTransaction signed)) w).2.
Proof.
  intros Ha. assert (sent (exec (EEmit (EvSendTransaction signed)) w).2 = sent w ++ [signed]) as Hs
    by (unfold sent; cbn; by rewrite omap_app).
  split; [split; [reflexivity|rewrite Hs; by apply prefix_app_r]|]. split; [by left|].
  intros tx. rewrite Hs, elem_of_app, list_elem_of_singleton. intros [?| ->]; [by left|by right].
Qed.

(** A transaction is signed and emitted only when it is authorised, and then
    it is among those sent. *)
Lemma rg_Send r (P : world → Prop) use key from to b (dryrun : bool) :
  stable grows P →
  (dryrun = false → ∀ w signed, P w → carries r use to b signed → authorised r signed w) →
  rgs r P (Send (SafetyRouterAddr r) use (ChainId r) key from to b None dryrun)
    (λ _ w, dryrun = false → ∃ signed, carries r use to b signed ∧ signed ∈ sent w).
Proof.
  intros HP Hauth. unfold Send.
  destruct (frame (SafetyRouterAddr r) use to b) as [target data] eqn:Hf.
  do 4 rg_skip. apply rg_pure_bind. intros cap _. apply rg_wrap_pure_bind. intros signed Hsigned.
  assert (carries r use to b signed) as Hc.
  { eexists _, key. split; [|split; [|exact Hsigned]]; [by rewrite Hf|done]. }
  destruct dryrun.
  - rg_skip. by apply rg_ret.
  - specialize (Hauth eq_refl). eapply (rg_bind _ _ (guar_grows r) _ _ _ (λ _ w, signed ∈ sent w));
      [done| |].
    + eapply (rg_bind _ _ (guar_grows r) _ _ _ (λ _ w, signed ∈ sent w)); [done| |].
      * apply rg_perform. intros w Hw. split; [by apply emit_send_guar, Hauth|].
        intros res w' _ Hg. eapply (stable_sent signed); [|exact Hg].
        unfold sent. cbn. rewrite omap_app, elem_of_app. right. apply list_elem_of_here.
      * intros u. apply (rg_pre _ _ (λ w, signed ∈ sent w)); [by intros w [_ H]|].
        apply (keeps_rg_stable _ _ (guar_grows r)); [apply stable_sent|keeps_tac].
    + intros u. apply rg_ret. intros w [_ H] _. by exists signed.
Qed.

Lemma rg_SendArguments r (P : world → Prop) use key from to args (dryrun : bool) :
  stable grows P →
  (dryrun = false → ∀ b w signed, borsh_Args args = Ok b → P w → carries r use to b signed →
     authorised r signed w) →
  rgs r P (SendArguments (SafetyRouterAddr r) use (ChainId r) key from to args dryrun)
    (λ _ w, dryrun = false →
            ∃ b signed, borsh_Args args = Ok b ∧ carries r use to b signed ∧ signed ∈ sent w).
Proof.
  intros HP Hauth. apply rg_wrap_pure_bind. intros b Hb.
  eapply rg_conseq; [| |apply (rg_Send r P use key from to b dryrun HP)]; [done| |by eauto].
  intros x w H Hd. destruct (H Hd) as (signed & Hc & Hs). eauto.
Qed.

(** ** Recording secrets *)

(** A statement that adds secrets for one address only. *)
Definition records_for (a : bytes) {A} (s : stmt A) : Prop :=
  ∀ now d u d', s now d = Ok (u, d') →
    records_grow d d'
    ∧ ∀ row, row ∈ accounts_secrets_2 d' →
        row ∈ accounts_secrets_2 d ∨ sr_eoa_addr row = addr_lower a.

Lemma insert_secret_2_records a secret :
  length a = 20%nat → records_for a (insert_secret_2 (addr_lower a) secret).
Proof.
  intros Ha now d u d' H. split; [by eapply insert_secret_2_grows|].
  unfold insert_secret_2 in H. rewrite char_n_addr in H by done. cbn in H.
  destruct (char_n 64 secret); [|done..]. injection H as _ <-. cbn. intros row.
  rewrite elem_of_app, list_elem_of_singleton. intros [?| ->]; [by left|by right].
Qed.

Lemma insert_nonce_secret_records a secret nonce :
  length a = 20%nat → records_for a (accounts_insert_nonce_secret_3 (addr_lower a) secret nonce).
Proof.
  intros Ha now d u d' H. unfold accounts_insert_nonce_secret_3 in H.
  apply bind_Ok in H as ([v d1] & H1 & H2).
  destruct (insert_secret_2_records a secret Ha _ _ _ _ H2) as [Hg Hrow].
  split; [etrans; [by eapply insert_nonce_2_grows|done]|].
  replace (accounts_secrets_2 d) with (accounts_secrets_2 d1); [done|].
  unfold insert_nonce_2 in H1. rewrite char_n_addr in H1 by done. cbn in H1.
  case_decide; [done|]. by injection H1 as _ <-.
Qed.

Lemma rg_records r (P : world → Prop) a {A} (s : stmt A) :
  stable grows P → length a = 20%nat → records_for a s → (∀ w, P w → entitled r a w) →
  rgs r P (db_run s) (λ _, P).
Proof.
  intros HP Ha Hs He. apply rg_perform. intros w Hw.
  assert (guar r w (exec (EDb s) w).2) as Hg.
  { cbn. unfold exec_db, stmt_result.
    destruct (s (env_now (w_tick w)) (w_db w)) as [[u d']|e|p|p] eqn:E;
      destruct (env_db (w_tick w)); try (apply quiet_guar; done).
    all: destruct (Hs _ _ _ _ E) as [Hgr Hrow]; split; [by split|]; split; [|by left].
    all: intros row Hin; destruct (Hrow row Hin) as [?|?]; [by left|right; eauto]. }
  split; [done|]. intros u w' _ Hr. eapply HP; [|exact Hr]. eapply HP; [exact Hw|]. by apply Hg.
Qed.

(** ** The operations *)

(** What the middleware established about the caller. *)
Definition caller_known (ctx : Ctx) (w : world) : Prop :=
  authed_of ctx = true → ∀ a, ctx_eoa ctx = Some a → account_holder a w.

Lemma stable_caller ctx : stable grows (caller_known ctx).
Proof. intros w w' H Hg Ha a Hc. eapply stable_holder; [|exact Hg]. by apply H. Qed.

Lemma rg_RequestSecret `{CLaws : !EthCommonLaws} r ctx addr nonce v sr ss dryrun :
  rgs r (λ _, True) (RequestSecret r ctx addr nonce v sr ss dryrun) (λ _ _, True).
Proof.
  pose proof stable_True as HP. set (a := HexToAddress addr).
  assert (length a = 20%nat) as Ha by apply HexToAddress_length.
  unfold RequestSecret, guard. fold a.
  apply rg_pure_bind; intros u1 H1. apply rg_wrap_pure_bind; intros R HR.
  apply rg_wrap_pure_bind; intros S HS. apply rg_pure_bind; intros gt [= <-].
  apply rg_pure_bind; intros u2 Hmall%ensure_Ok. apply rg_pure_bind; intros u3 Hv%ensure_Ok.
  apply rg_wrap_pure_bind; intros pub Hpub.
  apply rg_pure_bind; intros u4 Hder%ensure_Ok%bool_decide_eq_true.
  assert (secret_signature_valid r a nonce v sr ss) as Hvalid.
  { exists R, S, pub. apply negb_true_iff in Hmall, Hv. apply orb_false_iff in Hv.
    unfold big_SetBytes in Hmall. split_and!; [done..|lia|lia|lia|done|done]. }
  rg_skip. rg_skip. rewrite Address_String_lower by done.
  apply (rg_bind _ _ (guar_grows r) _ _ _ (λ _ _, True)); [done| |done].
  destruct (isDryrun dryrun); [done|].
  apply (rg_on_err _ _ (guar_grows r)); [done| |done].
  eapply rg_conseq; [| |apply (rg_records r (λ _, True) a)]; [done|done|done|done| |].
  - by apply insert_nonce_secret_records.
  - intros w _. left. by exists nonce, v, sr, ss.
Qed.

(** What minting and claiming share: the arguments are sent to the caller's
    account, which the caller's secret authorises. *)
Lemma rg_act r ctx a use key from args (dryrun : bool) :
  authed_of ctx = true → ctx_eoa ctx = Some a → use = true →
  rgs r (caller_known ctx)
    (SendArguments (SafetyRouterAddr r) use (ChainId r) key from
       (GetClientAddr (AccountsFactoryAddr r) a) args dryrun) (λ _ _, True).
Proof.
  intros Hau Ha ->. eapply rg_conseq;
    [| |apply (rg_SendArguments r (caller_known ctx)); [apply stable_caller|]]; [done|done|].
  intros _ b w signed _ Hw Hc. right. exists a. split; [by exists b|]. by apply Hw.
Qed.

Lemma rg_NinelivesMint r ctx mint dryrun :
  rgs r (caller_known ctx) (NinelivesMint r ctx mint dryrun) (λ _ _, True).
Proof.
  pose proof (stable_caller ctx) as HP. unfold NinelivesMint, guard.
  do 3 (apply rg_pure_bind; intros ? _). apply rg_pure_bind; intros u4 Hau%ensure_Ok.
  apply rg_pure_bind; intros eoa He. destruct (ctx_eoa ctx) as [who|] eqn:Ea; [|done].
  injection He as <-. do 3 rg_skip.
  apply (rg_bind _ _ (guar_grows r) _ _ _ (λ _ _, True)); [done| |].
  - apply (rg_on_err _ _ (guar_grows r)); [done|by apply rg_act|].
    intros e. rg_skip. done.
  - intros h. apply (rg_pre _ _ (caller_known ctx)); [by intros w [H _]|]. rg_skip. done.
Qed.

Lemma rg_ClaimRewards r ctx markets msTs dryrun :
  rgs r (caller_known ctx) (ClaimRewards r ctx markets msTs dryrun) (λ _ _, True).
Proof.
  pose proof (stable_caller ctx) as HP. unfold ClaimRewards, guard.
  apply rg_pure_bind; intros ? _. apply rg_pure_bind; intros u4 Hau%ensure_Ok.
  apply rg_pure_bind; intros eoa He. destruct (ctx_eoa ctx) as [who|] eqn:Ea; [|done].
  injection He as <-. do 3 rg_skip.
  apply (rg_bind _ _ (guar_grows r) _ _ _ (λ _ _, True)); [done| |].
  - apply (rg_on_err _ _ (guar_grows r)); [done|by apply rg_act|].
    intros e. rg_skip. done.
  - intros h. apply (rg_pre _ _ (caller_known ctx)); [by intros w [H _]|]. rg_skip. done.
Qed.

(** The creation of an account is for the address the secret is recorded
    under, mint or not. *)
Lemma tag_mint_eoa r (P : world → Prop) mint a f {B} (k : FreshBackwards → io B)
    (Q : B → world → Prop) :
  (∀ f', FreshBackwards_EoaAddr f' = FreshBackwards_EoaAddr f →
         FreshBackwards_Key f' = FreshBackwards_Key f → rgs r P (k f') Q) →
  rgs r P (tag_mint mint a f ≫= k) Q.
Proof.
  intros Hk. unfold tag_mint. destruct mint as [m|]; [|by apply Hk].
  unfold TagFreshBackwardsWithMintGraph, tag_with. cbv zeta.
  destruct (CreateSolveArgsSigArgsMintGraph _ _ _ _ _ _ _ _ _); cbn; try done. by apply Hk.
Qed.

Lemma rg_CreateAccountExec `{CLaws : !EthCommonLaws} r ctx ca mint dryrun :
  rgs r (λ _, True) (CreateAccountExec r ctx ca mint dryrun) (λ _ _, True).
Proof.
  pose proof stable_True as HP. set (a := HexToAddress (model.EoaAddr ca)).
  assert (length a = 20%nat) as Ha by apply HexToAddress_length.
  unfold CreateAccountExec, guard. fold a.
  apply rg_wrap_pure_bind; intros f Hf%create_account_Ok.
  apply rg_pure_bind; intros u Hhex%ensure_Ok.
  assert (FreshBackwards_EoaAddr f = a) as Heoa.
  { destruct Hf as (_ & [[E _]|[E Hl]] & _).
    - rewrite E, IsHexAddress_empty in Hhex. done.
    - symmetry. by apply HexToAddress_hex. }
  assert (FreshBackwards_Key f = AccPubKey r) as Hkey by apply Hf.
  apply tag_mint_eoa; intros f' Heoa' Hkey'. rewrite Heoa in Heoa'. rewrite Hkey in Hkey'.
  rg_skip. fold (fresh_args f').
  assert (∀ b signed, borsh_Args (fresh_args f') = Ok b →
            carries r false (AccountsFactoryAddr r) b signed → creates r a signed) as Hcr
    by (intros b signed Hb Hc; exists f', b; done).
  apply (rg_bind _ _ (guar_grows r) _ _ _
    (λ _ w, isDryrun dryrun = false → ∃ signed, signed ∈ sent w ∧ creates r a signed)); [done| |].
  - apply (rg_on_err _ _ (guar_grows r)); [done| |].
    + eapply rg_conseq; [| |apply (rg_SendArguments r (λ _, True))]; [done| |done|].
      * intros h w H Hd. destruct (H Hd) as (b & signed & Hb & Hc & Hin). eauto.
      * intros _ b w signed Hb _ Hc. left. exists a. by eapply Hcr.
    + intros e. rg_skip. done.
  - intros h. set (P := λ w : world, isDryrun dryrun = false →
                          ∃ signed, signed ∈ sent w ∧ creates r a signed).
    assert (stable grows P) as HP'.
    { intros w w' H Hg Hd. destruct (H Hd) as (signed & Hin & Hc).
      exists signed. split; [|done]. by eapply stable_sent. }
    apply (rg_pre _ _ P); [by intros w [_ H]|]. rg_skip.
    rewrite Address_String_lower by done.
    apply (rg_bind _ _ (guar_grows r) _ _ _ (λ _ _, True)); [done| |done].
    destruct (isDryrun dryrun) eqn:Hd; [done|].
    apply (rg_bind _ _ (guar_grows r) _ _ _ (λ _ _, True)); [done| |].
    + apply (rg_on_err _ _ (guar_grows r)); [done| |done].
      eapply rg_conseq; [| |apply (rg_records r P a)]; [done|done|done|done| |].
      * by apply insert_secret_2_records.
      * intros w Hw. right. by apply Hw.
    + intros t. apply keeps_rg. keeps_tac.
Qed.
End Operations.
