(* ===== verification/Server.v ===== *)
(** * Server: HTTP requests from arrival to response, served concurrently

    A request passes the middleware (main.go), is executed by the generated
    executor and resolved (graph/), in a goroutine of its own. The theorems
    hold for any arrivals and any interleaving of the effects of the
    requests. *)
From stdpp Require Import base numbers strings list relations.
From Stdlib Require Import Strings.Byte ZArith Lia.
From S2P Require Import Prelude GoStd Types Sha512 External Keccak BorshRef Reference Ninelives.
From S2P Require Import Proxy Convertor ConvertorFacts Db World Schedule RefWorld Client Utils.
From S2P Require Import Resolvers ResolverFacts AccountFacts Auth Mux GraphInput GraphExec.
From S2P Require Import GraphExecFacts Introspection IntrospectionFacts Query QueryFacts Races.
From S2P Require Import Serving.

(** What the executor hands to the transport: data with the errors reported,
    or [graphql.ErrorResponse]. *)
Inductive response `{Graphql} :=
| Data (x : resolved)
| ErrorResponse (message : gostring).

(** gqlgen's HTTP transport: the response it writes for the outcome of an
    operation. *)
Class Transport `{Graphql} := write_response : outcome response → ResponseWriter → ResponseWriter.

(** [ast.Operation]. *)
Inductive Operation := ast_Query | ast_Mutation | ast_Subscription.

(** An HTTP request, for a path and query, with the operation it carries and
    its fields. *)
Record http_request := mk_http_request {
  http : Request;
  URL_Path : gostring;
  URL_RawQuery : gostring;
  kind : Operation;
  document : list CollectedField
}.

Section Server.
Context {UN : Unicode} {AS : Assets} {EC : EthCommon} {CR : EthCrypto} {BO : Borsh}
  {AB : Abi} {EX : Exec} {CL : EthClient} {EN : Env} {PC : PgCalendar} {GF : GoFmt}
  {FL : Float64} {GQ : Gqlgen} {GR : Graphql} {TR : Transport} {PG : Playground}
  {IN : introspection.Introspection} {DI : Dispatcher}.

(** ** The handler *)

(** [executableSchema.Exec], called once: nothing is deferred. *)
Definition executableSchema_Exec (r : Resolver) (op : Operation) (fields : list CollectedField) (ctx : Ctx)
    : io response :=
  match op with
  | ast_Query => data ← _Query r fields; mret (Data data)
  | ast_Mutation => data ← _Mutation r ctx fields; mret (Data data)
  | ast_Subscription => mret (ErrorResponse (lit "unsupported GraphQL operation"))
  end.

(** The server behind the middleware: a panic is answered too. *)
Definition srv (r : Resolver) (op : Operation) (fields : list CollectedField) (ctx : Ctx)
    (rw : ResponseWriter) : io ResponseWriter :=
  recovering (executableSchema_Exec r op fields ctx)
    (λ o, pure match o with
               | Fatal p => Fatal p
               | o => Ok (write_response o rw)
               end).

(** [authMiddleware{db, srv, adminSecret}]. *)
Definition handle (adminSecret : gostring) (r : Resolver) (q : http_request) : io ResponseWriter :=
  ServeHTTP adminSecret (srv r (kind q) (document q)) (http q) fresh_writer.

(** [http.Serve(l, nil)]: a request to the default multiplexer. *)
Definition http_Serve (adminSecret : gostring) (r : Resolver) (q : http_request) : io ResponseWriter :=
  ServeMux (ServeHTTP adminSecret (srv r (kind q) (document q))) (http q) (URL_Path q)
    (URL_RawQuery q) fresh_writer.

(** ** The guarantee of a handler *)

Section Guarantee.
Context {CLaws : EthCommonLaws} {GQL : GqlgenLaws} {GRL : GraphqlLaws}
  {INL : introspection.IntrospectionLaws} {DIL : DispatcherLaws}.

Lemma rg_ResolveField r (P : world → Prop) {I T} field (init : outcome I * list gostring)
    (resolver : I → io T) marshal nn :
  stable grows P → (∀ fc, rgs r P (resolver fc) (λ _ _, True)) → (∀ v, calm (marshal v)) →
  rgs r P (ResolveField field init resolver marshal nn) (λ _ _, True).
Proof.
  intros HP Hr Hm. rewrite ResolveField_spec. destruct init.1 as [fc|e|p|p]; [|done..].
  apply (rg_recovering _ _ (guar_grows r) _ _ _ (λ _ _, True)); [done| |done|by intros []].
  apply (rg_bind _ _ (guar_grows r) _ _ _ (λ _ _, True)); [done|apply Hr|].
  intros v. apply keeps_rg. by apply calm_keeps.
Qed.

Lemma rg_forget r (P : world → Prop) {A B} (m : io A) (f : A → B) :
  stable grows P → rgs r P m (λ _ _, True) → rgs r P (x ← m; mret (f x)) (λ _ _, True).
Proof. intros HP Hm. by apply (rg_bind _ _ (guar_grows r) _ _ _ (λ _ _, True)). Qed.

Lemma calm_marshal_string s : calm (marshalNString2string s).
Proof. done. Qed.

Lemma calm_marshal_account fields v : calm (marshalOCreateAccountExec fields v).
Proof. destruct v; [apply calm_CreateAccountExec|done]. Qed.

Lemma rg_mutation_field r ctx f :
  rgs r (caller_known ctx) (mutation_field r ctx f) (λ _ _, True).
Proof.
  pose proof (stable_caller ctx) as HP. unfold mutation_field. repeat case_decide; [done|..|done];
    apply rg_forget; try done; rewrite RootResolverMiddleware_id; apply rg_ResolveField;
    try done; try apply calm_marshal_string; try apply calm_marshal_account;
    intros [fc [[c mint|a n v sr ss|mint|l t] dry]]; cbn [snd]; try done.
  - apply rg_forget; [done|]. eapply rg_pre; [|apply rg_CreateAccountExec]. done.
  - eapply rg_pre; [|apply rg_RequestSecret]. done.
  - apply rg_NinelivesMint.
  - apply rg_ClaimRewards.
Qed.

Lemma rg_object r (P : world → Prop) F fields :
  stable grows P → (∀ f, rgs r P (F f) (λ _ _, True)) → rgs r P (object F fields) (λ _ _, True).
Proof.
  intros HP HF. apply rg_forget; [done|].
  induction fields as [|f fields IH]; [done|].
  apply (rg_bind _ _ (guar_grows r) _ _ _ (λ _ _, True)); [done|apply HF|].
  intros x. apply (rg_pre _ _ P); [by intros w [H _]|]. by apply rg_forget.
Qed.

Lemma reading_inert w w' : reading w w' → inert w w'.
Proof. intros (Hd & Ht & _). split; [unfold sent; by rewrite Ht|]. by rewrite Hd. Qed.

Lemma rg_srv r op fields ctx rw :
  rgs r (caller_known ctx) (srv r op fields ctx rw) (λ _ _, True).
Proof.
  pose proof (stable_caller ctx) as HP.
  apply (rg_recovering _ _ (guar_grows r) _ _ _ (λ _ _, True)); [done| |done|by intros []].
  destruct op; [| |done]; apply rg_forget; try done.
  - apply keeps_rg, keeps_quiet_guar, keeps_inert_quiet. eapply keeps_mono; [|apply Query_mild].
    apply reading_inert.
  - apply rg_object; [done|]. intros f. apply rg_mutation_field.
Qed.

(** The answer of the secrets' lookup. *)
Lemma rg_count_secrets r a secret :
  rgs r (λ _, True) (db_run (count_secrets (addr_lower a) (ToLower secret)))
    (λ n w, n ≠ 0 → account_holder a w).
Proof.
  apply rg_perform. intros w _.
  assert (inert w (exec (EDb (count_secrets (addr_lower a) (ToLower secret))) w).2) as Hi.
  { cbn. unfold exec_db. by destruct (env_db (w_tick w)). }
  split; [by apply quiet_guar, inert_quiet|]. intros n w' Hn Hg Hne.
  eapply stable_holder; [|exact Hg]. exists secret.
  cbn in Hn |- *. unfold exec_db in *. destruct (env_db (w_tick w)); try done. cbn in *.
  destruct (count_secrets_spec a secret (env_now (w_tick w)) (w_db w) _ _ eq_refl) as [_ Hs].
  apply Hs. by injection Hn as <-.
Qed.

Lemma unauthed_known ctx w : authed_of ctx = false → caller_known ctx w.
Proof. intros H1 H2. congruence. Qed.

Lemma rg_handle adminSecret r q :
  rgs r (λ _, True) (handle adminSecret r q) (λ _ _, True).
Proof.
  pose proof stable_True as HP. unfold handle, ServeHTTP.
  set (next := srv r (kind q) (document q)). set (rw := set_cors (Header_Origin (http q)) fresh_writer).
  assert (∀ ctx, authed_of ctx = false → rgs r (λ _, True) (next ctx rw) (λ _ _, True)) as Hno.
  { intros ctx Hc. eapply rg_pre; [|apply rg_srv]. intros w _. by apply unauthed_known. }
  case_decide; [done|]. rg_skip. case_decide; [by apply Hno|]. case_decide; [by apply Hno|].
  destruct (Split _ _) as [|x [|y [|z l]]]; try done.
  destruct (IsHexAddress x); cbn [negb]; [|done]. destruct (hex_DecodeString y); try done.
  rewrite Address_String_lower, HexToAddress_lower by apply HexToAddress_length.
  eapply (rg_bind _ _ (guar_grows r)); [done|apply (rg_fatal _ _ (guar_grows r)); [done|apply rg_count_secrets]|].
  intros n. destruct (Z.eqb_spec n 0) as [|Hn]; [done|].
  eapply rg_pre; [|apply rg_srv].
  intros w [_ Hw] _ who [= <-]. by apply Hw.
Qed.

Lemma rg_http_Serve adminSecret r q :
  rgs r (λ _, True) (http_Serve adminSecret r q) (λ _ _, True).
Proof. unfold http_Serve, ServeMux. destruct (route _ _); try done. apply rg_handle. Qed.

(** ** What the server does over time *)

Lemma stable_entitled r a : stable grows (entitled r a).
Proof.
  intros w w' [H|(signed & Hin & Hc)] Hg; [by left|]. right. exists signed.
  split; [by eapply stable_sent|done].
Qed.

Lemma stable_authorised r signed : stable grows (authorised r signed).
Proof.
  intros w w' [H|(a & Ha & Hh)] Hg; [by left|]. right. exists a. split; [done|].
  by eapply stable_holder.
Qed.

(** The guarantees of the steps add up. *)
Lemma guar_rtc r w w' :
  rtc (guar r) w w' →
  grows w w'
  ∧ (∀ row, row ∈ accounts_secrets_2 (w_db w') →
       row ∈ accounts_secrets_2 (w_db w)
       ∨ ∃ a, length a = 20%nat ∧ sr_eoa_addr row = addr_lower a ∧ entitled r a w')
  ∧ (∀ signed, signed ∈ sent w' → signed ∈ sent w ∨ authorised r signed w').
Proof.
  induction 1 as [w|w w1 w' (Hg & Hrow & Htx) _ (IHg & IHrow & IHtx)]; [naive_solver|].
  split; [by etrans|]. assert (grows w w') as Hgg by (by etrans). split.
  - intros row Hin. destruct (IHrow row Hin) as [Hin1|?]; [|by right].
    destruct (Hrow row Hin1) as [?|(a & Ha & Hr & He)]; [by left|].
    right. exists a. split; [done|]. split; [done|]. by eapply stable_entitled.
  - intros signed Hin. destruct (IHtx signed Hin) as [Hin1|?]; [|by right].
    destruct (Htx signed Hin1) as [?|Ha]; [by left|]. right. by eapply stable_authorised.
Qed.

Lemma handlers_guar adminSecret r l w l' w' :
  l = [] → rtc (serving (http_Serve adminSecret r)) (l, w) (l', w') → rtc (guar r) w w'.
Proof.
  intros -> Hs.
  apply (serving_sound grows (guar r) (guar_grows r) (http_Serve adminSecret r) (λ _ _ _, True)) in Hs
    as [H _]; [done| |].
  - intros q. apply rg_http_Serve.
  - intros i q t Hi. done.
Qed.

Lemma addr_lower_trimmed a : rtrim (addr_lower a) = addr_lower a.
Proof. apply rtrim_nospace. repeat (constructor; [done|]). apply hex_nospace. Qed.

Lemma addr_lower_inj a b : addr_lower a = addr_lower b → a = b.
Proof. unfold addr_lower. intros E. apply app_inv_head, hex_encode_inj in E. done. Qed.

(** C1: the server acts only for owners, whatever arrives and however the
    effects of the requests interleave. Started with no secrets on record,
    every transaction it has ever sent since either asks the factory for an
    account, or goes through the router to the account of an address that was
    entitled to a secret: one whose signature over a request's message was
    valid, or whose account creation had been sent. *)
Theorem server_acts_for_owners (adminSecret : gostring) (r : Resolver)
    (w : world) (l : pool http_request ResponseWriter) (w' : world) (signed : SignedTx) :
  accounts_secrets_2 (w_db w) = [] →
  rtc (serving (http_Serve adminSecret r)) ([], w) (l, w') →
  signed ∈ sent w' →
  signed ∈ sent w
  ∨ (∃ a, creates r a signed)
  ∨ ∃ a, acts_for r a signed ∧ entitled r a w'.
Proof.
  intros Hw Hs Hin. apply handlers_guar, guar_rtc in Hs as (_ & Hrow & Htx); [|done].
  destruct (Htx signed Hin) as [?|[Hc|(a & Ha & secret & row & s & Hr & Heq & _)]]; [by left|by eauto|].
  right; right. exists a. split; [done|].
  destruct (Hrow row Hr) as [Hr0|(b & Hb & Hrb & He)]; [rewrite Hw in Hr0; by apply not_elem_of_nil in Hr0|].
  rewrite Hrb, !addr_lower_trimmed in Heq. apply addr_lower_inj in Heq as ->. done.
Qed.

(** C14: secrets are only recorded for those entitled to them, under any
    interleaving: a row of the secrets table that was not there at the start
    belongs to an address with a valid signature over a request's message, or
    whose account creation has been sent. *)
Theorem server_secret_provenance (adminSecret : gostring) (r : Resolver)
    (w : world) (l : pool http_request ResponseWriter) (w' : world) (row : secret_row) :
  rtc (serving (http_Serve adminSecret r)) ([], w) (l, w') →
  row ∈ accounts_secrets_2 (w_db w') →
  row ∈ accounts_secrets_2 (w_db w)
  ∨ ∃ a, length a = 20%nat ∧ sr_eoa_addr row = addr_lower a ∧ entitled r a w'.
Proof.
  intros Hs Hin. apply handlers_guar, guar_rtc in Hs as (_ & Hrow & _); [|done]. by apply Hrow.
Qed.

(** C15: whatever requests arrive and however their effects interleave, the
    records of secrets, nonces and transactions and the list of transactions
    sent are only ever appended to, and the sender keys never change. *)
Theorem server_append_only (adminSecret : gostring) (r : Resolver)
    (w : world) (l : pool http_request ResponseWriter) (w' : world) :
  rtc (serving (http_Serve adminSecret r)) ([], w) (l, w') → grows w w'.
Proof. intros Hs. by apply handlers_guar, guar_rtc in Hs as [Hg _]. Qed.

(** ** Every request is answered *)

Lemma costs_mutation_field r ctx f : costs one 12 (mutation_field r ctx f).
Proof.
  unfold mutation_field. repeat case_decide; [done|..|done]; apply costs_forget;
    rewrite RootResolverMiddleware_id; apply costs_ResolveField;
    try apply calm_marshal_string; try apply calm_marshal_account;
    intros [fc [[c mint|a n v sr ss|mint|l t] dry]]; cbn [snd]; try done.
  - apply costs_forget, costs_CreateAccountExec.
  - apply costs_RequestSecret.
  - apply costs_NinelivesMint.
  - apply costs_ClaimRewards.
Qed.

Lemma costs_object n F fields :
  (∀ f, costs one n (F f)) → costs one (n * length fields) (object F fields).
Proof.
  intros HF. apply costs_forget. induction fields as [|f fields IH]; [done|].
  cbn [length object_fields]. rewrite Nat.mul_succ_r, Nat.add_comm. apply costs_bind; [done|].
  intros x. by apply costs_forget.
Qed.

(** The clock, the lookup of the secret, and the operations. *)
Definition effects_bound (q : http_request) : nat := 2 + 12 * length (document q).

Lemma costs_handle adminSecret r q : costs one (effects_bound q) (handle adminSecret r q).
Proof.
  assert (∀ ctx rw n, (12 * length (document q) ≤ n)%nat →
            costs one n (srv r (kind q) (document q) ctx rw)) as Hexec.
  { intros ctx rw n Hn. apply (costs_mono _ (12 * length (document q) + 0)); [lia|].
    apply costs_recovering; [|done]. destruct (kind q); [| |done]; apply costs_forget.
    - apply (costs_mono _ (length (document q))); [lia|]. apply Query_mild.
    - apply costs_object, costs_mutation_field. }
  unfold effects_bound, handle, ServeHTTP. case_decide; [done|]. spend 1%nat; [by split|].
  case_decide; [apply Hexec; lia|]. case_decide; [apply Hexec; lia|].
  destruct (Split _ _) as [|x [|y [|z l]]]; try done. destruct (negb (IsHexAddress x)); [done|].
  destruct (hex_DecodeString y); try done. spend 1%nat; [apply costs_fatal, costs_db; lia|].
  destruct (_ =? 0); [done|]. apply Hexec. lia.
Qed.

Lemma costs_http_Serve adminSecret r q :
  costs one (effects_bound q) (http_Serve adminSecret r q).
Proof. unfold http_Serve, ServeMux. destruct (route _ _); try done. apply costs_handle. Qed.

(** C16: every request is answered. Whatever has arrived so far and however it
    was interleaved, without further arrivals no schedule performs more than
    two effects per request and twelve per field of its operation; a schedule
    that cannot continue has answered every request, or a request has ended
    the process; and there is such a schedule. *)
Theorem server_terminates (adminSecret : gostring) (r : Resolver) (w : world)
    (l : pool http_request ResponseWriter) (w' : world) :
  rtc (serving (http_Serve adminSecret r)) ([], w) (l, w') →
  (∀ n c, nsteps effect_step n (l, w') c → (n ≤ sum_list (map (λ p, effects_bound p.1) l))%nat)
  ∧ (∀ l1 w1, rtc effect_step (l, w') (l1, w1) → (¬ ∃ c, effect_step (l1, w1) c) → settled l1)
  ∧ ∃ l1 w1, rtc effect_step (l, w') (l1, w1) ∧ settled l1.
Proof.
  intros Hs. apply (bounded_serving effects_bound) in Hs; [|apply costs_http_Serve|by constructor].
  split; [intros n c; by apply bounded_nsteps|]. split; [|by eapply bounded_settles].
  intros l1 w1 _ Hn. by destruct (effect_or_settled l1 w1).
Qed.
End Guarantee.
End Server.

(** * A reference server *)

#[export] Instance ref_transport : Transport := λ o rw, rw.
#[export] Instance ref_playground : Playground := λ r rw, rw.

(** A request without a bearer that creates an account. *)
Definition ref_http_request : http_request :=
  mk_http_request (ref_http []) (lit "/") [] ast_Mutation
    [ref_field "account" (createAccountExec ref_create None)
       [mk_CollectedField (lit "secret") (lit "secret") [] []]].

Abbreviation ref_served := (http_Serve [] ref_resolver ref_http_request ref_world).

Lemma ref_serving :
  rtc (serving (http_Serve [] ref_resolver)) ([], ref_world)
    ([(ref_http_request, Done ref_served.1)], ref_served.2).
Proof.
  eapply rtc_l; [apply (serving_arrival _ []), Forall_nil_2|].
  eapply rtc_subrel; [|apply (run_schedule []), Forall_nil_2]. intros c c'. apply serving_effect.
Qed.

(** A transaction was sent and a secret recorded. *)
Lemma ref_served_effects :
  match sent ref_served.2, accounts_secrets_2 (w_db ref_served.2) with
  | _ :: _, _ :: _ => true
  | _, _ => false
  end = true.
Proof. vm_compute. reflexivity. Qed.

Lemma server_acts_for_owners_witness :
  ∃ signed, signed ∈ sent ref_served.2
    ∧ (signed ∈ sent ref_world
       ∨ (∃ a, creates ref_resolver a signed)
       ∨ ∃ a, acts_for ref_resolver a signed ∧ entitled ref_resolver a ref_served.2).
Proof.
  pose proof ref_served_effects as H. destruct (sent ref_served.2) as [|signed l] eqn:E; [done|].
  exists signed. assert (signed ∈ sent ref_served.2) as Hin by (rewrite E; apply list_elem_of_here).
  split; [apply list_elem_of_here|].
  exact (server_acts_for_owners [] ref_resolver ref_world _ _ signed eq_refl ref_serving Hin).
Defined.

Lemma server_secret_provenance_witness :
  ∃ row, row ∈ accounts_secrets_2 (w_db ref_served.2)
    ∧ (row ∈ accounts_secrets_2 (w_db ref_world)
       ∨ ∃ a, length a = 20%nat ∧ sr_eoa_addr row = addr_lower a
              ∧ entitled ref_resolver a ref_served.2).
Proof.
  pose proof ref_served_effects as H.
  destruct (accounts_secrets_2 (w_db ref_served.2)) as [|row l] eqn:E; [by destruct (sent _)|].
  exists row. split; [apply list_elem_of_here|].
  apply (server_secret_provenance [] ref_resolver ref_world _ _ row ref_serving).
  rewrite E. apply list_elem_of_here.
Defined.

Lemma server_append_only_witness : grows ref_world ref_served.2.
Proof. exact (server_append_only [] ref_resolver ref_world _ _ ref_serving). Defined.

Lemma server_terminates_witness :
  ∃ l w', rtc effect_step ([(ref_http_request, http_Serve [] ref_resolver ref_http_request)], ref_world) (l, w')
    ∧ settled l.
Proof.
  apply (server_terminates [] ref_resolver ref_world).
  apply rtc_once. apply (serving_arrival _ []), Forall_nil_2.
Defined.
