(* ===== verification/Chain.v ===== *)
(** * Chain: contract code, and the chain it runs on

    The account contract is Rust compiled for Stylus, called through proxies.
    A run of it is a [prog]: a finite tree of the effects on the host (storage,
    calls to other contracts, creation of a proxy), each followed by what the
    code does with the answer. [exec] runs a program on a [chain], the storage
    of every account proxy there is. What other contracts do is an [env]: for
    each call the reply, and the transactions the callee sends back into the
    accounts before it replies, so every reentrancy is some [env]. A call to an
    account runs the account's code again. A panic undoes everything the call
    did.

    [wp] is a program logic for [prog]: a contract (a precondition and a
    postcondition of every call into an account) is assumed of nested calls
    and proved of the code; [invoke_sound] says that it then holds of every
    run in every environment. *)
From stdpp Require Import base numbers strings list gmap.
From Stdlib Require Import Strings.Byte ZArith Lia.
From S2P Require Import Prelude GoStd.

#[global] Arguments be_split : simpl never.
#[global] Arguments zeros : simpl never.
#[global] Arguments lit : simpl never.

(** A 32-byte word ([bobcat_sdk::maths::U]) and a 20-byte address. *)
Abbreviation word := (list byte).
Abbreviation address := (list byte).

Definition U_ZERO : word := zeros 32.
Definition U_ONE : word := be_split 32 1.
Definition U_MAX : word := replicate 32 xff.
Definition u64_MAX : Z := 2 ^ 64 - 1.

(** ** Programs *)

(** Which of the SDK's functions makes the call: they differ in what they
    make of the returned data, which is part of the reply here. *)
Inductive call_kind :=
| call_unit
| safe_call_unit
| safe_call_bool
| call_word.
#[export] Instance call_kind_eq_dec : EqDecision call_kind.
Proof. solve_decision. Defined.

Record call := mk_call {
  c_kind : call_kind;
  c_to : address;
  c_cd : bytes;
  c_value : word;
  c_gas : Z
}.
#[export] Instance call_eq_dec : EqDecision call.
Proof. solve_decision. Defined.

(** The callee's success, the data of its revert, the word it returned. *)
Record reply := mk_reply {
  r_ok : bool;
  r_data : option bytes;
  r_word : word
}.

(** The creation code of a proxy, by the beacon in it. *)
Inductive init_code := metamorphic_beacon_proxy (beacon : address).

Inductive prog (A : Type) : Type :=
| Return (a : A)
| Panicked (why : gostring)
| Reverted (data : option bytes)
| Load (slot : word) (k : word → prog A)
| Store (slot v : word) (k : prog A)
| WriteWord (w : word) (k : prog A)
| Call (c : call) (k : reply → prog A)
| StaticCallBool (to : address) (cd : bytes) (gas : Z) (k : bool → prog A)
| CodeHash (a : address) (k : word → prog A)
| Create2 (code : init_code) (value : word) (seed : bytes) (k : option address → prog A).
Arguments Return {_} _.
Arguments Panicked {_} _.
Arguments Reverted {_} _.
Arguments Load {_} _ _.
Arguments Store {_} _ _ _.
Arguments WriteWord {_} _ _.
Arguments Call {_} _ _.
Arguments StaticCallBool {_} _ _ _ _.
Arguments CodeHash {_} _ _.
Arguments Create2 {_} _ _ _ _.

Fixpoint prog_then {A B} (p : prog A) (f : A → prog B) : prog B :=
  match p with
  | Return a => f a
  | Panicked w => Panicked w
  | Reverted d => Reverted d
  | Load s k => Load s (λ w, prog_then (k w) f)
  | Store s v k => Store s v (prog_then k f)
  | WriteWord w k => WriteWord w (prog_then k f)
  | Call c k => Call c (λ r, prog_then (k r) f)
  | StaticCallBool t cd g k => StaticCallBool t cd g (λ b, prog_then (k b) f)
  | CodeHash a k => CodeHash a (λ w, prog_then (k w) f)
  | Create2 i v s k => Create2 i v s (λ o, prog_then (k o) f)
  end.

(** [let x = m; f] and [m; f]. *)
Notation "'let!' x := m 'in' f" := (prog_then m (λ x, f))
  (at level 200, x name, m at level 200, f at level 200).
Notation "m ;;; f" := (prog_then m (λ _ : unit, f))
  (at level 100, f at level 200, right associativity).

(** [assert!(b, why)]. *)
Definition assert_ (b : bool) (why : string) : prog unit :=
  if b then Return tt else Panicked (lit why).

(** [o.unwrap()]. *)
Definition unwrap {A} (o : option A) : prog A :=
  match o with
  | Some a => Return a
  | None => Panicked (lit "called `Option::unwrap()` on a `None` value")
  end.

(** [for x in l { f(x) }]. *)
Fixpoint for_each {A} (l : list A) (f : A → prog unit) : prog unit :=
  match l with
  | [] => Return tt
  | x :: l' => f x ;;; for_each l' f
  end.

(** ** The chain *)

(** An account proxy: [beacon] is the contract whose implementation it is
    migrated with, none for the factory's own proxy. *)
Record account := mk_account {
  beacon : option address;
  storage : gmap word word
}.

(** What a run leaves behind, in order. *)
Inductive event :=
| Called (by_ : address) (c : call)
| Hashed (by_ a : address) (h : word)
| Asked (by_ to : address) (cd : bytes) (answer : bool)
| Invoked (to sender : address) (cd : bytes)
(** A proxy has delegated a call to other code than the contract's, which ran
    on the storage of [to]. What it did there is not followed. *)
| Foreign (to sender : address) (cd : bytes).

Record chain := mk_chain {
  accounts : gmap address account;
  events : list event
}.

Definition slot_of (m : gmap word word) (s : word) : word := default U_ZERO (m !! s).

Definition load (c : chain) (a : address) (s : word) : word :=
  slot_of (from_option storage ∅ (accounts c !! a)) s.

Definition store_in (s v : word) (acc : account) : account :=
  mk_account (beacon acc) (<[s := v]> (storage acc)).
Definition store (c : chain) (a : address) (s v : word) : chain :=
  mk_chain (alter (store_in s v) a (accounts c)) (events c).

Definition emit_event (ev : event) (c : chain) : chain :=
  mk_chain (accounts c) (events c ++ [ev]).

Definition create (c : chain) (a b : address) : chain :=
  mk_chain (<[a := mk_account (Some b) ∅]> (accounts c)) (events c).

(** ** The environment *)

Inductive env : Type :=
| EnvEnd
| EnvAnswer (inner : list invocation) (r : reply) (rest : env)
| EnvRun (e : env) (r : reply) (rest : env)
with invocation : Type :=
| Inv (to sender : address) (cd : bytes) (e : env).

Section env_ind.
Context (P : env → Prop).
Hypothesis P_end : P EnvEnd.
Hypothesis P_answer : ∀ inner r rest,
  Forall (λ i, match i with Inv _ _ _ e => P e end) inner → P rest →
  P (EnvAnswer inner r rest).
Hypothesis P_run : ∀ e r rest, P e → P rest → P (EnvRun e r rest).

Fixpoint env_ind_nested (e : env) : P e :=
  match e with
  | EnvEnd => P_end
  | EnvAnswer inner r rest =>
      P_answer inner r rest
        ((fix go (l : list invocation) : Forall (λ i, match i with Inv _ _ _ e => P e end) l :=
            match l with
            | [] => @List.Forall_nil _ _
            | Inv t s cd e' as i :: l' => @List.Forall_cons _ _ i l' (env_ind_nested e') (go l')
            end) inner)
        (env_ind_nested rest)
  | EnvRun e' r rest => P_run e' r rest (env_ind_nested e') (env_ind_nested rest)
  end.
End env_ind.

(** The code of the accounts: what the proxy at an address runs when called,
    whether that is the contract's code, whether it is other code, and where
    creation puts a proxy. *)
Class Deployed := {
  code : gmap address account → address → address → bytes → prog Z;
  runs : gmap address account → address → address → bytes → bool;
  foreign : gmap address account → address → address → bytes → bool;
  create2_at : address → init_code → bytes → address
}.

Section Exec.
Context `{Deployed}.

(** A run that does not finish: the gas is used up. *)
Definition out_of_gas {A} : outcome A := Panic (lit "out of gas").

(** The chain after a call that succeeded with status 0, or the chain before
    it. *)
Definition settle (o : outcome (Z * bytes * chain)) (c : chain) : chain :=
  match o with
  | Ok (0, _, c') => c'
  | _ => c
  end.

Definition succeeded (o : outcome (Z * bytes * chain)) : bool :=
  match o with
  | Ok (0, _, _) => true
  | _ => false
  end.

Definition run_reply (kind : call_kind) (ok : bool) (r : reply) : reply :=
  if ok
  then if bool_decide (kind = call_unit) then mk_reply true (r_data r) (r_word r) else r
  else mk_reply false (r_data r) (r_word r).

(** A call that runs other code leaves its mark. *)
Definition mark_foreign (t s : address) (cd : bytes) (c : chain) : chain :=
  if foreign (accounts c) t s cd then emit_event (Foreign t s cd) c else c.

Fixpoint exec (e : env) (this : address) {struct e}
    : prog Z → bytes → chain → outcome (Z * bytes * chain) :=
  fix go (p : prog Z) (out : bytes) (c : chain) {struct p} :=
    match p with
    | Return rc => Ok (rc, out, c)
    | Panicked w => Panic w
    | Reverted d => Err (default [] d)
    | Load s k => go (k (load c this s)) out c
    | Store s v k => go k out (store c this s v)
    | WriteWord w k => go k w c
    | Call cl k =>
        let c1 := emit_event (Called this cl) c in
        match e with
        | EnvEnd => out_of_gas
        | EnvAnswer inner r rest =>
            if runs (accounts c) (c_to cl) this (c_cd cl) then out_of_gas
            else
              let invoke_all :=
                fix invoke_all (l : list invocation) (d : chain) : chain :=
                  match l with
                  | [] => d
                  | Inv t s cd e' :: l' =>
                      invoke_all l'
                        (if runs (accounts d) t s cd
                         then settle (exec e' t (code (accounts d) t s cd) []
                                   (emit_event (Invoked t s cd) d)) d
                         else mark_foreign t s cd d)
                  end in
              exec rest this (k r) out
                (if r_ok r then invoke_all inner (mark_foreign (c_to cl) this (c_cd cl) c1) else c)
        | EnvRun e' r rest =>
            if runs (accounts c) (c_to cl) this (c_cd cl) then
              let o := exec e' (c_to cl) (code (accounts c) (c_to cl) this (c_cd cl)) []
                         (emit_event (Invoked (c_to cl) this (c_cd cl)) c1) in
              exec rest this (k (run_reply (c_kind cl) (succeeded o) r)) out (settle o c)
            else out_of_gas
        end
    | StaticCallBool t cd _ k =>
        match e with
        | EnvAnswer _ r rest =>
            exec rest this (k (r_ok r)) out (emit_event (Asked this t cd (r_ok r)) c)
        | _ => out_of_gas
        end
    | CodeHash a k =>
        match e with
        | EnvAnswer _ r rest =>
            exec rest this (k (r_word r)) out (emit_event (Hashed this a (r_word r)) c)
        | _ => out_of_gas
        end
    | Create2 (metamorphic_beacon_proxy b as i) _ seed k =>
        let a := create2_at this i seed in
        match e with
        | EnvAnswer _ r rest =>
            if r_ok r && bool_decide (accounts c !! a = None)
            then exec rest this (k (Some a)) out (create c a b)
            else exec rest this (k None) out c
        | _ => out_of_gas
        end
    end.

(** A call into an account from outside: a transaction, or a step of another
    contract. *)
Definition invoke (e : env) (to sender : address) (cd : bytes) (c : chain)
    : outcome (Z * bytes * chain) :=
  if runs (accounts c) to sender cd
  then exec e to (code (accounts c) to sender cd) [] (emit_event (Invoked to sender cd) c)
  else Err (lit "not an account").

(** The chain after such a call. *)
Definition transact (e : env) (t s : address) (cd : bytes) (c : chain) : chain :=
  if runs (accounts c) t s cd then settle (invoke e t s cd c) c else mark_foreign t s cd c.

Fixpoint invoke_all (l : list invocation) (c : chain) : chain :=
  match l with
  | [] => c
  | Inv t s cd e :: l' => invoke_all l' (transact e t s cd c)
  end.

(** ** The program logic *)

Class Contract := {
  Pre : chain → address → address → bytes → Prop;
  Post : chain → address → address → bytes → chain → Prop;
  (** What holds whenever code outside the accounts runs. *)
  Quiet : chain → Prop;
  (** What such code may do to the accounts. *)
  Evolves : chain → chain → Prop
}.

Class ContractLaws `{Contract} : Prop := {
  quiet_pre c t s cd : Quiet c → runs (accounts c) t s cd = true → Pre c t s cd;
  post_evolves c t s cd c' : Quiet c → Post c t s cd c' → Quiet c' ∧ Evolves c c';
  foreign_evolves c t s cd :
    Quiet c → foreign (accounts c) t s cd = true →
    Quiet (emit_event (Foreign t s cd) c) ∧ Evolves c (emit_event (Foreign t s cd) c);
  evolves_refl c : Evolves c c;
  evolves_trans c1 c2 c3 : Evolves c1 c2 → Evolves c2 c3 → Evolves c1 c3
}.

Section Wp.
Context `{Contract}.

Fixpoint wp {A} (this : address) (p : prog A) (out : bytes) (c : chain)
    (Q : A → bytes → chain → Prop) {struct p} : Prop :=
  match p with
  | Return rc => Q rc out c
  | Panicked _ | Reverted _ => True
  | Load s k => wp this (k (load c this s)) out c Q
  | Store s v k => wp this k out (store c this s v) Q
  | WriteWord w k => wp this k w c Q
  | Call cl k =>
      let c1 := emit_event (Called this cl) c in
      (∀ r, r_ok r = false → wp this (k r) out c Q)
      ∧ if runs (accounts c) (c_to cl) this (c_cd cl)
        then Pre c1 (c_to cl) this (c_cd cl)
             ∧ ∀ c' r, Post c1 (c_to cl) this (c_cd cl) c' →
                       (c_kind cl = call_unit → r_ok r = true) → wp this (k r) out c' Q
        else Quiet c1
             ∧ ∀ c' r, Quiet c' → Evolves c1 c' → r_ok r = true → wp this (k r) out c' Q
  | StaticCallBool t cd _ k => ∀ b, wp this (k b) out (emit_event (Asked this t cd b) c) Q
  | CodeHash a k => ∀ w, wp this (k w) out (emit_event (Hashed this a w) c) Q
  | Create2 (metamorphic_beacon_proxy b as i) _ seed k =>
      let a := create2_at this i seed in
      (accounts c !! a = None → wp this (k (Some a)) out (create c a b) Q)
      ∧ wp this (k None) out c Q
  end.

Lemma wp_bind {A B} this (p : prog A) (f : A → prog B) out c Q :
  wp this p out c (λ a out' c', wp this (f a) out' c' Q) → wp this (prog_then p f) out c Q.
Proof.
  revert out c.
  induction p as [a|w|d|s k IH|s v k IH|w k IH|cl k IH|t cd g k IH|h k IH|[b] v sd k IH];
    intros out c; cbn; auto.
  - intros [Hf Hs]. split; [eauto|]. case_match; naive_solver.
  - naive_solver.
Qed.

Lemma wp_mono {A} this (p : prog A) out c (Q Q' : A → bytes → chain → Prop) :
  (∀ a out c, Q a out c → Q' a out c) → wp this p out c Q → wp this p out c Q'.
Proof.
  intros HQ. revert out c.
  induction p as [a|w|d|s k IH|s v k IH|w k IH|cl k IH|t cd g k IH|h k IH|[b] v sd k IH];
    intros out c; cbn; auto.
  - intros [Hf Hs]. split; [eauto|]. case_match; naive_solver.
  - naive_solver.
Qed.

Lemma wp_assoc {A B C} this (p : prog A) (f : A → prog B) (g : B → prog C) out c Q :
  wp this (prog_then (prog_then p f) g) out c Q →
  wp this (prog_then p (λ a, prog_then (f a) g)) out c Q.
Proof.
  revert out c.
  induction p as [a|w|d|s k IH|s v k IH|w k IH|cl k IH|t cd ga k IH|h k IH|[b] v sd k IH];
    intros out c; cbn; auto.
  - intros [Hf Hs]. split; [eauto|]. case_match; naive_solver.
  - naive_solver.
Qed.

Context {CL : ContractLaws}.

(** The code meets the contract. *)
Hypothesis code_ok : ∀ c t s cd,
  Pre c t s cd →
  wp t (code (accounts c) t s cd) [] (emit_event (Invoked t s cd) c)
    (λ rc _ c', rc = 0 → Post c t s cd c').

(** The runs in an environment, and those the environment itself starts,
    meet what [wp] says. *)
Definition env_sound (e : env) : Prop :=
  ∀ this p out c Q rc out' c',
    wp this p out c Q → exec e this p out c = Ok (rc, out', c') → Q rc out' c'.

Lemma mark_quiet t s cd c :
  Quiet c → Quiet (mark_foreign t s cd c) ∧ Evolves c (mark_foreign t s cd c).
Proof.
  intros Hq. unfold mark_foreign. case_match eqn:E; [by apply foreign_evolves|].
  auto using evolves_refl.
Qed.

Lemma settle_quiet e t s cd c :
  env_sound e → Quiet c → runs (accounts c) t s cd = true →
  let c' := settle (exec e t (code (accounts c) t s cd) [] (emit_event (Invoked t s cd) c)) c in
  Quiet c' ∧ Evolves c c'.
Proof.
  intros He Hq Hr. cbn. destruct (exec _ _ _ _ _) as [[[rc out] c']| | |] eqn:E; cbn;
    auto using evolves_refl.
  destruct (decide (rc = 0)) as [->|]; [|destruct rc; cbn; auto using evolves_refl; done].
  eapply post_evolves; [done|].
  exact (He _ _ _ _ _ _ _ _ (code_ok c t s cd (quiet_pre _ _ _ _ Hq Hr)) E eq_refl).
Qed.

Lemma exec_sound e : env_sound e.
Proof.
  induction e as [|inner r rest Hin IHr|e r rest IHe IHr] using env_ind_nested;
    intros this p; induction p as
      [a|w|d|s k IH|s v k IH|w k IH|cl k IH|t cd g k IH|h k IH|[b] v sd k IH];
    intros out c Q rc out' c' Hw E; cbn in Hw, E; try discriminate E;
    try (by simplify_eq); try (by eapply IH); try (by eapply IHr).
  - destruct Hw as [Hf Hs]. destruct (runs _ _ _ _) eqn:Hr; [discriminate E|].
    destruct Hs as [Hq Hs].
    destruct (r_ok r) eqn:Hok; [|eapply IHr; [|exact E]; by apply Hf].
    eapply IHr; [|exact E].
    match goal with |- wp _ _ _ ?d _ => set (d1 := d) end.
    enough (Quiet d1 ∧ Evolves (emit_event (Called this cl) c) d1) as [? ?] by (by apply Hs).
    subst d1. clear -Hin Hq code_ok CL.
    destruct (mark_quiet (c_to cl) this (c_cd cl) _ Hq) as [Hq1 Hv1]. revert Hq1 Hv1.
    generalize (mark_foreign (c_to cl) this (c_cd cl) (emit_event (Called this cl) c)).
    generalize (emit_event (Called this cl) c). clear Hq. intros c0.
    induction Hin as [|[t s cd e] l He _ IHl]; intros d Hd Hv; [done|]. apply IHl.
    + destruct (runs (accounts d) t s cd) eqn:Hr; [by apply settle_quiet|by apply mark_quiet].
    + eapply evolves_trans; [exact Hv|].
      destruct (runs (accounts d) t s cd) eqn:Hr; [by apply settle_quiet|by apply mark_quiet].
  - destruct (r_ok r && _) eqn:Hc.
    + apply andb_true_iff in Hc as [_ Hc%bool_decide_eq_true].
      eapply IHr; [|exact E]. by apply Hw.
    + eapply IHr; [|exact E]. by apply Hw.
  - destruct Hw as [Hf Hs]. destruct (runs _ _ _ _) eqn:Hr; [|discriminate E].
    destruct Hs as [Hp Hs]. eapply IHr; [|exact E]. clear E IHr IH.
    destruct (exec _ _ _ _ _) as [[[rc1 out1] c1]| | |] eqn:E1; cbn;
      try (by apply Hf).
    destruct (decide (rc1 = 0)) as [->|Hn]; [|destruct rc1; cbn; try done; by apply Hf].
    cbn. apply Hs; [|by intros ->].
    exact (IHe _ _ _ _ _ _ _ _ (code_ok _ _ _ _ Hp) E1 eq_refl).
Qed.

(** Every call into an account meets the contract, whatever the environment
    does. *)
Theorem invoke_sound e t s cd c out c' :
  (runs (accounts c) t s cd = true → Pre c t s cd) →
  invoke e t s cd c = Ok (0, out, c') → Post c t s cd c'.
Proof.
  unfold invoke. intros Hp E. destruct (runs _ _ _ _) eqn:Hr; [|discriminate E].
  exact (exec_sound e _ _ _ _ _ _ _ _ (code_ok _ _ _ _ (Hp eq_refl)) E eq_refl).
Qed.

Lemma transact_sound e t s cd c :
  Quiet c → Quiet (transact e t s cd c) ∧ Evolves c (transact e t s cd c).
Proof.
  intros Hq. unfold transact, invoke. destruct (runs _ _ _ _) eqn:Hr; [|by apply mark_quiet].
  apply settle_quiet; auto using exec_sound.
Qed.

Lemma invoke_all_sound l c :
  Quiet c → Quiet (invoke_all l c) ∧ Evolves c (invoke_all l c).
Proof.
  revert c. induction l as [|[t s cd e] l IH]; intros c Hq; cbn; [by auto using evolves_refl|].
  enough (Quiet (transact e t s cd c) ∧ Evolves c (transact e t s cd c)) as [Hq' Hv].
  { destruct (IH _ Hq'). split; [done|]. by eapply evolves_trans. }
  by apply transact_sound.
Qed.
End Wp.
End Exec.
