(* ===== verification/Contract.v ===== *)
(** * Contract: the account contract (superposition_libaccounts, contract)

    The Rust library superposition_libaccounts and the entrypoint of contract/
    as programs on the host of Chain. The structs of lib.rs are the records of
    Types, field for field; [Args] is the enumeration. Borsh serialisation is
    derived from the types' declarations, so it is the codecs of BorshRef in
    the order of the fields and variants. The SDK (bobcat_sdk) and the assets
    (superposition_assets) are the class [Sdk]. A failed assertion panics with
    a text that names it; the values and errors that some messages print after
    it are left out. *)
From stdpp Require Import base numbers strings list gmap.
From Stdlib Require Import Strings.Byte ZArith Lia.
From S2P Require Import Prelude GoStd Types BorshRef Chain.

(** ** bobcat_sdk and superposition_assets *)

Class Sdk `{Assets} := {
  Network : Type;
  (** [asset.addr(network)]: none where the network does not have it. *)
  Asset_addr : Asset → Network → option address;
  (** The Borsh form of an asset. *)
  c_Asset : codec Asset;
  (** [U::from] of an array or a [u64], [is_some] and [addr]. *)
  U_from : bytes → word;
  U_from_u64 : Z → word;
  U_is_some : word → bool;
  U_addr : word → address;
  (** The slot of a map's entry, the guard's slot, EIP-1967 slots. *)
  slot_map : word → word → word;
  reentrancy_slot : bytes → word;
  const_slot_off_curve : bytes → word;
  const_keccak_sel : bytes → bytes;
  SEL_MIGRATE : bytes;
  (** Precompiles. *)
  keccak256 : bytes → word;
  sha512 : bytes → bytes;
  edphverify_pre : bytes → word → bytes → bool;
  edphverify_post : bytes → word → bytes → bool;
  ecrecover_post : word → byte → word → word → option address;
  (** Calldata of EIP-20 and EIP-2612. *)
  make_fn_permit : address → address → word → word → byte → word → word → bytes;
  make_fn_transfer_from : address → address → word → bytes;
  make_fn_approve : address → word → bytes;
  make_fn_balance_of : address → bytes;
  (** [read_words!(b, 4)]: none when it panics. *)
  read_words4 : bytes → option (word * word * word * word);
  (** Running a closure under the guard; compare and exchange on a slot;
      running a closure with the storage cache flushed after it. *)
  reentrancy_guard_const_keccak : bytes → prog Z → prog Z;
  storage_exchange : word → word → word → prog bool;
  flush_guard : prog Z → prog Z;
  (** Where [create2_pre_unit] puts the proxy. *)
  create2_pre_at : address → init_code → bytes → address
}.

Section Contract.
Context `{Sdk}.

(** ** immutables.rs *)
Record Imm := mk_Imm {
  network : Network;
  clearinghouse : address
}.

(** ** lib.rs: the request types *)

Inductive Args :=
| Args_FreshBackwards (f : FreshBackwards)
| Args_Solve (args : list SolveArgsSigArgs)
| Args_Version
| Args_Authority
| Args_SolveV2 (args : SolveV2Args) (sig : bytes)
| Args_TransferOnly (args : TransferOnlyArgs) (sig : bytes)
| Args_Statement (args : StatementArgs) (sig : bytes)
| Args_Owner
| Args_Ed25519Key
| Args_SolveV3 (args : SolveV3Args) (sig : bytes)
| Args_AssetsVersion.

(** *** Borsh, derived *)
Definition b_Permit : codec Permit :=
  c_iso (λ '(a, (d, (v, (r, s)))), mk_Permit a d v r s)
    (λ p, (Permit_Asset p, (Permit_Deadline p, (Permit_V p, (Permit_R p, Permit_S p)))))
    (c_pair c_Asset (c_pair (c_le 8) (c_pair c_u8 (c_pair (c_fixed 32) (c_fixed 32))))).

Definition b_FromArgs : codec FromArgs :=
  c_iso (λ '(a, (t, m)), mk_FromArgs a t m)
    (λ f, (FromArgs_Asset f, (FromArgs_ToTake f, FromArgs_MaxUnspent f)))
    (c_pair c_Asset (c_pair (c_fixed 32) (c_fixed 32))).

Definition b_SolveArgs : codec SolveArgs :=
  c_iso (λ '(p, (f, (t, (c, m)))), mk_SolveArgs p f t c m)
    (λ s, (SolveArgs_Permit s, (SolveArgs_From s, (SolveArgs_Target s,
           (SolveArgs_Cd s, SolveArgs_MsTs s)))))
    (c_pair (c_vec b_Permit) (c_pair (c_vec b_FromArgs)
      (c_pair (c_fixed 20) (c_pair (c_vec c_u8) (c_fixed 16))))).

Definition b_SolveArgsSigArgs : codec SolveArgsSigArgs :=
  c_iso (λ '(s, a), mk_SolveArgsSigArgs s a)
    (λ s, (SolveArgsSigArgs_Sig s, SolveArgsSigArgs_Args s))
    (c_pair (c_fixed 64) b_SolveArgs).

Definition b_SolveV2Args : codec SolveV2Args :=
  c_iso (λ '(a, (p, t)), mk_SolveV2Args a p t)
    (λ s, (SolveV2Args_Args s, (SolveV2Args_PermitOwner s, SolveV2Args_TransferOwner s)))
    (c_pair (c_vec b_SolveArgs) (c_pair (c_fixed 20) (c_fixed 20))).

Definition b_TransferPermit : codec TransferPermit :=
  c_iso (λ '(d, (v, (r, s))), mk_TransferPermit d v r s)
    (λ p, (TransferPermit_Deadline p, (TransferPermit_V p,
           (TransferPermit_R p, TransferPermit_S p))))
    (c_pair (c_le 8) (c_pair c_u8 (c_pair (c_fixed 32) (c_fixed 32)))).

Definition b_Transfer : codec Transfer :=
  c_iso (λ '(f, (a, (r, (m, p)))), mk_Transfer f a r m p)
    (λ t, (Transfer_From t, (Transfer_Asset t, (Transfer_Recipient t,
           (Transfer_Amt t, Transfer_Permit t)))))
    (c_pair (c_fixed 20) (c_pair c_Asset (c_pair (c_fixed 20) (c_pair (c_fixed 32)
      (c_option b_TransferPermit))))).

Definition b_TransferOnlyArgs : codec TransferOnlyArgs :=
  c_iso (λ '(a, m), mk_TransferOnlyArgs a m)
    (λ t, (TransferOnlyArgs_Args t, TransferOnlyArgs_MsTs t))
    (c_pair (c_vec b_Transfer) (c_fixed 16)).

Definition b_StatementArgs : codec StatementArgs :=
  c_iso (λ '(a, m), mk_StatementArgs a m)
    (λ t, (StatementArgs_Msg t, StatementArgs_MsTs t))
    (c_pair (c_vec c_u8) (c_fixed 6)).

Definition b_SolveV3Args : codec SolveV3Args :=
  c_iso (λ '(a, (g, (m, p))), mk_SolveV3Args a g m p)
    (λ s, (SolveV3Args_Args s, (SolveV3Args_GasToken s,
           (SolveV3Args_GasTokenAmt s, SolveV3Args_GasTokenPermit s))))
    (c_pair (c_vec b_SolveArgs) (c_pair c_Asset (c_pair (c_le 8) (c_option b_Permit)))).

Definition b_FreshBackwards : codec FreshBackwards :=
  c_iso (λ '(k, (e, (v, (r, (s, (l, a)))))), mk_FreshBackwards k e v r s l a)
    (λ f, (FreshBackwards_Key f, (FreshBackwards_EoaAddr f, (FreshBackwards_V f,
           (FreshBackwards_R f, (FreshBackwards_S f,
           (FreshBackwards_SolveArgs f, FreshBackwards_Authority f)))))))
    (c_pair (c_fixed 32) (c_pair (c_fixed 20) (c_pair c_u8 (c_pair (c_fixed 32)
      (c_pair (c_fixed 32) (c_pair (c_vec b_SolveArgsSigArgs)
        (c_option (c_fixed 20)))))))).

Definition b_signed {A} (c : codec A) : codec (A * bytes) := c_pair c (c_fixed 64).

(** The variant's index, then its fields. *)
Definition Args_to_vec (a : Args) : bytes :=
  match a with
  | Args_FreshBackwards f => x00 :: enc b_FreshBackwards f
  | Args_Solve l => x01 :: enc (c_vec b_SolveArgsSigArgs) l
  | Args_Version => [x02]
  | Args_Authority => [x03]
  | Args_SolveV2 a s => x04 :: enc (b_signed b_SolveV2Args) (a, s)
  | Args_TransferOnly a s => x05 :: enc (b_signed b_TransferOnlyArgs) (a, s)
  | Args_Statement a s => x06 :: enc (b_signed b_StatementArgs) (a, s)
  | Args_Owner => [x07]
  | Args_Ed25519Key => [x08]
  | Args_SolveV3 a s => x09 :: enc (b_signed b_SolveV3Args) (a, s)
  | Args_AssetsVersion => [x0a]
  end.

Definition dec_to {A B} (c : codec A) (f : A → B) (b : bytes) : option (B * bytes) :=
  '(a, rest) ← dec c b; Some (f a, rest).

(** [Args::deserialize(&mut slice)], with what it leaves of the slice. *)
Definition Args_deserialize (b : bytes) : option (Args * bytes) :=
  match b with
  | x00 :: b => dec_to b_FreshBackwards Args_FreshBackwards b
  | x01 :: b => dec_to (c_vec b_SolveArgsSigArgs) Args_Solve b
  | x02 :: b => Some (Args_Version, b)
  | x03 :: b => Some (Args_Authority, b)
  | x04 :: b => dec_to (b_signed b_SolveV2Args) (λ '(a, s), Args_SolveV2 a s) b
  | x05 :: b => dec_to (b_signed b_TransferOnlyArgs) (λ '(a, s), Args_TransferOnly a s) b
  | x06 :: b => dec_to (b_signed b_StatementArgs) (λ '(a, s), Args_Statement a s) b
  | x07 :: b => Some (Args_Owner, b)
  | x08 :: b => Some (Args_Ed25519Key, b)
  | x09 :: b => dec_to (b_signed b_SolveV3Args) (λ '(a, s), Args_SolveV3 a s) b
  | x0a :: b => Some (Args_AssetsVersion, b)
  | _ => None
  end.

Definition statement_sha512 (msg ms_ts contract_addr : bytes) : bytes :=
  let content := enc b_StatementArgs (mk_StatementArgs msg ms_ts) in
  let contract_addr_ := hex_EncodeToString contract_addr in
  let msg := lit "Superposition Accounts statement for " ++ contract_addr_ in
  let msg := msg ++ content in
  sha512 msg.

Definition REENTRANCY_KEY : bytes := lit "superposition.accounts".

Definition SLOT_IMPL : word := const_slot_off_curve (lit "eip1967.proxy.implementation").

(** ** storage.rs: the slots by their counter *)
Definition storage_load (s : word) : prog word := Load s Return.
Definition storage_store (s v : word) : prog unit := Store s v (Return tt).

Definition SLOT_was_created : word := be_split 32 0.
Definition SLOT_ed25519_count : word := be_split 32 1.
Definition SLOT_ed25519_slot : word := be_split 32 2.
Definition SLOT_ethereum_owner : word := be_split 32 3.
Definition SLOT_timestamps : word := be_split 32 4.
Definition SLOT_version : word := be_split 32 5.
Definition SLOT_authority : word := be_split 32 6.

Definition ed25519_slot_get (slot : word) : prog word :=
  storage_load (slot_map SLOT_ed25519_slot slot).
Definition ed25519_slot_set (slot x : word) : prog unit :=
  storage_store (slot_map SLOT_ed25519_slot slot) x.
Definition timestamps_exchange (ms : word) : prog unit :=
  let! b := storage_exchange (slot_map SLOT_timestamps ms) U_ZERO U_ONE in
  assert_ b "exchange failed".

(** ** Calls *)
Definition do_call (kind : call_kind) (to : address) (cd : bytes) (value : word) (gas : Z)
    : prog reply :=
  Call (mk_call kind to cd value gas) Return.

(** [revert_if_bad_call_unit_vec!], [revert_if_bad_call_slice_vec!]: a call
    that failed reverts with its data. *)
Definition revert_if_bad_call (m : prog reply) : prog reply :=
  let! r := m in if r_ok r then Return r else Reverted (r_data r).
Definition revert_if_bad_call_unit (m : prog reply) : prog unit :=
  let! r := m in if r_ok r then Return tt else Reverted (r_data r).

Definition create2_pre_unit (c : init_code) (value : word) (seed : bytes) : prog (option address) :=
  Create2 c value seed Return.

Definition write_word (w : word) : prog unit := WriteWord w (Return tt).

(** ** call_authority.rs *)
Definition SEL_ALLOWED : bytes := const_keccak_sel (lit "allowed(bytes32)").

Definition is_allowed (auth : address) (hash : word) : prog bool :=
  StaticCallBool auth (SEL_ALLOWED ++ hash) u64_MAX Return.

(** ** entry_owner.rs, entry_version.rs, entry_authority.rs,
    entry_ed25519_key.rs, entry_assets_version.rs *)
Definition entry_owner : prog Z :=
  let! w := storage_load SLOT_ethereum_owner in write_word w ;;; Return 0.
Definition entry_version : prog Z :=
  let! w := storage_load SLOT_version in write_word w ;;; Return 0.
Definition entry_authority : prog Z :=
  let! w := storage_load SLOT_authority in write_word w ;;; Return 0.
Definition entry_ed25519_key : prog Z :=
  let! w := ed25519_slot_get U_ZERO in write_word w ;;; Return 0.
Definition entry_assets_version : prog Z := Panicked (lit "not yet implemented").

(** ** entry_solve.rs *)
Section Entries.
(** [contract_address()] and [msg_sender()]. *)
Context (contract_address msg_sender : address).

Definition solve_permit (imm : Imm) (permit_owner : address) (p : Permit) : prog unit :=
  let! token := unwrap (Asset_addr (Permit_Asset p) (network imm)) in
  revert_if_bad_call_unit
    (do_call call_unit token
       (make_fn_permit permit_owner contract_address U_MAX (U_from_u64 (Permit_Deadline p))
          (Permit_V p) (Permit_R p) (Permit_S p))
       U_ZERO u64_MAX).

Definition solve_from (imm : Imm) (transfer_owner target : address) (f : FromArgs) : prog unit :=
  let! token := unwrap (Asset_addr (FromArgs_Asset f) (network imm)) in
  revert_if_bad_call_unit
    (do_call safe_call_bool token
       (make_fn_transfer_from transfer_owner contract_address (FromArgs_ToTake f))
       U_ZERO u64_MAX) ;;;
  revert_if_bad_call_unit
    (do_call call_unit token (make_fn_approve target (FromArgs_ToTake f)) U_ZERO u64_MAX).

Definition solve_authority (target : address) : prog unit :=
  let! authority_addr := storage_load SLOT_authority in
  if U_is_some authority_addr then
    let! c := Chain.CodeHash target Return in
    let! ok := is_allowed (U_addr authority_addr) c in
    if ok then Return tt else Panicked (lit "not allowed: " ++ hex_EncodeToString c)
  else Return tt.

Definition solve_target (target : address) (cd : bytes) : prog unit :=
  let! r := do_call safe_call_unit target cd U_ZERO u64_MAX in
  if r_ok r then Return tt
  else match r_data r with
       | Some v =>
           Panicked (lit "error calling: " ++ hex_EncodeToString target ++ lit ", cd: "
                       ++ hex_EncodeToString cd ++ lit ", res: " ++ hex_EncodeToString v)
       | None =>
           Panicked (lit "error calling: " ++ hex_EncodeToString target ++ lit ", cd: "
                       ++ hex_EncodeToString cd ++ lit ", no res")
       end.

Definition solve_balance (imm : Imm) (f : FromArgs) : prog unit :=
  let! token := unwrap (Asset_addr (FromArgs_Asset f) (network imm)) in
  let! bal :=
    revert_if_bad_call
      (do_call call_word token (make_fn_balance_of contract_address) U_ZERO u64_MAX) in
  assert_ (be_val (FromArgs_MaxUnspent f) <=? be_val (r_word bal)) "max unspent exceeds".

Definition solve_one (imm : Imm) (permit_owner transfer_owner : address) (a : SolveArgs)
    : prog unit :=
  timestamps_exchange (U_from (SolveArgs_MsTs a)) ;;;
  for_each (SolveArgs_Permit a) (solve_permit imm permit_owner) ;;;
  for_each (SolveArgs_From a) (solve_from imm transfer_owner (SolveArgs_Target a)) ;;;
  solve_authority (SolveArgs_Target a) ;;;
  solve_target (SolveArgs_Target a) (SolveArgs_Cd a) ;;;
  for_each (SolveArgs_From a) (solve_balance imm).

Definition entry_solve (imm : Imm) (args : list SolveArgs) (permit_owner transfer_owner : address)
    : prog Z :=
  for_each args (solve_one imm permit_owner transfer_owner) ;;;
  Return 0.

Definition assert_signed (msg : bytes) (key : word) (sig : bytes) : prog unit :=
  assert_ (edphverify_pre msg key sig) "assertion failed: edphverify_pre".

Definition entry_solve_v1 (imm : Imm) (args : list SolveArgsSigArgs) : prog Z :=
  let! ed_owner := ed25519_slot_get U_ZERO in
  for_each args (λ a,
    assert_signed (enc b_SolveArgs (SolveArgsSigArgs_Args a)) ed_owner
      (SolveArgsSigArgs_Sig a)) ;;;
  let args := map SolveArgsSigArgs_Args args in
  let! eth := storage_load SLOT_ethereum_owner in
  let eth_owner := U_addr eth in
  entry_solve imm args eth_owner eth_owner.

Definition entry_solve_v2 (imm : Imm) (args : SolveV2Args) (sig : bytes) : prog Z :=
  let! ed_owner := ed25519_slot_get U_ZERO in
  assert_signed (enc b_SolveV2Args args) ed_owner sig ;;;
  entry_solve imm (SolveV2Args_Args args) (SolveV2Args_PermitOwner args)
    (SolveV2Args_TransferOwner args).

Definition solve_gas_permit (gas_token : Asset) (gas_token_addr eth_owner : address)
    (o : option Permit) : prog unit :=
  match o with
  | Some p =>
      assert_ (bool_decide (gas_token = Permit_Asset p)) "gas token different" ;;;
      revert_if_bad_call_unit
        (do_call call_unit gas_token_addr
           (make_fn_permit eth_owner contract_address U_MAX (U_from_u64 (Permit_Deadline p))
              (Permit_V p) (Permit_R p) (Permit_S p))
           U_ZERO u64_MAX)
  | None => Return tt
  end.

Definition entry_solve_v3 (imm : Imm) (args : SolveV3Args) (sig : bytes) : prog Z :=
  let! ed_owner := ed25519_slot_get U_ZERO in
  assert_signed (enc b_SolveV3Args args) ed_owner sig ;;;
  let! eth := storage_load SLOT_ethereum_owner in
  let eth_owner := U_addr eth in
  let! gas_token_addr := unwrap (Asset_addr (SolveV3Args_GasToken args) (network imm)) in
  solve_gas_permit (SolveV3Args_GasToken args) gas_token_addr eth_owner
    (SolveV3Args_GasTokenPermit args) ;;;
  revert_if_bad_call_unit
    (do_call safe_call_bool gas_token_addr
       (make_fn_transfer_from eth_owner (clearinghouse imm)
          (U_from_u64 (SolveV3Args_GasTokenAmt args)))
       U_ZERO u64_MAX) ;;;
  entry_solve imm (SolveV3Args_Args args) eth_owner eth_owner.

(** ** entry_transfer_only.rs *)
Definition transfer_permit (token from : address) (o : option TransferPermit) : prog unit :=
  match o with
  | Some p =>
      revert_if_bad_call_unit
        (do_call call_unit token
           (make_fn_permit from contract_address U_MAX (U_from_u64 (TransferPermit_Deadline p))
              (TransferPermit_V p) (TransferPermit_R p) (TransferPermit_S p))
           U_ZERO u64_MAX)
  | None => Return tt
  end.

Definition transfer_one (imm : Imm) (t : Transfer) : prog unit :=
  let! token := unwrap (Asset_addr (Transfer_Asset t) (network imm)) in
  transfer_permit token (Transfer_From t) (Transfer_Permit t) ;;;
  revert_if_bad_call_unit
    (do_call safe_call_bool token
       (make_fn_transfer_from (Transfer_From t) (Transfer_Recipient t) (Transfer_Amt t))
       U_ZERO u64_MAX).

Definition entry_transfer_only (imm : Imm) (args : TransferOnlyArgs) (sig : bytes) : prog Z :=
  let! ed_owner := ed25519_slot_get U_ZERO in
  assert_signed (enc b_TransferOnlyArgs args) ed_owner sig ;;;
  match TransferOnlyArgs_Args args with
  | [] => Panicked (lit "no arguments")
  | l =>
      timestamps_exchange (U_from (TransferOnlyArgs_MsTs args)) ;;;
      for_each l (transfer_one imm) ;;;
      Return 0
  end.

(** ** entry_statement.rs *)
Definition entry_statement (args : StatementArgs) (sig : bytes) : prog Z :=
  let hash :=
    statement_sha512 (StatementArgs_Msg args) (StatementArgs_MsTs args) contract_address in
  let! key := ed25519_slot_get U_ZERO in
  assert_ (edphverify_post hash key sig) "assertion failed: edphverify_post" ;;;
  timestamps_exchange (U_from (StatementArgs_MsTs args)) ;;;
  Return 0.

(** ** entry_migrate.rs *)
Definition entry_migrate (ed_key evm_owner impl_addr authority_addr : word) : prog Z :=
  assert_ (U_is_some impl_addr) "assertion failed: impl_addr.is_some()" ;;;
  let! migration_level := storage_load SLOT_version in
  let is_first_time := bool_decide (migration_level = U_ZERO) in
  (if is_first_time then
     assert_ (U_is_some ed_key) "assertion failed: ed_key.is_some()" ;;;
     assert_ (U_is_some evm_owner) "assertion failed: evm_owner.is_some()" ;;;
     ed25519_slot_set U_ZERO ed_key ;;;
     storage_store SLOT_ed25519_count U_ONE ;;;
     storage_store SLOT_ethereum_owner evm_owner
   else Return tt) ;;;
  (if be_val migration_level <=? 1 then
     assert_ (U_is_some impl_addr) "assertion failed: impl_addr.is_some()" ;;;
     storage_store SLOT_authority authority_addr
   else Return tt) ;;;
  (if is_first_time then Return tt
   else
     let! owner := storage_load SLOT_ethereum_owner in
     assert_ (bool_decide (U_addr owner = msg_sender)) "bad migrator") ;;;
  storage_store SLOT_IMPL impl_addr ;;;
  storage_store SLOT_version (be_split 32 2) ;;;
  Return 0.

(** ** entry_fresh.rs *)
Definition PREIMAGE_TXT_SIZE : nat := 28 + 63 + 22 + 40.

Definition make_preimage (pub_key : word) (authority : address) : prog word :=
  let preimage_txt :=
    lit "New Superposition account: " ++ hex_EncodeToString pub_key
      ++ lit ", authority contract: " ++ hex_EncodeToString authority in
  assert_ (bool_decide (length preimage_txt = PREIMAGE_TXT_SIZE)) "TryFromSliceError" ;;;
  let msg_preimage :=
    [x19] ++ lit "Ethereum Signed Message:" ++ [x0a] ++ lit "153" ++ preimage_txt in
  Return (keccak256 msg_preimage).

Definition entry_fresh_backwards (f : FreshBackwards) : prog Z :=
  let pub_key := FreshBackwards_Key f in
  let eoa_addr := FreshBackwards_EoaAddr f in
  assert_ (U_is_some pub_key) "assertion failed: pub_key.is_some()" ;;;
  assert_ (negb (bool_decide (eoa_addr = zeros 20))) "assertion failed: eoa_addr" ;;;
  let authority := default (zeros 20) (FreshBackwards_Authority f) in
  let! msg_digest := make_preimage pub_key authority in
  let! signer :=
    unwrap (ecrecover_post msg_digest (FreshBackwards_V f) (FreshBackwards_R f)
              (FreshBackwards_S f)) in
  assert_ (bool_decide (eoa_addr = signer)) "assertion `left == right` failed" ;;;
  let! impl_addr := storage_load SLOT_IMPL in
  assert_ (U_is_some impl_addr) "not proxy" ;;;
  let! o := create2_pre_unit (metamorphic_beacon_proxy contract_address) U_ZERO eoa_addr in
  let! proxy := unwrap o in
  let migrate_cd := SEL_MIGRATE ++ pub_key ++ U_from eoa_addr ++ impl_addr ++ U_from authority in
  let! r := do_call call_unit proxy migrate_cd U_ZERO u64_MAX in
  assert_ (r_ok r) "bad migration" ;;;
  (match FreshBackwards_SolveArgs f with
   | [] => Return tt
   | l => revert_if_bad_call_unit
            (do_call call_unit proxy (Args_to_vec (Args_Solve l)) U_ZERO u64_MAX)
   end) ;;;
  write_word (U_from proxy) ;;;
  Return 0.

(** ** lib.rs: [entry] *)
Definition entry (imm : Imm) (x : Args) : prog Z :=
  match x with
  | Args_FreshBackwards f => entry_fresh_backwards f
  | Args_Solve args => reentrancy_guard_const_keccak REENTRANCY_KEY (entry_solve_v1 imm args)
  | Args_Version => entry_version
  | Args_Authority => entry_authority
  | Args_SolveV2 args sig =>
      reentrancy_guard_const_keccak REENTRANCY_KEY (entry_solve_v2 imm args sig)
  | Args_TransferOnly args sig =>
      reentrancy_guard_const_keccak REENTRANCY_KEY (entry_transfer_only imm args sig)
  | Args_Statement args sig => entry_statement args sig
  | Args_Owner => entry_owner
  | Args_Ed25519Key => entry_ed25519_key
  | Args_SolveV3 args sig => entry_solve_v3 imm args sig
  | Args_AssetsVersion => entry_assets_version
  end.

(** ** contract/src/main.rs *)
Definition user_entrypoint (network : Network) (args : bytes) : prog Z :=
  match args with
  | [] => let! w := storage_load SLOT_IMPL in write_word w ;;; Return 0
  | _ =>
      let imm := mk_Imm network (zeros 20) in
      flush_guard
        (if (4 <? Z.of_nat (length args)) && bool_decide (take 4 args = SEL_MIGRATE) then
           let! ws := unwrap (read_words4 (drop 4 args)) in
           let '(ed_key, eoa_owner, impl_addr, authority_addr) := ws in
           entry_migrate ed_key eoa_owner impl_addr authority_addr
         else
           match Args_deserialize args with
           | Some (a, _) => entry imm a
           | None => Panicked (lit "weird: " ++ hex_EncodeToString args)
           end)
  end.
End Entries.

(** ** The proxies the contract runs behind

    sol/UpgradeableProxy.sol (no beacon): the administrator may only upgrade,
    and have the new implementation run on the proxy's storage at once;
    everybody else's calls are delegated to the implementation in its slot. The
    metamorphic proxy (lib/types/proxy.go): a call of [migrate] is delegated to
    what its beacon answers to an empty call, every other call to the
    implementation in its own slot. *)
Definition SLOT_ADMIN : word := const_slot_off_curve (lit "eip1967.proxy.admin").

Definition impl_of (acc : account) : address := drop 12 (slot_of (storage acc) SLOT_IMPL).
Definition admin_of (acc : account) : address := drop 12 (slot_of (storage acc) SLOT_ADMIN).

(** The implementation a call from [sender] is delegated to, none when the
    proxy does not delegate it. *)
Definition UpgradeableProxy_delegates (acc : account) (sender : address) : option address :=
  if bool_decide (sender = admin_of acc) then None else Some (impl_of acc).

(** The selector of [upgradeToAndCall(address,bytes)]. *)
Definition SEL_UPGRADE : bytes := [x4f; x1e; xf2; x86].

(** [abi.decode(b, (address, bytes))]: the word of the address and the bytes,
    none when it reverts. *)
Definition abi_decode_address_bytes (b : bytes) : option (word * bytes) :=
  let len := Z.of_nat (length b) in
  if len <? 64 then None
  else
    let w := take 32 b in
    if negb (be_val w <? 2 ^ 160) then None
    else
      let offset := be_val (take 32 (drop 32 b)) in
      if negb (offset <? 2 ^ 64) || negb (offset + 31 <? len) then None
      else
        let n := be_val (take 32 (drop (Z.to_nat offset) b)) in
        if negb (n <? 2 ^ 64) || negb (offset + 32 + n <=? len) then None
        else Some (w, take (Z.to_nat n) (drop (Z.to_nat offset + 32) b)).

(** The branch of the administrator: the new implementation and what to call
    it with, none when the proxy reverts or the branch is not taken. *)
Definition UpgradeableProxy_upgrades (acc : account) (sender : address) (cd : bytes)
    : option (word * bytes) :=
  if bool_decide (sender = admin_of acc) then
    if bool_decide (take 4 (cd ++ zeros 4) = SEL_UPGRADE) then abi_decode_address_bytes (drop 4 cd)
    else None
  else None.

(** [require(rc, "delegatecall failed")] after a delegated run, whose answer
    is not passed on. *)
Fixpoint delegated (p : prog Z) : prog Z :=
  match p with
  | Return rc =>
      if rc =? 0 then WriteWord [] (Return 0) else Panicked (lit "delegatecall failed")
  | Panicked _ | Reverted _ => Panicked (lit "delegatecall failed")
  | Load s k => Load s (λ w, delegated (k w))
  | Store s v k => Store s v (delegated k)
  | WriteWord w k => WriteWord w (delegated k)
  | Call c k => Call c (λ r, delegated (k r))
  | StaticCallBool t cd g k => StaticCallBool t cd g (λ b, delegated (k b))
  | CodeHash a k => CodeHash a (λ w, delegated (k w))
  | Create2 i v s k => Create2 i v s (λ o, delegated (k o))
  end.

Section Deployment.
(** The network built for, and the address of the implementation. *)
Context (net : Network) (code_addr : address).

(** The implementation a call is delegated to. None when the proxy delegates
    it nowhere, and when it delegates it to whatever a beacon answers that does
    not run the contract, which [foreign_call] covers. *)
Definition delegates (m : gmap address account) (a sender : address) (cd : bytes)
    : option address :=
  acc ← m !! a;
  match beacon acc with
  | None => UpgradeableProxy_delegates acc sender
  | Some f =>
      if bool_decide (take 4 cd = SEL_MIGRATE) then
        facc ← m !! f;
        i ← (match beacon facc with
             | None => UpgradeableProxy_delegates facc a
             | Some _ => Some (impl_of facc)
             end);
        (* The contract answers the empty call with its own slot. *)
        if bool_decide (i = code_addr) then Some i else None
      else Some (impl_of acc)
  end.

(** Upgrades of a proxy without a beacon that run no other code than the
    contract's on the proxy's storage. *)
Definition upgrades (m : gmap address account) (a sender : address) (cd : bytes)
    : option (word * bytes) :=
  acc ← m !! a;
  match beacon acc with
  | None =>
      u ← UpgradeableProxy_upgrades acc sender cd;
      if bool_decide (u.2 = [] ∨ drop 12 u.1 = code_addr) then Some u else None
  | Some _ => None
  end.

Definition UpgradeableProxy_upgrade (this sender : address) (newImpl : word) (data : bytes)
    : prog Z :=
  storage_store SLOT_IMPL newImpl ;;;
  match data with
  | [] => Return 0
  | _ => delegated (user_entrypoint this sender net data)
  end.

(** The call runs the contract's code. *)
Definition contract_call (m : gmap address account) (a sender : address) (cd : bytes) : bool :=
  bool_decide (delegates m a sender cd = Some code_addr)
  || bool_decide (is_Some (upgrades m a sender cd)).

(** The proxy reverts a call of its administrator that is not an upgrade. *)
Definition UpgradeableProxy_reverts (acc : account) (sender : address) (cd : bytes) : bool :=
  bool_decide (beacon acc = None) && bool_decide (sender = admin_of acc)
  && bool_decide (UpgradeableProxy_upgrades acc sender cd = None).

(** The call runs other code on the storage of the account: the proxy's
    implementation is not the contract, its beacon does not run the contract
    and answers [migrate] with any implementation, or its administrator has
    other code run in an upgrade. *)
Definition foreign_call (m : gmap address account) (a sender : address) (cd : bytes) : bool :=
  match m !! a with
  | Some acc => negb (contract_call m a sender cd) && negb (UpgradeableProxy_reverts acc sender cd)
  | None => false
  end.

#[export] Instance accounts_deployed : Deployed := {|
  code m this sender cd :=
    match upgrades m this sender cd with
    | Some (newImpl, data) => UpgradeableProxy_upgrade this sender newImpl data
    | None => user_entrypoint this sender net cd
    end;
  runs := contract_call;
  foreign := foreign_call;
  create2_at := create2_pre_at
|}.

(** The constructor of sol/UpgradeableProxy.sol, for the factory. *)
Definition UpgradeableProxy_constructor (impl admin : address) (publicKey : word)
    : gmap word word :=
  let st := <[SLOT_IMPL := U_from impl]> ∅ in
  let st := <[SLOT_ADMIN := U_from admin]> st in
  let st := <[SLOT_was_created := U_ONE]> st in
  let st := <[SLOT_ed25519_count := U_ONE]> st in
  let st := <[keccak256 (be_split 32 2 ++ be_split 32 0) := publicKey]> st in
  let st := <[SLOT_ethereum_owner := U_from admin]> st in
  <[SLOT_version := be_split 32 2]> st.

Definition deployed (factory admin : address) (publicKey : word) : chain :=
  mk_chain {[ factory := mk_account None (UpgradeableProxy_constructor code_addr admin publicKey) ]} [].

(** The chains that transactions lead to, from the deployment of the
    factory. *)
Inductive reachable (factory admin : address) (publicKey : word) : chain → Prop :=
| reachable_deployed : reachable factory admin publicKey (deployed factory admin publicKey)
| reachable_step c e t s cd :
    reachable factory admin publicKey c →
    reachable factory admin publicKey (transact e t s cd c).
End Deployment.
End Contract.
