(* ===== verification/AccountSafety.v ===== *)
(** * AccountSafety: what the account contract does, in every environment

    The invariant of the accounts and the contract of a call into one, in the
    logic of Chain: calls are made only with a signature of the account's key,
    signed timestamps are used once, keys and owners stay. *)
From stdpp Require Import base numbers strings list gmap.
From Stdlib Require Import Strings.Byte ZArith Lia.
From S2P Require Import Prelude GoStd Types BorshRef Chain Contract.

(** ** What the contract relies on in the SDK *)

(** The closure runs with the guard's slot set, and not at all when it is set
    already. *)
Definition guarded (slot : word) (m : prog Z) : prog Z :=
  let! w := storage_load slot in
  if bool_decide (w = U_ZERO) then
    storage_store slot U_ONE ;;;
    let! rc := m in
    storage_store slot U_ZERO ;;;
    Return rc
  else Panicked (lit "reentrant").

Section Slots.
Context `{Sdk}.

(** The names of the slots in use. *)
Inductive slot_name :=
| NImpl
| NAdmin
| NGuard
| NCreated
| NCount
| NKey
| NOwner
| NTimestamp (ms : word)
| NVersion
| NAuthority.

#[export] Instance slot_name_eq_dec : EqDecision slot_name.
Proof. solve_decision. Defined.

Definition slot_at (n : slot_name) : word :=
  match n with
  | NImpl => SLOT_IMPL
  | NAdmin => SLOT_ADMIN
  | NGuard => reentrancy_slot REENTRANCY_KEY
  | NCreated => SLOT_was_created
  | NCount => SLOT_ed25519_count
  | NKey => slot_map SLOT_ed25519_slot U_ZERO
  | NOwner => SLOT_ethereum_owner
  | NTimestamp ms => slot_map SLOT_timestamps ms
  | NVersion => SLOT_version
  | NAuthority => SLOT_authority
  end.

(** Timestamps have six or sixteen bytes. *)
Definition valid_name (n : slot_name) : Prop :=
  match n with
  | NTimestamp w => ∃ ts, (length ts = 6%nat ∨ length ts = 16%nat) ∧ w = U_from ts
  | _ => True
  end.
End Slots.

Class SdkLaws `{Sdk} : Prop := {
  c_Asset_ok : codec_ok (λ _, True) c_Asset;
  U_is_some_spec w : U_is_some w = bool_decide (w ≠ U_ZERO);
  U_from_length b : (length b ≤ 32)%nat → length (U_from b) = 32%nat;
  U_from_zero_inj a : length a = 20%nat → U_from a = U_ZERO → a = zeros 20;
  U_addr_from a : length a = 20%nat → U_addr (U_from a) = a;
  U_from_low a : length a = 20%nat → drop 12 (U_from a) = a;
  reentrancy_guard_spec key m :
    reentrancy_guard_const_keccak key m = guarded (reentrancy_slot key) m;
  storage_exchange_spec s old new :
    storage_exchange s old new
    = let! w := storage_load s in
      if bool_decide (w = old) then storage_store s new ;;; Return true else Return false;
  (** [flush_guard] runs its argument and then flushes the cache of storage
      writes. That a write is visible to calls back into the contract before
      this flush is an assumption on the SDK's calls, which then have to flush
      the cache themselves. *)
  flush_guard_spec m : flush_guard m = m;
  read_words4_spec a b c d rest :
    length a = 32%nat → length b = 32%nat → length c = 32%nat → length d = 32%nat →
    read_words4 (a ++ b ++ c ++ d ++ rest) = Some (a, b, c, d);
  read_words4_length l a b c d :
    read_words4 l = Some (a, b, c, d) → length c = 32%nat;
  (** The selector of [migrate()]. *)
  SEL_MIGRATE_spec : SEL_MIGRATE = [x8f; xd3; xab; x80];
  (** [slot_map] hashes the slot before the key. *)
  slot_map_spec s k : slot_map s k = keccak256 (s ++ k);
  (** No two of the slots in use collide. *)
  slots_distinct n n' :
    valid_name n → valid_name n' → slot_at n = slot_at n' → n = n'
}.

(** ** Which code a proxy runs *)
Section Proxies.
Context `{SL : SdkLaws} (net : Network) (code_addr : address).
#[local] Instance accounts_here : Deployed := accounts_deployed net code_addr.

Lemma runs_delegated m a s cd :
  delegates code_addr m a s cd = Some code_addr → runs m a s cd = true.
Proof. intros E. cbn. unfold contract_call. by rewrite bool_decide_eq_true_2. Qed.

Lemma abi_decode_word b w data :
  abi_decode_address_bytes b = Some (w, data) → length w = 32%nat.
Proof.
  unfold abi_decode_address_bytes. case_match eqn:E; [done|]. apply Z.ltb_ge in E.
  repeat (case_match; [done|]). intros [= <- _]. rewrite length_take. lia.
Qed.

Lemma upgrades_Some m a s cd w data :
  upgrades code_addr m a s cd = Some (w, data) →
  ∃ acc, m !! a = Some acc ∧ beacon acc = None ∧ s = admin_of acc ∧ take 4 cd = SEL_UPGRADE
       ∧ length w = 32%nat ∧ (data = [] ∨ drop 12 w = code_addr).
Proof.
  unfold upgrades. destruct (m !! a) as [acc|]; [|done]. cbn. intros E. exists acc.
  destruct (beacon acc); [done|]. unfold UpgradeableProxy_upgrades in E.
  case_bool_decide as Hs; [|done]. case_bool_decide as Hcd; [|done].
  destruct (abi_decode_address_bytes (drop 4 cd)) as [[w' data']|] eqn:Ed; [|done]. cbn in E.
  case_bool_decide as Hf; [|done]. injection E as -> ->. split_and!; try done.
  - destruct cd as [|? [|? [|? [|? ?]]]]; try done.
  - by eapply abi_decode_word.
Qed.

(** Nothing but an upgrade begins with its selector. *)
Lemma code_delegated m a s cd :
  take 4 cd ≠ SEL_UPGRADE → code m a s cd = user_entrypoint a s net cd.
Proof.
  intros Hcd. cbn. destruct (upgrades code_addr m a s cd) as [[w data]|] eqn:E; [|done].
  by apply upgrades_Some in E as (acc & _ & _ & _ & ? & _).
Qed.

Lemma migrate_not_upgrade cd : take 4 cd = SEL_MIGRATE → take 4 cd ≠ SEL_UPGRADE.
Proof. by rewrite SEL_MIGRATE_spec; intros ->. Qed.

Lemma request_not_upgrade a rest : take 4 (Args_to_vec a ++ rest) ≠ SEL_UPGRADE.
Proof. by destruct a. Qed.

Lemma request_not_upgrade_nil a : take 4 (Args_to_vec a) ≠ SEL_UPGRADE.
Proof. pose proof (request_not_upgrade a []) as Hn. by rewrite app_nil_r in Hn. Qed.

Lemma deserialize_not_upgrade cd : take 4 cd = SEL_UPGRADE → Args_deserialize cd = None.
Proof. destruct cd as [|b cd]; [done|]. by intros [= -> _]. Qed.

(** A call that runs is delegated, or an upgrade. *)
Lemma runs_cases m a s cd :
  runs m a s cd = true →
  delegates code_addr m a s cd = Some code_addr ∨ take 4 cd = SEL_UPGRADE.
Proof.
  cbn. unfold contract_call.
  intros [E%bool_decide_eq_true|[[w data] E]%bool_decide_eq_true]%orb_true_iff; [by left|right].
  by apply upgrades_Some in E as (acc & _ & _ & _ & ? & _).
Qed.
End Proxies.

Section Safety.
Context `{SL : SdkLaws} (net : Network) (code_addr : address).

Definition word_at (acc : account) (n : slot_name) : word := slot_of (storage acc) (slot_at n).

Definition key_of (acc : account) : word := word_at acc NKey.
Definition owner_of (acc : account) : address := U_addr (word_at acc NOwner).

(** ** Which calls an account may make *)

Definition token_call (kind : call_kind) (token : address) (cd : bytes) : call :=
  mk_call kind token cd U_ZERO u64_MAX.

(** The authority, if there is one, has just allowed the target's code. *)
Definition allowed_target (acc : account) (a target : address) (before : list event) : Prop :=
  word_at acc NAuthority = U_ZERO
  ∨ ∃ l h, before = l ++ [Hashed a target h;
                          Asked a (U_addr (word_at acc NAuthority)) (SEL_ALLOWED ++ h) true].

(** The calls of one signed solve by the account [a]. *)
Inductive solve_call (acc : account) (a permit_owner transfer_owner : address)
    (before : list event) (s : SolveArgs) : call → Prop :=
| solve_call_permit p token :
    p ∈ SolveArgs_Permit s → Asset_addr (Permit_Asset p) net = Some token →
    solve_call acc a permit_owner transfer_owner before s
      (token_call call_unit token
         (make_fn_permit permit_owner a U_MAX (U_from_u64 (Permit_Deadline p)) (Permit_V p)
            (Permit_R p) (Permit_S p)))
| solve_call_take f token :
    f ∈ SolveArgs_From s → Asset_addr (FromArgs_Asset f) net = Some token →
    solve_call acc a permit_owner transfer_owner before s
      (token_call safe_call_bool token (make_fn_transfer_from transfer_owner a (FromArgs_ToTake f)))
| solve_call_approve f token :
    f ∈ SolveArgs_From s → Asset_addr (FromArgs_Asset f) net = Some token →
    solve_call acc a permit_owner transfer_owner before s
      (token_call call_unit token (make_fn_approve (SolveArgs_Target s) (FromArgs_ToTake f)))
| solve_call_target :
    allowed_target acc a (SolveArgs_Target s) before →
    solve_call acc a permit_owner transfer_owner before s
      (token_call safe_call_unit (SolveArgs_Target s) (SolveArgs_Cd s))
| solve_call_balance f token :
    f ∈ SolveArgs_From s → Asset_addr (FromArgs_Asset f) net = Some token →
    solve_call acc a permit_owner transfer_owner before s
      (token_call call_word token (make_fn_balance_of a)).

(** The calls that pay for the gas of a [SolveV3]. *)
Inductive gas_call (acc : account) (a : address) (args : SolveV3Args) : call → Prop :=
| gas_call_permit p token :
    SolveV3Args_GasTokenPermit args = Some p → Permit_Asset p = SolveV3Args_GasToken args →
    Asset_addr (SolveV3Args_GasToken args) net = Some token →
    gas_call acc a args
      (token_call call_unit token
         (make_fn_permit (owner_of acc) a U_MAX (U_from_u64 (Permit_Deadline p)) (Permit_V p)
            (Permit_R p) (Permit_S p)))
| gas_call_pay token :
    Asset_addr (SolveV3Args_GasToken args) net = Some token →
    gas_call acc a args
      (token_call safe_call_bool token
         (make_fn_transfer_from (owner_of acc) (zeros 20)
            (U_from_u64 (SolveV3Args_GasTokenAmt args)))).

Inductive transfer_call (a : address) (t : Transfer) : call → Prop :=
| transfer_call_permit p token :
    Transfer_Permit t = Some p → Asset_addr (Transfer_Asset t) net = Some token →
    transfer_call a t
      (token_call call_unit token
         (make_fn_permit (Transfer_From t) a U_MAX (U_from_u64 (TransferPermit_Deadline p))
            (TransferPermit_V p) (TransferPermit_R p) (TransferPermit_S p)))
| transfer_call_take token :
    Asset_addr (Transfer_Asset t) net = Some token →
    transfer_call a t
      (token_call safe_call_bool token
         (make_fn_transfer_from (Transfer_From t) (Transfer_Recipient t) (Transfer_Amt t))).

(** The text a user signs to have an account created, and its hash. *)
Definition fresh_digest (pub_key : word) (authority : address) : word :=
  keccak256 ([x19] ++ lit "Ethereum Signed Message:" ++ [x0a] ++ lit "153"
               ++ lit "New Superposition account: " ++ hex_EncodeToString pub_key
               ++ lit ", authority contract: " ++ hex_EncodeToString authority).

Definition fresh_signed (f : FreshBackwards) : Prop :=
  ecrecover_post
    (fresh_digest (FreshBackwards_Key f) (default (zeros 20) (FreshBackwards_Authority f)))
    (FreshBackwards_V f) (FreshBackwards_R f) (FreshBackwards_S f)
  = Some (FreshBackwards_EoaAddr f).

Definition proxy_at (a eoa : address) : address :=
  create2_pre_at a (metamorphic_beacon_proxy a) eoa.

Definition migrate_cd (key : word) (eoa : address) (impl : word) (authority : address) : bytes :=
  SEL_MIGRATE ++ key ++ U_from eoa ++ impl ++ U_from authority.

(** The calls that set up a new account. *)
Inductive fresh_call (a : address) (f : FreshBackwards) : call → Prop :=
| fresh_call_migrate impl :
    fresh_call a f
      (token_call call_unit (proxy_at a (FreshBackwards_EoaAddr f))
         (migrate_cd (FreshBackwards_Key f) (FreshBackwards_EoaAddr f) impl
            (default (zeros 20) (FreshBackwards_Authority f))))
| fresh_call_solve :
    FreshBackwards_SolveArgs f ≠ [] →
    fresh_call a f
      (token_call call_unit (proxy_at a (FreshBackwards_EoaAddr f))
         (Args_to_vec (Args_Solve (FreshBackwards_SolveArgs f)))).

(** A call of the account [a] after the events [before] has a signature
    behind it: of the account's key on the operation, or, for the calls that
    create an account, of the new account's owner. *)
Inductive authorised (acc : account) (a : address) (before : list event) (cl : call) : Prop :=
| auth_solve s sig :
    edphverify_pre (enc b_SolveArgs s) (key_of acc) sig = true →
    solve_call acc a (owner_of acc) (owner_of acc) before s cl →
    authorised acc a before cl
| auth_solve_v2 args s sig :
    edphverify_pre (enc b_SolveV2Args args) (key_of acc) sig = true →
    s ∈ SolveV2Args_Args args →
    solve_call acc a (SolveV2Args_PermitOwner args) (SolveV2Args_TransferOwner args) before s cl →
    authorised acc a before cl
| auth_solve_v3 args s sig :
    edphverify_pre (enc b_SolveV3Args args) (key_of acc) sig = true →
    s ∈ SolveV3Args_Args args →
    solve_call acc a (owner_of acc) (owner_of acc) before s cl →
    authorised acc a before cl
| auth_gas args sig :
    edphverify_pre (enc b_SolveV3Args args) (key_of acc) sig = true →
    gas_call acc a args cl → authorised acc a before cl
| auth_transfer args t sig :
    edphverify_pre (enc b_TransferOnlyArgs args) (key_of acc) sig = true →
    t ∈ TransferOnlyArgs_Args args → transfer_call a t cl → authorised acc a before cl
| auth_fresh f :
    fresh_signed f → fresh_call a f cl → authorised acc a before cl.

(** ** The invariant *)

(** Set up, with a key and an owner. *)
Definition initialised (acc : account) : Prop :=
  word_at acc NVersion = be_split 32 2 ∧ word_at acc NKey ≠ U_ZERO ∧ word_at acc NOwner ≠ U_ZERO
  ∧ length (word_at acc NImpl) = 32%nat.

(** The administrator of the factory's proxy is not itself a created proxy. *)
Definition admin_outside (acc : account) : Prop :=
  beacon acc = None → ∀ a i seed, create2_pre_at a i seed ≠ admin_of acc.

(** The slots that never change once the account is set up. *)
Definition fixed_slots : list slot_name :=
  [NAdmin; NGuard; NCreated; NCount; NKey; NOwner; NVersion; NAuthority].

Record acc_evolves (acc acc' : account) : Prop := {
  ev_beacon : beacon acc' = beacon acc;
  ev_fixed n : n ∈ fixed_slots → word_at acc' n = word_at acc n;
  ev_timestamp ms : valid_name (NTimestamp ms) →
    word_at acc (NTimestamp ms) ≠ U_ZERO → word_at acc' (NTimestamp ms) = word_at acc (NTimestamp ms)
}.

(** The owner of an account has called its [migrate], or the administrator of
    a proxy without a beacon has upgraded it. *)
Definition owner_migrated (acc : account) (a : address) (l : list event) : Prop :=
  ∃ who cd, Invoked a who cd ∈ l
    ∧ (take 4 cd = SEL_MIGRATE ∧ who = owner_of acc
       ∨ take 4 cd = SEL_UPGRADE ∧ who = admin_of acc ∧ beacon acc = None).

Definition chain_evolves (c c' : chain) : Prop :=
  ∃ l, events c' = events c ++ l
     ∧ ∀ a acc, accounts c !! a = Some acc →
         ∃ acc', accounts c' !! a = Some acc' ∧ acc_evolves acc acc'
               ∧ (word_at acc' NImpl ≠ word_at acc NImpl → owner_migrated acc a l).

(** Why a proxy delegates a call to other code than the contract's, after the
    events [before]: its administrator upgrades it with this very call, or its
    implementation has been moved, or that of its beacon has. *)
Inductive moved_code (m : gmap address account) (acc : account) (a s : address) (cd : bytes)
    (before : list event) : Prop :=
| moved_now :
    beacon acc = None → s = admin_of acc → take 4 cd = SEL_UPGRADE → moved_code m acc a s cd before
| moved_before : owner_migrated acc a before → moved_code m acc a s cd before
| moved_beacon f facc :
    beacon acc = Some f → m !! f = Some facc → take 4 cd = SEL_MIGRATE →
    owner_migrated facc f before → moved_code m acc a s cd before.

(** Calls are authorised, and other code runs only where it was moved to. *)
Definition event_ok (m : gmap address account) (before : list event) (ev : event) : Prop :=
  match ev with
  | Called a cl => ∃ acc, m !! a = Some acc ∧ authorised acc a before cl
  | Foreign a s cd => ∃ acc, m !! a = Some acc ∧ moved_code m acc a s cd before
  | _ => True
  end.

Definition log_ok (c : chain) : Prop :=
  ∀ before ev after, events c = before ++ ev :: after → event_ok (accounts c) before ev.

(** Where an account comes from: an administrator outside the proxies, the
    contract's implementation until it is moved, and a beacon that is an
    account and has created it. *)
Record traced (m : gmap address account) (l : list event) (a : address) (acc : account) : Prop := {
  tr_admin : admin_outside acc;
  tr_impl : impl_of acc ≠ code_addr → owner_migrated acc a l;
  tr_beacon f : beacon acc = Some f → is_Some (m !! f) ∧ ∃ i seed, a = create2_pre_at f i seed
}.

Definition quiet (c : chain) : Prop :=
  map_Forall (λ a acc, initialised acc ∧ traced (accounts c) (events c) a acc) (accounts c)
  ∧ log_ok c.

(** ** Lemmas on the invariant *)

Lemma word_at_store acc n n' v :
  valid_name n → valid_name n' → n' ≠ n → word_at (store_in (slot_at n) v acc) n' = word_at acc n'.
Proof.
  intros Hn Hn' Hne. unfold word_at, slot_of, store_in. cbn.
  rewrite lookup_insert_ne; [done|]. intros E. by apply slots_distinct in E.
Qed.

Lemma word_at_store_eq acc n v : word_at (store_in (slot_at n) v acc) n = v.
Proof. unfold word_at, slot_of, store_in. cbn. by rewrite lookup_insert_eq. Qed.

Lemma load_word_at c a acc n :
  accounts c !! a = Some acc → load c a (slot_at n) = word_at acc n.
Proof. intros E. unfold load. by rewrite E. Qed.

Lemma fixed_valid n : n ∈ fixed_slots → valid_name n.
Proof. destruct n; try done. unfold fixed_slots. intros Hn. exfalso. set_solver. Qed.

Lemma acc_evolves_refl acc : acc_evolves acc acc.
Proof. by split. Qed.

Lemma acc_evolves_trans acc1 acc2 acc3 :
  acc_evolves acc1 acc2 → acc_evolves acc2 acc3 → acc_evolves acc1 acc3.
Proof.
  intros [B1 F1 T1] [B2 F2 T2]. split; [congruence| |].
  - intros n Hn. by rewrite F2, F1.
  - intros ms Hv Hms. rewrite T2; [by apply T1|done|]. by rewrite T1.
Qed.

Lemma impl_of_word acc : impl_of acc = drop 12 (word_at acc NImpl).
Proof. done. Qed.

Lemma admin_of_word acc : admin_of acc = drop 12 (word_at acc NAdmin).
Proof. done. Qed.

Lemma owner_of_evolves acc acc' : acc_evolves acc acc' → owner_of acc' = owner_of acc.
Proof. intros [_ F _]. unfold owner_of. rewrite F; [done|]. unfold fixed_slots. set_solver. Qed.

Lemma admin_of_evolves acc acc' : acc_evolves acc acc' → admin_of acc' = admin_of acc.
Proof. intros [_ F _]. rewrite !admin_of_word, F; [done|]. unfold fixed_slots. set_solver. Qed.

Lemma owner_migrated_app_l acc a l1 l2 :
  owner_migrated acc a l1 → owner_migrated acc a (l1 ++ l2).
Proof. intros (who & cd & ? & ?). exists who, cd. split; [|done]. apply elem_of_app. by left. Qed.

Lemma owner_migrated_same acc acc' a l1 l2 :
  owner_of acc' = owner_of acc → admin_of acc' = admin_of acc → beacon acc' = beacon acc →
  owner_migrated acc' a l2 → owner_migrated acc a (l1 ++ l2).
Proof.
  intros Ho Ha Hb (who & cd & Hin & Hw). exists who, cd.
  split; [apply elem_of_app; by right|]. by rewrite <-Ho, <-Ha, <-Hb.
Qed.

(** An account stays traced when the chain grows and its parties stay. *)
Lemma traced_grows m m' l l' a acc acc' :
  traced m l a acc →
  owner_of acc' = owner_of acc → admin_of acc' = admin_of acc → beacon acc' = beacon acc →
  (word_at acc' NImpl = word_at acc NImpl ∨ owner_migrated acc a (l ++ l')) →
  (∀ f, is_Some (m !! f) → is_Some (m' !! f)) →
  traced m' (l ++ l') a acc'.
Proof.
  intros [Tad Tim Tbe] Ho Ha Hb Hi Hm.
  assert (owner_migrated acc a (l ++ l') → owner_migrated acc' a (l ++ l')) as Hs
    by by apply (owner_migrated_same acc' acc a []).
  split.
  - unfold admin_outside in *. by rewrite Ha, Hb.
  - intros Hne. apply Hs. destruct Hi as [E|]; [|done]. apply owner_migrated_app_l, Tim.
    rewrite impl_of_word in *. by rewrite <-E.
  - intros f. rewrite Hb. intros Hf. destruct (Tbe f Hf) as [? ?]. eauto.
Qed.

Lemma chain_evolves_refl c : chain_evolves c c.
Proof.
  exists []. rewrite app_nil_r. split; [done|]. intros a acc Ha. exists acc.
  split; [done|]. split; [apply acc_evolves_refl|done].
Qed.

Lemma chain_evolves_trans c1 c2 c3 :
  chain_evolves c1 c2 → chain_evolves c2 c3 → chain_evolves c1 c3.
Proof.
  intros (l1 & E1 & H1) (l2 & E2 & H2). exists (l1 ++ l2). split; [by rewrite E2, E1, app_assoc|].
  intros a acc Ha. destruct (H1 a acc Ha) as (acc' & Ha' & Hv & Hi).
  destruct (H2 a acc' Ha') as (acc'' & Ha'' & Hv' & Hi'). exists acc''. split; [done|].
  split; [by eapply acc_evolves_trans|]. intros Hne.
  destruct (decide (word_at acc' NImpl = word_at acc NImpl)) as [E|Hne'].
  - eapply owner_migrated_same; [by apply owner_of_evolves|by apply admin_of_evolves|apply Hv|].
    apply Hi'. congruence.
  - by apply owner_migrated_app_l, Hi.
Qed.

Lemma solve_call_stable acc acc' a po tr before s cl :
  word_at acc' NAuthority = word_at acc NAuthority →
  solve_call acc a po tr before s cl → solve_call acc' a po tr before s cl.
Proof.
  intros E Hs. destruct Hs; try (econstructor; eassumption).
  constructor. unfold allowed_target in *. by rewrite E.
Qed.

(** The slots a signature's power depends on. *)
Definition same_powers (acc acc' : account) : Prop :=
  word_at acc' NKey = word_at acc NKey ∧ word_at acc' NOwner = word_at acc NOwner
  ∧ word_at acc' NAuthority = word_at acc NAuthority.

Lemma acc_evolves_powers acc acc' : acc_evolves acc acc' → same_powers acc acc'.
Proof. intros [_ F _]. unfold same_powers. rewrite !F by (unfold fixed_slots; set_solver). done. Qed.

Lemma authorised_stable acc acc' a before cl :
  same_powers acc acc' → authorised acc a before cl → authorised acc' a before cl.
Proof.
  intros (Hk & Ho & Ha). change (key_of acc' = key_of acc) in Hk.
  assert (owner_of acc' = owner_of acc) as Hw by (unfold owner_of; by rewrite Ho).
  intros [s sig Hsig Hc|args s sig Hsig Hin Hc|args s sig Hsig Hin Hc|args sig Hsig Hc
         |args t sig Hsig Hin Hc|f Hf Hc].
  - eapply auth_solve; rewrite ?Hk, ?Hw; [done|]. by eapply solve_call_stable.
  - eapply auth_solve_v2; rewrite ?Hk; [done..|]. by eapply solve_call_stable.
  - eapply auth_solve_v3; rewrite ?Hk, ?Hw; [done..|]. by eapply solve_call_stable.
  - eapply auth_gas; rewrite ?Hk; [done|]. destruct Hc; rewrite <-Hw; by econstructor.
  - eapply auth_transfer; rewrite ?Hk; done.
  - by eapply auth_fresh.
Qed.

Lemma snoc_split {A} (l : list A) x before y after :
  l ++ [x] = before ++ y :: after →
  (after = [] ∧ before = l ∧ x = y) ∨ ∃ after', after = after' ++ [x] ∧ l = before ++ y :: after'.
Proof.
  intros E. destruct after as [|z after' _] using rev_ind.
  - left. apply app_inj_2 in E as [-> [= ->]]; done.
  - right. exists after'. rewrite app_comm_cons, app_assoc in E.
    apply app_inj_2 in E as [-> [= ->]]; done.
Qed.

(** The same account, as far as events depend on it. *)
Definition same_parties (acc acc' : account) : Prop :=
  same_powers acc acc' ∧ word_at acc' NAdmin = word_at acc NAdmin ∧ beacon acc' = beacon acc.

Lemma acc_evolves_parties acc acc' : acc_evolves acc acc' → same_parties acc acc'.
Proof.
  intros Hev. split; [by apply acc_evolves_powers|]. destruct Hev as [Hb F _].
  rewrite F by (unfold fixed_slots; set_solver). done.
Qed.

Lemma same_parties_refl acc : same_parties acc acc.
Proof. apply acc_evolves_parties, acc_evolves_refl. Qed.

Lemma same_parties_owner acc acc' : same_parties acc acc' → owner_of acc' = owner_of acc.
Proof. intros [(_ & Ho & _) _]. unfold owner_of. by rewrite Ho. Qed.

Lemma same_parties_admin acc acc' : same_parties acc acc' → admin_of acc' = admin_of acc.
Proof. intros (_ & Ha & _). by rewrite !admin_of_word, Ha. Qed.

Lemma same_parties_migrated acc acc' a l :
  same_parties acc acc' → owner_migrated acc a l → owner_migrated acc' a l.
Proof.
  intros Hs. apply (owner_migrated_same acc' acc a []).
  - symmetry. by apply same_parties_owner.
  - symmetry. by apply same_parties_admin.
  - symmetry. apply Hs.
Qed.

(** Accounts of [m] are still there in [m'], with the same parties. *)
Definition accounts_kept (m m' : gmap address account) : Prop :=
  ∀ a acc, m !! a = Some acc → ∃ acc', m' !! a = Some acc' ∧ same_parties acc acc'.

Lemma event_ok_kept m m' before ev :
  accounts_kept m m' → event_ok m before ev → event_ok m' before ev.
Proof.
  intros Hm. destruct ev as [a cl| | | |a s cd]; try done; cbn; intros (acc & Ha & Hok);
    destruct (Hm a acc Ha) as (acc' & Ha' & Hs); exists acc'; (split; [done|]).
  - by eapply authorised_stable; [apply Hs|].
  - pose proof Hs as (_ & _ & Hb).
    destruct Hok as [Hn Hsn Hcd|Hmv|f facc Hf Hfa Hcd Hmv].
    + apply moved_now; [congruence| |done]. by rewrite (same_parties_admin _ _ Hs).
    + apply moved_before. by eapply same_parties_migrated.
    + destruct (Hm f facc Hfa) as (facc' & ? & Hfs). eapply moved_beacon; [by rewrite Hb|done..|].
      by eapply same_parties_migrated.
Qed.

Lemma log_ok_emit c ev :
  log_ok c → event_ok (accounts c) (events c) ev → log_ok (emit_event ev c).
Proof.
  intros Hl Hev before ev' after E. cbn in E.
  apply snoc_split in E as [(-> & -> & ->)|(after' & -> & E)]; [done|].
  by eapply Hl.
Qed.

Lemma log_ok_evolves c m :
  log_ok c → accounts_kept (accounts c) m → log_ok (mk_chain m (events c)).
Proof. intros Hl Hm before ev after E. by eapply event_ok_kept, Hl. Qed.

Lemma lookup_store c a b s v :
  accounts (store c a s v) !! b
  = if decide (a = b) then store_in s v <$> accounts c !! b else accounts c !! b.
Proof.
  cbn. case_decide as E; [subst; by rewrite lookup_alter_eq|by rewrite lookup_alter_ne].
Qed.

(** Slots that neither the invariant nor a signature's power depends on. *)
Definition bound_slots : list slot_name := [NKey; NOwner; NVersion; NAuthority; NImpl; NAdmin].
Definition free_slot (n : slot_name) : Prop := valid_name n ∧ n ∉ bound_slots.

Lemma free_slot_keeps acc n v n' :
  free_slot n → n' ∈ bound_slots →
  word_at (store_in (slot_at n) v acc) n' = word_at acc n'.
Proof.
  intros [Hv Hn] Hn'. apply word_at_store; [done| |congruence].
  destruct n'; try done. exfalso. unfold bound_slots in Hn'. set_solver.
Qed.

Lemma free_slot_initialised acc n v :
  free_slot n → initialised acc → initialised (store_in (slot_at n) v acc).
Proof.
  intros Hn. unfold initialised.
  by rewrite !free_slot_keeps by (first [done|unfold bound_slots; set_solver]).
Qed.

Lemma free_slot_parties acc n v :
  free_slot n → same_parties acc (store_in (slot_at n) v acc).
Proof.
  intros Hn. unfold same_parties, same_powers.
  by rewrite !free_slot_keeps by (first [done|unfold bound_slots; set_solver]).
Qed.

Lemma kept_is_Some m m' : accounts_kept m m' → ∀ f, is_Some (m !! f) → is_Some (m' !! f).
Proof. intros Hm f [acc Ha]. destruct (Hm f acc Ha) as (acc' & ? & _). eauto. Qed.

Lemma quiet_store c a n v : free_slot n → quiet c → quiet (store c a (slot_at n) v).
Proof.
  intros Hn [Hi Hl].
  assert (accounts_kept (accounts c) (accounts (store c a (slot_at n) v))) as Hk.
  { intros b acc Hb. pose proof (lookup_store c a b (slot_at n) v) as El. rewrite Hb in El.
    case_decide; eexists; (split; [exact El|]); [by apply free_slot_parties|apply same_parties_refl]. }
  split; [|by apply log_ok_evolves].
  intros b acc Hb. change (events (store c a (slot_at n) v)) with (events c).
  rewrite <-(app_nil_r (events c)). rewrite lookup_store in Hb. case_decide.
  - apply fmap_Some in Hb as (acc0 & Ha & ->). destruct (Hi b acc0 Ha) as [Hin Htr].
    pose proof (free_slot_parties acc0 n v Hn) as Hp. split; [by apply free_slot_initialised|].
    eapply traced_grows; [exact Htr|by apply same_parties_owner|by apply same_parties_admin|done| |
      by apply kept_is_Some]. left. by apply free_slot_keeps; [|unfold bound_slots; set_solver].
  - destruct (Hi b acc Hb) as [Hin Htr]. split; [done|].
    eapply traced_grows; [exact Htr|done..|by left|by apply kept_is_Some].
Qed.

(** Where a run that began at [c0] may be. *)
Definition on_course (c0 c : chain) : Prop := quiet c ∧ chain_evolves c0 c.

Lemma on_course_refl c : quiet c → on_course c c.
Proof. split; [done|apply chain_evolves_refl]. Qed.

Lemma chain_evolves_emit c0 c ev : chain_evolves c0 c → chain_evolves c0 (emit_event ev c).
Proof.
  intros (l & E & Hm). exists (l ++ [ev]). split; [cbn; by rewrite E, app_assoc|].
  intros a acc Ha. destruct (Hm a acc Ha) as (acc' & Ha' & Hv & Hi). exists acc'.
  split; [done|]. split; [done|]. intros Hne. by apply owner_migrated_app_l, Hi.
Qed.

Lemma on_course_emit c0 c ev :
  on_course c0 c → event_ok (accounts c) (events c) ev → on_course c0 (emit_event ev c).
Proof.
  intros [[Hi Hl] He] Hev. split; [split; [|by apply log_ok_emit]|by apply chain_evolves_emit].
  intros a acc Ha. destruct (Hi a acc Ha) as [Hin Htr]. split; [done|].
  eapply traced_grows; [exact Htr|done..|by left|done].
Qed.

Lemma on_course_account c0 c a acc0 :
  on_course c0 c → accounts c0 !! a = Some acc0 →
  ∃ acc, accounts c !! a = Some acc ∧ acc_evolves acc0 acc.
Proof. intros [_ (l & _ & Hm)] Ha. destruct (Hm a acc0 Ha) as (acc & ? & ? & _). eauto. Qed.

(** Writing a slot of an account on the way. *)
Lemma on_course_update c0 c a acc0 n v :
  on_course c0 c → accounts c0 !! a = Some acc0 →
  (∀ acc, accounts c !! a = Some acc → acc_evolves acc0 acc → initialised acc →
     let acc' := store_in (slot_at n) v acc in
     acc_evolves acc acc' ∧ initialised acc'
     ∧ (word_at acc' NImpl ≠ word_at acc NImpl →
          ∀ l, events c = events c0 ++ l → owner_migrated acc0 a l)) →
  on_course c0 (store c a (slot_at n) v).
Proof.
  intros [[Hq Hl] (l & E & Hm)] Ha Hn.
  destruct (Hm a acc0 Ha) as (acc & Hacc & Hev & Himp). destruct (Hq a acc Hacc) as [Hin Htr].
  destruct (Hn acc Hacc Hev Hin) as (Hev' & Hin' & Himp'). set (acc' := store_in _ v acc) in *.
  assert (∀ b, accounts (store c a (slot_at n) v) !! b
               = if decide (a = b) then Some acc' else accounts c !! b) as El.
  { intros b. rewrite lookup_store. case_decide as Eb; [subst b; by rewrite Hacc|done]. }
  assert (accounts_kept (accounts c) (accounts (store c a (slot_at n) v))) as Hk.
  { intros b accb Hb. rewrite El. case_decide as Eb.
    - subst b. simplify_eq. exists acc'. split; [done|by apply acc_evolves_parties].
    - exists accb. split; [done|apply same_parties_refl]. }
  split; [split|].
  - intros b accb. change (events (store c a (slot_at n) v)) with (events c).
    rewrite <-(app_nil_r (events c)), El. case_decide as Eb.
    + intros [= <-]. subst b. split; [done|].
      eapply traced_grows; [exact Htr|by apply owner_of_evolves|by apply admin_of_evolves|apply Hev'| |
        by apply kept_is_Some].
      destruct (decide (word_at acc' NImpl = word_at acc NImpl)) as [|Hne]; [by left|right].
      rewrite app_nil_r, E. eapply same_parties_migrated; [by apply acc_evolves_parties|].
      apply (owner_migrated_same acc0 acc0 a (events c0)); auto.
    + intros Hb. destruct (Hq b accb Hb) as [? Htb]. split; [done|].
      eapply traced_grows; [exact Htb|done..|by left|by apply kept_is_Some].
  - by apply log_ok_evolves.
  - exists l. split; [done|]. intros b accb Hb. rewrite El. case_decide as Eb; [|by apply Hm].
    subst b. rewrite Ha in Hb. injection Hb as <-. exists acc'.
    split; [done|]. split; [by eapply acc_evolves_trans|].
    intros Hne. destruct (decide (word_at acc NImpl = word_at acc0 NImpl)) as [E1|E1].
    + apply Himp'; [congruence|done].
    + by apply Himp.
Qed.

(** Using a timestamp. *)
Lemma on_course_timestamp c0 c a acc0 ms :
  on_course c0 c → accounts c0 !! a = Some acc0 → valid_name (NTimestamp ms) →
  load c a (slot_at (NTimestamp ms)) = U_ZERO →
  on_course c0 (store c a (slot_at (NTimestamp ms)) U_ONE).
Proof.
  intros Hc Ha Hv Hz. eapply on_course_update; [done..|].
  intros acc Hacc _ Hin. rewrite (load_word_at _ _ _ _ Hacc) in Hz. split_and!.
  - split; [done| |].
    + intros n Hn. rewrite word_at_store; [done|done|by apply fixed_valid|].
      intros ->. unfold fixed_slots in Hn. set_solver.
    + intros ms' Hv' Hne. rewrite word_at_store; [done..|]. intros [= ->]. done.
  - unfold initialised. by rewrite !word_at_store.
  - by rewrite word_at_store.
Qed.

(** Writing what is there already. *)
Lemma on_course_rewrite c0 c a acc0 n :
  on_course c0 c → accounts c0 !! a = Some acc0 → valid_name n →
  on_course c0 (store c a (slot_at n) (load c a (slot_at n))).
Proof.
  intros Hc Ha Hv. eapply on_course_update; [done..|]. intros acc Hacc _ Hin.
  rewrite (load_word_at _ _ _ _ Hacc).
  assert (∀ n', valid_name n' → word_at (store_in (slot_at n) (word_at acc n) acc) n'
                                = word_at acc n') as Hs.
  { intros n' Hn'. destruct (decide (n' = n)) as [->|]; [by rewrite word_at_store_eq|].
    by rewrite word_at_store. }
  split_and!.
  - split; [done| |by auto]. intros n' Hn'. by apply Hs, fixed_valid.
  - unfold initialised. by rewrite !Hs.
  - by rewrite Hs.
Qed.

(** Moving to another implementation. *)
Lemma on_course_impl c0 c a acc0 i :
  on_course c0 c → accounts c0 !! a = Some acc0 → length i = 32%nat →
  (∀ l, events c = events c0 ++ l → owner_migrated acc0 a l) →
  on_course c0 (store c a (slot_at NImpl) i).
Proof.
  intros Hc Ha Hi Hl. eapply on_course_update; [done..|]. intros acc Hacc _ (Hver & Hk & Ho & _).
  split_and!; [| |done].
  - split; [done| |].
    + intros n Hn. rewrite word_at_store; [done|done|by apply fixed_valid|].
      intros ->. unfold fixed_slots in Hn. set_solver.
    + intros ms Hv _. by rewrite word_at_store.
  - unfold initialised. by rewrite word_at_store_eq, !word_at_store.
Qed.
(** Other code runs only where an implementation was moved. *)
Lemma foreign_moved c a s cd :
  quiet c → foreign_call code_addr (accounts c) a s cd = true →
  event_ok (accounts c) (events c) (Foreign a s cd).
Proof.
  intros [Hq _]. unfold foreign_call. cbn.
  destruct (accounts c !! a) as [acc|] eqn:Ha; [|done].
  destruct (Hq a acc Ha) as [_ [_ Tim Tbe]]. unfold contract_call.
  rewrite andb_true_iff, !negb_true_iff, orb_false_iff.
  intros [[Hd%bool_decide_eq_false _] Hr]. exists acc. split; [done|].
  unfold delegates in Hd. rewrite Ha in Hd. cbn in Hd.
  destruct (beacon acc) as [f|] eqn:Hb.
  - case_bool_decide as Hcd; [|apply moved_before, Tim; congruence].
    destruct (Tbe f eq_refl) as [[facc Hf] (i & seed & ->)]. rewrite Hf in Hd. cbn in Hd.
    destruct (Hq f facc Hf) as [_ [Fad Fim _]].
    eapply moved_beacon; [done..|]. apply Fim. intros Ef. apply Hd. clear Hd.
    destruct (beacon facc) as [ff|] eqn:Hfb; cbn.
    + by rewrite Ef, bool_decide_eq_true_2.
    + unfold UpgradeableProxy_delegates. rewrite bool_decide_eq_false_2 by (by apply Fad).
      cbn. by rewrite Ef, bool_decide_eq_true_2.
  - unfold UpgradeableProxy_delegates in Hd. case_bool_decide as Hs; [|apply moved_before, Tim; congruence].
    unfold UpgradeableProxy_reverts in Hr. rewrite Hb, !bool_decide_eq_true_2 in Hr by done.
    cbn in Hr. apply bool_decide_eq_false in Hr. unfold UpgradeableProxy_upgrades in Hr.
    case_bool_decide; [|done]. case_bool_decide as Hcd; [|done].
    apply moved_now; [done..|]. by destruct cd as [|? [|? [|? [|? ?]]]].
Qed.
End Safety.
