(* ===== verification/ContractBorsh.v ===== *)
(** * ContractBorsh: the contract decodes what clients encode

    Every well-formed request is decoded from its Borsh encoding, followed by
    anything; and no encoding of a request begins with the selector of
    [migrate], by which the entrypoint tells migrations from requests. *)
From stdpp Require Import base numbers strings list gmap.
From Stdlib Require Import Strings.Byte ZArith Lia.
From S2P Require Import Prelude GoStd Types BorshRef Chain Contract AccountSafety.

Section ContractBorsh.
Context `{SL : SdkLaws}.
#[local] Hint Resolve c_Asset_ok : codec_db.

Definition wf_TransferPermit (p : TransferPermit) : Prop :=
  wf_u64 (TransferPermit_Deadline p) ∧ length (TransferPermit_R p) = 32%nat
  ∧ length (TransferPermit_S p) = 32%nat.

Definition wf_Transfer (t : Transfer) : Prop :=
  length (Transfer_From t) = 20%nat ∧ length (Transfer_Recipient t) = 20%nat
  ∧ length (Transfer_Amt t) = 32%nat
  ∧ match Transfer_Permit t with Some p => wf_TransferPermit p | None => True end.

Definition wf_TransferOnlyArgs (a : TransferOnlyArgs) : Prop :=
  wf_slice (TransferOnlyArgs_Args a) ∧ Forall wf_Transfer (TransferOnlyArgs_Args a)
  ∧ length (TransferOnlyArgs_MsTs a) = 16%nat.

Definition wf_StatementArgs (a : StatementArgs) : Prop :=
  wf_slice (StatementArgs_Msg a) ∧ length (StatementArgs_MsTs a) = 6%nat.

Definition wf_request (a : Args) : Prop :=
  match a with
  | Args_FreshBackwards f => wf_FreshBackwards f
  | Args_Solve l => wf_slice l ∧ Forall wf_SolveArgsSigArgs l
  | Args_SolveV2 a s => wf_SolveV2Args a ∧ length s = 64%nat
  | Args_TransferOnly a s => wf_TransferOnlyArgs a ∧ length s = 64%nat
  | Args_Statement a s => wf_StatementArgs a ∧ length s = 64%nat
  | Args_SolveV3 a s => wf_SolveV3Args a ∧ length s = 64%nat
  | _ => True
  end.

Lemma wf_u64_le d : wf_u64 d → 0 ≤ d < 256 ^ Z.of_nat 8.
Proof. done. Qed.
#[local] Hint Resolve wf_u64_le : core.

Lemma b_Permit_ok : codec_ok wf_Permit b_Permit.
Proof.
  eapply codec_ok_weaken; cycle 1.
  - apply c_iso_ok; [by intros []|eauto 10 with codec_db].
  - intros p (Hd & Hr & Hs). cbn. split_and!; try done; by apply wf_u64_le.
Qed.

Lemma b_FromArgs_ok : codec_ok wf_FromArgs b_FromArgs.
Proof.
  eapply codec_ok_weaken; cycle 1.
  - apply c_iso_ok; [by intros []|eauto 10 with codec_db].
  - intros p (? & ?). cbn. done.
Qed.
#[local] Hint Resolve b_Permit_ok b_FromArgs_ok : codec_db.

Lemma b_SolveArgs_ok : codec_ok wf_SolveArgs b_SolveArgs.
Proof.
  eapply codec_ok_weaken; cycle 1.
  - apply c_iso_ok; [by intros []|eauto 10 with codec_db].
  - intros s (? & ? & ? & ? & ? & ? & ?). cbn. split_and!; try done. by apply Forall_forall.
Qed.
#[local] Hint Resolve b_SolveArgs_ok : codec_db.

Lemma b_SolveArgsSigArgs_ok : codec_ok wf_SolveArgsSigArgs b_SolveArgsSigArgs.
Proof.
  eapply codec_ok_weaken; cycle 1.
  - apply c_iso_ok; [by intros []|eauto 10 with codec_db].
  - by intros s (? & ?).
Qed.
#[local] Hint Resolve b_SolveArgsSigArgs_ok : codec_db.

Lemma b_SolveV2Args_ok : codec_ok wf_SolveV2Args b_SolveV2Args.
Proof.
  eapply codec_ok_weaken; cycle 1.
  - apply c_iso_ok; [by intros []|eauto 10 with codec_db].
  - by intros s (? & ? & ? & ?).
Qed.

Lemma b_SolveV3Args_ok : codec_ok wf_SolveV3Args b_SolveV3Args.
Proof.
  eapply codec_ok_weaken; cycle 1.
  - apply c_iso_ok; [by intros []|eauto 10 with codec_db].
  - intros s (? & ? & Hg & Hp). cbn. split_and!; try done; by apply wf_u64_le.
Qed.

Lemma b_TransferPermit_ok : codec_ok wf_TransferPermit b_TransferPermit.
Proof.
  eapply codec_ok_weaken; cycle 1.
  - apply c_iso_ok; [by intros []|eauto 10 with codec_db].
  - intros s (Hd & ? & ?). cbn. split_and!; try done; by apply wf_u64_le.
Qed.
#[local] Hint Resolve b_TransferPermit_ok : codec_db.

Lemma b_Transfer_ok : codec_ok wf_Transfer b_Transfer.
Proof.
  eapply codec_ok_weaken; cycle 1.
  - apply c_iso_ok; [by intros []|eauto 10 with codec_db].
  - by intros s (? & ? & ? & ?).
Qed.
#[local] Hint Resolve b_Transfer_ok : codec_db.

Lemma b_TransferOnlyArgs_ok : codec_ok wf_TransferOnlyArgs b_TransferOnlyArgs.
Proof.
  eapply codec_ok_weaken; cycle 1.
  - apply c_iso_ok; [by intros []|eauto 10 with codec_db].
  - by intros s (? & ? & ?).
Qed.

Lemma b_StatementArgs_ok : codec_ok wf_StatementArgs b_StatementArgs.
Proof.
  eapply codec_ok_weaken; cycle 1.
  - apply c_iso_ok; [by intros []|eauto 10 with codec_db].
  - intros s (? & ?). cbn. split_and!; try done. by apply Forall_forall.
Qed.

Lemma b_FreshBackwards_ok : codec_ok wf_FreshBackwards b_FreshBackwards.
Proof.
  eapply codec_ok_weaken; cycle 1.
  - apply c_iso_ok; [by intros []|eauto 12 with codec_db].
  - by intros s (? & ? & ? & ? & ? & ? & ?).
Qed.

Lemma b_signed_ok {A} (P : A → Prop) (c : codec A) a s rest :
  codec_ok P c → P a → length s = 64%nat →
  dec (b_signed c) (enc (b_signed c) (a, s) ++ rest) = Some ((a, s), rest).
Proof. intros Hc Ha Hs. by apply (c_pair_ok P (λ b, length b = 64%nat)); [|apply c_fixed_ok|]. Qed.

Lemma request_decodes a rest :
  wf_request a → Args_deserialize (Args_to_vec a ++ rest) = Some (a, rest).
Proof.
  intros Hw. destruct a as [f|l| | |args sig|args sig|args sig| | |args sig|]; try done;
    cbn [Args_to_vec Args_deserialize app]; unfold dec_to.
  - by rewrite b_FreshBackwards_ok.
  - by rewrite (c_vec_ok wf_SolveArgsSigArgs _ b_SolveArgsSigArgs_ok).
  - destruct Hw. by rewrite (b_signed_ok wf_SolveV2Args) by eauto using b_SolveV2Args_ok.
  - destruct Hw. by rewrite (b_signed_ok wf_TransferOnlyArgs) by eauto using b_TransferOnlyArgs_ok.
  - destruct Hw. by rewrite (b_signed_ok wf_StatementArgs) by eauto using b_StatementArgs_ok.
  - destruct Hw. by rewrite (b_signed_ok wf_SolveV3Args) by eauto using b_SolveV3Args_ok.
Qed.

Lemma request_not_migrate a rest : take 4 (Args_to_vec a ++ rest) ≠ SEL_MIGRATE.
Proof. rewrite SEL_MIGRATE_spec. by destruct a. Qed.

Lemma entrypoint_request this sender net a rest :
  wf_request a →
  user_entrypoint this sender net (Args_to_vec a ++ rest)
  = entry this (mk_Imm net (zeros 20)) a.
Proof.
  intros Hw. pose proof (request_decodes a rest Hw) as Ed.
  pose proof (request_not_migrate a rest) as Hm.
  assert (Args_to_vec a ++ rest ≠ []) as Hne by by destruct a.
  generalize dependent (Args_to_vec a ++ rest). intros [|b cd] Ed Hm Hne; [done|].
  unfold user_entrypoint. rewrite flush_guard_spec.
  by rewrite (bool_decide_eq_false_2 (take 4 _ = _)), andb_false_r, Ed.
Qed.

(** The entrypoint of the contract decodes every well-formed request from
    its Borsh encoding, whatever follows it in the calldata, and runs it: no
    request is taken for a migration or for another request. *)
Theorem request_roundtrip this sender net a rest :
  wf_request a →
  Args_deserialize (Args_to_vec a ++ rest) = Some (a, rest)
  ∧ user_entrypoint this sender net (Args_to_vec a ++ rest)
    = entry this (mk_Imm net (zeros 20)) a.
Proof. intros Hw. split; [by apply request_decodes|by apply entrypoint_request]. Qed.
End ContractBorsh.
