(* ===== verification/AccountCode.v ===== *)
(** * AccountCode: the contract's code meets its contract

    Each entry of the account contract in the logic of Chain, and with them
    [user_entrypoint]: from a chain where the invariant of AccountSafety holds
    it leads to one where it holds, accounts evolve, and the timestamps of the
    request were new and are used up; on a proxy just created, [migrate] sets
    the account up. *)
From stdpp Require Import base numbers strings list gmap.
From Stdlib Require Import Strings.Byte ZArith Lia.
From S2P Require Import Prelude GoStd Types BorshRef Chain Contract AccountSafety.

(** ** What a decoder can return *)

Definition codec_gives {A} (P : A → Prop) (c : codec A) : Prop :=
  ∀ s a rest, dec c s = Some (a, rest) → P a.

Lemma gives_any {A} (c : codec A) : codec_gives (λ _, True) c.
Proof. done. Qed.

Lemma gives_fixed n : codec_gives (λ b, length b = n) (c_fixed n).
Proof.
  intros s b rest. cbn. case_decide; [|done]. intros [= <- _]. rewrite length_take. lia.
Qed.

Lemma gives_pair {A B} (P : A → Prop) (Q : B → Prop) c d :
  codec_gives P c → codec_gives Q d → codec_gives (λ p, P p.1 ∧ Q p.2) (c_pair c d).
Proof.
  intros Hc Hd s [a b] rest. cbn.
  destruct (dec c s) as [[a' s']|] eqn:E1; [|done]. cbn.
  destruct (dec d s') as [[b' s'']|] eqn:E2; [|done]. cbn. intros [= <- <- _]. eauto.
Qed.

Lemma gives_iso {A B} (P : A → Prop) (Q : B → Prop) (f : A → B) g c :
  (∀ a, P a → Q (f a)) → codec_gives P c → codec_gives Q (c_iso f g c).
Proof.
  intros Hf Hc s b rest. cbn. destruct (dec c s) as [[a s']|] eqn:E; [|done].
  cbn. intros [= <- _]. eauto.
Qed.

Lemma gives_vec {A} (P : A → Prop) (c : codec A) :
  codec_gives P c → codec_gives (Forall P) (c_vec c).
Proof.
  intros Hc s l rest. cbn [dec c_vec].
  destruct (dec (c_le 4) s) as [[n s']|]; [|done]. cbn. generalize (Z.to_nat n). clear n s.
  intros n. revert s' l. induction n as [|n IH]; intros s l; cbn; [by intros [= <- _]|].
  destruct (dec c s) as [[a s']|] eqn:E1; [|done]. cbn.
  destruct (dec_n c n s') as [[l' s'']|] eqn:E2; [|done]. cbn. intros [= <- ->].
  constructor; eauto.
Qed.

Section Decoded.
Context `{Sdk}.

Definition ts16 (s : SolveArgs) : Prop := length (SolveArgs_MsTs s) = 16%nat.

Lemma gives_SolveArgs : codec_gives ts16 b_SolveArgs.
Proof.
  eapply gives_iso; [|repeat apply gives_pair; eauto using gives_any, gives_fixed].
  intros (? & ? & ? & ? & m). cbn. unfold ts16. cbn. tauto.
Qed.

Definition timestamps_of (a : Args) : list word :=
  match a with
  | Args_Solve l => map (λ x, U_from (SolveArgs_MsTs (SolveArgsSigArgs_Args x))) l
  | Args_SolveV2 a _ => map (λ x, U_from (SolveArgs_MsTs x)) (SolveV2Args_Args a)
  | Args_SolveV3 a _ => map (λ x, U_from (SolveArgs_MsTs x)) (SolveV3Args_Args a)
  | Args_TransferOnly a _ => [U_from (TransferOnlyArgs_MsTs a)]
  | Args_Statement a _ => [U_from (StatementArgs_MsTs a)]
  | _ => []
  end.

(** The sizes that decoding guarantees. *)
Definition sized (a : Args) : Prop :=
  match a with
  | Args_Solve l => Forall (λ x, ts16 (SolveArgsSigArgs_Args x)) l
  | Args_SolveV2 a _ => Forall ts16 (SolveV2Args_Args a)
  | Args_SolveV3 a _ => Forall ts16 (SolveV3Args_Args a)
  | Args_TransferOnly a _ => length (TransferOnlyArgs_MsTs a) = 16%nat
  | Args_Statement a _ => length (StatementArgs_MsTs a) = 6%nat
  | Args_FreshBackwards f =>
      length (FreshBackwards_Key f) = 32%nat ∧ length (FreshBackwards_EoaAddr f) = 20%nat
      ∧ length (default (zeros 20) (FreshBackwards_Authority f)) = 20%nat
  | _ => True
  end.

Lemma gives_option {A} (P : A → Prop) (c : codec A) :
  codec_gives P c → codec_gives (λ o, match o with Some a => P a | None => True end) (c_option c).
Proof.
  intros Hc s o rest. destruct s as [|b s]; [done|]. cbn.
  destruct b; try done; [by intros [= <- _]|].
  destruct (dec c s) as [[a s']|] eqn:E; [|done]. cbn. intros [= <- _]. eauto.
Qed.

Lemma gives_FreshBackwards : codec_gives (λ f, sized (Args_FreshBackwards f)) b_FreshBackwards.
Proof.
  eapply gives_iso;
    [|repeat (apply gives_pair; [first [apply gives_fixed|apply gives_any]|]);
      apply gives_option, gives_fixed].
  intros (? & ? & ? & ? & ? & ? & o). cbn. intros (? & ? & _ & _ & _ & _ & Ho).
  split_and!; [done..|]. by destruct o.
Qed.

Lemma dec_to_gives {A} (P : A → Prop) (Q : Args → Prop) (c : codec A) f b a rest :
  codec_gives P c → (∀ x, P x → Q (f x)) → dec_to c f b = Some (a, rest) → Q a.
Proof.
  intros Hc HQ. unfold dec_to. destruct (dec c b) as [[x s]|] eqn:E; [|done].
  cbn. intros [= <- _]. eauto.
Qed.

Lemma Args_deserialize_sized b a rest : Args_deserialize b = Some (a, rest) → sized a.
Proof.
  unfold Args_deserialize. destruct b as [|t b]; [done|].
  destruct t; try done; try (by intros [= <- _]).
  - eapply dec_to_gives; [apply gives_FreshBackwards|done].
  - eapply (dec_to_gives (Forall (λ x, ts16 (SolveArgsSigArgs_Args x)))); [|done].
    apply gives_vec. eapply (gives_iso (λ p, True ∧ ts16 p.2)); [by intros [] []|].
    apply (gives_pair (λ _, True) ts16); [apply gives_any|apply gives_SolveArgs].
  - eapply (dec_to_gives (λ p, Forall ts16 (SolveV2Args_Args p.1) ∧ True)); [|by intros [] []].
    apply (gives_pair (λ x, Forall ts16 (SolveV2Args_Args x)) (λ _, True)); [|apply gives_any].
    eapply (gives_iso (λ p, Forall ts16 p.1 ∧ True)); [by intros (? & ? & ?) []|].
    apply (gives_pair (Forall ts16) (λ _, True)); [apply gives_vec, gives_SolveArgs|apply gives_any].
  - eapply (dec_to_gives (λ p, length (TransferOnlyArgs_MsTs p.1) = 16%nat ∧ True));
      [|by intros [] []].
    apply (gives_pair (λ x, length (TransferOnlyArgs_MsTs x) = 16%nat) (λ _, True)); [|apply gives_any].
    eapply (gives_iso (λ p, True ∧ length p.2 = 16%nat)); [by intros [] []|].
    apply (gives_pair (λ _, True) (λ m, length m = 16%nat)); [apply gives_any|apply gives_fixed].
  - eapply (dec_to_gives (λ p, length (StatementArgs_MsTs p.1) = 6%nat ∧ True));
      [|by intros [] []].
    apply (gives_pair (λ x, length (StatementArgs_MsTs x) = 6%nat) (λ _, True)); [|apply gives_any].
    eapply (gives_iso (λ p, True ∧ length p.2 = 6%nat)); [by intros [] []|].
    apply (gives_pair (λ _, True) (λ m, length m = 6%nat)); [apply gives_any|apply gives_fixed].
  - eapply (dec_to_gives (λ p, Forall ts16 (SolveV3Args_Args p.1) ∧ True)); [|by intros [] []].
    apply (gives_pair (λ x, Forall ts16 (SolveV3Args_Args x)) (λ _, True)); [|apply gives_any].
    eapply (gives_iso (λ p, Forall ts16 p.1 ∧ True)); [by intros (? & ? & ? & ?) []|].
    apply (gives_pair (Forall ts16) (λ _, True)); [apply gives_vec, gives_SolveArgs|apply gives_any].
Qed.

Lemma valid_timestamps a ms : sized a → ms ∈ timestamps_of a → valid_name (NTimestamp ms).
Proof.
  assert (∀ (l : list SolveArgs), Forall ts16 l → ms ∈ map (λ x, U_from (SolveArgs_MsTs x)) l →
            valid_name (NTimestamp ms)) as Hmap.
  { intros l Hl (x & -> & Hx)%list_elem_of_fmap. apply list_elem_of_lookup in Hx as [i Hi].
    eexists. split; [right; exact (Forall_lookup_1 _ _ _ _ Hl Hi)|done]. }
  destruct a; cbn; try (by intros _ ?%elem_of_nil); intros Hs Hms.
  - eapply (Hmap (map SolveArgsSigArgs_Args args)); [by apply Forall_map|by rewrite map_map].
  - by eapply Hmap.
  - apply list_elem_of_singleton in Hms as ->. eexists. by split; [right|].
  - apply list_elem_of_singleton in Hms as ->. eexists. by split; [left|].
  - by eapply Hmap.
Qed.
End Decoded.

(** ** The contract of a call *)
Section Code.
Context `{SL : SdkLaws} (net : Network) (code_addr : address).
#[local] Instance accounts_here : Deployed := accounts_deployed net code_addr.

Abbreviation on_course := (on_course net code_addr).
Abbreviation quiet := (quiet net code_addr).
Abbreviation authorised := (authorised net).

(** A proxy just created, called to be set up. *)
Definition fresh_account (c : chain) (t : address) (cd : bytes) : Prop :=
  (∃ f, accounts c !! t = Some (mk_account (Some f) ∅))
  ∧ map_Forall (λ a acc, a ≠ t → initialised acc ∧ traced code_addr (accounts c) (events c) a acc)
      (accounts c)
  ∧ log_ok net c ∧ take 4 cd = SEL_MIGRATE.

(** The storage [migrate] sets up. *)
Definition migrated (key owner impl authority : word) : gmap word word :=
  <[slot_at NVersion := be_split 32 2]>
    (<[slot_at NImpl := impl]>
      (<[slot_at NAuthority := authority]>
        (<[slot_at NOwner := owner]>
          (<[slot_at NCount := U_ONE]> (<[slot_at NKey := key]> ∅))))).

#[global] Arguments migrated : simpl never.

Definition set_up (c : chain) (t s : address) (cd : bytes) (c' : chain) : Prop :=
  ∃ f key owner impl authority,
    accounts c !! t = Some (mk_account (Some f) ∅)
    ∧ read_words4 (drop 4 cd) = Some (key, owner, impl, authority)
    ∧ key ≠ U_ZERO ∧ owner ≠ U_ZERO
    ∧ c' = mk_chain (<[t := mk_account (Some f) (migrated key owner impl authority)]> (accounts c))
             (events c ++ [Invoked t s cd]).

Definition ts_word (c : chain) (a : address) (ms : word) : word :=
  load c a (slot_at (NTimestamp ms)).

(** The request's timestamps were new, and are used up. *)
Definition used_up (c : chain) (t : address) (cd : bytes) (c' : chain) : Prop :=
  ∀ a rest ms, Args_deserialize cd = Some (a, rest) → ms ∈ timestamps_of a →
    ts_word c t ms = U_ZERO ∧ ts_word c' t ms = U_ONE.

(** A request for a new account made it, for the owner who signed for it. *)
Definition new_account (c : chain) (t : address) (f : FreshBackwards) (c' : chain) : Prop :=
  let a := proxy_at t (FreshBackwards_EoaAddr f) in
  fresh_signed f ∧ accounts c !! a = None
  ∧ ∃ acc, accounts c' !! a = Some acc ∧ beacon acc = Some t
         ∧ key_of acc = FreshBackwards_Key f ∧ owner_of acc = FreshBackwards_EoaAddr f
         ∧ word_at acc NAuthority = U_from (default (zeros 20) (FreshBackwards_Authority f)).

Definition made (c : chain) (t : address) (cd : bytes) (c' : chain) : Prop :=
  ∀ f rest, Args_deserialize cd = Some (Args_FreshBackwards f, rest) → new_account c t f c'.

#[export] Instance account_contract : Chain.Contract := {|
  Pre c t s cd := runs (accounts c) t s cd = true ∧ (quiet c ∨ fresh_account c t cd);
  Post c t s cd c' :=
    (quiet c → on_course c c' ∧ used_up c t cd c' ∧ made c t cd c')
    ∧ (fresh_account c t cd → set_up c t s cd c');
  Quiet := quiet;
  Evolves := chain_evolves
|}.

#[export] Instance account_contract_laws : ContractLaws.
Proof.
  split; cbn.
  - auto.
  - intros c t s cd c' Hq [Hp _]. destruct (Hp Hq) as [[? ?] _]. done.
  - intros c t s cd Hq Hf. apply on_course_emit; [by apply on_course_refl|].
    by eapply foreign_moved.
  - apply chain_evolves_refl.
  - apply chain_evolves_trans.
Qed.

Lemma on_course_trans c0 c c' : chain_evolves c0 c → on_course c c' → on_course c0 c'.
Proof. intros H1 [Hq H2]. split; [done|]. by eapply chain_evolves_trans. Qed.

(** ** Rules *)
Section Rules.
Context (this : address) (c0 : chain) (acc0 : account).
Context (Hthis : accounts c0 !! this = Some acc0).

Lemma wp_call k to cd v g out c (Q : reply → bytes → chain → Prop) :
  on_course c0 c → authorised acc0 this (events c) (mk_call k to cd v g) →
  (∀ r c', on_course c0 c' → chain_evolves c c' → Q r out c') →
  wp this (do_call k to cd v g) out c Q.
Proof.
  intros Hc Hau HQ. destruct (on_course_account _ _ _ _ _ _ Hc Hthis) as (acc & Ha & Hev).
  set (cl := mk_call k to cd v g). set (c1 := emit_event (Called this cl) c).
  assert (on_course c0 c1) as Hc1.
  { apply on_course_emit; [done|]. exists acc. split; [done|].
    eapply authorised_stable; [|done]. by apply acc_evolves_powers. }
  assert (chain_evolves c c1) as Hv1 by apply chain_evolves_emit, chain_evolves_refl.
  cbn [wp do_call]. fold cl c1. split; [intros r _; apply HQ; [done|apply chain_evolves_refl]|].
  destruct (runs _ _ _ _) eqn:Hr.
  - split; [by split; [|left; apply Hc1]|]. intros c' r [HP _] _.
    destruct (HP (proj1 Hc1)) as [Hc' _].
    apply HQ; [eapply on_course_trans; [apply Hc1|done]|]. eapply chain_evolves_trans; [done|].
    apply Hc'.
  - split; [apply Hc1|]. intros c' r Hq Hv _.
    apply HQ; [|by eapply chain_evolves_trans]. split; [done|].
    eapply chain_evolves_trans; [apply Hc1|done].
Qed.

Lemma wp_unit m out c (Q : unit → bytes → chain → Prop) :
  wp this m out c (λ r out' c', Q tt out' c') → wp this (revert_if_bad_call_unit m) out c Q.
Proof.
  intros Hm. apply wp_bind. eapply wp_mono; [|exact Hm]. cbn. intros r out' c' HQ.
  by destruct (r_ok r).
Qed.

Lemma wp_assert b why out c (Q : unit → bytes → chain → Prop) :
  (b = true → Q tt out c) → wp this (assert_ b why) out c Q.
Proof. intros HQ. destruct b; cbn; auto. Qed.

Lemma wp_unwrap {A} (o : option A) out c (Q : A → bytes → chain → Prop) :
  (∀ a, o = Some a → Q a out c) → wp this (unwrap o) out c Q.
Proof. intros HQ. destruct o; cbn; auto. Qed.

Lemma wp_for_each {A} (J : list A → chain → Prop) (l : list A) f out c :
  (∀ done x out c, x ∈ l → J done c → wp this (f x) out c (λ _ _ c', J (done ++ [x]) c')) →
  J [] c → wp this (for_each l f) out c (λ _ _ c', J l c').
Proof.
  intros Hf HJ.
  enough (∀ rest done out c, (∀ x, x ∈ rest → x ∈ l) → J done c →
            wp this (for_each rest f) out c (λ _ _ c', J (done ++ rest) c')) as Hg
    by by apply (Hg l []).
  clear HJ c out. intros rest. induction rest as [|x rest IH]; intros done out c Hin HJ; cbn.
  - by rewrite app_nil_r.
  - apply wp_bind. eapply wp_mono; [|apply Hf; [apply Hin; set_solver|done]].
    cbn. intros _ out' c' HJ'.
    replace (done ++ x :: rest) with ((done ++ [x]) ++ rest) by by rewrite <-app_assoc.
    apply IH; [set_solver|done].
Qed.

(** A loop whose rounds stay on course. *)
Lemma wp_for_each_course {A} (l : list A) f out c :
  (∀ x out c, x ∈ l → on_course c0 c →
     wp this (f x) out c (λ _ _ c', on_course c0 c' ∧ chain_evolves c c')) →
  on_course c0 c →
  wp this (for_each l f) out c (λ _ _ c', on_course c0 c' ∧ chain_evolves c c').
Proof.
  intros Hf Hc.
  apply (wp_for_each (λ _ c', on_course c0 c' ∧ chain_evolves c c')); [|by auto using chain_evolves_refl].
  intros done x out' c1 Hx [Hc1 Hv]. eapply wp_mono; [|by apply Hf].
  cbn. intros _ _ c2 [? ?]. split; [done|]. by eapply chain_evolves_trans.
Qed.

Lemma ts_word_back c ms :
  valid_name (NTimestamp ms) → chain_evolves c0 c → ts_word c this ms = U_ZERO →
  ts_word c0 this ms = U_ZERO.
Proof.
  intros Hv (l & _ & Hm) Hz. destruct (Hm this acc0 Hthis) as (acc & Ha & [_ _ T] & _).
  unfold ts_word in *. rewrite (load_word_at _ _ _ _ Hthis). rewrite (load_word_at _ _ _ _ Ha) in Hz.
  destruct (decide (word_at acc0 (NTimestamp ms) = U_ZERO)); [done|]. by rewrite <-T.
Qed.

Lemma ts_word_keep c c' ms :
  valid_name (NTimestamp ms) → on_course c0 c → chain_evolves c c' →
  ts_word c this ms = U_ONE → ts_word c' this ms = U_ONE.
Proof.
  intros Hv Hc (l & _ & Hm) Hz. destruct (on_course_account _ _ _ _ _ _ Hc Hthis) as (acc & Ha & _).
  destruct (Hm this acc Ha) as (acc' & Ha' & [_ _ T] & _).
  unfold ts_word in *. rewrite (load_word_at _ _ _ _ Ha'). rewrite (load_word_at _ _ _ _ Ha) in Hz.
  rewrite T; [done..|]. rewrite Hz. done.
Qed.

Lemma wp_timestamp ms out c (Q : unit → bytes → chain → Prop) :
  on_course c0 c → valid_name (NTimestamp ms) →
  (∀ c', on_course c0 c' → chain_evolves c c' → ts_word c this ms = U_ZERO →
         ts_word c' this ms = U_ONE → Q tt out c') →
  wp this (timestamps_exchange ms) out c Q.
Proof.
  intros Hc Hv HQ. unfold timestamps_exchange. rewrite storage_exchange_spec. cbn.
  change (slot_map SLOT_timestamps ms) with (slot_at (NTimestamp ms)).
  case_bool_decide as Hz; cbn; [|done].
  destruct (on_course_account _ _ _ _ _ _ Hc Hthis) as (acc & Ha & _).
  apply HQ; [by eapply on_course_timestamp| |done|].
  - eapply (on_course_timestamp net code_addr c c); [|done..]. apply on_course_refl, Hc.
  - unfold ts_word. erewrite load_word_at; [|rewrite lookup_store, decide_True, Ha; done].
    apply (word_at_store_eq _ (NTimestamp ms)).
Qed.

(** ** The solve entries *)

Section Solve.
Context (imm : Imm) (po tr : address) (sa : SolveArgs).
Context (Hnet : network imm = net) (Hts : ts16 sa).
Context (Hau : ∀ before cl, solve_call net acc0 this po tr before sa cl →
                            authorised acc0 this before cl).

Lemma wp_solve_permit p out c :
  p ∈ SolveArgs_Permit sa → on_course c0 c →
  wp this (solve_permit this imm po p) out c (λ _ _ c', on_course c0 c' ∧ chain_evolves c c').
Proof.
  intros Hp Hc. unfold solve_permit. rewrite Hnet. apply wp_bind, wp_unwrap. intros token Ht.
  apply wp_unit, wp_call; [done| |by auto]. apply Hau. by econstructor.
Qed.

Lemma wp_solve_from f out c :
  f ∈ SolveArgs_From sa → on_course c0 c →
  wp this (solve_from this imm tr (SolveArgs_Target sa) f) out c
    (λ _ _ c', on_course c0 c' ∧ chain_evolves c c').
Proof.
  intros Hf Hc. unfold solve_from. rewrite Hnet. apply wp_bind, wp_unwrap. intros token Ht.
  apply wp_bind, wp_unit, wp_call; [done|apply Hau; by econstructor|]. intros _ c1 Hc1 Hv1.
  apply wp_unit, wp_call; [done|apply Hau; by econstructor|]. intros _ c2 Hc2 Hv2.
  split; [done|]. by eapply chain_evolves_trans.
Qed.

Lemma wp_solve_balance f out c :
  f ∈ SolveArgs_From sa → on_course c0 c →
  wp this (solve_balance this imm f) out c (λ _ _ c', on_course c0 c' ∧ chain_evolves c c').
Proof.
  intros Hf Hc. unfold solve_balance. rewrite Hnet. apply wp_bind, wp_unwrap. intros token Ht.
  apply wp_bind. unfold revert_if_bad_call. apply wp_bind, wp_call; [done| |].
  { apply Hau. by econstructor. }
  intros r c1 Hc1 Hv1. destruct (r_ok r); cbn; [|done]. by apply wp_assert.
Qed.

(** The authority is asked right before the target is called. *)
Lemma wp_solve_target out c :
  on_course c0 c →
  wp this (solve_authority (SolveArgs_Target sa) ;;;
           solve_target (SolveArgs_Target sa) (SolveArgs_Cd sa)) out c
    (λ _ _ c', on_course c0 c' ∧ chain_evolves c c').
Proof.
  intros Hc.
  assert (∀ c1, on_course c0 c1 → chain_evolves c c1 →
            allowed_target acc0 this (SolveArgs_Target sa) (events c1) →
            wp this (solve_target (SolveArgs_Target sa) (SolveArgs_Cd sa)) out c1
              (λ _ _ c', on_course c0 c' ∧ chain_evolves c c')) as Ht.
  { intros c1 Hc1 Hv1 Hal. apply wp_bind, wp_call; [done|apply Hau; by constructor|].
    intros r c2 Hc2 Hv2. destruct (r_ok r); cbn; [|by destruct (r_data r)].
    split; [done|]. by eapply chain_evolves_trans. }
  destruct (on_course_account _ _ _ _ _ _ Hc Hthis) as (acc & Ha & Hev).
  assert (load c this SLOT_authority = word_at acc0 NAuthority) as Hld.
  { rewrite (load_word_at _ _ _ NAuthority Ha). apply (acc_evolves_powers _ _ Hev). }
  unfold solve_authority. cbn [storage_load prog_then wp]. rewrite Hld, U_is_some_spec.
  case_bool_decide as Hs; cbn [prog_then wp is_allowed].
  - intros h ok. destruct ok; cbn [prog_then wp]; [|done]. apply Ht.
    + by apply on_course_emit; [apply on_course_emit|].
    + apply chain_evolves_emit, chain_evolves_emit, chain_evolves_refl.
    + right. exists (events c), h. cbn. by rewrite <-app_assoc.
  - apply Ht; [done|apply chain_evolves_refl|]. left. by destruct (decide (word_at acc0 NAuthority = U_ZERO)).
Qed.

Lemma valid_ts16 : valid_name (NTimestamp (U_from (SolveArgs_MsTs sa))).
Proof. eexists. by split; [right|]. Qed.

Lemma wp_solve_one out c :
  on_course c0 c →
  wp this (solve_one this imm po tr sa) out c
    (λ _ _ c', on_course c0 c' ∧ chain_evolves c c'
               ∧ ts_word c this (U_from (SolveArgs_MsTs sa)) = U_ZERO
               ∧ ts_word c' this (U_from (SolveArgs_MsTs sa)) = U_ONE).
Proof.
  intros Hc. apply wp_bind, wp_timestamp; [done|apply valid_ts16|]. intros c1 Hc1 Hv1 Hz Ho.
  assert (∀ c', on_course c0 c' → chain_evolves c1 c' →
            on_course c0 c' ∧ chain_evolves c c'
            ∧ ts_word c this (U_from (SolveArgs_MsTs sa)) = U_ZERO
            ∧ ts_word c' this (U_from (SolveArgs_MsTs sa)) = U_ONE) as Hdone.
  { intros c' Hc' Hv'. split_and!; [done|by eapply chain_evolves_trans|done|].
    eapply ts_word_keep; [apply valid_ts16|exact Hc1|done|done]. }
  apply wp_bind. eapply wp_mono; [|apply wp_for_each_course; eauto using wp_solve_permit].
  cbn beta. intros _ out2 c2 [Hc2 Hv2].
  apply wp_bind. eapply wp_mono; [|apply wp_for_each_course; eauto using wp_solve_from].
  cbn beta. intros _ out3 c3 [Hc3 Hv3].
  apply wp_assoc.
  apply wp_bind. eapply wp_mono; [|by apply wp_solve_target].
  cbn beta. intros _ out4 c4 [Hc4 Hv4].
  eapply wp_mono; [|apply wp_for_each_course; eauto using wp_solve_balance].
  cbn beta. intros _ out5 c5 [Hc5 Hv5].
  apply Hdone; [done|]. eauto using chain_evolves_trans.
Qed.
End Solve.

Definition solve_timestamps (l : list SolveArgs) : list word := map (λ x, U_from (SolveArgs_MsTs x)) l.

(** Where a run with these timestamps ends. *)
Definition all_used (ms : list word) (c : chain) : Prop :=
  on_course c0 c
  ∧ ∀ m, m ∈ ms → valid_name (NTimestamp m) ∧ ts_word c0 this m = U_ZERO ∧ ts_word c this m = U_ONE.

Lemma wp_entry_solve imm l po tr out :
  network imm = net → Forall ts16 l →
  (∀ sa before cl, sa ∈ l → solve_call net acc0 this po tr before sa cl →
     authorised acc0 this before cl) →
  ∀ c, on_course c0 c →
  wp this (entry_solve this imm l po tr) out c (λ rc _ c', all_used (solve_timestamps l) c').
Proof.
  intros Hnet Hl Hau c Hc. apply wp_bind.
  apply (wp_for_each (λ l c', all_used (solve_timestamps l) c')).
  - intros done sa out' c1 Hsa [Hc1 Hd].
    assert (ts16 sa) as Hts by (apply list_elem_of_lookup in Hsa as [? ?]; by eapply Forall_lookup_1).
    eapply wp_mono; [|apply wp_solve_one; eauto]. cbn beta. intros _ _ c2 (Hc2 & Hv & Hz & Ho).
    split; [done|]. intros m. unfold solve_timestamps. rewrite map_app, elem_of_app.
    intros [Hm|Hm].
    + destruct (Hd m Hm) as (? & ? & ?). split_and!; [done..|]. by eapply (ts_word_keep c1).
    + apply list_elem_of_singleton in Hm as ->. split_and!; [by apply valid_ts16| |done].
      eapply ts_word_back; [by apply valid_ts16|apply Hc1|done].
  - split; [done|]. intros m Hm. by apply elem_of_nil in Hm.
Qed.
(** ** The signed entries, from a chain where the invariant holds *)

Context (Hquiet : quiet c0).
#[local] Hint Resolve on_course_refl : core.

(** The build's immutables. *)
Definition here : Imm := mk_Imm net (zeros 20).

Lemma wp_key out (Q : word → bytes → chain → Prop) :
  Q (key_of acc0) out c0 → wp this (ed25519_slot_get U_ZERO) out c0 Q.
Proof.
  intros HQ. change (Q (load c0 this (slot_at NKey)) out c0).
  by rewrite (load_word_at _ _ _ NKey Hthis).
Qed.

Lemma wp_owner out c (Q : word → bytes → chain → Prop) :
  on_course c0 c → Q (word_at acc0 NOwner) out c →
  wp this (storage_load SLOT_ethereum_owner) out c Q.
Proof.
  intros Hc HQ. destruct (on_course_account _ _ _ _ _ _ Hc Hthis) as (acc & Ha & Hev).
  change (Q (load c this (slot_at NOwner)) out c). rewrite (load_word_at _ _ _ NOwner Ha). by rewrite (proj1 (proj2 (acc_evolves_powers _ _ Hev))).
Qed.

Lemma wp_signed msg key sig out c (Q : unit → bytes → chain → Prop) :
  (edphverify_pre msg key sig = true → Q tt out c) → wp this (assert_signed msg key sig) out c Q.
Proof. apply wp_assert. Qed.

Lemma wp_entry_solve_v1 l out :
  Forall (λ x, ts16 (SolveArgsSigArgs_Args x)) l →
  wp this (entry_solve_v1 this here l) out c0
    (λ _ _ c', all_used (timestamps_of (Args_Solve l)) c').
Proof.
  intros Hl. apply wp_bind, wp_key, wp_bind.
  set (signed := λ x, edphverify_pre (enc b_SolveArgs (SolveArgsSigArgs_Args x)) (key_of acc0)
                        (SolveArgsSigArgs_Sig x) = true).
  eapply wp_mono; [|apply (wp_for_each (λ l' c, c = c0 ∧ Forall signed l')); [|by split; [|constructor]]].
  - cbn beta. intros _ out' c [-> Hs]. apply wp_bind, wp_owner; [by auto|].
    eapply wp_mono; [|apply wp_entry_solve; [done|by apply Forall_map| |by auto]].
    + cbn beta. intros _ _ c'. unfold solve_timestamps. by rewrite map_map.
    + intros sa before cl (x & -> & Hx)%list_elem_of_fmap Hc.
      apply list_elem_of_lookup in Hx as [i Hi]. eapply auth_solve; [|exact Hc].
      exact (Forall_lookup_1 _ _ _ _ Hs Hi).
  - intros done x out' c _ [-> Hd]. apply wp_signed. intros Hx. split; [done|].
    apply Forall_app. by split; [|constructor; [|constructor]].
Qed.

Lemma wp_entry_solve_v2 args sig out :
  Forall ts16 (SolveV2Args_Args args) →
  wp this (entry_solve_v2 this here args sig) out c0
    (λ _ _ c', all_used (timestamps_of (Args_SolveV2 args sig)) c').
Proof.
  intros Hl. apply wp_bind, wp_key, wp_bind, wp_signed. intros Hs.
  apply wp_entry_solve; [done..| |by auto]. intros sa before cl Hin Hc. by eapply auth_solve_v2.
Qed.

Lemma wp_entry_solve_v3 args sig out :
  Forall ts16 (SolveV3Args_Args args) →
  wp this (entry_solve_v3 this here args sig) out c0
    (λ _ _ c', all_used (timestamps_of (Args_SolveV3 args sig)) c').
Proof.
  intros Hl. apply wp_bind, wp_key, wp_bind, wp_signed. intros Hs.
  apply wp_bind, wp_owner; [by auto|]. cbv zeta.
  apply wp_bind, wp_unwrap. intros token Ht. apply wp_bind.
  eapply (wp_mono _ _ _ _ (λ _ _ c, on_course c0 c)).
  - intros _ out' c Hc. apply wp_bind, wp_unit, wp_call; [done| |].
    { eapply auth_gas; [exact Hs|]. by constructor. }
    intros _ c' Hc' _. apply wp_entry_solve; [done..| |done].
    intros sa before cl Hin Hsc. by eapply auth_solve_v3.
  - unfold solve_gas_permit. destruct (SolveV3Args_GasTokenPermit args) as [p|] eqn:Hp; [|by apply on_course_refl].
    apply wp_bind, wp_assert. intros Hg%bool_decide_eq_true.
    apply wp_unit, wp_call; [by auto| |by auto].
    eapply auth_gas; [exact Hs|]. by eapply gas_call_permit.
Qed.

Lemma wp_entry_transfer_only args sig out :
  length (TransferOnlyArgs_MsTs args) = 16%nat →
  wp this (entry_transfer_only this here args sig) out c0
    (λ _ _ c', all_used (timestamps_of (Args_TransferOnly args sig)) c').
Proof.
  intros Hl. assert (valid_name (NTimestamp (U_from (TransferOnlyArgs_MsTs args)))) as Hv
    by (eexists; by split; [right|]).
  apply wp_bind, wp_key, wp_bind, wp_signed. intros Hs.
  destruct (TransferOnlyArgs_Args args) as [|t0 l0] eqn:Hargs; [done|].
  rewrite <-Hargs. apply wp_bind, wp_timestamp; [by auto|done|]. intros c1 Hc1 Hv1 Hz Ho.
  apply wp_bind. eapply wp_mono; [|apply wp_for_each_course; [|done]].
  - cbn beta. intros _ out' c2 [Hc2 Hv2]. split; [done|].
    intros m ->%list_elem_of_singleton. split_and!; [done..|]. by eapply (ts_word_keep c1).
  - intros t out' c Ht Hc. apply wp_bind, wp_unwrap. intros token Hto. apply wp_bind.
    eapply (wp_mono _ _ _ _ (λ _ _ c', on_course c0 c' ∧ chain_evolves c c')).
    + intros _ out2 c2 [Hc2 Hv2]. apply wp_unit, wp_call; [done| |].
      { eapply auth_transfer; [exact Hs|exact Ht|]. by constructor. }
      intros _ c3 Hc3 Hv3. split; [done|]. by eapply chain_evolves_trans.
    + unfold transfer_permit. destruct (Transfer_Permit t) as [p|] eqn:Hp;
        [|by split; [|apply chain_evolves_refl]].
      apply wp_unit, wp_call; [done| |by auto].
      eapply auth_transfer; [exact Hs|exact Ht|]. by eapply transfer_call_permit.
Qed.

Lemma wp_entry_statement args sig out :
  length (StatementArgs_MsTs args) = 6%nat →
  wp this (entry_statement this args sig) out c0
    (λ _ _ c', all_used (timestamps_of (Args_Statement args sig)) c').
Proof.
  intros Hl. apply wp_bind, wp_key, wp_bind, wp_assert. intros _.
  assert (valid_name (NTimestamp (U_from (StatementArgs_MsTs args)))) as Hv
    by (eexists; by split; [left|]).
  apply wp_bind, wp_timestamp; [by auto|done|]. intros c1 Hc1 _ Hz Ho. split; [done|].
  by intros m ->%list_elem_of_singleton.
Qed.
End Rules.

(** ** The guard *)

Lemma guard_free : free_slot NGuard.
Proof. split; [done|]. unfold bound_slots. set_solver. Qed.

Lemma ts_word_guard c a v ms :
  valid_name (NTimestamp ms) → ts_word (store c a (slot_at NGuard) v) a ms = ts_word c a ms.
Proof.
  intros Hv. unfold ts_word, load. rewrite lookup_store, decide_True by done.
  destruct (accounts c !! a) as [acc|]; [|done]. by apply (word_at_store acc NGuard (NTimestamp ms)).
Qed.

Lemma guard_close this c0 acc0 c :
  accounts c0 !! this = Some acc0 → word_at acc0 NGuard = U_ZERO →
  chain_evolves (store c0 this (slot_at NGuard) U_ONE) c →
  chain_evolves c0 (store c this (slot_at NGuard) U_ZERO).
Proof.
  intros Hthis Hg (l & E & Hm). exists l. split; [done|]. intros b acc Hb.
  specialize (Hm b). pose proof (lookup_store c this b (slot_at NGuard) U_ZERO) as El.
  rewrite lookup_store in Hm. destruct (decide (this = b)) as [<-|Hne].
  2: { destruct (Hm _ Hb) as (acc' & Ha' & ?). exists acc'. by rewrite El. }
  simplify_eq. rewrite Hthis in Hm. destruct (Hm _ eq_refl) as (acc' & Ha' & [B F T] & Hi).
  rewrite Ha' in El. eexists. split; [exact El|]. split; [split; [done| |]|].
  - intros n Hn. destruct (decide (n = NGuard)) as [->|Hne]; [by rewrite word_at_store_eq|].
    pose proof (fixed_valid n Hn). rewrite word_at_store, F, word_at_store by done. done.
  - intros ms Hv Hnz. rewrite word_at_store by done.
    assert (word_at (store_in (slot_at NGuard) U_ONE acc0) (NTimestamp ms)
            = word_at acc0 (NTimestamp ms)) as E0 by by rewrite word_at_store.
    rewrite T; [done..|]. by rewrite E0.
  - intros Hne. rewrite word_at_store in Hne by done.
    apply (owner_migrated_same acc0 (store_in (slot_at NGuard) U_ONE acc0) this [] l).
    + unfold owner_of. by rewrite word_at_store.
    + by rewrite !admin_of_word, word_at_store.
    + done.
    + apply Hi. by rewrite word_at_store.
Qed.

Lemma wp_guarded this c0 acc0 m ms out :
  accounts c0 !! this = Some acc0 → quiet c0 →
  (let cg := store c0 this (slot_at NGuard) U_ONE in
   accounts cg !! this = Some (store_in (slot_at NGuard) U_ONE acc0) → quiet cg →
   wp this m out cg (λ _ _ c', all_used this cg ms c')) →
  wp this (reentrancy_guard_const_keccak REENTRANCY_KEY m) out c0
    (λ _ _ c', all_used this c0 ms c').
Proof.
  intros Hthis Hq Hm. rewrite reentrancy_guard_spec. unfold guarded.
  cbn [storage_load storage_store prog_then wp].
  change (reentrancy_slot REENTRANCY_KEY) with (slot_at NGuard).
  rewrite (load_word_at _ _ _ _ Hthis). case_bool_decide as Hg; [|done].
  cbn [prog_then wp]. apply wp_bind. eapply wp_mono; [|apply Hm].
  - cbn [prog_then wp]. intros _ out' c [[Hqc Hv] Hu]. split.
    + split; [by apply quiet_store; [apply guard_free|]|]. by eapply guard_close.
    + intros ms' Hin. destruct (Hu ms' Hin) as (Hvn & Hz & Ho).
      rewrite ts_word_guard in * by done. done.
  - by rewrite lookup_store, decide_True, Hthis.
  - apply quiet_store; [apply guard_free|done].
Qed.
End Code.
