(* ===== verification/AccountEntry.v ===== *)
(** * AccountEntry: every call into an account, and what follows for the chain

    [migrate], the creation of accounts and the entrypoint in the logic of
    Chain; then the theorems on every chain that transactions lead to. *)
From stdpp Require Import base numbers strings list gmap.
From Stdlib Require Import Strings.Byte ZArith Lia.
From S2P Require Import Prelude GoStd Types BorshRef Chain Contract AccountSafety AccountCode.

Section Entry.
Context `{SL : SdkLaws} (net : Network) (code_addr : address).
#[local] Instance accounts_here : Deployed := accounts_deployed net code_addr.
#[local] Instance contract_here : Chain.Contract := account_contract net code_addr.
#[local] Instance contract_laws_here : ContractLaws := account_contract_laws net code_addr.

Abbreviation on_course := (on_course net code_addr).
Abbreviation quiet := (quiet net code_addr).

(** ** [migrate] *)

Lemma be_val_U_ZERO : be_val U_ZERO = 0.
Proof. done. Qed.

Lemma be_val_two : be_val (be_split 32 2) = 2.
Proof. by vm_compute. Qed.

Lemma two_nonzero : be_split 32 2 ≠ U_ZERO.
Proof. intros E. pose proof be_val_two as E'. rewrite E in E'. done. Qed.

(** On an account that is set up, only for the owner, and only the
    implementation changes. *)
Lemma wp_migrate_again this sender c0 acc0 c k o i au out :
  accounts c0 !! this = Some acc0 → on_course c0 c → length i = 32%nat →
  (sender = owner_of acc0 → ∀ l, events c = events c0 ++ l → owner_migrated acc0 this l) →
  wp this (entry_migrate sender k o i au) out c (λ _ _ c', on_course c0 c').
Proof.
  intros Ha Hc Hi Hl. destruct (on_course_account _ _ _ _ _ _ Hc Ha) as (acc & Hacc & Hev).
  destruct Hc as [Hq Hv]. destruct (proj1 Hq this acc Hacc) as [(Hver & _) _].
  unfold entry_migrate. cbn [prog_then wp]. apply wp_bind, wp_assert. intros _.
  cbn [storage_load prog_then wp].
  change SLOT_version with (slot_at NVersion). change SLOT_ethereum_owner with (slot_at NOwner).
  rewrite (load_word_at _ _ _ _ Hacc), Hver, be_val_two.
  rewrite bool_decide_eq_false_2 by apply two_nonzero.
  change (2 <=? 1) with false. cbn [prog_then wp]. rewrite (load_word_at _ _ _ _ Hacc).
  apply wp_bind, wp_assert. intros Hs%bool_decide_eq_true. cbn [storage_store prog_then wp].
  fold (owner_of acc) in Hs. rewrite (owner_of_evolves _ _ Hev) in Hs.
  assert (on_course c0 (store c this (slot_at NImpl) i)) as Hc1
    by (by apply (on_course_impl net code_addr c0 c this acc0); auto; split).
  replace (be_split 32 2) with (load (store c this (slot_at NImpl) i) this (slot_at NVersion)).
  { by eapply on_course_rewrite. }
  assert (accounts (store c this (slot_at NImpl) i) !! this = Some (store_in (slot_at NImpl) i acc))
    as Ha1 by (rewrite lookup_store, decide_True by done; by rewrite Hacc).
  by rewrite (load_word_at _ _ _ _ Ha1), word_at_store.
Qed.

(** On a proxy just created it sets the account up. *)
Lemma wp_migrate_first this sender cd c f k o i au out :
  accounts c !! this = Some (mk_account (Some f) ∅) →
  wp this (entry_migrate sender k o i au) out (emit_event (Invoked this sender cd) c)
    (λ _ _ c', k ≠ U_ZERO ∧ o ≠ U_ZERO
       ∧ c' = mk_chain (<[this := mk_account (Some f) (migrated k o i au)]> (accounts c))
                (events c ++ [Invoked this sender cd])).
Proof.
  intros Ha. set (c1 := emit_event (Invoked this sender cd) c).
  assert (load c1 this SLOT_version = U_ZERO) as Hz by (unfold load; cbn; by rewrite Ha).
  unfold entry_migrate. cbn [prog_then wp]. apply wp_bind, wp_assert. intros Hi.
  cbn [storage_load prog_then wp]. rewrite Hz.
  rewrite bool_decide_eq_true_2 by done. rewrite be_val_U_ZERO. change (0 <=? 1) with true. cbv iota.
  rewrite !U_is_some_spec in *. rewrite Hi.
  apply wp_bind, wp_bind, wp_assert. intros Hk%bool_decide_eq_true.
  apply wp_bind, wp_assert. intros Ho%bool_decide_eq_true.
  cbn [assert_ ed25519_slot_set storage_store prog_then wp].
  split_and!; [done..|]. unfold store. cbn. f_equal.
  apply map_eq. intros b. destruct (decide (this = b)) as [<-|Hne].
  - rewrite !lookup_alter_eq, Ha, lookup_insert_eq. done.
  - by rewrite !lookup_alter_ne, lookup_insert_ne.
Qed.
(** ** New accounts *)

Lemma word_at_migrated b k o i au :
  let acc := mk_account b (migrated k o i au) in
  word_at acc NKey = k ∧ word_at acc NOwner = o ∧ word_at acc NImpl = i
  ∧ word_at acc NAuthority = au ∧ word_at acc NVersion = be_split 32 2.
Proof.
  cbv zeta.
  change (mk_account b (migrated k o i au)) with
    (store_in (slot_at NVersion) (be_split 32 2) (store_in (slot_at NImpl) i
      (store_in (slot_at NAuthority) au (store_in (slot_at NOwner) o
        (store_in (slot_at NCount) U_ONE (store_in (slot_at NKey) k (mk_account b ∅))))))).
  split_and!; repeat first [apply word_at_store_eq | rewrite word_at_store by done].
Qed.

Lemma take_migrate_cd k e i a : take 4 (migrate_cd k e i a) = SEL_MIGRATE.
Proof.
  unfold migrate_cd. rewrite take_app_le by by rewrite SEL_MIGRATE_spec.
  by rewrite SEL_MIGRATE_spec.
Qed.

Lemma read_migrate_cd k e i a :
  length k = 32%nat → length e = 20%nat → length i = 32%nat → length a = 20%nat →
  read_words4 (drop 4 (migrate_cd k e i a)) = Some (k, U_from e, i, U_from a).
Proof.
  intros Hk He Hi Ha. unfold migrate_cd. rewrite drop_app_length' by by rewrite SEL_MIGRATE_spec.
  pose proof (read_words4_spec k (U_from e) i (U_from a) []) as E. rewrite app_nil_r in E.
  apply E; try done; rewrite U_from_length; lia.
Qed.

(** The chain right after a new account has been set up. *)
Definition born (c : chain) (t a : address) (k o i au : word) (l : list event) : chain :=
  mk_chain (<[a := mk_account (Some t) (migrated k o i au)]> (accounts c)) (events c ++ l).

Lemma accounts_kept_insert (m : gmap address account) a acc :
  m !! a = None → accounts_kept m (<[a := acc]> m).
Proof.
  intros Hn b accb Hb. exists accb. rewrite lookup_insert_ne by congruence.
  split; [done|apply same_parties_refl].
Qed.

(** The accounts that were there stay traced when one is added. *)
Lemma traced_insert m l l' a acc b accb :
  m !! a = None → traced code_addr m l b accb → traced code_addr (<[a := acc]> m) (l ++ l') b accb.
Proof.
  intros Hn Ht. eapply traced_grows; [exact Ht|done..|by left|].
  by apply kept_is_Some, accounts_kept_insert.
Qed.

Lemma born_course c t a seed k o i au l :
  quiet c → is_Some (accounts c !! t) → a = create2_pre_at t (metamorphic_beacon_proxy t) seed →
  accounts c !! a = None → k ≠ U_ZERO → o ≠ U_ZERO → length i = 32%nat → drop 12 i = code_addr →
  log_ok net (mk_chain (accounts c) (events c ++ l)) →
  on_course c (born c t a k o i au l).
Proof.
  intros [Hinit _] [tacc Ht] Hat Hn Hk Ho Hi Hci Hlog.
  destruct (word_at_migrated (Some t) k o i au) as (Ek & Eo & Ei & _ & Ev).
  split; [split|].
  - intros b acc. cbn. destruct (decide (b = a)) as [->|Hne].
    + rewrite lookup_insert_eq. intros [= <-]. split; [unfold initialised; by rewrite Ek, Eo, Ei, Ev|].
      split; [done| |].
      * by rewrite impl_of_word, Ei, Hci.
      * intros f [= <-]. rewrite lookup_insert_ne by congruence. eauto.
    + rewrite lookup_insert_ne by done. intros Hb. destruct (Hinit b acc Hb). split; [done|].
      by apply traced_insert.
  - refine (log_ok_evolves net (mk_chain (accounts c) (events c ++ l)) _ Hlog _).
    by apply accounts_kept_insert.
  - exists l. split; [done|]. intros b acc Hb. exists acc. cbn. rewrite lookup_insert_ne by congruence.
    split; [done|]. split; [apply acc_evolves_refl|done].
Qed.

Lemma new_account_evolves c0 t f c c' :
  new_account c0 t f c → chain_evolves c c' → new_account c0 t f c'.
Proof.
  intros (Hs & Hn & acc & Ha & Hb & Hk & Ho & Hau) (l & _ & Hm). split_and!; [done..|].
  destruct (Hm _ acc Ha) as (acc' & Ha' & Hev & _). exists acc'.
  destruct (acc_evolves_powers _ _ Hev) as (Ek & Eo & Ea).
  split_and!; [done|by rewrite (ev_beacon _ _ Hev)|by unfold key_of; rewrite Ek| |by rewrite Ea].
  by rewrite (owner_of_evolves _ _ Hev).
Qed.

Lemma runs_migrate_new c this a acc cd :
  accounts c !! this = Some acc → a ≠ this → impl_of acc = code_addr →
  (beacon acc = None → a ≠ admin_of acc) → take 4 cd = SEL_MIGRATE →
  runs (accounts (create c a this)) a this cd = true.
Proof.
  intros Ha Hne Himpl Hadm Hcd. apply runs_delegated. unfold delegates. cbn.
  rewrite lookup_insert_eq. cbn. rewrite bool_decide_eq_true_2 by done.
  rewrite lookup_insert_ne, Ha by done. cbn. unfold UpgradeableProxy_delegates.
  destruct (beacon acc).
  - cbn. by rewrite Himpl, bool_decide_eq_true_2.
  - rewrite bool_decide_eq_false_2 by auto. cbn. by rewrite Himpl, bool_decide_eq_true_2.
Qed.

Section Fresh.
Context (this : address) (c0 : chain) (acc0 : account) (f : FreshBackwards).
Context (Hthis : accounts c0 !! this = Some acc0) (Hq : quiet c0).
Context (Himpl : impl_of acc0 = code_addr) (Hsized : sized (Args_FreshBackwards f)).
Context (Hk : FreshBackwards_Key f ≠ U_ZERO) (He : FreshBackwards_EoaAddr f ≠ zeros 20).
Context (Hsig : fresh_signed f).

Let a : address := proxy_at this (FreshBackwards_EoaAddr f).
Let i : word := word_at acc0 NImpl.
Let au : address := default (zeros 20) (FreshBackwards_Authority f).
Let cd : bytes := migrate_cd (FreshBackwards_Key f) (FreshBackwards_EoaAddr f) i au.
Let cl : call := mk_call call_unit a cd U_ZERO u64_MAX.

Context (Hn : accounts c0 !! a = None).

Lemma fresh_runs : runs (accounts (create c0 a this)) a this cd = true.
Proof.
  destruct Hq as [Hinit _]. destruct (Hinit this acc0 Hthis) as [_ Hadm].
  eapply runs_migrate_new; [done|congruence|done| |apply take_migrate_cd].
  intros Hb. by apply (tr_admin _ _ _ _ _ Hadm Hb).
Qed.

Lemma fresh_log : log_ok net (mk_chain (accounts c0) (events c0 ++ [Called this cl])).
Proof.
  apply (log_ok_emit net c0 (Called this cl) (proj2 Hq)). exists acc0. split; [done|].
  eapply auth_fresh; [exact Hsig|]. apply fresh_call_migrate.
Qed.

Lemma fresh_is_fresh : fresh_account net code_addr (emit_event (Called this cl) (create c0 a this)) a cd.
Proof.
  destruct Hq as [Hinit _]. split_and!; [|..|apply take_migrate_cd].
  - exists this. cbn. by rewrite lookup_insert_eq.
  - intros b acc. cbn. intros Hb Hba. rewrite lookup_insert_ne in Hb by done.
    destruct (Hinit b acc Hb). split; [done|]. by apply traced_insert.
  - refine (log_ok_evolves net (mk_chain (accounts c0) (events c0 ++ [Called this cl])) _ fresh_log _).
    by apply accounts_kept_insert.
Qed.

(** The call that sets the new account up. *)
Lemma wp_fresh_migrate out (Q : reply → bytes → chain → Prop) :
  (∀ r, r_ok r = false → Q r out (create c0 a this)) →
  (∀ r c, on_course c0 c → new_account c0 this f c → Q r out c) →
  wp this (do_call call_unit a cd U_ZERO u64_MAX) out (create c0 a this) Q.
Proof.
  intros HF HS. destruct Hsized as (Hlk & Hle & Hla). pose proof Hq as [Hinit _].
  destruct (Hinit this acc0 Hthis) as [(_ & _ & _ & Hli) _].
  cbn [do_call wp c_to c_cd c_kind]. fold cl. rewrite fresh_runs.
  split; [done|]. split; [split; [apply fresh_runs|right; apply fresh_is_fresh]|].
  intros c r [_ HP] _.
  destruct (HP fresh_is_fresh) as (f' & k & o & i' & au' & Hf' & Hrd & _ & _ & ->).
  cbn in Hf'. rewrite lookup_insert_eq in Hf'. injection Hf' as <-.
  unfold cd in Hrd. rewrite read_migrate_cd in Hrd by done. injection Hrd as <- <- <- <-.
  cbn [accounts events emit_event create]. rewrite insert_insert_eq, <-app_assoc.
  assert (U_from (FreshBackwards_EoaAddr f) ≠ U_ZERO) as Ho by (intros E; by apply He, U_from_zero_inj).
  apply HS.
  - eapply born_course; try done.
    pose proof (log_ok_emit net (mk_chain (accounts c0) (events c0 ++ [Called this cl]))
                  (Invoked a this cd) fresh_log I) as Hl.
    unfold emit_event in Hl. cbn in Hl. by rewrite <-app_assoc in Hl.
  - destruct (word_at_migrated (Some this) (FreshBackwards_Key f)
                (U_from (FreshBackwards_EoaAddr f)) i (U_from au)) as (Ek & Eo & Ei & Ea & Ev).
    split_and!; [done..|]. eexists. split; [apply lookup_insert_eq|].
    split_and!; [done|exact Ek| |exact Ea]. unfold owner_of. rewrite Eo. by apply U_addr_from.
Qed.
End Fresh.

Lemma wp_entry_fresh this c0 acc0 f out :
  accounts c0 !! this = Some acc0 → quiet c0 → impl_of acc0 = code_addr →
  sized (Args_FreshBackwards f) →
  wp this (entry_fresh_backwards this f) out c0
    (λ _ _ c', on_course c0 c' ∧ new_account c0 this f c').
Proof.
  intros Hthis Hq Himpl Hsized.
  apply wp_bind, wp_assert. intros Hk. rewrite U_is_some_spec in Hk.
  apply bool_decide_eq_true in Hk. apply wp_bind, wp_assert.
  intros He%negb_true_iff%bool_decide_eq_false.
  apply wp_bind, wp_bind, wp_assert. intros _. cbn [wp]. apply wp_bind, wp_unwrap.
  intros signer Hsig. apply wp_bind, wp_assert. intros <-%bool_decide_eq_true.
  change (fresh_signed f) in Hsig.
  cbn [storage_load prog_then wp]. change SLOT_IMPL with (slot_at NImpl).
  rewrite (load_word_at _ _ _ _ Hthis). apply wp_bind, wp_assert. intros _.
  cbn [create2_pre_unit prog_then wp]. split; [intros Hn|done].
  cbn [unwrap prog_then wp]. apply wp_bind. apply (wp_fresh_migrate this c0 acc0 f); try done.
  { intros r Hr. by rewrite Hr. }
  intros r c2 Hc2 Hna. apply wp_bind, wp_assert. intros _. apply wp_bind.
  eapply (wp_mono _ _ _ _ (λ _ _ c, on_course c0 c ∧ new_account c0 this f c)); [done|].
  destruct (FreshBackwards_SolveArgs f) as [|x l] eqn:Hl; [done|]. rewrite <-Hl.
  apply wp_unit. eapply wp_call; [exact Hthis|done| |].
  - eapply auth_fresh; [exact Hsig|]. apply fresh_call_solve. by rewrite Hl.
  - intros _ c3 Hc3 Hv3. split; [done|]. by eapply new_account_evolves.
Qed.

(** ** The entrypoint *)

Lemma all_used_course this c0 c : on_course c0 c → all_used net code_addr this c0 [] c.
Proof. intros Hc. split; [done|]. intros m Hm. by apply elem_of_nil in Hm. Qed.

Lemma wp_entry this c0 acc0 a out :
  accounts c0 !! this = Some acc0 → quiet c0 → impl_of acc0 = code_addr → sized a →
  wp this (entry this (here net) a) out c0
    (λ _ _ c', all_used net code_addr this c0 (timestamps_of a) c'
               ∧ ∀ f, a = Args_FreshBackwards f → new_account c0 this f c').
Proof.
  intros Hthis Hq Himpl Hs.
  assert (all_used net code_addr this c0 [] c0) as Hrefl by by apply all_used_course, on_course_refl.
  destruct a as [f|l| | |args sig|args sig|args sig| | |args sig|];
    try (by split; [exact Hrefl|]); cbn [entry].
  - eapply wp_mono; [|by eapply wp_entry_fresh]. cbn beta. intros _ _ c [Hc Hn].
    split; [by apply all_used_course|]. by intros ? [= <-].
  - eapply wp_mono; [|eapply wp_guarded; [done..|]; cbn zeta; intros; by eapply wp_entry_solve_v1].
    by split.
  - eapply wp_mono; [|eapply wp_guarded; [done..|]; cbn zeta; intros; by eapply wp_entry_solve_v2].
    by split.
  - eapply wp_mono;
      [|eapply wp_guarded; [done..|]; cbn zeta; intros; by eapply wp_entry_transfer_only].
    by split.
  - eapply wp_mono; [|by eapply wp_entry_statement]. by split.
  - eapply wp_mono; [|by eapply wp_entry_solve_v3]. by split.
  - done.
Qed.

Lemma deserialize_migrate cd : take 4 cd = SEL_MIGRATE → Args_deserialize cd = None.
Proof. rewrite SEL_MIGRATE_spec. destruct cd as [|b cd]; [done|]. by intros [= -> _]. Qed.

Lemma fresh_not_quiet c t cd : fresh_account net code_addr c t cd → ~ quiet c.
Proof.
  intros [[f Ha] _] [Hq _]. destruct (Hq _ _ Ha) as [(Hv & _) _]. symmetry in Hv.
  by apply two_nonzero in Hv.
Qed.

(** Outside [migrate], a running account's own implementation runs. *)
Lemma delegates_account m t s cd :
  delegates code_addr m t s cd = Some code_addr →
  ∃ acc, m !! t = Some acc ∧ (take 4 cd ≠ SEL_MIGRATE → impl_of acc = code_addr).
Proof.
  intros Hr. unfold delegates in Hr.
  destruct (m !! t) as [acc|]; [|done]. exists acc. split; [done|]. intros Hcd. cbn in Hr.
  destruct (beacon acc).
  - rewrite bool_decide_eq_false_2 in Hr by done. by injection Hr.
  - unfold UpgradeableProxy_delegates in Hr. case_bool_decide; [done|]. by injection Hr.
Qed.

Lemma on_course_invoked c t s cd : quiet c → on_course c (emit_event (Invoked t s cd) c).
Proof. intros Hq. apply on_course_emit; [by apply on_course_refl|done]. Qed.

(** What is proved of the code from the chain with the call in its log holds
    from the chain before. *)
Lemma post_from_entry c t s cd a rest c' :
  Args_deserialize cd = Some (a, rest) → quiet c →
  all_used net code_addr t (emit_event (Invoked t s cd) c) (timestamps_of a) c' →
  (∀ f, a = Args_FreshBackwards f → new_account (emit_event (Invoked t s cd) c) t f c') →
  on_course c c' ∧ used_up c t cd c' ∧ made c t cd c'.
Proof.
  intros Ed Hq [Hc Hu] Hn. split_and!.
  - eapply on_course_trans; [|exact Hc]. by apply on_course_invoked.
  - intros a' rest' ms Ed' Hms. rewrite Ed in Ed'. injection Ed' as <- <-.
    destruct (Hu ms Hms) as (_ & ? & ?). done.
  - intros f rest' Ed'. rewrite Ed in Ed'. injection Ed' as -> _. exact (Hn f eq_refl).
Qed.

(** The contract's code, run on an account on the way. *)
Lemma wp_entrypoint this sender cd c0 acc0 c acc out :
  accounts c0 !! this = Some acc0 → on_course c0 c → accounts c !! this = Some acc →
  (take 4 cd ≠ SEL_MIGRATE → impl_of acc = code_addr) →
  (take 4 cd = SEL_MIGRATE → sender = owner_of acc0 →
     ∀ l, events c = events c0 ++ l → owner_migrated acc0 this l) →
  wp this (user_entrypoint this sender net cd) out c
    (λ _ _ c', on_course c0 c'
       ∧ ∀ a rest, Args_deserialize cd = Some (a, rest) →
           all_used net code_addr this c (timestamps_of a) c'
           ∧ ∀ f, a = Args_FreshBackwards f → new_account c this f c').
Proof.
  intros Ha0 Hc Ha Himpl Hm. unfold user_entrypoint.
  destruct cd as [|b cd'] eqn:Hcd; [done|]. rewrite <-Hcd in *. rewrite flush_guard_spec.
  destruct (decide (take 4 cd = SEL_MIGRATE)) as [Hs|Hs].
  - pose proof (deserialize_migrate cd Hs) as Hd. rewrite Hd.
    destruct ((4 <? _) && _); [|done]. apply wp_bind, wp_unwrap. intros [[[k o] i] au] Hw.
    eapply wp_mono; [|eapply (wp_migrate_again this sender c0 acc0);
      [done..|by eapply read_words4_length|by auto]].
    by intros.
  - rewrite (bool_decide_eq_false_2 (take 4 cd = _)), andb_false_r by done.
    destruct (Args_deserialize cd) as [[a rest]|] eqn:Ed; [|done].
    pose proof (Args_deserialize_sized _ _ _ Ed) as Hz.
    eapply wp_mono; [|eapply (wp_entry this c acc); [done|apply Hc|by auto|done]].
    cbn beta. intros _ _ c' [Hu Hn]. split; [by eapply (on_course_trans net code_addr c0 c c' (proj2 Hc) (proj1 Hu))|].
    by intros a' rest' [= <- <-].
Qed.

Lemma wp_delegated this p out c (R : chain → Prop) :
  wp this p out c (λ _ _ c', R c') → wp this (delegated p) out c (λ _ _ c', R c').
Proof.
  revert out c.
  induction p as [a|w|d|s k IH|s v k IH|w k IH|cl k IH|t cd g k IH|h k IH|[b] v sd k IH];
    intros out c; cbn; auto.
  - by destruct (a =? 0).
  - intros [Hf Hs]. split; [by auto|]. destruct (contract_call _ _ _ _ _); destruct Hs as [Hp Hs];
      (split; [done|]); intros; apply IH; by apply Hs.
  - intros [Hs Hf]. split; [|by apply IH]. intros Hn. by apply IH, Hs.
Qed.

(** Upgrades of the factory's proxy by its administrator. *)
Lemma wp_upgrade c t s cd w data out :
  quiet c → upgrades code_addr (accounts c) t s cd = Some (w, data) →
  wp t (UpgradeableProxy_upgrade net t s w data) out (emit_event (Invoked t s cd) c)
    (λ _ _ c', on_course c c').
Proof.
  intros Hq (acc & Ha & Hb & Hs & Hcd & Hw & Hdata)%upgrades_Some.
  set (c1 := emit_event (Invoked t s cd) c).
  assert (∀ l, events c1 = events c ++ l → owner_migrated acc t l) as Hmoved.
  { intros l <-%app_inv_head. exists s, cd. split; [apply list_elem_of_here|by right]. }
  assert (on_course c (store c1 t (slot_at NImpl) w)) as Hc1.
  { eapply on_course_impl; [by apply on_course_invoked|done..]. }
  assert (accounts (store c1 t (slot_at NImpl) w) !! t = Some (store_in (slot_at NImpl) w acc)) as Ha1
    by (rewrite lookup_store, decide_True by done; cbn; by rewrite Ha).
  unfold UpgradeableProxy_upgrade. cbn [storage_store prog_then wp].
  destruct data as [|b data'] eqn:Hd; [done|]. destruct Hdata as [|Hdata]; [done|].
  apply wp_delegated. eapply wp_mono; [|eapply (wp_entrypoint t s _ c acc); try done].
  - by intros _ _ c' [? _].
  - intros _. unfold impl_of. change SLOT_IMPL with (slot_at NImpl).
    fold (word_at (store_in (slot_at NImpl) w acc) NImpl). by rewrite word_at_store_eq.
Qed.

Lemma account_code_ok c t s cd :
  Pre c t s cd →
  wp t (code (accounts c) t s cd) [] (emit_event (Invoked t s cd) c)
    (λ rc _ c', rc = 0 → Post c t s cd c').
Proof.
  intros [Hr Hpre]. cbn [code accounts_here accounts_deployed].
  destruct (upgrades code_addr (accounts c) t s cd) as [[w data]|] eqn:Hup.
  - pose proof Hup as (acc & Ha & Hb & _ & Hcd & _)%upgrades_Some.
    assert (~ fresh_account net code_addr c t cd) as Hnf by (intros [[f Hf] _]; simplify_eq).
    destruct Hpre as [Hq|]; [|done]. eapply wp_mono; [|by apply wp_upgrade].
    cbn beta. intros _ _ c' Hc _. split; [|done]. intros _.
    split_and!; [done|..]; intros ?; by rewrite deserialize_not_upgrade.
  - assert (∃ acc, accounts c !! t = Some acc
                 ∧ (take 4 cd ≠ SEL_MIGRATE → impl_of acc = code_addr)) as (acc & Ha & Himpl).
    { cbn in Hr. unfold contract_call in Hr. rewrite Hup, orb_false_r in Hr.
      apply bool_decide_eq_true in Hr. by eapply delegates_account. }
    destruct Hpre as [Hq|Hf].
    + eapply wp_mono; [|eapply (wp_entrypoint t s cd c acc); [done|by apply on_course_invoked|done..|]].
      * cbn beta. intros _ _ c' [Hc Hd] _. split; [|by intros ?%fresh_not_quiet]. intros _.
        split; [done|]. destruct (Args_deserialize cd) as [[a rest]|] eqn:Ed.
        -- destruct (Hd a rest eq_refl). by eapply post_from_entry.
        -- split; intros ?; by rewrite Ed.
      * intros Hm -> l <-%app_inv_head. exists (owner_of acc), cd.
        split; [apply list_elem_of_here|by left].
    + pose proof Hf as ([f Hf1] & _ & _ & Hm). unfold user_entrypoint.
      destruct cd as [|b cd'] eqn:Hcd; [by rewrite SEL_MIGRATE_spec in Hm|]. rewrite <-Hcd in *.
      rewrite flush_guard_spec, deserialize_migrate by done.
      destruct ((4 <? _) && _); [|done]. apply wp_bind, wp_unwrap. intros [[[k o] i] au] Hw.
      eapply wp_mono; [|by eapply wp_migrate_first].
      cbn beta. intros _ _ c' (Hk & Ho & ->) _. split; [by intros ?%(fresh_not_quiet c t cd)|].
      intros _. by exists f, k, o, i, au.
Qed.

(** ** Every run *)

Lemma invoke_course e t s cd c out c' :
  quiet c → invoke e t s cd c = Ok (0, out, c') →
  on_course c c' ∧ used_up c t cd c' ∧ made c t cd c'.
Proof.
  intros Hq E.
  assert (Post c t s cd c') as [HP _]; [|by apply HP].
  eapply (invoke_sound account_code_ok); [|exact E]. intros Hr. by split; [|left].
Qed.
End Entry.
