(* ===== verification/AccountChain.v ===== *)
(** * AccountChain: the accounts over any number of transactions

    The theorems on every chain that transactions lead to from the deployment
    of the factory, for every environment: whom calls are made for, that a
    signed timestamp works once, what stays in an account until its code is
    moved, when other code runs on it, and how an account comes to be. *)
From stdpp Require Import base numbers strings list gmap.
From Stdlib Require Import Strings.Byte ZArith Lia.
From S2P Require Import Prelude GoStd Types BorshRef Chain Contract AccountSafety AccountCode.
From S2P Require Import AccountEntry.

Section AccountChain.
Context `{SL : SdkLaws} (net : Network) (code_addr : address).
#[local] Instance accounts_here : Deployed := accounts_deployed net code_addr.
#[local] Instance contract_here : Chain.Contract := account_contract net code_addr.
#[local] Instance contract_laws_here : ContractLaws := account_contract_laws net code_addr.

(** What the deployment of the factory has to get right. *)
Record deployment (admin : address) (publicKey : word) : Prop := {
  dep_code : length code_addr = 20%nat;
  dep_admin : length admin = 20%nat;
  dep_admin_set : admin ≠ zeros 20;
  dep_admin_outside : ∀ a i seed, create2_pre_at a i seed ≠ admin;
  dep_key : publicKey ≠ U_ZERO
}.

Lemma key_slot_constructor :
  keccak256 (be_split 32 2 ++ be_split 32 0) = slot_at NKey.
Proof.
  cbn [slot_at]. rewrite slot_map_spec. do 2 f_equal.
Qed.

(** The constructor of sol/UpgradeableProxy.sol writes the slots the contract
    reads. *)
Lemma constructor_words admin publicKey :
  let acc := mk_account None (UpgradeableProxy_constructor code_addr admin publicKey) in
  word_at acc NImpl = U_from code_addr ∧ word_at acc NAdmin = U_from admin
  ∧ word_at acc NKey = publicKey ∧ word_at acc NOwner = U_from admin
  ∧ word_at acc NVersion = be_split 32 2 ∧ word_at acc NGuard = U_ZERO
  ∧ word_at acc NAuthority = U_ZERO.
Proof.
  cbv zeta. unfold UpgradeableProxy_constructor. cbv zeta. rewrite key_slot_constructor.
  match goal with |- context [mk_account ?b ?m] =>
    change (mk_account b m) with
      (store_in (slot_at NVersion) (be_split 32 2) (store_in (slot_at NOwner) (U_from admin)
        (store_in (slot_at NKey) publicKey (store_in (slot_at NCount) U_ONE
          (store_in (slot_at NCreated) U_ONE (store_in (slot_at NAdmin) (U_from admin)
            (store_in (slot_at NImpl) (U_from code_addr) (mk_account None ∅))))))))
  end.
  split_and!; repeat first [apply word_at_store_eq | rewrite word_at_store by done]; done.
Qed.

Lemma deployed_quiet factory admin publicKey :
  deployment admin publicKey → quiet net code_addr (deployed code_addr factory admin publicKey).
Proof.
  intros [Hc Ha Hz Ho Hk]. split; [|by intros [|? ?] ? ? [=]].
  destruct (constructor_words admin publicKey) as (Ei & Ead & Ek & Eo & Ev & _).
  intros a acc. unfold deployed. cbn [accounts]. intros [<- <-]%lookup_singleton_Some. split.
  - unfold initialised. rewrite Ei, Ek, Eo, Ev, U_from_length by lia.
    split_and!; try done. intros E. by apply Hz, U_from_zero_inj.
  - split; [|by rewrite impl_of_word, Ei, U_from_low|done].
    intros _. rewrite admin_of_word, Ead, U_from_low by done. done.
Qed.

Lemma reachable_quiet factory admin publicKey c :
  deployment admin publicKey → reachable net code_addr factory admin publicKey c → quiet net code_addr c.
Proof.
  intros Hd. induction 1 as [|c e t s cd _ IH]; [by apply deployed_quiet|].
  by apply (transact_sound (account_code_ok net code_addr)).
Qed.

Lemma reachable_settle factory admin publicKey e t s cd c :
  reachable net code_addr factory admin publicKey c →
  reachable net code_addr factory admin publicKey (settle (invoke e t s cd c) c).
Proof.
  intros Hr. destruct (runs (accounts c) t s cd) eqn:E.
  - replace (settle (invoke e t s cd c) c) with (transact e t s cd c); [by constructor|].
    unfold transact. by rewrite E.
  - unfold invoke. by rewrite E.
Qed.

Lemma invoke_all_course l c :
  quiet net code_addr c → on_course net code_addr c (invoke_all l c).
Proof. intros Hq. by apply (invoke_all_sound (account_code_ok net code_addr)). Qed.

(** C4: on every chain that transactions lead to, whatever other contracts do
    and however often they call back, every call that an account has made is
    authorised: a signature that verifies under the account's key covers the
    operation the call is part of (with the tokens, owners, targets and amounts
    of that operation, and the authority's consent to the target just before
    the target is called), or, for the calls that set up a new account, the
    new owner's signature does. The calls are those of the contract's code:
    where a proxy delegates to other code the call is marked ([Foreign]) and
    what that code does is not followed. *)
Theorem account_calls_authorised factory admin publicKey c before a cl after :
  deployment admin publicKey → reachable net code_addr factory admin publicKey c →
  events c = before ++ Called a cl :: after →
  ∃ acc, accounts c !! a = Some acc ∧ authorised net acc a before cl.
Proof. intros Hd Hr. apply (proj2 (reachable_quiet _ _ _ _ Hd Hr) before (Called a cl) after). Qed.

(** C7: a signed timestamp works once. After a request with it has succeeded,
    and after any further transactions, every request to the same account
    that carries the timestamp fails, in every environment. The transactions
    and the request are those that run the contract's code; what other code
    does to the storage of an account that was moved is not followed. *)
Theorem timestamp_works_once factory admin publicKey c e t s cd a rest out c1 l e' s' cd' a' rest' ms :
  deployment admin publicKey → reachable net code_addr factory admin publicKey c →
  invoke e t s cd c = Ok (0, out, c1) →
  Args_deserialize cd = Some (a, rest) → ms ∈ timestamps_of a →
  Args_deserialize cd' = Some (a', rest') → ms ∈ timestamps_of a' →
  succeeded (invoke e' t s' cd' (invoke_all l c1)) = false.
Proof.
  intros Hd Hr E Ed Hms Ed' Hms'. pose proof (reachable_quiet _ _ _ _ Hd Hr) as Hq.
  destruct (invoke_course _ _ _ _ _ _ _ _ _ Hq E) as ([Hq1 Hv1] & Hu & _).
  destruct (Hu _ _ _ Ed Hms) as [_ Hone]. pose proof (invoke_all_course l c1 Hq1) as [Hq2 Hv2].
  destruct (invoke e' t s' cd' (invoke_all l c1)) as [[[[| |] out'] c3]| | |] eqn:E'; try done.
  destruct (invoke_course _ _ _ _ _ _ _ _ _ Hq2 E') as (_ & Hu' & _).
  destruct (Hu' _ _ _ Ed' Hms') as [Hzero _]. exfalso.
  destruct (accounts c1 !! t) as [acc|] eqn:Ha.
  - assert (valid_name (NTimestamp ms)) as Hv
      by by eapply valid_timestamps; [eapply Args_deserialize_sized|].
    rewrite (ts_word_keep net code_addr t c1 acc Ha c1 _ ms Hv (on_course_refl _ _ _ Hq1) Hv2 Hone) in Hzero. done.
  - unfold ts_word, load in Hone. rewrite Ha in Hone. done.
Qed.

(** The account [a], its beacon, the beacon of that one and so on. *)
Inductive beacon_line (m : gmap address account) : address → address → Prop :=
| line_here a : beacon_line m a a
| line_up a acc f b :
    m !! a = Some acc → beacon acc = Some f → beacon_line m f b → beacon_line m a b.

Lemma line_next m a b acc f :
  beacon_line m a b → m !! b = Some acc → beacon acc = Some f → beacon_line m a f.
Proof. induction 1; eauto using line_here, line_up. Qed.

(** The owner of an account has called [migrate] on it, or, for a proxy without
    a beacon, its administrator has called [upgradeToAndCall]. *)
Definition code_moved (acc : account) (a : address) (l : list event) : Prop :=
  ∃ who cd, (Invoked a who cd ∈ l ∨ Foreign a who cd ∈ l)
    ∧ (take 4 cd = SEL_MIGRATE ∧ who = owner_of acc
       ∨ take 4 cd = SEL_UPGRADE ∧ who = admin_of acc ∧ beacon acc = None).

(** Nobody has moved the code of [a] or of a beacon above it. *)
Definition unmoved (m : gmap address account) (a : address) (l : list event) : Prop :=
  ∀ b acc, beacon_line m a b → m !! b = Some acc → ~ code_moved acc b l.

Lemma migrated_moved acc a l : owner_migrated acc a l → code_moved acc a l.
Proof. intros (who & cd & ? & ?). exists who, cd. split; [by left|done]. Qed.

Lemma code_moved_parties acc acc' a l :
  same_parties acc acc' → code_moved acc' a l → code_moved acc a l.
Proof.
  intros Hs (who & cd & Hin & Hw). exists who, cd. split; [done|].
  pose proof Hs as (_ & _ & Hb). revert Hw.
  by rewrite (same_parties_owner _ _ Hs), (same_parties_admin _ _ Hs), Hb.
Qed.

(** An account of the line, on the way to a later chain where the line is
    unmoved. *)
Lemma unmoved_keeps c c' a b acc :
  on_course net code_addr c c' → unmoved (accounts c) a (events c') →
  beacon_line (accounts c) a b → accounts c !! b = Some acc →
  ∃ acc', accounts c' !! b = Some acc' ∧ acc_evolves acc acc' ∧ ~ code_moved acc' b (events c').
Proof.
  intros Hc Hu Hl Hb. destruct (on_course_account _ _ _ _ _ _ Hc Hb) as (acc' & Hb' & Hev).
  exists acc'. split_and!; [done..|]. intros Hm. apply (Hu b acc Hl Hb).
  by eapply code_moved_parties; [apply acc_evolves_parties|].
Qed.

Lemma unmoved_line c a acc b :
  quiet net code_addr c → accounts c !! a = Some acc → beacon_line (accounts c) a b →
  is_Some (accounts c !! b).
Proof.
  intros [Hq _] Ha Hl. revert acc Ha. induction Hl as [|a acc0 f b Ha Hb _ IH]; intros acc E; [by eauto|].
  destruct (Hq a acc0 Ha) as [_ Ht]. destruct (tr_beacon _ _ _ _ _ Ht f Hb) as [[facc Hf] _]. eauto.
Qed.

(** No other code has run on an account of an unmoved line. *)
Lemma unmoved_followed c c' a acc b s cd :
  quiet net code_addr c → on_course net code_addr c c' → accounts c !! a = Some acc →
  unmoved (accounts c) a (events c') → beacon_line (accounts c) a b →
  Foreign b s cd ∉ events c'.
Proof.
  intros Hq Hc Ha Hu Hl Hin. destruct (unmoved_line _ _ _ _ Hq Ha Hl) as [accb Hb].
  destruct (unmoved_keeps _ _ _ _ _ Hc Hu Hl Hb) as (accb' & Hb' & Hev & Hn).
  pose proof (list_elem_of_split _ _ Hin) as (before & after & E).
  destruct (proj2 (proj1 Hc) _ _ _ E) as (acc' & Hacc' & Hm). rewrite Hb' in Hacc'.
  injection Hacc' as <-. apply Hn. destruct Hm as [Hbn Hs Hcd|Hm|f facc' Hf Hfa' Hcd Hm].
  - exists s, cd. split; [by right|]. right. done.
  - rewrite E. by apply migrated_moved, owner_migrated_app_l.
  - exfalso. rewrite (ev_beacon _ _ Hev) in Hf.
    pose proof (line_next _ _ _ _ _ Hl Hb Hf) as Hlf.
    destruct (unmoved_line _ _ _ _ Hq Ha Hlf) as [facc Hfa].
    destruct (unmoved_keeps _ _ _ _ _ Hc Hu Hlf Hfa) as (facc'' & Hfa'' & _ & Hnf).
    rewrite Hfa' in Hfa''. injection Hfa'' as <-. apply Hnf.
    rewrite E. by apply migrated_moved, owner_migrated_app_l.
Qed.

(** C18: what an account is for stays. On every chain that transactions lead to
    an account is set up, with a key and an owner. Whatever transactions
    follow, as long as its owner has not called [migrate] on it and nobody
    entitled has moved the code of its beacon (the beacon's owner with
    [migrate], the administrator of the factory's proxy with
    [upgradeToAndCall]), it keeps its key, its owner, its authority, its
    version and its beacon, used timestamps stay used, it runs the contract,
    and no other code has run on its storage or its beacon's. Once one of
    them has moved that code nothing is claimed: the code moved to may write
    every slot, and through a moved beacon anyone's [migrate] of the account
    runs it. *)
Theorem accounts_keep factory admin publicKey c a acc l :
  deployment admin publicKey → reachable net code_addr factory admin publicKey c →
  accounts c !! a = Some acc → unmoved (accounts c) a (events (invoke_all l c)) →
  initialised acc
  ∧ ∃ acc',
      accounts (invoke_all l c) !! a = Some acc'
      ∧ beacon acc' = beacon acc ∧ key_of acc' = key_of acc ∧ owner_of acc' = owner_of acc
      ∧ word_at acc' NAuthority = word_at acc NAuthority
      ∧ word_at acc' NVersion = word_at acc NVersion
      ∧ (∀ ms, valid_name (NTimestamp ms) → word_at acc (NTimestamp ms) ≠ U_ZERO →
           word_at acc' (NTimestamp ms) = word_at acc (NTimestamp ms))
      ∧ impl_of acc' = code_addr
      ∧ ∀ b s cd, beacon_line (accounts c) a b → Foreign b s cd ∉ events (invoke_all l c).
Proof.
  intros Hd Hr Ha Hu. pose proof (reachable_quiet _ _ _ _ Hd Hr) as Hq.
  split; [by apply (proj1 Hq a acc Ha)|]. pose proof (invoke_all_course l c Hq) as Hc.
  destruct (unmoved_keeps _ _ _ _ _ Hc Hu (line_here _ _) Ha) as (acc' & Ha' & Hev & Hn).
  exists acc'. destruct (acc_evolves_powers _ _ Hev) as (Hk & Ho & Hau).
  split_and!; [done|apply Hev|done|by apply owner_of_evolves|done| |apply Hev| |].
  - apply Hev. unfold fixed_slots. set_solver.
  - destruct (decide (impl_of acc' = code_addr)) as [|Hne]; [done|]. exfalso.
    apply Hn, migrated_moved. destruct (proj1 (proj1 Hc) a acc' Ha') as [_ Ht].
    by apply (tr_impl _ _ _ _ _ Ht).
  - intros b s cd Hl. by eapply unmoved_followed.
Qed.


(** C19: a request for a new account that succeeds made exactly that account:
    the owner's signature over the key and the authority was recovered, the
    address (of the proxy for that owner) was free, and there is now an account
    there with the key, the owner and the authority of the request, and the
    contract that took the request as its beacon. *)
Theorem new_account_made factory admin publicKey c e t s cd out c' f rest :
  deployment admin publicKey → reachable net code_addr factory admin publicKey c →
  invoke e t s cd c = Ok (0, out, c') →
  Args_deserialize cd = Some (Args_FreshBackwards f, rest) →
  fresh_signed f ∧ accounts c !! proxy_at t (FreshBackwards_EoaAddr f) = None
  ∧ ∃ acc, accounts c' !! proxy_at t (FreshBackwards_EoaAddr f) = Some acc
         ∧ initialised acc ∧ beacon acc = Some t ∧ key_of acc = FreshBackwards_Key f
         ∧ owner_of acc = FreshBackwards_EoaAddr f
         ∧ word_at acc NAuthority = U_from (default (zeros 20) (FreshBackwards_Authority f)).
Proof.
  intros Hd Hr E Ed. pose proof (reachable_quiet _ _ _ _ Hd Hr) as Hq.
  destruct (invoke_course _ _ _ _ _ _ _ _ _ Hq E) as ([Hq' _] & _ & Hm).
  destruct (Hm f rest Ed) as (Hs & Hn & acc & Ha & Hb & Hk & Ho & Hau).
  split_and!; [done..|]. exists acc. split_and!; try done. by apply (proj1 Hq' _ acc Ha).
Qed.
End AccountChain.
