(* ===== verification/Authority.v ===== *)
(** * Authority: the contract that says which code accounts may call
    (sol/Authority9lives.sol)

    An account with an authority asks it, before it calls a target, whether
    the hash of the target's code is allowed. The contract keeps the allowed
    hashes, which its operator registers one by one or takes from the
    factory of 9lives. The factory's two view functions are answers of the
    transaction: the hash, or none when the call fails. *)
From stdpp Require Import base numbers strings list gmap.
From Stdlib Require Import Strings.Byte ZArith Lia.
From S2P Require Import Prelude GoStd Types BorshRef Chain Contract AccountSafety AccountCode.
From S2P Require Import AccountEntry AccountChain.

Module Authority9lives.

(** ** Storage and operations *)

Record t := mk {
  version : Z;
  operator : address;
  factory : address;
  allowed : gmap word bool;
  (** The events emitted, oldest first. *)
  registered : list (word * bool)
}.

Definition new : t := mk 0 (zeros 20) (zeros 20) ∅ [].

(** The getter of the public mapping. *)
Definition allowed_get (h : word) (st : t) : bool := default false (allowed st !! h).

(** [require]. *)
Definition require (b : bool) (why : string) : outcome unit :=
  if b then Ok tt else Err (lit why).

Definition init (_owner _factory : address) (st : t) : outcome t :=
  _ ← require (version st =? 0) "already initialised";
  Ok (mk 1 _owner _factory (allowed st) (registered st)).

Definition register (sender : address) (_hash : word) (_allowed : bool) (st : t) : outcome t :=
  _ ← require (bool_decide (sender = operator st)) "not operator";
  let st := mk (version st) (operator st) (factory st) (allowed st)
              (registered st ++ [(_hash, _allowed)]) in
  Ok (mk (version st) (operator st) (factory st) (<[_hash := _allowed]> (allowed st))
        (registered st)).

(** An external view call: none reverts the transaction. *)
Definition view (answer : option word) : outcome word :=
  match answer with Some w => Ok w | None => Err [] end.

Definition scan (sender : address) (dppmTradingHash ammTradingHash : option word) (st : t)
    : outcome t :=
  h ← view dppmTradingHash;
  st ← register sender h true st;
  h ← view ammTradingHash;
  register sender h true st.

(** ** Transactions *)

Inductive msg :=
| Init (_owner _factory : address)
| Register (_hash : word) (_allowed : bool)
| Scan (dppmTradingHash ammTradingHash : option word).

Definition receive (sender : address) (m : msg) (st : t) : outcome t :=
  match m with
  | Init o f => init o f st
  | Register h b => register sender h b st
  | Scan d a => scan sender d a st
  end.

(** A transaction that reverts changes nothing. *)
Definition transact (st : t) (x : address * msg) : t :=
  match receive x.1 x.2 st with Ok st' => st' | _ => st end.

Definition after (l : list (address * msg)) (st : t) : t := foldl transact st l.

(** ** What the operator has said *)

(** The registrations a transaction asks for, if it is the operator's and goes
    through. *)
Definition says (o : address) (x : address * msg) : list (word * bool) :=
  if bool_decide (x.1 = o) then
    match x.2 with
    | Init _ _ => []
    | Register h b => [(h, b)]
    | Scan (Some d) (Some a) => [(d, true); (a, true)]
    | Scan _ _ => []
    end
  else [].

(** The last word on a hash. *)
Definition verdict (h : word) (l : list (word * bool)) : bool :=
  foldl (λ b x, if bool_decide (x.1 = h) then x.2 else b) false l.

(** The state an initialised contract is in after these registrations. *)
Record follows (o f : address) (l : list (word * bool)) (st : t) : Prop := {
  fo_version : version st = 1;
  fo_operator : operator st = o;
  fo_factory : factory st = f;
  fo_registered : registered st = l;
  fo_allowed h : allowed_get h st = verdict h l
}.

Lemma verdict_snoc h l x :
  verdict h (l ++ [x]) = if bool_decide (x.1 = h) then x.2 else verdict h l.
Proof. unfold verdict. by rewrite foldl_app. Qed.

Lemma verdict_true h l : verdict h l = true → (h, true) ∈ l.
Proof.
  induction l as [|[h' b] l IH] using rev_ind; [done|]. rewrite verdict_snoc. cbn.
  rewrite elem_of_app. case_bool_decide as E; [|by auto]. intros ->. subst h'. right.
  apply list_elem_of_here.
Qed.

Lemma follows_register o f l st h b st' sender :
  follows o f l st → register sender h b st = Ok st' →
  sender = o ∧ follows o f (l ++ [(h, b)]) st'.
Proof.
  intros [Hv Ho Hf Hr Ha] E. unfold register, require in E. rewrite Ho in E.
  case_bool_decide as Hs; [|done]. injection E as <-. split; [done|].
  split; cbn; [done..|by rewrite Hr|]. intros h'. rewrite verdict_snoc. unfold allowed_get. cbn.
  case_bool_decide as Eh; [subst; by rewrite lookup_insert_eq|].
  rewrite lookup_insert_ne by done. apply Ha.
Qed.

Lemma follows_transact o f l st x :
  follows o f l st → follows o f (l ++ says o x) (transact st x).
Proof.
  intros Hs. destruct x as [s m]. unfold transact, says. cbn [fst snd].
  assert (∀ h b st1 l1, follows o f l1 st1 → s = o →
    ∃ st2, register s h b st1 = Ok st2 ∧ follows o f (l1 ++ [(h, b)]) st2) as Hreg.
  { intros h b st1 l1 H1 Hso. unfold register at 1, require. rewrite (fo_operator _ _ _ _ H1).
    rewrite bool_decide_eq_true_2 by done. eexists. split; [reflexivity|].
    apply (follows_register o f l1 st1 h b _ s); [done|]. unfold register, require.
    by rewrite (fo_operator _ _ _ _ H1), bool_decide_eq_true_2. }
  assert (∀ h b st1 l1, follows o f l1 st1 → s ≠ o → register s h b st1 = Err (lit "not operator"))
    as Hno.
  { intros h b st1 l1 H1 Hso. unfold register, require.
    by rewrite (fo_operator _ _ _ _ H1), bool_decide_eq_false_2. }
  destruct m as [o' f'|h b|d a]; cbn [receive].
  - unfold init. rewrite (fo_version _ _ _ _ Hs). cbn. case_bool_decide; by rewrite app_nil_r.
  - case_bool_decide as Hso.
    + by destruct (Hreg h b st l Hs Hso) as (st' & -> & ?).
    + rewrite (Hno h b st l) by done. by rewrite app_nil_r.
  - unfold scan. destruct d as [d|]; cbn; [|case_bool_decide; by rewrite app_nil_r].
    case_bool_decide as Hso.
    + destruct (Hreg d true st l Hs Hso) as (st1 & -> & H1). cbn.
      destruct a as [a|]; cbn; [|by rewrite app_nil_r].
      destruct (Hreg a true st1 _ H1 Hso) as (st2 & -> & H2). cbn in H2.
      by rewrite <-app_assoc in H2.
    + rewrite (Hno d true st l) by done. cbn. by rewrite app_nil_r.
Qed.

Lemma follows_after o f txs l st :
  follows o f l st → follows o f (l ++ concat (map (says o) txs)) (after txs st).
Proof.
  revert l st. induction txs as [|x txs IH]; intros l st Hs; cbn; [by rewrite app_nil_r|].
  rewrite app_assoc. by apply IH, follows_transact.
Qed.

(** The contract just initialised. *)
Definition initialised (o f : address) : t := mk 1 o f ∅ [].

Lemma follows_initialised o f : follows o f [] (initialised o f).
Proof. by split. Qed.

(** C21: the contract implements the operator's list. Whoever calls [init] first
    becomes its operator; from then on, whatever transactions anybody sends,
    it cannot be initialised again, operator and factory stay, it has emitted
    exactly the registrations of the operator's transactions in order, and a
    hash is allowed exactly when the last of them about it says so. *)
Theorem authority_implements_operator (_owner _factory : address) (txs : list (address * msg)) :
  init _owner _factory new = Ok (initialised _owner _factory)
  ∧ follows _owner _factory (concat (map (says _owner) txs))
      (after txs (initialised _owner _factory))
  ∧ ∀ o f, init o f (after txs (initialised _owner _factory)) = Err (lit "already initialised").
Proof.
  split; [done|]. pose proof (follows_after _ _ txs [] _ (follows_initialised _owner _factory)) as H.
  split; [done|]. intros o f. unfold init. by rewrite (fo_version _ _ _ _ H).
Qed.
End Authority9lives.

(** ** Accounts with this authority *)

Section Controlled.
Context `{SL : SdkLaws} (net : Network) (code_addr : address).

(** What happened, in order: the events of the accounts, and between them the
    transactions of the authority since its initialisation for the operator
    [o]. *)
Context (o f : address).
Definition timeline : Type := list (event + address * Authority9lives.msg).

Definition events_of (tl : timeline) : list event :=
  omap (λ x, match x with inl ev => Some ev | inr _ => None end) tl.
Definition transactions_of (tl : timeline) : list (address * Authority9lives.msg) :=
  omap (λ x, match x with inl _ => None | inr tx => Some tx end) tl.

(** The authority after a timeline, and what its operator has said in it. *)
Definition authority_after (tl : timeline) : Authority9lives.t :=
  Authority9lives.after (transactions_of tl) (Authority9lives.initialised o f).
Definition said (tl : timeline) : list (word * bool) :=
  concat (map (Authority9lives.says o) (transactions_of tl)).

(** The contract at [auth] answers [allowed(bytes32)] with what it holds at the
    time, and the account that has asked goes on without a transaction of the
    authority in between. *)
Record ruled (auth : address) (tl : timeline) : Prop := {
  answers before a h b rest :
    tl = before ++ inl (Asked a auth (SEL_ALLOWED ++ h) b) :: rest →
    b = Authority9lives.allowed_get h (authority_after before);
  goes_on before a cd b tx rest :
    tl ≠ before ++ inl (Asked a auth cd b) :: inr tx :: rest
}.

Lemma allowed_said tl h :
  Authority9lives.allowed_get h (authority_after tl) = Authority9lives.verdict h (said tl).
Proof.
  pose proof (Authority9lives.follows_after o f (transactions_of tl) [] _
                (Authority9lives.follows_initialised o f)) as Hf.
  by rewrite (Authority9lives.fo_allowed _ _ _ _ Hf).
Qed.

(** Where the last event of a timeline is. *)
Lemma events_of_snoc tl l ev :
  events_of tl = l ++ [ev] →
  ∃ tl' txs, tl = tl' ++ inl ev :: map inr txs ∧ events_of tl' = l.
Proof.
  induction tl as [|x tl IH] using rev_ind; [by destruct l|].
  unfold events_of. rewrite omap_app. destruct x as [ev'|tx]; cbn.
  - intros [? [= ->]]%app_inj_2; [|done]. by exists tl, [].
  - rewrite app_nil_r. intros (tl' & txs & -> & E)%IH. exists tl', (txs ++ [tx]).
    split; [|done]. by rewrite map_app, <-app_assoc.
Qed.

(** Only the calls of targets are made in this way. *)
Lemma target_allowed acc a before cl :
  authorised net acc a before cl → c_kind cl = safe_call_unit →
  allowed_target acc a (c_to cl) before.
Proof.
  intros Hau Hk.
  assert (∀ po tr s, solve_call net acc a po tr before s cl → allowed_target acc a (c_to cl) before)
    as Hsolve by (intros po tr s Hc; by destruct Hc).
  destruct Hau as [s sig _ Hc|args s sig _ _ Hc|args s sig _ _ Hc|args sig _ Hc
                  |args t sig _ _ Hc|fr _ Hc]; eauto; by destruct Hc.
Qed.

(** C9: accounts whose authority is this contract call only targets that its
    operator allows at the time. Take any chain that transactions lead to and
    any order of its events and of the authority's transactions in which the
    authority answers with what it holds and no transaction of it comes between
    an answer and what the account does next. Then whenever an account with
    this authority called a target, it had just read the hash of the target's
    code, and the last of the operator's registrations of this hash before the
    call had allowed it: after a revocation there is no further call. *)
Theorem operator_controls_targets factory admin publicKey c a acc auth tl before cl rest :
  deployment code_addr admin publicKey → reachable net code_addr factory admin publicKey c →
  accounts c !! a = Some acc →
  word_at acc NAuthority ≠ U_ZERO → U_addr (word_at acc NAuthority) = auth →
  events_of tl = events c → ruled auth tl →
  tl = before ++ inl (Called a cl) :: rest → c_kind cl = safe_call_unit →
  ∃ l h, events_of before = l ++ [Hashed a (c_to cl) h; Asked a auth (SEL_ALLOWED ++ h) true]
       ∧ Authority9lives.verdict h (said before) = true.
Proof.
  intros Hd Hr Ha Hz Hauth Hev [Hans Hgo] Htl Hk.
  pose proof (reachable_quiet net code_addr _ _ _ _ Hd Hr) as Hq.
  assert (events c = events_of before ++ Called a cl :: events_of rest) as Ev
    by (rewrite <-Hev, Htl; unfold events_of; by rewrite omap_app).
  destruct (proj2 Hq _ _ _ Ev) as (acc' & Ha' & Hau). rewrite Ha in Ha'. injection Ha' as <-.
  destruct (target_allowed _ _ _ _ Hau Hk) as [|(l & h & El)]; [done|]. subst auth.
  exists l, h. split; [done|].
  rewrite (app_assoc l [_] [_] : l ++ [_; _] = _) in El.
  destruct (events_of_snoc _ _ _ El) as (tl' & txs & -> & _).
  destruct txs as [|tx txs]; rewrite <-app_assoc in Htl; cbn in Htl.
  - rewrite <-allowed_said. unfold authority_after, transactions_of. rewrite omap_app. cbn.
    rewrite app_nil_r. symmetry. by eapply Hans.
  - by apply Hgo in Htl.
Qed.
End Controlled.
