(* ===== verification/AccountRun.v ===== *)
(** * AccountRun: runs in which every other contract cooperates

    [good] runs a program when every call succeeds and nobody calls back, and
    counts the answers it needs; [good_exec] ties it to [exec]. With it, what
    a signed solve does in full: it succeeds, uses its timestamps up, and makes
    exactly the calls of its arguments, in order. *)
From stdpp Require Import base numbers strings list gmap.
From Stdlib Require Import Strings.Byte ZArith Lia.
From S2P Require Import Prelude GoStd Types BorshRef Chain Contract AccountSafety AccountCode.
From S2P Require Import ContractBorsh.

Definition ok_reply : reply := mk_reply true None U_MAX.

Fixpoint good_env (n : nat) : env :=
  match n with
  | O => EnvEnd
  | S n => EnvAnswer [] ok_reply (good_env n)
  end.

Section Good.
Context `{Deployed}.

Fixpoint good {A} (this : address) (p : prog A) (out : bytes) (c : chain)
    : option (A * bytes * chain * nat) :=
  match p with
  | Return a => Some (a, out, c, O)
  | Panicked _ | Reverted _ => None
  | Load s k => good this (k (load c this s)) out c
  | Store s v k => good this k out (store c this s v)
  | WriteWord w k => good this k w c
  | Call cl k =>
      if runs (accounts c) (c_to cl) this (c_cd cl) || foreign (accounts c) (c_to cl) this (c_cd cl)
      then None
      else '(r, n) ← good this (k ok_reply) out (emit_event (Called this cl) c); Some (r, S n)
  | StaticCallBool t cd _ k =>
      '(r, n) ← good this (k true) out (emit_event (Asked this t cd true) c); Some (r, S n)
  | CodeHash a k =>
      '(r, n) ← good this (k U_MAX) out (emit_event (Hashed this a U_MAX) c); Some (r, S n)
  | Create2 _ _ _ _ => None
  end.

Lemma good_exec this p out c rc out' c' n j :
  good this p out c = Some (rc, out', c', n) → exec (good_env (n + j)) this p out c = Ok (rc, out', c').
Proof.
  revert out c n.
  induction p as [a|w|d|s k IH|s v k IH|w k IH|cl k IH|t cd g k IH|h k IH|[b] v sd k IH];
    intros out c n; cbn [good].
  - intros [= -> -> -> <-]. by destruct j.
  - done.
  - done.
  - intros E. apply IH in E. by destruct (n + j)%nat.
  - intros E. apply IH in E. by destruct (n + j)%nat.
  - intros E. apply IH in E. by destruct (n + j)%nat.
  - destruct (runs _ _ _ _) eqn:Hr; [done|]. destruct (foreign _ _ _ _) eqn:Hf; [done|].
    cbn [orb]. destruct (good _ _ _ _) as [[[[rc1 o1] c1] n1]|] eqn:E; [|done]. cbn.
    intros [= <- <- <- <-]. apply IH in E. cbn. rewrite Hr. unfold mark_foreign. cbn [accounts emit_event]. by rewrite Hf.
  - destruct (good _ _ _ _) as [[[[rc1 o1] c1] n1]|] eqn:E; [|done]. cbn. intros [= <- <- <- <-].
    by apply IH in E.
  - destruct (good _ _ _ _) as [[[[rc1 o1] c1] n1]|] eqn:E; [|done]. cbn. intros [= <- <- <- <-].
    by apply IH in E.
  - done.
Qed.

Lemma good_then {A B} this (p : prog A) (f : A → prog B) out c a o1 c1 n b o2 c2 m :
  good this p out c = Some (a, o1, c1, n) → good this (f a) o1 c1 = Some (b, o2, c2, m) →
  good this (prog_then p f) out c = Some (b, o2, c2, (n + m)%nat).
Proof.
  intros E Ef. revert out c n E.
  induction p as [x|w|d|s k IH|s v k IH|w k IH|cl k IH|t cd g k IH|h k IH|[bb] v sd k IH];
    intros out c n; cbn -[U_MAX]; try done; try (by apply IH).
  - by intros [= -> -> -> <-].
  - destruct (runs _ _ _ _ || foreign _ _ _ _); [done|].
    destruct (good this (k ok_reply) _ _) as [[[[x o] d] i]|] eqn:E; [|done]. cbn -[U_MAX].
    intros [= -> -> -> <-]. by rewrite (IH _ _ _ _ E).
  - destruct (good this (k true) _ _) as [[[[x o] d] i]|] eqn:E; [|done]. cbn -[U_MAX].
    intros [= -> -> -> <-]. by rewrite (IH _ _ _ _ E).
  - destruct (good this (k U_MAX) _ _) as [[[[x o] d] i]|] eqn:E; [|done]. cbn -[U_MAX].
    intros [= -> -> -> <-]. by rewrite (IH _ _ _ _ E).
Qed.
End Good.

(** ** Runs that return, with the output unchanged *)
Section RunsTo.
Context `{SL : SdkLaws} (net : Network) (code_addr this : address).
#[local] Instance accounts_here : Deployed := accounts_deployed net code_addr.

Definition runs_to {A} (p : prog A) (c : chain) (a : A) (c' : chain) : Prop :=
  ∀ out, ∃ n, good this p out c = Some (a, out, c', n).

Definition logged (c : chain) (l : list event) : chain := mk_chain (accounts c) (events c ++ l).

Lemma logged_nil c : logged c [] = c.
Proof. destruct c. unfold logged. cbn. by rewrite app_nil_r. Qed.

Lemma logged_app c l l' : logged (logged c l) l' = logged c (l ++ l').
Proof. unfold logged. cbn. by rewrite app_assoc. Qed.

Lemma runs_to_ret {A} (a : A) c : runs_to (Return a) c a c.
Proof. intros out. by exists O. Qed.

Lemma runs_to_then {A B} (p : prog A) (f : A → prog B) c a c1 b c2 :
  runs_to p c a c1 → runs_to (f a) c1 b c2 → runs_to (prog_then p f) c b c2.
Proof.
  intros Hp Hf out. destruct (Hp out) as [n Hn]. destruct (Hf out) as [m Hm].
  eexists. by eapply good_then.
Qed.

Lemma runs_to_assert b why c : b = true → runs_to (assert_ b why) c tt c.
Proof. intros ->. apply runs_to_ret. Qed.

Lemma runs_to_unwrap {A} (o : option A) a c : o = Some a → runs_to (unwrap o) c a c.
Proof. intros ->. apply runs_to_ret. Qed.

Lemma runs_to_load n acc c :
  accounts c !! this = Some acc → runs_to (storage_load (slot_at n)) c (word_at acc n) c.
Proof. intros Ha out. exists O. cbn. by rewrite (load_word_at _ _ _ _ Ha). Qed.

Lemma outside_runs m t s cd : m !! t = None → runs m t s cd = false.
Proof. intros E. cbn. unfold contract_call, delegates, upgrades. by rewrite E. Qed.

Lemma outside_foreign m t s cd : m !! t = None → foreign m t s cd = false.
Proof. intros E. cbn. unfold foreign_call. by rewrite E. Qed.

Lemma runs_to_call k to cd v g c :
  accounts c !! to = None →
  runs_to (do_call k to cd v g) c ok_reply (logged c [Called this (mk_call k to cd v g)]).
Proof.
  intros Ht out. exists 1%nat. cbn -[ok_reply runs foreign]. by rewrite outside_runs, outside_foreign.
Qed.

Lemma runs_to_unit m c r c' :
  runs_to m c r c' → r_ok r = true → runs_to (revert_if_bad_call_unit m) c tt c'.
Proof. intros Hm Hr. eapply runs_to_then; [exact Hm|]. rewrite Hr. apply runs_to_ret. Qed.

Lemma runs_to_for_each {A} (f : A → prog unit) (ev : A → list event) l c :
  (∀ x c', x ∈ l → accounts c' = accounts c → runs_to (f x) c' tt (logged c' (ev x))) →
  runs_to (for_each l f) c tt (logged c (concat (map ev l))).
Proof.
  revert c. induction l as [|x l IH]; intros c Hf; cbn.
  - rewrite logged_nil. apply runs_to_ret.
  - eapply runs_to_then; [apply Hf; [set_solver|done]|]. rewrite <-logged_app.
    apply IH. intros y c' Hy Hc'. apply Hf; [set_solver|done].
Qed.

(** ** What one solve does *)

Definition token (a : Asset) : address := default [] (Asset_addr a net).

Definition permit_event (po : address) (p : Permit) : event :=
  Called this
    (token_call call_unit (token (Permit_Asset p))
       (make_fn_permit po this U_MAX (U_from_u64 (Permit_Deadline p)) (Permit_V p) (Permit_R p)
          (Permit_S p))).
Definition from_events (tr target : address) (f : FromArgs) : list event :=
  [Called this
     (token_call safe_call_bool (token (FromArgs_Asset f))
        (make_fn_transfer_from tr this (FromArgs_ToTake f)));
   Called this
     (token_call call_unit (token (FromArgs_Asset f)) (make_fn_approve target (FromArgs_ToTake f)))].
Definition authority_events (auth : word) (target : address) : list event :=
  if bool_decide (auth = U_ZERO) then []
  else [Hashed this target U_MAX; Asked this (U_addr auth) (SEL_ALLOWED ++ U_MAX) true].
Definition balance_event (f : FromArgs) : event :=
  Called this (token_call call_word (token (FromArgs_Asset f)) (make_fn_balance_of this)).

Definition solve_trace (po tr : address) (auth : word) (sa : SolveArgs) : list event :=
  concat (map (λ p, [permit_event po p]) (SolveArgs_Permit sa))
    ++ concat (map (from_events tr (SolveArgs_Target sa)) (SolveArgs_From sa))
    ++ authority_events auth (SolveArgs_Target sa)
    ++ [Called this (token_call safe_call_unit (SolveArgs_Target sa) (SolveArgs_Cd sa))]
    ++ concat (map (λ f, [balance_event f]) (SolveArgs_From sa)).

(** The tokens are on the network, and neither they nor the target is an
    account. *)
Definition asset_outside (m : gmap address account) (a : Asset) : Prop :=
  ∃ t, Asset_addr a net = Some t ∧ m !! t = None.
Definition solve_outside (m : gmap address account) (sa : SolveArgs) : Prop :=
  Forall (λ p, asset_outside m (Permit_Asset p)) (SolveArgs_Permit sa)
  ∧ Forall (λ f, asset_outside m (FromArgs_Asset f) ∧ length (FromArgs_MaxUnspent f) = 32%nat)
      (SolveArgs_From sa)
  ∧ m !! SolveArgs_Target sa = None.

Lemma asset_outside_token m a :
  asset_outside m a → Asset_addr a net = Some (token a) ∧ m !! token a = None.
Proof. intros (t & E & Ht). unfold token. by rewrite E. Qed.

Lemma runs_solve_permit imm po p c :
  network imm = net → asset_outside (accounts c) (Permit_Asset p) →
  runs_to (solve_permit this imm po p) c tt (logged c [permit_event po p]).
Proof.
  intros Hn [Ha Ht]%asset_outside_token. unfold solve_permit. rewrite Hn.
  eapply runs_to_then; [by apply runs_to_unwrap|].
  eapply runs_to_unit; [by apply runs_to_call|done].
Qed.

Lemma runs_solve_from imm tr target f c :
  network imm = net → asset_outside (accounts c) (FromArgs_Asset f) →
  runs_to (solve_from this imm tr target f) c tt (logged c (from_events tr target f)).
Proof.
  intros Hn [Ha Ht]%asset_outside_token. unfold solve_from. rewrite Hn.
  eapply runs_to_then; [by apply runs_to_unwrap|].
  eapply runs_to_then; [eapply runs_to_unit; [by apply runs_to_call|done]|].
  change (from_events tr target f) with
    ([hd (Invoked [] [] []) (from_events tr target f)] ++ tl (from_events tr target f)).
  rewrite <-logged_app. eapply runs_to_unit; [by apply runs_to_call|done].
Qed.

Lemma runs_solve_authority acc target c :
  accounts c !! this = Some acc →
  runs_to (solve_authority target) c tt
    (logged c (authority_events (word_at acc NAuthority) target)).
Proof.
  intros Ha. eapply runs_to_then; [by apply (runs_to_load NAuthority)|].
  rewrite U_is_some_spec. unfold authority_events. repeat case_bool_decide; try done.
  - intros out. exists 2%nat. cbn -[U_MAX]. unfold logged, emit_event. cbn -[U_MAX].
    by rewrite <-app_assoc.
  - rewrite logged_nil. apply runs_to_ret.
Qed.

Lemma runs_solve_target target cd c :
  accounts c !! target = None →
  runs_to (solve_target target cd) c tt
    (logged c [Called this (token_call safe_call_unit target cd)]).
Proof.
  intros Ht. eapply runs_to_then; [by apply runs_to_call|]. apply runs_to_ret.
Qed.

Lemma be_val_U_MAX_le w : length w = 32%nat → be_val w ≤ be_val U_MAX.
Proof.
  intros Hw. pose proof (be_val_bound w) as Hb. rewrite Hw in Hb.
  replace (be_val U_MAX) with (256 ^ Z.of_nat 32 - 1) by by vm_compute. lia.
Qed.

Lemma runs_solve_balance imm f c :
  network imm = net → asset_outside (accounts c) (FromArgs_Asset f) →
  length (FromArgs_MaxUnspent f) = 32%nat →
  runs_to (solve_balance this imm f) c tt (logged c [balance_event f]).
Proof.
  intros Hn [Ha Ht]%asset_outside_token Hl. unfold solve_balance. rewrite Hn.
  eapply runs_to_then; [by apply runs_to_unwrap|].
  eapply runs_to_then; [eapply runs_to_then; [by apply runs_to_call|apply runs_to_ret]|].
  apply runs_to_assert, Z.leb_le. by apply be_val_U_MAX_le.
Qed.

Definition solve_ts (sa : SolveArgs) : word := U_from (SolveArgs_MsTs sa).

Definition solved_one (po tr : address) (auth : word) (c : chain) (sa : SolveArgs) : chain :=
  logged (store c this (slot_at (NTimestamp (solve_ts sa))) U_ONE) (solve_trace po tr auth sa).
Definition solved (po tr : address) (auth : word) (c : chain) (l : list SolveArgs) : chain :=
  foldl (solved_one po tr auth) c l.

Lemma solved_events po tr auth c l :
  events (solved po tr auth c l) = events c ++ concat (map (solve_trace po tr auth) l).
Proof.
  unfold solved. revert c.
  induction l as [|sa l IH]; intros c; cbn [foldl map concat]; [by rewrite app_nil_r|].
  rewrite IH. cbn. by rewrite app_assoc.
Qed.

Lemma lookup_solved_ne po tr auth c l b :
  b ≠ this → accounts (solved po tr auth c l) !! b = accounts c !! b.
Proof.
  intros Hb. unfold solved. revert c. induction l as [|sa l IH]; intros c; cbn [foldl]; [done|].
  rewrite IH. unfold solved_one, logged. cbn [accounts]. rewrite lookup_store.
  by rewrite decide_False by congruence.
Qed.

Lemma runs_to_timestamp acc c ms :
  accounts c !! this = Some acc → word_at acc (NTimestamp ms) = U_ZERO →
  runs_to (timestamps_exchange ms) c tt (store c this (slot_at (NTimestamp ms)) U_ONE).
Proof.
  intros Ha Hz out. exists O. unfold timestamps_exchange. rewrite storage_exchange_spec. cbn.
  change (slot_map SLOT_timestamps ms) with (slot_at (NTimestamp ms)).
  rewrite (load_word_at _ _ _ _ Ha), Hz, bool_decide_eq_true_2 by done. done.
Qed.

Lemma store_none c a s v b : accounts c !! b = None → accounts (store c a s v) !! b = None.
Proof. intros E. rewrite lookup_store, E. by case_decide. Qed.

Lemma solve_outside_mono m m' sa :
  (∀ x, m !! x = None → m' !! x = None) → solve_outside m sa → solve_outside m' sa.
Proof.
  intros Hm (Hp & Hf & Ht). split_and!; [..|by apply Hm].
  - eapply Forall_impl; [exact Hp|]. intros p (t & ? & ?). exists t. auto.
  - eapply Forall_impl; [exact Hf|]. intros p [(t & ? & ?) ?]. split; [|done]. exists t. auto.
Qed.

Lemma solve_outside_store c a s v sa :
  solve_outside (accounts c) sa → solve_outside (accounts (store c a s v)) sa.
Proof. apply solve_outside_mono. intros x. apply store_none. Qed.

Lemma runs_solve_one imm po tr acc sa c :
  network imm = net → ts16 sa → accounts c !! this = Some acc →
  word_at acc (NTimestamp (solve_ts sa)) = U_ZERO → solve_outside (accounts c) sa →
  runs_to (solve_one this imm po tr sa) c tt
    (solved_one po tr (word_at acc NAuthority) c sa).
Proof.
  intros Hn Hts Ha Hz Ho. eapply runs_to_then; [by eapply runs_to_timestamp|].
  set (c1 := store c this (slot_at (NTimestamp (solve_ts sa))) U_ONE).
  assert (accounts c1 !! this = Some (store_in (slot_at (NTimestamp (solve_ts sa))) U_ONE acc)) as Ha1.
  { unfold c1. by rewrite lookup_store, decide_True, Ha by done. }
  apply (solve_outside_store c this (slot_at (NTimestamp (solve_ts sa))) U_ONE) in Ho.
  fold c1 in Ho. destruct Ho as (Hp & Hf & Ht).
  rewrite <-(word_at_store acc (NTimestamp (solve_ts sa)) NAuthority U_ONE) by
    (first [done|eexists; split; [by right|done]]).
  unfold solved_one, solve_trace. fold c1. rewrite <-!logged_app.
  assert (∀ {A} (P : A → Prop) l x, Forall P l → x ∈ l → P x) as Hin.
  { intros A P l x Hl [i Hi]%list_elem_of_lookup. exact (Forall_lookup_1 _ _ _ _ Hl Hi). }
  eapply runs_to_then.
  { apply runs_to_for_each. intros p c' Hpin Ec. apply runs_solve_permit; [done|].
    rewrite Ec. exact (Hin _ _ _ _ Hp Hpin). }
  eapply runs_to_then.
  { apply runs_to_for_each. intros f c' Hfin Ec. apply runs_solve_from; [done|].
    rewrite Ec. apply (Hin _ _ _ _ Hf Hfin). }
  eapply runs_to_then; [by eapply runs_solve_authority|].
  eapply runs_to_then; [by apply runs_solve_target|].
  apply runs_to_for_each. intros f c' Hfin Ec. destruct (Hin _ _ _ _ Hf Hfin) as [Hout Hl].
  apply runs_solve_balance; [done| |done]. by rewrite Ec.
Qed.

Lemma runs_entry_solve imm po tr l acc c :
  network imm = net → accounts c !! this = Some acc → Forall ts16 l → NoDup (map solve_ts l) →
  Forall (λ sa, word_at acc (NTimestamp (solve_ts sa)) = U_ZERO ∧ solve_outside (accounts c) sa) l →
  runs_to (entry_solve this imm l po tr) c 0 (solved po tr (word_at acc NAuthority) c l).
Proof.
  intros Hn Ha H16 Hnd Hl. eapply runs_to_then; [|apply runs_to_ret].
  revert acc c Ha Hl. induction l as [|sa l IH]; intros acc c Ha Hl; [apply runs_to_ret|].
  apply Forall_cons in H16 as [H1 H16]. apply Forall_cons in Hl as [[Hz Ho] Hl].
  apply NoDup_cons in Hnd as [Hni Hnd]. cbn [for_each solved foldl].
  eapply runs_to_then; [by eapply runs_solve_one|].
  set (n := NTimestamp (solve_ts sa)). assert (valid_name n) as Hv by (eexists; split; [by right|done]).
  assert (word_at (store_in (slot_at n) U_ONE acc) NAuthority = word_at acc NAuthority) as <-
    by by apply word_at_store.
  fold (solved po tr (word_at (store_in (slot_at n) U_ONE acc) NAuthority)
          (solved_one po tr (word_at (store_in (slot_at n) U_ONE acc) NAuthority) c sa) l).
  apply IH; [done|done| |].
  - unfold solved_one, logged. cbn [accounts]. by rewrite lookup_store, decide_True, Ha by done.
  - apply Forall_forall. intros sb Hsb. destruct (proj1 (Forall_forall _ _) Hl sb Hsb) as [Hzb Hob].
    split; [|by apply solve_outside_store].
    rewrite word_at_store; [done|done| |].
    + eexists. split; [right|done]. exact (proj1 (Forall_forall _ _) H16 sb Hsb).
    + intros [= E]. apply Hni. rewrite <-E. by apply list_elem_of_fmap_2.
Qed.

(** ** Requests *)

Lemma runs_to_store n v c : runs_to (storage_store (slot_at n) v) c tt (store c this (slot_at n) v).
Proof. intros out. by exists O. Qed.

Lemma runs_to_guarded m acc c rc c' :
  accounts c !! this = Some acc → word_at acc NGuard = U_ZERO →
  runs_to m (store c this (slot_at NGuard) U_ONE) rc c' →
  runs_to (reentrancy_guard_const_keccak REENTRANCY_KEY m) c rc (store c' this (slot_at NGuard) U_ZERO).
Proof.
  intros Ha Hg Hm. rewrite reentrancy_guard_spec. unfold guarded.
  eapply runs_to_then; [by apply (runs_to_load NGuard)|].
  rewrite Hg, bool_decide_eq_true_2 by done.
  eapply runs_to_then; [apply (runs_to_store NGuard)|].
  eapply runs_to_then; [exact Hm|].
  eapply runs_to_then; [apply (runs_to_store NGuard)|apply runs_to_ret].
Qed.

(** An account that can take the solves [l]: free, and with their timestamps
    unused. *)
Record can_solve (c : chain) (acc : account) (l : list SolveArgs) : Prop := {
  cs_account : accounts c !! this = Some acc;
  cs_guard : word_at acc NGuard = U_ZERO;
  cs_ts16 : Forall ts16 l;
  cs_nodup : NoDup (map solve_ts l);
  cs_each : Forall (λ sa, word_at acc (NTimestamp (solve_ts sa)) = U_ZERO
                          ∧ solve_outside (accounts c) sa) l
}.

Lemma can_solve_guarded c acc l :
  can_solve c acc l →
  let cg := store c this (slot_at NGuard) U_ONE in
  let accg := store_in (slot_at NGuard) U_ONE acc in
  accounts cg !! this = Some accg ∧ key_of accg = key_of acc
  ∧ owner_of accg = owner_of acc ∧ word_at accg NAuthority = word_at acc NAuthority
  ∧ Forall (λ sa, word_at accg (NTimestamp (solve_ts sa)) = U_ZERO
                  ∧ solve_outside (accounts cg) sa) l.
Proof.
  intros [Ha Hg H16 Hnd He]. cbv zeta. unfold key_of, owner_of.
  rewrite !word_at_store by done. split_and!; try done.
  - by rewrite lookup_store, decide_True, Ha by done.
  - apply Forall_forall. intros sa Hsa. destruct (proj1 (Forall_forall _ _) He sa Hsa) as [Hz Ho].
    split; [|by apply solve_outside_store]. rewrite word_at_store; [done|done| |done].
    eexists. split; [right|done]. exact (proj1 (Forall_forall _ _) H16 sa Hsa).
Qed.

(** What the account does with the solves [l]. *)
Definition after_solves (po tr : address) (acc : account) (c : chain) (l : list SolveArgs) : chain :=
  store (solved po tr (word_at acc NAuthority) (store c this (slot_at NGuard) U_ONE) l)
    this (slot_at NGuard) U_ZERO.

Lemma runs_solve_v2 args sig c acc :
  can_solve c acc (SolveV2Args_Args args) →
  edphverify_pre (enc b_SolveV2Args args) (key_of acc) sig = true →
  runs_to (entry this (mk_Imm net (zeros 20)) (Args_SolveV2 args sig)) c 0
    (after_solves (SolveV2Args_PermitOwner args) (SolveV2Args_TransferOwner args) acc c
       (SolveV2Args_Args args)).
Proof.
  intros Hcs Hs. destruct (can_solve_guarded _ _ _ Hcs) as (Ha & Hk & Ho & Hau & He).
  destruct Hcs as [Ha0 Hg H16 Hnd _]. eapply runs_to_guarded; [done..|].
  eapply runs_to_then; [by apply (runs_to_load NKey)|]. fold (key_of (store_in (slot_at NGuard) U_ONE acc)).
  rewrite Hk. eapply runs_to_then; [by apply runs_to_assert|].
  rewrite <-Hau. by apply runs_entry_solve.
Qed.

Lemma runs_solve_v1 l c acc :
  can_solve c acc (map SolveArgsSigArgs_Args l) →
  Forall (λ x, edphverify_pre (enc b_SolveArgs (SolveArgsSigArgs_Args x)) (key_of acc)
                 (SolveArgsSigArgs_Sig x) = true) l →
  runs_to (entry this (mk_Imm net (zeros 20)) (Args_Solve l)) c 0
    (after_solves (owner_of acc) (owner_of acc) acc c (map SolveArgsSigArgs_Args l)).
Proof.
  intros Hcs Hs. destruct (can_solve_guarded _ _ _ Hcs) as (Ha & Hk & Ho & Hau & He).
  destruct Hcs as [Ha0 Hg H16 Hnd _]. eapply runs_to_guarded; [done..|].
  eapply runs_to_then; [by apply (runs_to_load NKey)|]. fold (key_of (store_in (slot_at NGuard) U_ONE acc)).
  rewrite Hk. eapply runs_to_then.
  - apply (runs_to_for_each _ (λ _, [])). intros x c' Hx _. rewrite logged_nil.
    apply runs_to_assert. exact (proj1 (Forall_forall _ _) Hs x Hx).
  - assert (concat (map (λ _ : SolveArgsSigArgs, @nil event) l) = []) as ->
      by (clear; by induction l).
    rewrite logged_nil. eapply runs_to_then; [by apply (runs_to_load NOwner)|].
    cbv zeta. fold (owner_of (store_in (slot_at NGuard) U_ONE acc)). rewrite Ho, <-Hau.
    by apply runs_entry_solve.
Qed.

(** The chain afterwards. *)
Lemma after_solves_events po tr acc c l :
  events (after_solves po tr acc c l)
  = events c ++ concat (map (solve_trace po tr (word_at acc NAuthority)) l).
Proof. unfold after_solves. cbn [events store]. by rewrite solved_events. Qed.

(** A request that runs is accepted in a long enough cooperative
    environment. *)
Lemma accepted sender a c c' :
  wf_request a → runs (accounts c) this sender (Args_to_vec a) = true →
  runs_to (entry this (mk_Imm net (zeros 20)) a)
    (emit_event (Invoked this sender (Args_to_vec a)) c) 0 c' →
  ∃ n, ∀ j, invoke (good_env (n + j)) this sender (Args_to_vec a) c = Ok (0, [], c').
Proof.
  intros Hw Hr Hrun. destruct (Hrun []) as [n Hn]. exists n. intros j. unfold invoke. rewrite Hr.
  rewrite (code_delegated net code_addr) by apply (request_not_upgrade_nil a).
  pose proof (entrypoint_request this sender net a [] Hw) as E. rewrite app_nil_r in E.
  rewrite E. by apply good_exec.
Qed.

(** ** [SolveV3] without solves *)

(** The payment of a [SolveV3]. *)
Definition gas_payment (acc : account) (args : SolveV3Args) : call :=
  token_call safe_call_bool (token (SolveV3Args_GasToken args))
    (make_fn_transfer_from (owner_of acc) (zeros 20) (U_from_u64 (SolveV3Args_GasTokenAmt args))).

Lemma solve_v3_once sender args sig c acc :
  let cd := Args_to_vec (Args_SolveV3 args sig) in
  wf_SolveV3Args args → length sig = 64%nat →
  SolveV3Args_Args args = [] → SolveV3Args_GasTokenPermit args = None →
  asset_outside (accounts c) (SolveV3Args_GasToken args) →
  edphverify_pre (enc b_SolveV3Args args) (key_of acc) sig = true →
  accounts c !! this = Some acc → runs (accounts c) this sender cd = true →
  invoke (good_env 1) this sender cd c
  = Ok (0, [], logged c [Invoked this sender cd; Called this (gas_payment acc args)]).
Proof.
  intros cd Hw Hl Hargs Hperm [Hga Hgt]%asset_outside_token Hs Ha Hr. unfold invoke. rewrite Hr.
  rewrite (code_delegated net code_addr) by apply request_not_upgrade_nil.
  pose proof (entrypoint_request this sender net (Args_SolveV3 args sig) [] (conj Hw Hl)) as E.
  rewrite app_nil_r in E. unfold cd at 1. rewrite E. clear E.
  set (c1 := emit_event (Invoked this sender cd) c).
  assert (accounts c1 !! this = Some acc) as Ha1 by done.
  apply (good_exec this _ [] c1 0 [] _ 1 0). cbn [entry]. unfold entry_solve_v3.
  cbn [ed25519_slot_get storage_load prog_then good].
  change (slot_map SLOT_ed25519_slot U_ZERO) with (slot_at NKey).
  change SLOT_ethereum_owner with (slot_at NOwner).
  rewrite (load_word_at _ _ _ NKey Ha1). fold (key_of acc).
  unfold assert_signed. rewrite Hs. cbn [assert_ prog_then good network].
  rewrite (load_word_at _ _ _ NOwner Ha1). fold (owner_of acc). rewrite Hga, Hperm, Hargs. cbn [unwrap prog_then good solve_gas_permit].
  cbn [revert_if_bad_call_unit do_call prog_then good c_to c_cd ok_reply r_ok for_each].
  rewrite outside_runs, outside_foreign by done. cbn [orb entry_solve for_each prog_then good].
  unfold logged, c1, emit_event. cbn [accounts events]. by rewrite <-app_assoc.
Qed.

(** C39: a [SolveV3] request without solves uses no timestamp, so anybody who
    has seen it can send it again: each time the account accepts the same
    signature and pays the gas amount once more from its owner's tokens, to
    the zero address, which is what the contract is built with as the
    clearinghouse. *)
Theorem solve_v3_replays sender args sig c acc m :
  let cd := Args_to_vec (Args_SolveV3 args sig) in
  wf_SolveV3Args args → length sig = 64%nat →
  SolveV3Args_Args args = [] → SolveV3Args_GasTokenPermit args = None →
  asset_outside (accounts c) (SolveV3Args_GasToken args) →
  edphverify_pre (enc b_SolveV3Args args) (key_of acc) sig = true →
  accounts c !! this = Some acc → runs (accounts c) this sender cd = true →
  invoke_all (replicate m (Inv this sender cd (good_env 1))) c
  = logged c (concat (replicate m [Invoked this sender cd; Called this (gas_payment acc args)])).
Proof.
  intros cd Hw Hl Hargs Hperm Hout Hs Ha Hr. revert c Hout Ha Hr.
  induction m as [|m IH]; intros c Hout Ha Hr; cbn [replicate invoke_all concat].
  - by rewrite logged_nil.
  - pose proof (solve_v3_once sender args sig c acc Hw Hl Hargs Hperm Hout Hs Ha Hr) as E.
    fold cd in E. unfold transact. rewrite Hr, E. cbn [settle]. rewrite IH by done.
    by rewrite logged_app.
Qed.
End RunsTo.
