(* ===== verification/Upgrades.v ===== *)
(** * Upgrades: the administrator of the factory's proxy

    sol/UpgradeableProxy.sol lets its administrator replace the implementation
    and run the new one on the proxy's storage in the same call. The calldata
    is the ABI encoding of [upgradeToAndCall(address,bytes)]. *)
From stdpp Require Import base numbers strings list gmap.
From Stdlib Require Import Strings.Byte ZArith Lia.
From S2P Require Import Prelude GoStd Keccak Types BorshRef Chain Contract AccountSafety ContractBorsh.

(** ** Calldata *)

(** The selector is that of the signature. *)
Example upgrade_selector :
  take 4 (Keccak.keccak256 (lit "upgradeToAndCall(address,bytes)")) = SEL_UPGRADE.
Proof. by vm_compute. Qed.

Definition abi_padding (n : nat) : nat := ((32 - n mod 32) mod 32)%nat.

Definition upgrade_cd (newImpl : address) (data : bytes) : bytes :=
  SEL_UPGRADE ++ (zeros 12 ++ newImpl) ++ be_split 32 64
    ++ be_split 32 (Z.of_nat (length data)) ++ data ++ zeros (abi_padding (length data)).

Lemma abi_decode_upgrade newImpl data :
  length newImpl = 20%nat → Z.of_nat (length data) < 2 ^ 64 →
  abi_decode_address_bytes (drop 4 (upgrade_cd newImpl data)) = Some (zeros 12 ++ newImpl, data).
Proof.
  intros Hl Hd. unfold upgrade_cd. rewrite drop_app_length' by done.
  set (w := zeros 12 ++ newImpl). assert (length w = 32%nat) as Hw
    by (unfold w; rewrite length_app, zeros_length, Hl; done).
  set (n := be_split 32 (Z.of_nat (length data))).
  assert (length n = 32%nat) as Hn by apply be_split_length.
  assert (be_val n = Z.of_nat (length data)) as En
    by (apply be_val_split_small; change (256 ^ Z.of_nat 32) with (2 ^ 256); lia).
  assert (be_val w < 2 ^ 160) as Hv.
  { unfold w, zeros. rewrite be_val_zeros. pose proof (be_val_bound newImpl) as [_ Hb].
    rewrite Hl in Hb. change (256 ^ Z.of_nat 20) with (2 ^ 160) in Hb. lia. }
  assert (length (be_split 32 64) = 32%nat) as H64 by apply be_split_length.
  assert (be_val (be_split 32 64) = 64) as E64 by by vm_compute.
  unfold abi_decode_address_bytes. rewrite !length_app, Hw, Hn, H64, zeros_length.
  rewrite take_app_length' by done. rewrite drop_app_length' by done.
  rewrite take_app_length' by done. rewrite E64. change (Z.to_nat 64) with 64%nat.
  rewrite (proj2 (Z.ltb_ge _ 64)) by lia. rewrite (proj2 (Z.ltb_lt (be_val w) _)) by done.
  rewrite (proj2 (Z.ltb_lt 64 _)), (proj2 (Z.ltb_lt (64 + 31) _)) by lia. cbn [negb orb].
  rewrite (app_assoc w), drop_app_length' by (rewrite length_app; lia).
  rewrite take_app_length', En by done. rewrite (proj2 (Z.ltb_lt _ (2 ^ 64))) by lia.
  rewrite (proj2 (Z.leb_le _ _)) by lia. cbn [negb orb].
  rewrite Nat2Z.id, (app_assoc _ n), drop_app_length' by (rewrite !length_app; lia).
  by rewrite take_app_length'.
Qed.

Section Upgrades.
Context `{SL : SdkLaws} (net : Network) (code_addr : address).
#[local] Instance accounts_here : Deployed := accounts_deployed net code_addr.

(** ** The run *)

Lemma exec_delegated e : ∀ this p out c out' c',
  exec e this p out c = Ok (0, out', c') → exec e this (delegated p) out c = Ok (0, [], c').
Proof.
  induction e as [|inner r rest Hin IHr|e r rest IHe IHr] using env_ind_nested;
    intros this p; induction p as
      [a|w|d|s k IH|s v k IH|w k IH|cl k IH|t cd g k IH|h k IH|[b] v sd k IH];
    intros out c out' c' E; cbn -[runs] in E |- *; try discriminate E;
    try (by injection E as -> _ ->); try (by eapply IH); try (by eapply IHr).
  - destruct (runs _ _ _ _); [done|]. by eapply IHr.
  - destruct (_ && _); by eapply IHr.
  - destruct (runs _ _ _ _); [|done]. by eapply IHr.
Qed.

Lemma upgrades_cd m a acc newImpl data :
  m !! a = Some acc → beacon acc = None → length newImpl = 20%nat →
  Z.of_nat (length data) < 2 ^ 64 → data = [] ∨ newImpl = code_addr →
  upgrades code_addr m a (admin_of acc) (upgrade_cd newImpl data)
  = Some (zeros 12 ++ newImpl, data).
Proof.
  intros Ha Hb Hl Hd Hf. unfold upgrades. rewrite Ha. cbn [mbind option_bind]. rewrite Hb.
  unfold UpgradeableProxy_upgrades. rewrite (bool_decide_eq_true_2 (admin_of acc = _)) by done.
  rewrite (bool_decide_eq_true_2 (take 4 _ = _)) by done.
  rewrite abi_decode_upgrade by done. cbn [mbind option_bind fst snd]. by rewrite bool_decide_eq_true_2.
Qed.

(** The chain after the factory [a] has been moved. *)
Definition moved (a : address) (newImpl : address) (c : chain) : chain :=
  store c a SLOT_IMPL (zeros 12 ++ newImpl).

(** C20: an upgrade by the administrator moves the proxy, in every environment; with
    a request for the contract, the new implementation has run it. *)
Theorem admin_upgrades e a acc newImpl data c :
  accounts c !! a = Some acc → beacon acc = None → length newImpl = 20%nat →
  Z.of_nat (length data) < 2 ^ 64 →
  let cd := upgrade_cd newImpl data in
  let c1 := moved a newImpl (emit_event (Invoked a (admin_of acc) cd) c) in
  (data = [] → invoke e a (admin_of acc) cd c = Ok (0, [], c1))
  ∧ (∀ req out c', newImpl = code_addr → wf_request req → data = Args_to_vec req →
       exec e a (entry a (mk_Imm net (zeros 20)) req) [] c1 = Ok (0, out, c') →
       invoke e a (admin_of acc) cd c = Ok (0, [], c')).
Proof.
  intros Ha Hb Hl Hd cd c1.
  assert (data = [] ∨ newImpl = code_addr → invoke e a (admin_of acc) cd c
          = exec e a (UpgradeableProxy_upgrade net a (admin_of acc) (zeros 12 ++ newImpl) data) []
              (emit_event (Invoked a (admin_of acc) cd) c)) as Hi.
  { intros Hf. pose proof (upgrades_cd (accounts c) a acc newImpl data Ha Hb Hl Hd Hf) as E.
    unfold invoke. cbn [runs code accounts_here accounts_deployed]. unfold contract_call, cd. rewrite E.
    by rewrite (bool_decide_eq_true_2 (is_Some _)), orb_true_r. }
  split.
  - intros ->. rewrite Hi by by left. by destruct e.
  - intros req out c' Hn Hw -> E. rewrite Hi by by right.
    unfold UpgradeableProxy_upgrade. assert (Args_to_vec req ≠ []) as Hne by by destruct req.
    pose proof (entrypoint_request a (admin_of acc) net req [] Hw) as Ee. rewrite app_nil_r in Ee.
    destruct (Args_to_vec req) as [|b l] eqn:Hr; [done|]. rewrite Ee.
    apply exec_delegated in E. by destruct e.
Qed.
End Upgrades.
