(* ===== verification/Creation.v ===== *)
(** * Creation: creating an account, from the factory's side in full

    AccountChain shows what a creation that succeeds has made. Here it
    succeeds: a request with the owner's signature, for an owner who has no
    account yet, creates the account at its address, sets it up, runs the
    solves that came with the request on it, and answers with the address. *)
From stdpp Require Import base numbers strings list gmap.
From Stdlib Require Import Strings.Byte ZArith Lia.
From S2P Require Import Prelude GoStd Types BorshRef Chain Contract AccountSafety ContractBorsh.
From S2P Require Import AccountCode AccountEntry AccountRun.

Section Creation.
Context `{SL : SdkLaws} (net : Network) (code_addr : address).
#[local] Instance accounts_here : Deployed := accounts_deployed net code_addr.

(** Everybody cooperates: the proxy is created, its migration runs, and so do
    the solves. *)
Definition create_env (n : nat) : env :=
  EnvAnswer [] ok_reply (EnvRun EnvEnd ok_reply (EnvRun (good_env n) ok_reply EnvEnd)).

(** *** Steps of a run *)

Lemma exec_load e this slot k out c :
  exec e this (Load slot k) out c = exec e this (k (load c this slot)) out c.
Proof. by destruct e. Qed.

Lemma exec_write e this w k out c : exec e this (WriteWord w k) out c = exec e this k w c.
Proof. by destruct e. Qed.

Lemma exec_create rest this b v seed k out c :
  accounts c !! create2_pre_at this (metamorphic_beacon_proxy b) seed = None →
  exec (EnvAnswer [] ok_reply rest) this (Create2 (metamorphic_beacon_proxy b) v seed k) out c
  = let a := create2_pre_at this (metamorphic_beacon_proxy b) seed in
    exec rest this (k (Some a)) out (create c a b).
Proof. intros Hn. cbn -[U_MAX]. by rewrite bool_decide_eq_true_2. Qed.

Lemma exec_run e rest this to cd k out c out' c' :
  let cl := token_call call_unit to cd in
  runs (accounts c) to this cd = true →
  exec e to (code (accounts c) to this cd) []
    (emit_event (Invoked to this cd) (emit_event (Called this cl) c))
  = Ok (0, out', c') →
  exec (EnvRun e ok_reply rest) this (Call cl k) out c = exec rest this (k ok_reply) out c'.
Proof. intros cl Hr He. cbn -[U_MAX runs code]. rewrite Hr, He. done. Qed.

(** ** Setting up the new proxy *)

Lemma good_migrate_first this sender c f k o i au out :
  accounts c !! this = Some (mk_account (Some f) ∅) → k ≠ U_ZERO → o ≠ U_ZERO → i ≠ U_ZERO →
  good this (entry_migrate sender k o i au) out c
  = Some (0, out,
      mk_chain (<[this := mk_account (Some f) (migrated k o i au)]> (accounts c)) (events c), O).
Proof.
  intros Ha Hk Ho Hi.
  assert (load c this SLOT_version = U_ZERO) as Hz by (unfold load; cbn; by rewrite Ha).
  unfold entry_migrate. rewrite !U_is_some_spec, !bool_decide_eq_true_2 by done.
  cbn [assert_ storage_load prog_then good]. rewrite Hz, bool_decide_eq_true_2 by done.
  rewrite be_val_U_ZERO. change (0 <=? 1) with true.
  cbn [assert_ ed25519_slot_set storage_store prog_then good].
  do 2 f_equal. unfold store. cbn. f_equal. f_equal.
  apply map_eq. intros b. destruct (decide (this = b)) as [<-|Hne].
  - rewrite !lookup_alter_eq, Ha, lookup_insert_eq. done.
  - by rewrite !lookup_alter_ne, lookup_insert_ne.
Qed.

Lemma exec_migrate_first m this sender c f k e i au :
  accounts c !! this = Some (mk_account (Some f) ∅) →
  k ≠ U_ZERO → U_from e ≠ U_ZERO → i ≠ U_ZERO →
  length k = 32%nat → length e = 20%nat → length i = 32%nat → length au = 20%nat →
  exec EnvEnd this (code m this sender (migrate_cd k e i au)) [] c
  = Ok (0, [], mk_chain (<[this := mk_account (Some f) (migrated k (U_from e) i (U_from au))]>
                           (accounts c)) (events c)).
Proof.
  intros Ha Hk He Hi Lk Le Li Lau. apply (good_exec this _ [] c 0 [] _ 0 0).
  rewrite (code_delegated net code_addr) by apply migrate_not_upgrade, take_migrate_cd.
  assert (length (migrate_cd k e i au) = 132%nat) as Hl.
  { unfold migrate_cd. rewrite SEL_MIGRATE_spec, !length_app, !U_from_length by lia.
    rewrite Lk, Li. done. }
  unfold user_entrypoint. destruct (migrate_cd k e i au) as [|b cd] eqn:Ecd; [done|].
  rewrite <-Ecd in *. rewrite flush_guard_spec, Hl, (bool_decide_eq_true_2 (take 4 _ = _))
    by apply take_migrate_cd.
  change (4 <? Z.of_nat 132) with true. cbv iota. cbn [andb].
  rewrite read_migrate_cd by done. by apply good_migrate_first.
Qed.

(** ** The solves of a new account *)

Lemma word_at_migrated_other b k o i au n :
  valid_name n → n ∉ [NKey; NCount; NOwner; NAuthority; NImpl; NVersion] →
  word_at (mk_account b (migrated k o i au)) n = U_ZERO.
Proof.
  intros Hv Hn.
  change (mk_account b (migrated k o i au)) with
    (store_in (slot_at NVersion) (be_split 32 2) (store_in (slot_at NImpl) i
      (store_in (slot_at NAuthority) au (store_in (slot_at NOwner) o
        (store_in (slot_at NCount) U_ONE (store_in (slot_at NKey) k (mk_account b ∅))))))).
  rewrite !word_at_store; try done; set_solver.
Qed.

(** Solves change nothing of what an account is for. *)
Lemma after_solves_account this po tr c acc l :
  can_solve net this c acc l →
  ∃ acc', accounts (after_solves net this po tr acc c l) !! this = Some acc'
        ∧ beacon acc' = beacon acc ∧ same_powers acc acc'.
Proof.
  intros [Ha Hg H16 _ _]. unfold after_solves. set (auth := word_at acc NAuthority).
  assert (∀ c1 acc1, accounts c1 !! this = Some acc1 → beacon acc1 = beacon acc →
            same_powers acc acc1 →
            ∃ acc', accounts (solved net this po tr auth c1 l) !! this = Some acc'
                  ∧ beacon acc' = beacon acc ∧ same_powers acc acc') as Hl.
  { clear Ha Hg. induction l as [|sa l IH]; intros c1 acc1 Ha Hb (Hk & Ho & Hau); [by exists acc1|].
    apply Forall_cons in H16 as [H1 H16]. cbn [solved foldl].
    assert (valid_name (NTimestamp (solve_ts sa))) as Hv by (eexists; split; [by right|done]).
    apply (IH H16 _ (store_in (slot_at (NTimestamp (solve_ts sa))) U_ONE acc1)); [|exact Hb|].
    - unfold solved_one, logged. cbn [accounts]. by rewrite lookup_store, decide_True, Ha by done.
    - unfold same_powers. by rewrite !word_at_store by done. }
  destruct (Hl (store c this (slot_at NGuard) U_ONE) (store_in (slot_at NGuard) U_ONE acc))
    as (acc' & Ha' & Hb & Hk & Ho & Hau).
  - by rewrite lookup_store, decide_True, Ha by done.
  - done.
  - unfold same_powers. by rewrite !word_at_store by done.
  - exists (store_in (slot_at NGuard) U_ZERO acc'). rewrite lookup_store, decide_True, Ha' by done.
    unfold same_powers. by rewrite !word_at_store by done.
Qed.

(** A new account can take solves of different timestamps whose tokens and
    targets are not accounts. *)
Lemma newborn_can_solve c t a k o i au evs l :
  Forall ts16 l → NoDup (map solve_ts l) →
  Forall (solve_outside net (<[a := mk_account (Some t) (migrated k o i au)]> (accounts c))) l →
  can_solve net a (born c t a k o i au evs) (mk_account (Some t) (migrated k o i au)) l.
Proof.
  intros H16 Hnd Hout. split; try done.
  - apply lookup_insert_eq.
  - apply word_at_migrated_other; [done|set_solver].
  - apply Forall_forall. intros sa Hsa. split; [|exact (proj1 (Forall_forall _ _) Hout sa Hsa)].
    apply word_at_migrated_other; [|set_solver]. eexists. split; [right|done].
    exact (proj1 (Forall_forall _ _) H16 sa Hsa).
Qed.

(** ** The request *)

Section Request.
Context (t sender : address) (f : FreshBackwards) (c : chain) (acc : account).

Let a : address := proxy_at t (FreshBackwards_EoaAddr f).
Let cd : bytes := Args_to_vec (Args_FreshBackwards f).
Let i : word := word_at acc NImpl.
Let au : address := default (zeros 20) (FreshBackwards_Authority f).
Let mcd : bytes := migrate_cd (FreshBackwards_Key f) (FreshBackwards_EoaAddr f) i au.
Let solves : list SolveArgs := map SolveArgsSigArgs_Args (FreshBackwards_SolveArgs f).

(** A factory that can take the request: it runs the contract, the owner has
    signed and has no account yet, and the solves are about tokens and targets
    that are not accounts. *)
Record can_create : Prop := {
  cc_factory : accounts c !! t = Some acc;
  cc_runs : runs (accounts c) t sender cd = true;
  cc_impl : i ≠ U_ZERO ∧ length i = 32%nat;
  cc_admin : beacon acc = None → a ≠ admin_of acc;
  cc_free : accounts c !! a = None;
  cc_signed : fresh_signed f;
  cc_key : FreshBackwards_Key f ≠ U_ZERO;
  cc_eoa : FreshBackwards_EoaAddr f ≠ zeros 20;
  cc_outside : Forall (solve_outside net (accounts (create c a t))) solves
}.

(** Its solves are signed with the account's key and have different
    timestamps. *)
Record solves_signed : Prop := {
  ss_nodup : NoDup (map solve_ts solves);
  ss_verify : Forall (λ x, edphverify_pre (enc b_SolveArgs (SolveArgsSigArgs_Args x))
                             (FreshBackwards_Key f) (SolveArgsSigArgs_Sig x) = true)
                (FreshBackwards_SolveArgs f)
}.

Definition newborn : account :=
  mk_account (Some t) (migrated (FreshBackwards_Key f) (U_from (FreshBackwards_EoaAddr f)) i
                         (U_from au)).

(** The chain with the account set up, and after its first solves. *)
Definition set_up_chain : chain :=
  born c t a (FreshBackwards_Key f) (U_from (FreshBackwards_EoaAddr f)) i (U_from au)
    [Invoked t sender cd; Called t (token_call call_unit a mcd); Invoked a t mcd].

Definition created_chain : chain :=
  match FreshBackwards_SolveArgs f with
  | [] => set_up_chain
  | l =>
      let scd := Args_to_vec (Args_Solve l) in
      after_solves net a (FreshBackwards_EoaAddr f) (FreshBackwards_EoaAddr f) newborn
        (logged set_up_chain [Called t (token_call call_unit a scd); Invoked a t scd]) solves
  end.

Context (Hwf : wf_FreshBackwards f) (Hcc : can_create)
  (Hss : solves_signed).

Lemma authority_length : length au = 20%nat.
Proof. unfold au. destruct Hwf as (_ & _ & _ & _ & _ & _ & H7). by destruct (FreshBackwards_Authority f). Qed.

Lemma make_preimage_runs :
  make_preimage (FreshBackwards_Key f) au = Return (fresh_digest (FreshBackwards_Key f) au).
Proof.
  unfold make_preimage. cbv zeta. rewrite bool_decide_eq_true_2; [done|].
  rewrite !length_app, !hex_encode_length, authority_length.
  destruct Hwf as (-> & _). done.
Qed.

Lemma proxy_ne_factory : a ≠ t.
Proof. intros E. pose proof (cc_free Hcc) as Hn. rewrite E, (cc_factory Hcc) in Hn. done. Qed.

Lemma factory_impl : impl_of acc = code_addr.
Proof.
  destruct (runs_cases net code_addr _ _ _ _ (cc_runs Hcc)) as [Hr|Hr];
    [|by apply request_not_upgrade_nil in Hr].
  destruct (delegates_account code_addr _ _ _ _ Hr) as (acc' & Ha & Hi).
  rewrite (cc_factory Hcc) in Ha. injection Ha as <-. apply Hi.
  pose proof (request_not_migrate (Args_FreshBackwards f) []) as Hm. by rewrite app_nil_r in Hm.
Qed.

Lemma newborn_solves :
  can_solve net a (logged set_up_chain
    [Called t (token_call call_unit a (Args_to_vec (Args_Solve (FreshBackwards_SolveArgs f))));
     Invoked a t (Args_to_vec (Args_Solve (FreshBackwards_SolveArgs f)))]) newborn solves.
Proof.
  unfold set_up_chain, born, logged. cbn [accounts events]. rewrite <-app_assoc.
  apply newborn_can_solve; [|exact (ss_nodup Hss)|].
  - destruct Hwf as (_ & _ & _ & _ & _ & Hs & _). apply Forall_map.
    eapply Forall_impl; [exact Hs|]. intros x Hx. apply Hx.
  - eapply Forall_impl; [exact (cc_outside Hcc)|]. intros sa. apply solve_outside_mono.
    intros x. cbn. destruct (decide (x = a)) as [->|Hne].
    + by rewrite lookup_insert_eq.
    + by rewrite !lookup_insert_ne.
Qed.

(** The call of the new account with the solves. *)
Lemma newborn_accepts :
  let scd := Args_to_vec (Args_Solve (FreshBackwards_SolveArgs f)) in
  let c1 := logged set_up_chain [Called t (token_call call_unit a scd); Invoked a t scd] in
  runs (accounts c1) a t scd = true
  ∧ ∃ n, ∀ j m, exec (good_env (n + j)) a (code m a t scd) [] c1
     = Ok (0, [], after_solves net a (FreshBackwards_EoaAddr f) (FreshBackwards_EoaAddr f)
                    newborn c1 solves).
Proof.
  cbv zeta. set (l := FreshBackwards_SolveArgs f). set (scd := Args_to_vec (Args_Solve l)).
  pose proof newborn_solves as Hcs. fold l scd in Hcs. set (c1 := logged _ _) in *.
  destruct (word_at_migrated (Some t) (FreshBackwards_Key f) (U_from (FreshBackwards_EoaAddr f)) i
              (U_from au)) as (Ek & Eo & Ei & _). fold newborn in Ek, Eo, Ei.
  pose proof (request_not_migrate (Args_Solve l) []) as Hm. rewrite app_nil_r in Hm.
  destruct Hwf as (_ & He & _ & _ & Hsl & Hs & _). split.
  - apply runs_delegated. unfold delegates. rewrite (cs_account _ _ _ _ _ Hcs). cbn.
    rewrite bool_decide_eq_false_2 by done. f_equal. rewrite <-factory_impl.
    unfold impl_of. change SLOT_IMPL with (slot_at NImpl). fold (word_at newborn NImpl).
    by rewrite Ei.
  - assert (wf_request (Args_Solve l)) as Hwr by done.
    pose proof (entrypoint_request a t net (Args_Solve l) [] Hwr) as E. rewrite app_nil_r in E.
    assert (owner_of newborn = FreshBackwards_EoaAddr f) as Ho
      by (unfold owner_of; rewrite Eo; by apply U_addr_from).
    destruct (runs_solve_v1 net code_addr a l c1 newborn Hcs) with (out := @nil byte) as [n Hn].
    { unfold key_of. rewrite Ek. exact (ss_verify Hss). }
    exists n. intros j m. unfold scd. rewrite (code_delegated net code_addr) by apply request_not_upgrade_nil.
    rewrite E, <-Ho. by apply good_exec.
Qed.

(** The migration of the new proxy. *)
Lemma newborn_migrates :
  let c1 := emit_event (Invoked t sender cd) c in
  runs (accounts (create c1 a t)) a t mcd = true
  ∧ exec EnvEnd a (code (accounts (create c1 a t)) a t mcd) []
      (emit_event (Invoked a t mcd)
         (emit_event (Called t (token_call call_unit a mcd)) (create c1 a t)))
    = Ok (0, [], set_up_chain).
Proof.
  cbv zeta. destruct (cc_impl Hcc) as [Hi Hli]. split.
  - eapply (runs_migrate_new net code_addr (emit_event (Invoked t sender cd) c));
      [exact (cc_factory Hcc)|apply proxy_ne_factory|apply factory_impl|exact (cc_admin Hcc)|].
    apply take_migrate_cd.
  - unfold mcd. erewrite exec_migrate_first.
    + cbn [accounts events emit_event create]. rewrite insert_insert_eq. unfold set_up_chain, born.
      by rewrite <-!app_assoc.
    + cbn. apply lookup_insert_eq.
    + exact (cc_key Hcc).
    + intros E. apply (cc_eoa Hcc). apply U_from_zero_inj; [apply Hwf|done].
    + exact Hi.
    + apply Hwf.
    + apply Hwf.
    + exact Hli.
    + apply authority_length.
Qed.

Lemma fresh_accepted :
  ∃ n, ∀ j, invoke (create_env (n + j)) t sender cd c = Ok (0, U_from a, created_chain).
Proof.
  destruct newborn_migrates as [Hrm Hm]. destruct newborn_accepts as [Hrs [n Hn]].
  exists n. intros j. unfold invoke. rewrite (cc_runs Hcc).
  rewrite (code_delegated net code_addr) by apply request_not_upgrade_nil.
  pose proof (entrypoint_request t sender net (Args_FreshBackwards f) [] Hwf) as E.
  rewrite app_nil_r in E. fold cd in E. rewrite E. clear E.
  set (c1 := emit_event (Invoked t sender cd) c) in *. cbn [entry].
  unfold entry_fresh_backwards. cbv zeta. fold au. rewrite make_preimage_runs.
  rewrite !U_is_some_spec, (bool_decide_eq_true_2 (FreshBackwards_Key f ≠ U_ZERO)) by apply Hcc.
  rewrite (bool_decide_eq_false_2 (FreshBackwards_EoaAddr f = zeros 20)) by apply Hcc.
  cbn [negb assert_ prog_then]. pose proof (cc_signed Hcc) as Hs. unfold fresh_signed in Hs.
  fold au in Hs. rewrite Hs. cbn [unwrap prog_then].
  rewrite bool_decide_eq_true_2 by done. cbn [assert_ prog_then storage_load].
  rewrite exec_load. change SLOT_IMPL with (slot_at NImpl).
  rewrite (load_word_at c1 t acc NImpl (cc_factory Hcc)). fold i.
  rewrite U_is_some_spec, bool_decide_eq_true_2 by apply Hcc.
  cbn [assert_ prog_then create2_pre_unit].
  unfold create_env. rewrite exec_create by exact (cc_free Hcc).
  cbv zeta. fold (proxy_at t (FreshBackwards_EoaAddr f)). fold a. cbn [unwrap prog_then do_call].
  fold (migrate_cd (FreshBackwards_Key f) (FreshBackwards_EoaAddr f) i au). fold mcd.
  fold (token_call call_unit a mcd). rewrite (exec_run _ _ _ _ _ _ _ _ _ _ Hrm Hm).
  cbn [r_ok ok_reply assert_ prog_then]. unfold created_chain. clearbody solves.
  destruct (FreshBackwards_SolveArgs f) as [|x l] eqn:El.
  - cbn [prog_then write_word]. by rewrite exec_write.
  - rewrite <-El in *. cbn [revert_if_bad_call_unit do_call prog_then].
    fold (token_call call_unit a (Args_to_vec (Args_Solve (FreshBackwards_SolveArgs f)))).
    erewrite exec_run; [|exact Hrs|]; last first.
    + specialize (Hn j). unfold logged in Hn. unfold emit_event. cbn [accounts events].
      rewrite <-app_assoc. apply Hn.
    + cbn [r_ok ok_reply prog_then write_word]. rewrite exec_write. done.
Qed.

(** The account afterwards. *)
Lemma created_account :
  ∃ acc', accounts created_chain !! a = Some acc' ∧ beacon acc' = Some t
        ∧ key_of acc' = FreshBackwards_Key f ∧ owner_of acc' = FreshBackwards_EoaAddr f
        ∧ word_at acc' NAuthority = U_from au.
Proof.
  destruct (word_at_migrated (Some t) (FreshBackwards_Key f) (U_from (FreshBackwards_EoaAddr f)) i
              (U_from au)) as (Ek & Eo & _ & Eau & _). fold newborn in Ek, Eo, Eau.
  assert (∃ acc', accounts created_chain !! a = Some acc' ∧ beacon acc' = beacon newborn
                  ∧ same_powers newborn acc') as (acc' & Ha & Hb & Hk & Ho & Hau).
  { pose proof newborn_solves as Hcs. unfold created_chain. clearbody solves.
    destruct (FreshBackwards_SolveArgs f).
    - exists newborn. split; [apply lookup_insert_eq|done].
    - by apply after_solves_account. }
  exists acc'. rewrite Ek in Hk. rewrite Eo in Ho. rewrite Eau in Hau.
  split_and!; [done..| |done]. unfold owner_of. rewrite Ho. apply U_addr_from. apply Hwf.
Qed.

(** The calls made on the way: the migration of the new account, then its
    solves. *)
Definition created_events : list event :=
  [Invoked t sender cd; Called t (token_call call_unit a mcd); Invoked a t mcd]
    ++ match FreshBackwards_SolveArgs f with
       | [] => []
       | l =>
           let scd := Args_to_vec (Args_Solve l) in
           [Called t (token_call call_unit a scd); Invoked a t scd]
             ++ concat (map (solve_trace net a (FreshBackwards_EoaAddr f)
                               (FreshBackwards_EoaAddr f) (U_from au)) solves)
       end.

Lemma created_chain_events : events created_chain = events c ++ created_events.
Proof.
  destruct (word_at_migrated (Some t) (FreshBackwards_Key f) (U_from (FreshBackwards_EoaAddr f)) i
              (U_from au)) as (_ & _ & _ & Eau & _). fold newborn in Eau.
  unfold created_chain, created_events. clearbody solves.
  destruct (FreshBackwards_SolveArgs f); [done|].
  rewrite after_solves_events, Eau. unfold logged, set_up_chain, born. cbn [events].
  by rewrite <-!app_assoc.
Qed.
End Request.
End Creation.
