(* ===== verification/RustTools.v ===== *)
(** * RustTools: the signing program and the command-line client in Rust
    (ed25519-dalek-ph, accounts-cli)

    The server runs ed25519-dalek-ph for every signature; accounts-cli prints
    the calldata of requests it signs. Argument parsing (clap), the signature
    scheme (ed25519_dalek) and const_hex are parameters. *)
From stdpp Require Import base numbers strings list gmap.
From Stdlib Require Import Strings.Byte ZArith Lia.
From S2P Require Import Prelude GoStd Types Sha512 BorshRef Chain Contract AccountSafety.
From S2P Require Import ContractBorsh.

(** ** ed25519_dalek and const_hex *)
Class Dalek := {
  (** [SigningKey::from_bytes(k).sign_prehashed(d, None)] on the digest's
      output, and the key's public part. *)
  sign_prehashed : bytes → bytes → option bytes;
  verifying_key : bytes → bytes;
  const_hex_decode : gostring → option bytes
}.

Class DalekLaws `{Dalek} : Prop := {
  (** Signing fails only for a context over 255 bytes, and there is none. *)
  sign_prehashed_total k d : length d = 64%nat → ∃ s, sign_prehashed k d = Some s ∧ length s = 64%nat;
  const_hex_decode_spec b : const_hex_decode (hex_EncodeToString b) = Some b
}.

(** The contract's verification: of a message by its SHA-512 digest, and of
    what [sign_prehashed] returns. *)
Class EdLaws `{Sdk, Dalek} : Prop := {
  sdk_sha512 m : sha512 m = sha512_Sum512 m;
  edphverify_pre_post m k s : edphverify_pre m k s = edphverify_post (sha512 m) k s;
  edphverify_signed k d s :
    length d = 64%nat → sign_prehashed k d = Some s → edphverify_post d (verifying_key k) s = true
}.

(** A panic ends the program. *)
Definition unwrap_or {A} (o : option A) (why : string) : outcome A :=
  match o with Some a => Ok a | None => Panic (lit why) end.

(** [b.try_into()] for an array of [n] bytes. *)
Definition try_into (n : nat) (b : bytes) : outcome bytes :=
  if decide (length b = n) then Ok b else Panic (lit "TryFromSliceError").

(** ** ed25519-dalek-ph/src/main.rs *)
Module PrecomputedSha512.

Record t := mk { digest_bytes : bytes }.

Definition new : t := mk (zeros 64).
Definition reset (d : t) : t := mk (zeros 64).

(** [Update::update]: the first bytes of the data over the first bytes of the
    digest. *)
Definition update (d : t) (data : bytes) : t :=
  let len := Nat.min (length data) 64 in
  mk (take len data ++ drop len (digest_bytes d)).

Definition finalize (d : t) : bytes := digest_bytes d.
Definition finalize_reset (d : t) : bytes * t := (digest_bytes d, reset d).

Definition digest (data : bytes) : bytes :=
  let len := Nat.min (length data) 64 in
  take len data ++ drop len (zeros 64).
End PrecomputedSha512.

Section Tools.
Context `{Sdk, Dalek}.

(** [main], with the arguments after the program's name and the variable
    SPN_ACCOUNTS_PRIVATE_KEY; what it writes. *)
Definition dalek_ph_main (args : list gostring) (key : option gostring) : outcome bytes :=
  a ← unwrap_or (head args) "called `Option::unwrap()` on a `None` value";
  d ← unwrap_or (const_hex_decode a) "called `Result::unwrap()` on an `Err` value";
  d ← try_into 64 d;
  let d := PrecomputedSha512.mk d in
  e ← unwrap_or key "called `Result::unwrap()` on an `Err` value: NotPresent";
  k ← unwrap_or (const_hex_decode e) "called `Result::unwrap()` on an `Err` value";
  k ← try_into 32 k;
  unwrap_or (sign_prehashed k (PrecomputedSha512.finalize d))
    "called `Result::unwrap()` on an `Err` value".

(** tools/ed25519-priv-to-pub/src/main.rs. *)
Definition priv_to_pub_main (key : option gostring) : outcome gostring :=
  e ← unwrap_or key "called `Result::unwrap()` on an `Err` value: NotPresent";
  k ← unwrap_or (const_hex_decode e) "called `Result::unwrap()` on an `Err` value";
  k ← try_into 32 k;
  mret (hex_EncodeToString (verifying_key k)).

(** ** accounts-cli/src/main.rs *)
Inductive CliArgs :=
| PubKeyForPriv (priv_key : word)
| SignFreshBackwards (priv_key : word) (eoa_addr : address) (v : byte) (r s : word)
    (solve_args : option (list SolveArgs)) (authority : option address)
| SignSolve (priv_key : word) (solve_args : list SolveArgs)
| SignTokenSpend (priv_key : word) (from_asset : Asset) (min_spend : word) (target : address)
    (ms_ts : Z) (cd : bytes)
| DecodeBorsh (stdin : bytes)
| LiteArbitraryCd (priv_key : word) (nonce : Z) (contract target : address) (cd : bytes)
| CliVersion
| CliStatement (msg ms_ts sig : bytes).

(** A line of text, or the decoded request that is printed for debugging. *)
Inductive cli_output :=
| Line (s : gostring)
| Decoded (a : Args).

Definition sign_solve_args (k : word) (args : SolveArgs) : outcome SolveArgsSigArgs :=
  sig ← unwrap_or (sign_prehashed k (sha512_Sum512 (enc b_SolveArgs args)))
          "called `Result::unwrap()` on an `Err` value";
  mret (mk_SolveArgsSigArgs sig args).

Fixpoint sign_all (k : word) (l : list SolveArgs) : outcome (list SolveArgsSigArgs) :=
  match l with
  | [] => Ok []
  | a :: l' => s ← sign_solve_args k a; ss ← sign_all k l'; mret (s :: ss)
  end.

Definition create_blob (x : bytes) : gostring := hex_EncodeToString x.

Definition sign_solve (priv_key : word) (solve_args : list SolveArgs) : outcome cli_output :=
  l ← sign_all priv_key solve_args;
  mret (Line (lit "0x" ++ create_blob (Args_to_vec (Args_Solve l)))).

Definition cli_entry (x : CliArgs) : outcome cli_output :=
  match x with
  | PubKeyForPriv k => mret (Line (hex_EncodeToString (verifying_key k)))
  | SignFreshBackwards k eoa_addr v r s solve_args authority =>
      l ← sign_all k (default [] solve_args);
      mret (Line (create_blob (Args_to_vec (Args_FreshBackwards
        (mk_FreshBackwards (verifying_key k) eoa_addr v r s l authority)))))
  | SignSolve k l => sign_solve k l
  | SignTokenSpend k from_asset min_spend target ms_ts cd =>
      sign_solve k
        [mk_SolveArgs [] [mk_FromArgs from_asset min_spend min_spend] target cd (be_split 16 ms_ts)]
  | DecodeBorsh stdin =>
      b ← unwrap_or (const_hex_decode stdin) "called `Result::unwrap()` on an `Err` value";
      match Args_deserialize b with
      | Some (a, []) => mret (Decoded a)
      | _ => Panic (lit "called `Result::unwrap()` on an `Err` value")
      end
  | LiteArbitraryCd k nonce contract target cd =>
      let n := be_split 16 nonce in
      sig ← unwrap_or (sign_prehashed k (sha512_Sum512 (contract ++ n ++ target ++ cd)))
              "called `Result::unwrap()` on an `Err` value";
      mret (Line (hex_EncodeToString sig ++ hex_EncodeToString n ++ hex_EncodeToString target
                    ++ hex_EncodeToString cd))
  | CliVersion => mret (Line (hex_EncodeToString (Args_to_vec Args_Version)))
  | CliStatement msg ms_ts sig =>
      mret (Line (hex_EncodeToString
        (Args_to_vec (Args_Statement (mk_StatementArgs msg ms_ts) sig))))
  end.

(** ** Lemmas *)
Context `{!SdkLaws, !DalekLaws, !EdLaws}.

(** The signing program signs the digest it is given with its key. *)
Lemma dalek_ph_signs d k :
  length d = 64%nat → length k = 32%nat →
  ∃ s, dalek_ph_main [hex_EncodeToString d] (Some (hex_EncodeToString k)) = Ok s
     ∧ length s = 64%nat ∧ edphverify_post d (verifying_key k) s = true.
Proof.
  intros Hd Hk. destruct (sign_prehashed_total k d Hd) as (s & Es & Hs). exists s.
  unfold dalek_ph_main. cbn. rewrite !const_hex_decode_spec. cbn.
  unfold try_into. rewrite !decide_True by done. cbn. rewrite Es.
  split_and!; [done..|]. by apply edphverify_signed.
Qed.

(** What it signs verifies on chain. *)
Lemma dalek_ph_verifies d k s :
  length d = 64%nat →
  dalek_ph_main [hex_EncodeToString d] (Some (hex_EncodeToString k)) = Ok s →
  length s = 64%nat ∧ edphverify_post d (verifying_key k) s = true.
Proof.
  intros Hd. unfold dalek_ph_main. cbn. rewrite !const_hex_decode_spec. cbn.
  unfold try_into. destruct (decide (length d = 64%nat)); [|done]. cbn.
  destruct (decide (length k = 32%nat)); [|done]. cbn.
  destruct (sign_prehashed_total k d Hd) as (s' & Es & Hs). rewrite Es. cbn. intros [= <-].
  split; [done|]. by apply edphverify_signed.
Qed.

Lemma statement_length msg ms_ts a : length (statement_sha512 msg ms_ts a) = 64%nat.
Proof. unfold statement_sha512. rewrite sdk_sha512. apply sha512_length. Qed.

Lemma sign_solve_args_verifies k args s :
  sign_solve_args k args = Ok s →
  SolveArgsSigArgs_Args s = args
  ∧ edphverify_pre (enc b_SolveArgs args) (verifying_key k) (SolveArgsSigArgs_Sig s) = true
  ∧ length (SolveArgsSigArgs_Sig s) = 64%nat.
Proof.
  unfold sign_solve_args. set (d := sha512_Sum512 _).
  assert (length d = 64%nat) as Hd by apply sha512_length.
  destruct (sign_prehashed_total k d Hd) as (sg & Es & Hs). rewrite Es. cbn. intros [= <-]. cbn.
  split_and!; [done| |done]. rewrite edphverify_pre_post, sdk_sha512. by apply edphverify_signed.
Qed.

Lemma sign_all_total k l : ∃ ss, sign_all k l = Ok ss.
Proof.
  induction l as [|a l [ss IH]]; [by eexists|]. cbn. unfold sign_solve_args.
  destruct (sign_prehashed_total k (sha512_Sum512 (enc b_SolveArgs a)) (sha512_length _))
    as (sg & -> & _).
  cbn. rewrite IH. by eexists.
Qed.

Lemma sign_all_verifies k l ss :
  sign_all k l = Ok ss →
  map SolveArgsSigArgs_Args ss = l
  ∧ Forall (λ x, edphverify_pre (enc b_SolveArgs (SolveArgsSigArgs_Args x)) (verifying_key k)
                   (SolveArgsSigArgs_Sig x) = true ∧ length (SolveArgsSigArgs_Sig x) = 64%nat) ss.
Proof.
  revert ss. induction l as [|a l IH]; intros ss E; cbn in E; [by injection E as <-|].
  bind_step E as s Hs. bind_step E as ss' Hss. injection E as <-.
  destruct (sign_solve_args_verifies k a s Hs) as (E1 & E2 & E3).
  destruct (IH ss' Hss) as [E4 E5]. cbn. rewrite E1, E4. split; [done|].
  constructor; [|done]. by rewrite E1.
Qed.
End Tools.
