(* ===== verification/Requests.v ===== *)
(** * Requests: transfers and statements, from the key to the account

    The requests besides solves that a key's owner can make of an account, in
    full: signed with ed25519-dalek-ph, transfers are made exactly as asked
    for, and statements, as accounts-cli prints them, are accepted; both use
    their timestamp up. *)
From stdpp Require Import base numbers strings list gmap.
From Stdlib Require Import Strings.Byte ZArith Lia.
From S2P Require Import Prelude GoStd Types Sha512 BorshRef Chain Contract AccountSafety.
From S2P Require Import ContractBorsh AccountCode AccountRun RustTools.

Section Requests.
Context `{SL : SdkLaws} `{DK : Dalek} {DL : DalekLaws} {EL : EdLaws}.
Context (net : Network) (code_addr this : address).
#[local] Instance accounts_here : Deployed := accounts_deployed net code_addr.

(** An account that can take a request with the timestamp [ms]. *)
Record can_take (c : chain) (acc : account) (ms : word) : Prop := {
  ct_account : accounts c !! this = Some acc;
  ct_guard : word_at acc NGuard = U_ZERO;
  ct_unused : word_at acc (NTimestamp ms) = U_ZERO
}.

(** ** Transfers *)

Definition transfer_events (t : Transfer) : list event :=
  let tok := token net (Transfer_Asset t) in
  (match Transfer_Permit t with
   | Some p =>
       [Called this
          (token_call call_unit tok
             (make_fn_permit (Transfer_From t) this U_MAX (U_from_u64 (TransferPermit_Deadline p))
                (TransferPermit_V p) (TransferPermit_R p) (TransferPermit_S p)))]
   | None => []
   end)
  ++ [Called this
        (token_call safe_call_bool tok
           (make_fn_transfer_from (Transfer_From t) (Transfer_Recipient t) (Transfer_Amt t)))].

Lemma runs_transfer_one imm t c :
  network imm = net → asset_outside net (accounts c) (Transfer_Asset t) →
  runs_to net code_addr this (transfer_one this imm t) c tt (logged c (transfer_events t)).
Proof.
  intros Hn [Ha Ht]%asset_outside_token. unfold transfer_one. rewrite Hn.
  eapply runs_to_then; [by apply runs_to_unwrap|]. unfold transfer_events. rewrite <-logged_app.
  eapply runs_to_then; [|eapply runs_to_unit; [by apply runs_to_call|done]].
  unfold transfer_permit. destruct (Transfer_Permit t) as [p|].
  - eapply runs_to_unit; [by apply runs_to_call|done].
  - rewrite logged_nil. apply runs_to_ret.
Qed.

(** The chain after a request that used [ms] and left the events [l]. *)
Definition taken (c : chain) (ms : word) (l : list event) : chain :=
  logged (store c this (slot_at (NTimestamp ms)) U_ONE) l.

(** ... under the guard. *)
Definition taken_guarded (c : chain) (ms : word) (l : list event) : chain :=
  store (taken (store c this (slot_at NGuard) U_ONE) ms l) this (slot_at NGuard) U_ZERO.

Lemma taken_guarded_used c acc ms l :
  accounts c !! this = Some acc → valid_name (NTimestamp ms) →
  load (taken_guarded c ms l) this (slot_at (NTimestamp ms)) = U_ONE.
Proof.
  intros Ha Hv. set (acc1 := store_in (slot_at (NTimestamp ms)) U_ONE (store_in (slot_at NGuard) U_ONE acc)).
  assert (accounts (taken_guarded c ms l) !! this = Some (store_in (slot_at NGuard) U_ZERO acc1))
    as E.
  { unfold taken_guarded. rewrite lookup_store, decide_True by done. unfold taken, logged.
    cbn [accounts]. rewrite !lookup_store, !decide_True by done. by rewrite Ha. }
  rewrite (load_word_at _ _ _ _ E), word_at_store by done. apply word_at_store_eq.
Qed.

Lemma runs_transfer_only args sig c acc :
  let ms := U_from (TransferOnlyArgs_MsTs args) in
  can_take c acc ms → length (TransferOnlyArgs_MsTs args) = 16%nat →
  TransferOnlyArgs_Args args ≠ [] →
  Forall (λ t, asset_outside net (accounts c) (Transfer_Asset t)) (TransferOnlyArgs_Args args) →
  edphverify_pre (enc b_TransferOnlyArgs args) (key_of acc) sig = true →
  runs_to net code_addr this (entry this (mk_Imm net (zeros 20)) (Args_TransferOnly args sig)) c 0
    (taken_guarded c ms (concat (map transfer_events (TransferOnlyArgs_Args args)))).
Proof.
  intros ms [Ha Hg Hz] Hl Hne Hout Hs. set (n := NTimestamp ms).
  assert (valid_name n) as Hv by (eexists; split; [by right|done]).
  assert (accounts (store c this (slot_at NGuard) U_ONE) !! this
          = Some (store_in (slot_at NGuard) U_ONE acc)) as Hag
    by (rewrite lookup_store, decide_True by done; by rewrite Ha).
  eapply runs_to_guarded; [done..|].
  eapply runs_to_then; [by apply (runs_to_load net code_addr this NKey)|].
  rewrite word_at_store by done. fold (key_of acc). eapply runs_to_then; [by apply runs_to_assert|].
  destruct (TransferOnlyArgs_Args args) as [|t0 l0]; [done|].
  eapply runs_to_then; [eapply runs_to_timestamp; [done|by rewrite word_at_store]|].
  eapply runs_to_then; [|apply runs_to_ret]. apply runs_to_for_each.
  intros t c' Hin Ec. apply runs_transfer_one; [done|]. rewrite Ec.
  destruct (proj1 (Forall_forall _ _) Hout t Hin) as (tok & Et & Hn). exists tok.
  split; [done|]. by apply store_none, store_none.
Qed.

(** C12: a transfer signed with the account's key is made: whoever sends it, the
    account accepts it when the tokens cooperate, asks each token for exactly
    the permits and transfers of the request, in order, and its timestamp is
    used up. *)
Theorem transfer_executed k args sig sender c acc :
  let ms := U_from (TransferOnlyArgs_MsTs args) in
  let cd := Args_to_vec (Args_TransferOnly args sig) in
  wf_TransferOnlyArgs args → TransferOnlyArgs_Args args ≠ [] → can_take c acc ms →
  Forall (λ t, asset_outside net (accounts c) (Transfer_Asset t)) (TransferOnlyArgs_Args args) →
  key_of acc = verifying_key k →
  dalek_ph_main [hex_EncodeToString (sha512_Sum512 (enc b_TransferOnlyArgs args))]
    (Some (hex_EncodeToString k)) = Ok sig →
  runs (accounts c) this sender cd = true →
  ∃ n c', (∀ j, invoke (good_env (n + j)) this sender cd c = Ok (0, [], c'))
    ∧ events c' = events c ++ Invoked this sender cd
                    :: concat (map transfer_events (TransferOnlyArgs_Args args))
    ∧ load c' this (slot_at (NTimestamp ms)) = U_ONE.
Proof.
  intros ms cd Hw Hne Hct Hout Hk Hsig Hr.
  destruct (dalek_ph_verifies _ _ _ (sha512_length _) Hsig) as [Hls Hver].
  rewrite <-sdk_sha512, <-edphverify_pre_post, <-Hk in Hver.
  assert (wf_request (Args_TransferOnly args sig)) as Hwr by done.
  assert (length (TransferOnlyArgs_MsTs args) = 16%nat) as Hl by apply Hw.
  set (c1 := emit_event (Invoked this sender cd) c).
  assert (can_take c1 acc ms) as Hct1 by by destruct Hct.
  destruct (accepted net code_addr this sender _ c _ Hwr Hr
              (runs_transfer_only args sig c1 acc Hct1 Hl Hne Hout Hver)) as [n Hn].
  exists n. eexists. split; [exact Hn|]. split.
  - cbn. by rewrite <-app_assoc.
  - apply (taken_guarded_used c1 acc ms); [apply Hct|]. eexists. split; [by right|done].
Qed.

(** ** Statements *)

(** What the account does with a statement: it depends on whether the signature
    verifies over the digest that names the account. *)
Lemma statement_runs msg ms_ts sig sender c acc e :
  let ms := U_from ms_ts in
  let args := mk_StatementArgs msg ms_ts in
  let cd := Args_to_vec (Args_Statement args sig) in
  wf_StatementArgs args → length sig = 64%nat → can_take c acc ms →
  runs (accounts c) this sender cd = true →
  invoke e this sender cd c
  = if edphverify_post (statement_sha512 msg ms_ts this) (key_of acc) sig
    then Ok (0, [], taken (emit_event (Invoked this sender cd) c) ms [])
    else Panic (lit "assertion failed: edphverify_post").
Proof.
  intros ms args cd Hw Hls [Ha Hg Hz] Hr.
  unfold invoke. rewrite Hr, (code_delegated net code_addr) by apply request_not_upgrade_nil.
  pose proof (entrypoint_request this sender net (Args_Statement args sig) [] (conj Hw Hls)) as E.
  rewrite app_nil_r in E. unfold cd at 1. rewrite E. cbn [entry]. unfold entry_statement.
  set (c1 := emit_event (Invoked this sender cd) c).
  change (slot_map SLOT_ed25519_slot U_ZERO) with (slot_at NKey).
  assert (accounts c1 !! this = Some acc) as Ha1 by done.
  assert (load c1 this (slot_at NKey) = key_of acc) as Ek by by rewrite (load_word_at _ _ _ _ Ha1).
  assert (load c1 this (slot_at (NTimestamp ms)) = U_ZERO) as Ez
    by (by rewrite (load_word_at _ _ _ _ Ha1)).
  unfold taken. rewrite logged_nil. unfold timestamps_exchange. rewrite storage_exchange_spec.
  destruct e; cbn -[U_ONE U_ZERO load store slot_at statement_sha512] in Ek, Ez |- *;
    change (slot_map SLOT_ed25519_slot U_ZERO) with (slot_at NKey);
    rewrite Ek; (destruct (edphverify_post _ _ _); [|done]); cbn -[U_ONE U_ZERO load store slot_at];
    change (slot_map SLOT_timestamps (U_from ms_ts)) with (slot_at (NTimestamp ms));
    rewrite Ez, bool_decide_eq_true_2 by done; done.
Qed.

(** C22: a statement signed with the account's key, as accounts-cli prints it, is
    accepted by the account it was made for, whoever sends it and in every
    environment; it makes no call and its timestamp is used up. What has to be
    signed is the hash of the text that names the account, followed by the
    Borsh encoding of the message and its 6-byte timestamp: a statement with
    any signature of 64 bytes is accepted exactly when the signature verifies
    over that hash. The README of superposition_libaccounts says something
    else: there the signature is over the Borsh encoding alone and the
    timestamp has 16 bytes. *)
Theorem statement_accepted k msg ms_ts sig sender c acc e :
  let ms := U_from ms_ts in
  let args := mk_StatementArgs msg ms_ts in
  let cd := Args_to_vec (Args_Statement args sig) in
  wf_StatementArgs args → can_take c acc ms → key_of acc = verifying_key k →
  dalek_ph_main [hex_EncodeToString (statement_sha512 msg ms_ts this)]
    (Some (hex_EncodeToString k)) = Ok sig →
  runs (accounts c) this sender cd = true →
  cli_entry (CliStatement msg ms_ts sig) = Ok (Line (hex_EncodeToString cd))
  ∧ invoke e this sender cd c
    = Ok (0, [], taken (emit_event (Invoked this sender cd) c) ms [])
  ∧ ∀ sig', length sig' = 64%nat →
      let cd' := Args_to_vec (Args_Statement args sig') in
      runs (accounts c) this sender cd' = true →
      succeeded (invoke e this sender cd' c)
      = edphverify_post (statement_sha512 msg ms_ts this) (key_of acc) sig'.
Proof.
  intros ms args cd Hw Hct Hk Hsig Hr. split; [done|].
  destruct (dalek_ph_verifies _ _ _ (statement_length _ _ _) Hsig) as [Hls Hver]. split.
  - etransitivity; [exact (statement_runs msg ms_ts sig sender c acc e Hw Hls Hct Hr)|].
    by rewrite Hk, Hver.
  - intros sig' Hls' cd' Hr'.
    pose proof (statement_runs msg ms_ts sig' sender c acc e Hw Hls' Hct Hr') as E.
    transitivity (succeeded (if edphverify_post (statement_sha512 msg ms_ts this) (key_of acc) sig'
                             then Ok (0, [], taken (emit_event (Invoked this sender cd') c) ms [])
                             else Panic (lit "assertion failed: edphverify_post")));
      [exact (f_equal succeeded E)|].
    by generalize (edphverify_post (statement_sha512 msg ms_ts this) (key_of acc) sig'); intros [].
Qed.
End Requests.
