(* ===== verification/EndToEnd.v ===== *)
(** * EndToEnd: from the server and the client to the account

    What the server sends for a mint, and what accounts-cli prints, is what
    the account contract executes: the encodings agree, the signature of
    ed25519-dalek-ph verifies on chain, the safety router forwards the request
    and the account makes exactly the calls that were asked for. *)
From stdpp Require Import base numbers strings list gmap.
From Stdlib Require Import Strings.Byte ZArith Lia.
From S2P Require Import Prelude GoStd Types Sha512 External BorshRef Proxy Ninelives.
From S2P Require Import Convertor ConvertorFacts Db World Client Utils Resolvers ResolverFacts.
From S2P Require Import AccountFacts Chain Contract AccountSafety ContractBorsh AccountCode.
From S2P Require Import AccountRun Creation RustTools.

Section EndToEnd.
Context {AS : Assets} {EC : EthCommon} {BO : Borsh} {AB : Abi} {EX : Exec}.
Context {SD : Sdk} {SL : SdkLaws} {DA : Dalek} {DL : DalekLaws} {EL : EdLaws}.

(** The request of the contract that a Go value stands for: the field its
    tag selects. *)
Definition request_of (a : Types.Args) : option Args :=
  let t := Args_Enum a in
  if t =? ArgsFreshBackwards then Some (Args_FreshBackwards (Types.Args_FreshBackwards a))
  else if t =? ArgsSolve then Some (Args_Solve (Solve_Args (Types.Args_Solve a)))
  else if t =? ArgsVersion then Some Args_Version
  else if t =? ArgsAuthority then Some Args_Authority
  else if t =? ArgsSolveV2 then
    Some (Args_SolveV2 (SolveV2_Args (Types.Args_SolveV2 a)) (SolveV2_Sig (Types.Args_SolveV2 a)))
  else if t =? ArgsTransferOnly then
    Some (Args_TransferOnly (TransferOnly_Args (Types.Args_TransferOnly a))
            (TransferOnly_Sig (Types.Args_TransferOnly a)))
  else if t =? ArgsStatement then
    Some (Args_Statement (Statement_Args (Types.Args_Statement a))
            (Statement_Sig (Types.Args_Statement a)))
  else if t =? ArgsOwner then Some Args_Owner
  else if t =? ArgsEd25519Key then Some Args_Ed25519Key
  else if t =? ArgsSolveV3 then
    Some (Args_SolveV3 (SolveV3_Args (Types.Args_SolveV3 a)) (SolveV3_Sig (Types.Args_SolveV3 a)))
  else if t =? ArgsAssetsVersion then Some Args_AssetsVersion
  else None.

(** borsh-go writes the Borsh format: structs field by field, an enumeration
    by its index and the selected field. *)
Class BorshConforms : Prop := {
  borsh_SolveArgs_format s : borsh_SolveArgs s = Ok (enc b_SolveArgs s);
  borsh_SolveV2Args_format s : borsh_SolveV2Args s = Ok (enc b_SolveV2Args s);
  borsh_SolveV3Args_format s : borsh_SolveV3Args s = Ok (enc b_SolveV3Args s);
  borsh_Args_format a r : request_of a = Some r → borsh_Args a = Ok (Args_to_vec r)
}.

(** The program the server runs is ed25519-dalek-ph with the key [k]. *)
Class SignerRuns (k : bytes) : Prop := {
  signer_key : length k = 32%nat;
  signer_runs d s :
    length d = 64%nat → dalek_ph_main [hex_EncodeToString d] (Some (hex_EncodeToString k)) = Ok s →
    exec_Output ProgDalek [hex_EncodeToString d] = (s, None)
}.

Context {BC : BorshConforms}.
Context (k : bytes) {SR : SignerRuns k}.

(** What the server signs verifies on chain under the signing program's
    key. *)
Lemma sign_encoded_verifies msg sig :
  sign_encoded ProgDalek msg = Ok sig →
  length sig = 64%nat ∧ edphverify_pre msg (verifying_key k) sig = true.
Proof.
  unfold sign_encoded. set (d := sha512_Sum512 msg).
  assert (length d = 64%nat) as Hd by apply sha512_length.
  destruct (dalek_ph_signs d k Hd signer_key) as (s & Es & Hs & Hv).
  rewrite (signer_runs d s Hd Es). intros [= <-].
  rewrite copy_into_full by (by rewrite zeros_length). split; [done|].
  by rewrite edphverify_pre_post, sdk_sha512.
Qed.

Section Account.
Context (net : Network) (code_addr : address).
#[local] Instance accounts_here : Deployed := accounts_deployed net code_addr.

(** What an accepted solve of the account [t] leaves on the chain. *)
Definition executed (t sender po tr : address) (acc : account) (b : bytes) (c : chain)
    (l : list SolveArgs) : Prop :=
  ∃ n c', (∀ j, invoke (good_env (n + j)) t sender b c = Ok (0, [], c'))
        ∧ events c' = events c ++ Invoked t sender b
                        :: concat (map (solve_trace net t po tr (word_at acc NAuthority)) l).

Lemma solve_v2_executed args po tr a b t sender c acc :
  Forall wf_SolveArgs args → wf_slice args → length po = 20%nat → length tr = 20%nat →
  CreateSolveV2 ProgDalek args po tr = Ok a → borsh_Args a = Ok b →
  can_solve net t c acc args → key_of acc = verifying_key k →
  runs (accounts c) t sender b = true →
  executed t sender po tr acc b c args.
Proof.
  intros Hw Hsl Hpo Htr Ha Hb Hcs Hk Hr. unfold CreateSolveV2 in Ha.
  rewrite borsh_SolveV2Args_format in Ha. cbn in Ha. bind_step Ha as sig Hsig.
  injection Ha as <-. destruct (sign_encoded_verifies _ _ Hsig) as [Hls Hver].
  erewrite borsh_Args_format in Hb by done. injection Hb as <-.
  set (v2 := mk_SolveV2Args args po tr) in *.
  assert (wf_request (Args_SolveV2 v2 sig)) as Hwr by done.
  set (c1 := emit_event (Invoked t sender (Args_to_vec (Args_SolveV2 v2 sig))) c).
  assert (can_solve net t c1 acc args) as Hcs1 by by destruct Hcs.
  rewrite <-Hk in Hver.
  destruct (accepted net code_addr t sender _ c _ Hwr Hr
              (runs_solve_v2 net code_addr t v2 sig c1 acc Hcs1 Hver)) as [n Hn].
  exists n. eexists. split; [exact Hn|]. rewrite after_solves_events. cbn. by rewrite <-app_assoc.
Qed.

(** What accounts-cli prints to sign solves can be sent to the account: it
    succeeds for every key, and an account with that key executes exactly the
    solves that were to be signed, for its owner. *)
Lemma cli_solve_executed key args t sender c acc :
  Forall wf_SolveArgs args → wf_slice args →
  can_solve net t c acc args → key_of acc = verifying_key key →
  ∃ b, cli_entry (SignSolve key args) = Ok (Line (lit "0x" ++ hex_EncodeToString b))
     ∧ (runs (accounts c) t sender b = true → executed t sender (owner_of acc) (owner_of acc) acc b c args).
Proof.
  intros Hw Hsl Hcs Hk. destruct (sign_all_total key args) as [ss Hss].
  destruct (sign_all_verifies key args ss Hss) as [Em Hv].
  exists (Args_to_vec (Args_Solve ss)). cbn [cli_entry]. unfold sign_solve. rewrite Hss.
  split; [done|]. intros Hr. set (b := Args_to_vec (Args_Solve ss)) in *. set (c1 := emit_event (Invoked t sender b) c).
  assert (wf_request (Args_Solve ss)) as Hwr.
  { split; [by unfold wf_slice in *; rewrite <-Em, length_map in Hsl|].
    rewrite <-Em in Hw. pose proof (proj1 (Forall_map _ _ _) Hw) as Hw'.
    apply Forall_forall. intros x Hx. split.
    - exact (proj2 (proj1 (Forall_forall _ _) Hv x Hx)).
    - exact (proj1 (Forall_forall _ _) Hw' x Hx). }
  assert (can_solve net t c1 acc (map SolveArgsSigArgs_Args ss)) as Hcs1
    by (rewrite Em; by destruct Hcs).
  assert (Forall (λ x, edphverify_pre (enc b_SolveArgs (SolveArgsSigArgs_Args x)) (key_of acc)
                         (SolveArgsSigArgs_Sig x) = true) ss) as Hver.
  { rewrite Hk. eapply Forall_impl; [exact Hv|]. by intros x [? _]. }
  destruct (accepted net code_addr t sender _ c _ Hwr Hr
              (runs_solve_v1 net code_addr t ss c1 acc Hcs1 Hver)) as [n Hn].
  exists n. eexists. split; [exact Hn|]. rewrite after_solves_events, Em. cbn. by rewrite <-app_assoc.
Qed.

Context {UN : Unicode} {CR : EthCrypto} {CL : EthClient} {EN : World.Env} {PC : PgCalendar}
  {GF : GoFmt}.
Context {AL : AbiLaws} {CLaws : EthCommonLaws} {CRL : EthCryptoLaws}.

(** C2: a mint that the server answers with a transaction hash is executed.
    The transaction is on its way to the safety router; the router forwards
    it, if the account's code has the hash it expects, to the caller's account
    with the request; and an account that has the server's key, is not in the
    middle of another request and has not seen the timestamp accepts it when
    the tokens and the market cooperate, and makes exactly the calls of the
    mint: the permit, taking the amount from the caller, approving the market,
    the authority's consent, the mint, and the balance check. *)
Theorem mint_executed (r : Resolver) (ctx : Ctx) (mint : model.Mint) (dryrun : option bool)
    (w w' : world) (hash : gostring) :
  match ctx_eoa ctx with Some a => length a = 20%nat | None => True end →
  match model.Mint_Permit mint with Some p => model.wf_Permit p | None => True end →
  length (AccountsFactoryAddr r) = 20%nat →
  NinelivesMint r ctx mint dryrun w = (Ok hash, w') → isDryrun dryrun = false →
  ∃ eoa solve b tx signed,
    let t := GetClientAddr (AccountsFactoryAddr r) eoa in
    ctx_eoa ctx = Some eoa
    ∧ mint_spec AssetUsdc (model.Market mint) (model.Outcome mint) (model.Amount mint)
        (model.Referrer mint) eoa (model.Mint_Permit mint) (model.MsTs mint) solve
    ∧ sent w' = sent w ++ [signed] ∧ To tx = SafetyRouterAddr r
    ∧ (∃ key, SignTx tx (ChainId r) key = Ok signed)
    ∧ (∀ extcodehash, extcodehash t = router_codehash →
         SafetyRouter_route extcodehash (Data tx) = Some (Ok (t, b)))
    ∧ ∀ c acc, can_solve net t c acc [solve] → key_of acc = verifying_key k →
        runs (accounts c) t (SafetyRouterAddr r) b = true →
        executed t (SafetyRouterAddr r) eoa eoa acc b c [solve].
Proof.
  intros Hctx Hperm Hfac Hrun Hdry.
  destruct (NinelivesMint_inv r ctx mint dryrun w w' hash Hctx Hrun)
    as (eoa & amt & solve & args & _ & _ & Heoa & _ & _ & Hspec & Hargs & _ & _ & Hsent).
  destruct Hsent as (sk & key & b & tx & signed & _ & _ & Hb & Hto & _ & _ & Hsig & _ & Hs).
  rewrite Hdry in Hs. rewrite Heoa in Hctx.
  exists eoa, solve, b, tx, signed. cbv zeta.
  set (t := GetClientAddr (AccountsFactoryAddr r) eoa).
  assert (length t = 20%nat) as Ht by by apply GetClientAddr_length.
  injection Hto as Hto Hdata.
  split_and!; [done..|by eexists| |].
  - intros extcodehash Hx. rewrite Hdata. pose proof (frame_routes (SafetyRouterAddr r) t b extcodehash Ht) as E.
    rewrite Hx, Z.eqb_refl in E. exact E.
  - intros c acc Hcs Hk Hr. eapply solve_v2_executed; try done.
    constructor; [|done]. by eapply mint_spec_wf.
Qed.

(** *** The creation of an account *)

Lemma creation_of_wf r ca mint f :
  length (AccPubKey r) = 32%nat →
  match mint with
  | Some m => match model.Mint_Permit m with Some p => model.wf_Permit p | None => True end
  | None => True
  end →
  creation_of r ca mint f →
  wf_FreshBackwards f ∧ FreshBackwards_Key f = AccPubKey r
  ∧ FreshBackwards_EoaAddr f = HexToAddress (model.EoaAddr ca).
Proof.
  intros Hk Hm (f0 & (Ek & _ & Hau & _ & _ & [_ HR] & [_ HS] & El) & Ee & Hf).
  assert (match FreshBackwards_Authority f0 with Some x => length x = 20%nat | None => True end)
    as Hauth.
  { destruct (model.Authority ca), (FreshBackwards_Authority f0); try done.
    by eapply addr_spec_length. }
  pose proof (HexToAddress_length (model.EoaAddr ca)) as Hlen.
  destruct mint as [m|].
  - destruct Hf as (s & -> & Hsig & Hs). unfold wf_FreshBackwards. cbn.
    rewrite El, Ek, Ee. split_and!; try done. constructor; [|done]. split; [|by eapply mint_spec_wf].
    destruct Hsig as (msg & _ & Hsm). by eapply signed_message_length.
  - subst f. unfold wf_FreshBackwards. rewrite El, Ek, Ee. by split_and!.
Qed.

Lemma creation_of_signed r ca mint f :
  AccPubKey r = verifying_key k → creation_of r ca mint f → solves_signed f.
Proof.
  intros Hk (f0 & (Ek & _ & _ & _ & _ & _ & _ & El) & _ & Hf). destruct mint as [m|].
  - destruct Hf as (s & -> & (msg & Hmsg & Hsm) & _). rewrite borsh_SolveArgs_format in Hmsg.
    injection Hmsg as <-. apply sign_encoded_Ok, sign_encoded_verifies in Hsm as [_ Hv].
    split; cbn; rewrite El; cbn; [apply NoDup_singleton|].
    apply Forall_singleton. by rewrite Ek, Hk.
  - subst f. split; rewrite El; constructor.
Qed.

(** The factory [t] accepts the calldata [cd] of the creation [f] on the chain
    [c], answers with the address of the user's proxy, and there is then an
    account there with the key and the owner, all in exactly these events. *)
Definition created (t sender : address) (f : FreshBackwards) (key : word) (eoa : address)
    (acc : account) (cd : bytes) (c : chain) : Prop :=
  let a := proxy_at t eoa in
  ∃ n c' acc',
    (∀ j, invoke (create_env (n + j)) t sender cd c = Ok (0, U_from a, c'))
    ∧ events c' = events c ++ created_events net t sender f acc
    ∧ accounts c' !! a = Some acc' ∧ beacon acc' = Some t
    ∧ key_of acc' = key ∧ owner_of acc' = eoa.

(** C3: an account creation that the server answers is carried out. The
    transaction is on its way to the factory. A factory that runs the contract
    accepts it in an environment where tokens and targets cooperate, provided
    that the user's signature over the key and the authority is valid, that
    there is no account at the address where the factory's CREATE2 puts the
    user's proxy, and that key and owner are not zero ([can_create]): there is
    then an account at that address with the server's key, owned by the user,
    the factory answers with the address, and a mint asked for with it is
    executed on the new account, all in exactly the events listed. *)
Theorem creation_executed (r : Resolver) (ctx : Ctx) (ca : model.CreateAccount)
    (mint : option model.Mint) (dryrun : option bool) (w w' : world)
    (res : model.CreateAccountExec) :
  match mint with
  | Some m => match model.Mint_Permit m with Some p => model.wf_Permit p | None => True end
  | None => True
  end →
  length (AccountsFactoryAddr r) = 20%nat → length (AccPubKey r) = 32%nat →
  AccPubKey r = verifying_key k →
  CreateAccountExec r ctx ca mint dryrun w = (Ok res, w') → isDryrun dryrun = false →
  ∃ f tx signed,
    let t := AccountsFactoryAddr r in
    let eoa := HexToAddress (model.EoaAddr ca) in
    creation_of r ca mint f
    ∧ sent w' = sent w ++ [signed] ∧ (∃ key, SignTx tx (ChainId r) key = Ok signed)
    ∧ To tx = t ∧ Data tx = Args_to_vec (Args_FreshBackwards f)
    ∧ ∀ sender c acc, can_create net code_addr t sender f c acc →
        created t sender f (AccPubKey r) eoa acc (Data tx) c.
Proof.
  intros Hperm Hfac Hkl Hk Hrun Hdry.
  destruct (CreateAccountExec_Ok r ctx ca mint dryrun w res w' Hrun)
    as (_ & f & raw & Hf & Hsent & _).
  destruct Hsent as (s & key & b & tx & signed & _ & _ & Hb & Hto & _ & _ & Hsig & _ & Hs).
  rewrite Hdry in Hs. injection Hto as Hto Hdata.
  erewrite borsh_Args_format in Hb by done. injection Hb as <-.
  destruct (creation_of_wf r ca mint f Hkl Hperm Hf) as (Hwf & Ek & Ee).
  exists f, tx, signed. cbv zeta. split_and!; [done..|by eexists|done|done|].
  intros sender c acc Hcc. pose proof (creation_of_signed r ca mint f Hk Hf) as Hss.
  destruct (fresh_accepted net code_addr _ sender f c acc Hwf Hcc Hss) as [n Hn].
  destruct (created_account net code_addr _ sender f c acc Hwf Hcc Hss)
    as (acc' & Ha & Hbe & Hke & Hoe & _).
  exists n. eexists _, acc'. cbv zeta. rewrite Hdata, <-Ek, <-Ee.
  split_and!; [exact Hn|apply created_chain_events|done..].
Qed.
End Account.
End EndToEnd.
