(* ===== verification/Evm.v ===== *)
(** * Evm: the instructions the repository's bytecode uses

    An interpreter for the instructions of the Ethereum virtual machine that
    occur in the metamorphic proxy (lib/types/proxy.go), in the lite account
    (sol/LiteFactory.sol, sol/LiteAccount.huff) and in the safety router
    (sol/SafetyRouter.huff). Words are integers below 2^256. What the machine
    asks of the chain (storage, code hashes, gas, calls) is a node of the tree
    [host], so a program means a tree and two programs with the same meaning
    are related by [≈].

    Gas is not counted: [GAS] asks for the amount. Memory that no amount of gas
    pays for (four gigabytes) is refused. An instruction outside the list is
    [Unsupported]. The storage a program sees between its calls is its own: a
    call back into it that changes its storage is not modelled. *)
From stdpp Require Import base numbers strings list gmap.
From Stdlib Require Import Strings.Byte ZArith Lia.
From S2P Require Import Prelude GoStd.

(** ** The chain as the machine sees it *)

Inductive call_op := OpCall | OpStatic | OpDelegate.

#[export] Instance call_op_eq_dec : EqDecision call_op.
Proof. solve_decision. Defined.

Inductive halt :=
| Returned (d : bytes)
| RevertedWith (d : bytes)
| Failed.

Inductive host :=
| Halt (h : halt)
| HLoad (slot : Z) (k : Z → host)
| HStore (slot v : Z) (k : host)
| HCodeHash (a : Z) (k : Z → host)
| HGas (k : Z → host)
| HCall (op : call_op) (gas to value : Z) (args : bytes) (k : bool → bytes → host)
| Unsupported
| OutOfFuel.

(** The same questions in the same order, and the same end. *)
Inductive host_eq : host → host → Prop :=
| heq_halt h : host_eq (Halt h) (Halt h)
| heq_load s k k' : (∀ w, host_eq (k w) (k' w)) → host_eq (HLoad s k) (HLoad s k')
| heq_store s v k k' : host_eq k k' → host_eq (HStore s v k) (HStore s v k')
| heq_hash a k k' : (∀ w, host_eq (k w) (k' w)) → host_eq (HCodeHash a k) (HCodeHash a k')
| heq_gas k k' : (∀ g, host_eq (k g) (k' g)) → host_eq (HGas k) (HGas k')
| heq_call op g to v a k k' :
    (∀ ok r, host_eq (k ok r) (k' ok r)) → host_eq (HCall op g to v a k) (HCall op g to v a k')
| heq_unsupported : host_eq Unsupported Unsupported
| heq_fuel : host_eq OutOfFuel OutOfFuel.

Infix "≈" := host_eq (at level 70, no associativity).

#[export] Instance host_eq_equivalence : Equivalence host_eq.
Proof.
  split.
  - intros h. induction h; constructor; auto.
  - intros h h' E. induction E; constructor; auto.
  - intros h1 h2 h3 E. revert h3. induction E; intros h3 E3; inversion E3; subst; constructor; auto.
Qed.

(** Answers for the tree: the storage word, the code hash, the gas left and
    the outcome of calls. *)
Record answers := mk_answers {
  ans_load : Z → Z;
  ans_hash : Z → Z;
  ans_gas : Z;
  ans_call : call_op → Z → Z → bytes → bool * bytes
}.

(** The calls a program makes with given answers, in order, and its end. *)
Fixpoint perform (a : answers) (h : host) : list (call_op * Z * Z * bytes) * option halt :=
  match h with
  | Halt r => ([], Some r)
  | HLoad s k => perform a (k (ans_load a s))
  | HStore _ _ k => perform a k
  | HCodeHash x k => perform a (k (ans_hash a x))
  | HGas k => perform a (k (ans_gas a))
  | HCall op _ to v args k =>
      let '(ok, r) := ans_call a op to v args in
      let '(l, h) := perform a (k ok r) in
      ((op, to, v, args) :: l, h)
  | Unsupported | OutOfFuel => ([], None)
  end.

#[export] Instance perform_proper a : Proper (host_eq ==> eq) (perform a).
Proof.
  intros h h' E. induction E as [ | | | | |op g to v args k k' _ IH| | ]; cbn; try done.
  destruct (ans_call a op to v args) as [ok r]. by rewrite IH.
Qed.

(** The same with the storage kept: loads and stores go to [st], everything
    else is answered by [a]. *)
Definition slot_value (st : gmap Z Z) (s : Z) : Z := default 0 (st !! s).

Fixpoint execute (a : answers) (h : host) (st : gmap Z Z)
    : gmap Z Z * list (call_op * Z * Z * bytes) * option halt :=
  match h with
  | Halt r => (st, [], Some r)
  | HLoad s k => execute a (k (slot_value st s)) st
  | HStore s v k => execute a k (<[s := v]> st)
  | HCodeHash x k => execute a (k (ans_hash a x)) st
  | HGas k => execute a (k (ans_gas a)) st
  | HCall op _ to v args k =>
      let '(ok, r) := ans_call a op to v args in
      let '(st', l, h) := execute a (k ok r) st in
      (st', (op, to, v, args) :: l, h)
  | Unsupported | OutOfFuel => (st, [], None)
  end.

#[export] Instance execute_proper a : Proper (host_eq ==> eq ==> eq) (execute a).
Proof.
  intros h h' E st st' <-. revert st.
  induction E as [ | | | | |op g to v args k k' _ IH| | ]; intros st; cbn; auto.
  destruct (ans_call a op to v args) as [ok r]. by rewrite IH.
Qed.

(** The storage after a transaction: a run that does not return leaves none of
    its stores. *)
Definition committed (o : gmap Z Z * list (call_op * Z * Z * bytes) * option halt)
    (st : gmap Z Z) : gmap Z Z :=
  match o with
  | (st', _, Some (Returned _)) => st'
  | _ => st
  end.

(** ** Instructions *)

Inductive instr :=
| STOP | ADD | SUB | EQ | ISZERO | SHR | KECCAK256
| ADDRESS | CALLER | CALLDATALOAD | CALLDATASIZE | CALLDATACOPY | CODECOPY
| RETURNDATASIZE | RETURNDATACOPY | EXTCODEHASH
| MLOAD | MSTORE | SLOAD | SSTORE | JUMP | JUMPI | GAS | JUMPDEST
| PUSH (b : bytes) | DUP (n : nat) | SWAP (n : nat)
| CALL | RETURN | DELEGATECALL | STATICCALL | REVERT
| OTHER.

(** [n] bytes from [off] on, with zeros after the end. *)
Definition bytes_at (off n : nat) (m : bytes) : bytes := resize n x00 (drop off m).

Definition mem_write (off : nat) (d m : bytes) : bytes :=
  resize off x00 m ++ d ++ drop (off + length d) m.

(** The number of bytes that follow a push. *)
Definition push_size (b : byte) : nat :=
  if (0x5f <=? byte_Z b) && (byte_Z b <=? 0x7f) then Z.to_nat (byte_Z b - 0x5f) else 0.

Definition opcode (b : byte) : instr :=
  match b with
  | x00 => STOP | x01 => ADD | x03 => SUB | x14 => EQ | x15 => ISZERO | x1c => SHR
  | x20 => KECCAK256 | x30 => ADDRESS | x33 => CALLER | x35 => CALLDATALOAD
  | x36 => CALLDATASIZE | x37 => CALLDATACOPY | x39 => CODECOPY | x3d => RETURNDATASIZE
  | x3e => RETURNDATACOPY | x3f => EXTCODEHASH | x51 => MLOAD | x52 => MSTORE
  | x54 => SLOAD | x55 => SSTORE | x56 => JUMP | x57 => JUMPI | x5a => GAS | x5b => JUMPDEST
  | xf1 => CALL | xf3 => RETURN | xf4 => DELEGATECALL | xfa => STATICCALL | xfd => REVERT
  | _ => OTHER
  end.

(** The instruction at the head of the code; past its end there is [STOP]. *)
Definition decode (l : bytes) : instr :=
  match l with
  | [] => STOP
  | b :: rest =>
      let z := byte_Z b in
      if (0x5f <=? z) && (z <=? 0x7f) then PUSH (bytes_at 0 (push_size b) rest)
      else if (0x80 <=? z) && (z <=? 0x8f) then DUP (Z.to_nat (z - 0x80))
      else if (0x90 <=? z) && (z <=? 0x9f) then SWAP (Z.to_nat (z - 0x8f))
      else opcode b
  end.

Definition size_of (i : instr) : nat :=
  match i with PUSH b => S (length b) | _ => 1 end.

(** Whether there is a [JUMPDEST] at the offset, outside the data of a
    push. *)
Fixpoint jump_ok (l : bytes) (skip n : nat) : bool :=
  match l with
  | [] => false
  | b :: l' =>
      match skip, n with
      | S _, O => false
      | S k, S n' => jump_ok l' k n'
      | O, O => bool_decide (b = x5b)
      | O, S n' => jump_ok l' (push_size b) n'
      end
  end.

(** ** The machine *)

Record mstate := mk_mstate {
  pc : nat;
  stack : list Z;
  mem : bytes;
  rdata : bytes
}.

Record context := mk_context {
  ctx_address : Z;
  ctx_caller : Z;
  ctx_data : bytes
}.

Definition max_memory : Z := 2 ^ 32.

Section Machine.
Context (keccak : bytes → bytes) (code : bytes) (cx : context).

Definition word256 (z : Z) : Z := z mod 2 ^ 256.
Definition address_of (z : Z) : Z := z mod 2 ^ 160.

(** Memory of [n] bytes from [off] can be paid for. *)
Definition mem_ok (off n : Z) : bool := (n =? 0) || (off + n <=? max_memory).

Definition mem_get (s : mstate) (off n : Z) : bytes :=
  bytes_at (Z.to_nat off) (Z.to_nat n) (mem s).

(** The next instruction, with another stack or memory. *)
Definition goes (s : mstate) (size : nat) (st : list Z) : mstate :=
  mk_mstate (pc s + size) st (mem s) (rdata s).
Definition writes (s : mstate) (off : Z) (d : bytes) (st : list Z) : mstate :=
  mk_mstate (pc s + 1) st (mem_write (Z.to_nat off) d (mem s)) (rdata s).

Definition jumps (K : mstate → host) (s : mstate) (dest : Z) (st : list Z) : host :=
  if (dest <? Z.of_nat (length code)) && jump_ok code 0 (Z.to_nat dest)
  then K (mk_mstate (Z.to_nat dest) st (mem s) (rdata s))
  else Halt Failed.

(** Copying [n] bytes of [src] from [off] to memory at [dst]. *)
Definition copies (K : mstate → host) (s : mstate) (src : bytes) (dst off n : Z) (st : list Z) : host :=
  if mem_ok dst n
  then K (writes s dst (bytes_at (Z.to_nat off) (Z.to_nat n) src) st)
  else Halt Failed.

(** A call: its arguments are read from memory, and as much of the answer as
    fits is written back. *)
Definition calls (K : mstate → host) (s : mstate) (op : call_op)
    (gas to value argsOff argsLen retOff retLen : Z) (st : list Z) : host :=
  if mem_ok argsOff argsLen && mem_ok retOff retLen then
    HCall op gas (address_of to) value (mem_get s argsOff argsLen) (λ ok r,
      K (mk_mstate (pc s + 1) ((if ok then 1 else 0) :: st)
           (mem_write (Z.to_nat retOff) (take (Z.to_nat retLen) r) (mem s)) r))
  else Halt Failed.

Definition exec_instr (K : mstate → host) (i : instr) (s : mstate) : host :=
  let push (z : Z) := K (goes s (size_of i) (z :: stack s)) in
  match i, stack s with
  | STOP, _ => Halt (Returned [])
  | PUSH b, _ => push (be_val b)
  | DUP n, st => match st !! n with Some z => push z | None => Halt Failed end
  | SWAP n, z :: st =>
      match st !! (n - 1)%nat with
      | Some y => K (goes s 1 (y :: <[(n - 1)%nat := z]> st))
      | None => Halt Failed
      end
  | ADD, a :: b :: st => K (goes s 1 (word256 (a + b) :: st))
  | SUB, a :: b :: st => K (goes s 1 (word256 (a - b) :: st))
  | EQ, a :: b :: st => K (goes s 1 ((if a =? b then 1 else 0) :: st))
  | ISZERO, a :: st => K (goes s 1 ((if a =? 0 then 1 else 0) :: st))
  | SHR, n :: a :: st => K (goes s 1 ((if n <? 256 then Z.shiftr a n else 0) :: st))
  | KECCAK256, off :: n :: st =>
      if mem_ok off n then K (goes s 1 (be_val (keccak (mem_get s off n)) :: st)) else Halt Failed
  | ADDRESS, _ => push (ctx_address cx)
  | CALLER, _ => push (ctx_caller cx)
  | CALLDATASIZE, _ => push (Z.of_nat (length (ctx_data cx)))
  | CALLDATALOAD, off :: st =>
      let w := if off <? Z.of_nat (length (ctx_data cx))
               then be_val (bytes_at (Z.to_nat off) 32 (ctx_data cx)) else 0 in
      K (goes s 1 (w :: st))
  | CALLDATACOPY, dst :: off :: n :: st => copies K s (ctx_data cx) dst off n st
  | CODECOPY, dst :: off :: n :: st => copies K s code dst off n st
  | RETURNDATASIZE, _ => push (Z.of_nat (length (rdata s)))
  | RETURNDATACOPY, dst :: off :: n :: st =>
      if off + n <=? Z.of_nat (length (rdata s)) then copies K s (rdata s) dst off n st
      else Halt Failed
  | EXTCODEHASH, a :: st => HCodeHash (address_of a) (λ w, K (goes s 1 (w :: st)))
  | MLOAD, off :: st =>
      if mem_ok off 32 then K (goes s 1 (be_val (mem_get s off 32) :: st)) else Halt Failed
  | MSTORE, off :: v :: st =>
      if mem_ok off 32 then K (writes s off (be_split 32 v) st) else Halt Failed
  | SLOAD, slot :: st => HLoad slot (λ w, K (goes s 1 (w :: st)))
  | SSTORE, slot :: v :: st => HStore slot v (K (goes s 1 st))
  | JUMP, dest :: st => jumps K s dest st
  | JUMPI, dest :: c :: st => if c =? 0 then K (goes s 1 st) else jumps K s dest st
  | JUMPDEST, st => K (goes s 1 st)
  | GAS, st => HGas (λ g, K (goes s 1 (g :: st)))
  | CALL, gas :: to :: v :: ao :: al :: ro :: rl :: st => calls K s OpCall gas to v ao al ro rl st
  | STATICCALL, gas :: to :: ao :: al :: ro :: rl :: st => calls K s OpStatic gas to 0 ao al ro rl st
  | DELEGATECALL, gas :: to :: ao :: al :: ro :: rl :: st =>
      calls K s OpDelegate gas to 0 ao al ro rl st
  | RETURN, off :: n :: _ => Halt (if mem_ok off n then Returned (mem_get s off n) else Failed)
  | REVERT, off :: n :: _ => Halt (if mem_ok off n then RevertedWith (mem_get s off n) else Failed)
  | OTHER, _ => Unsupported
  | _, _ => Halt Failed
  end.

Fixpoint run (fuel : nat) (s : mstate) : host :=
  match fuel with
  | O => OutOfFuel
  | S fuel => exec_instr (run fuel) (decode (drop (pc s) code)) s
  end.

Definition start : mstate := mk_mstate 0 [] [] [].

(** The answer of a call is passed on. *)
Definition passed_on (ok : bool) (r : bytes) : halt :=
  if mem_ok 0 (Z.of_nat (length r)) then (if ok then Returned r else RevertedWith r) else Failed.

(** ** Lemmas *)

Lemma run_S n s :
  run (S n) s = exec_instr (run n) (decode (drop (pc s) code)) s.
Proof. done. Qed.

(** Data copied whole to the start of memory, and read back. *)
Lemma bytes_at_all l : bytes_at 0 (length l) l = l.
Proof. unfold bytes_at. by rewrite drop_0, resize_all. Qed.

Lemma take_zeros n l : take n (l ++ zeros n) = bytes_at 0 n l.
Proof.
  unfold bytes_at. rewrite drop_0, resize_spec, take_app. f_equal. unfold zeros.
  by rewrite take_replicate, Nat.min_l by lia.
Qed.

(** Memory that was written whole, read from somewhere inside. *)
Lemma mem_write_0 d m : mem_write 0 d m = d ++ drop (length d) m.
Proof. unfold mem_write. by rewrite resize_0. Qed.

Lemma mem_write_empty off d : mem_write off d [] = zeros off ++ d.
Proof. unfold mem_write, zeros. by rewrite drop_nil, app_nil_r, resize_nil. Qed.

Lemma bytes_at_suffix off n d m :
  length d = (off + n)%nat → bytes_at off n (d ++ m) = drop off d.
Proof.
  intros Hd. unfold bytes_at. rewrite drop_app_le by lia. apply resize_app. rewrite length_drop. lia.
Qed.

Lemma be_split_drop n k z : drop n (be_split (n + k) z) = be_split k z.
Proof.
  revert z. induction k as [|k IH]; intros z.
  - rewrite Nat.add_0_r, drop_ge by (rewrite be_split_length; lia). done.
  - rewrite Nat.add_succ_r. cbn [be_split].
    rewrite drop_app_le by (rewrite be_split_length; lia). by rewrite IH.
Qed.

Lemma copies_from K s src off st :
  let d := drop off src in
  mem_ok 0 (Z.of_nat (length d)) = true →
  copies K s src 0 (Z.of_nat off) (Z.of_nat (length d)) st
  = K (mk_mstate (pc s + 1) st (d ++ drop (length d) (mem s)) (rdata s)).
Proof.
  intros d Hm. unfold copies. rewrite Hm, !Nat2Z.id. unfold bytes_at. fold d.
  rewrite resize_all. unfold writes, mem_write. by rewrite Z2Nat.inj_0, resize_0.
Qed.

Lemma copies_all K s src st :
  mem_ok 0 (Z.of_nat (length src)) = true →
  copies K s src 0 0 (Z.of_nat (length src)) st
  = K (mk_mstate (pc s + 1) st (src ++ drop (length src) (mem s)) (rdata s)).
Proof. rewrite <-(drop_0 src) at 1 3 4 5. apply (copies_from K s src 0). Qed.

Lemma mem_get_head s d m :
  mem s = d ++ m → mem_get s 0 (Z.of_nat (length d)) = d.
Proof.
  intros E. unfold mem_get, bytes_at. rewrite E, Nat2Z.id, drop_0, resize_le.
  - by rewrite take_app_length.
  - rewrite length_app. lia.
Qed.

(** The word at the start of the calldata, shifted to its first four bytes. *)
Lemma shiftr_bytes l n k :
  length l = (n + k)%nat → Z.shiftr (be_val l) (8 * Z.of_nat k) = be_val (take n l).
Proof.
  intros Hl. rewrite <-(take_drop n l) at 1. rewrite be_val_app, Z.shiftr_div_pow2 by lia.
  assert (length (drop n l) = k) as Hd by (rewrite length_drop; lia). rewrite Hd.
  pose proof (be_val_bound (drop n l)) as Hb. rewrite Hd in Hb.
  replace (2 ^ (8 * Z.of_nat k)) with (256 ^ Z.of_nat k)
    by (rewrite Z.pow_mul_r by lia; done).
  rewrite Z.div_add_l by lia. rewrite Z.div_small by done. lia.
Qed.

(** What a call writes back to the start of an empty memory. *)
Lemma bytes_at_written n r : bytes_at 0 n (mem_write 0 (take n r) []) = bytes_at 0 n r.
Proof.
  unfold bytes_at, mem_write. rewrite resize_0, !drop_0, drop_nil, app_nil_r. cbn [app].
  apply resize_take_eq.
Qed.

Lemma address_of_bytes l : length l = 20%nat → address_of (be_val l) = be_val l.
Proof. intros Hl. apply Z.mod_small. pose proof (be_val_bound l) as Hb. by rewrite Hl in Hb. Qed.

Lemma be_val_low w : length w = 32%nat → address_of (be_val w) = be_val (drop 12 w).
Proof.
  intros Hw. rewrite <-(take_drop 12 w) at 1. rewrite be_val_app.
  assert (length (drop 12 w) = 20%nat) as Hl by (rewrite length_drop; lia). rewrite Hl.
  change (256 ^ Z.of_nat 20) with (2 ^ 160). unfold address_of.
  rewrite Z.add_comm, Z.mod_add by lia. apply address_of_bytes in Hl. done.
Qed.

(** Reading past the end of the calldata gives zeros. *)
Lemma calldata_word cd off :
  0 ≤ off →
  (if off <? Z.of_nat (length cd) then be_val (bytes_at (Z.to_nat off) 32 cd) else 0)
  = be_val (bytes_at (Z.to_nat off) 32 cd).
Proof.
  intros Ho. destruct (Z.ltb_spec off (Z.of_nat (length cd))); [done|].
  unfold bytes_at. rewrite drop_ge by lia. by vm_compute.
Qed.

(** A size that wrapped around does not fit. *)
Lemma mem_ok_wrapped off a b :
  0 ≤ off → 0 ≤ a < b → b ≤ 2 ^ 32 → mem_ok off (word256 (a - b)) = false.
Proof.
  intros Ho Ha Hb. unfold mem_ok, word256, max_memory.
  replace ((a - b) mod 2 ^ 256) with (2 ^ 256 + a - b).
  - apply orb_false_iff. split; [apply Z.eqb_neq|apply Z.leb_gt]; lia.
  - apply (Z.mod_unique_pos _ _ (-1)); lia.
Qed.

Lemma word256_small z : 0 ≤ z < 2 ^ 256 → word256 z = z.
Proof. apply Z.mod_small. Qed.

Lemma mem_ok_small off n : 0 ≤ off → off + n ≤ max_memory → mem_ok off n = true.
Proof. intros Ho Hn. unfold mem_ok. rewrite (proj2 (Z.leb_le _ _) Hn). by rewrite orb_true_r. Qed.
End Machine.

(** *** Symbolic runs: one instruction at a concrete place of the code *)

Ltac evm_const l :=
  let v := eval vm_compute in (be_val l) in change (be_val l) with v.
Ltac evm_consts :=
  repeat match goal with
  | |- context [be_val []] => evm_const (@nil byte)
  | |- context [be_val [?a]] => evm_const [a]
  | |- context [be_val [?a; ?b]] => evm_const [a; b]
  | |- context [be_val [?a; ?b; ?c; ?d]] => evm_const [a; b; c; d]
  end.
Ltac evm_step :=
  rewrite run_S;
  lazymatch goal with
  | |- context [decode (drop (pc ?s) ?c)] =>
      let i := eval vm_compute in (decode (drop (pc s) c)) in
      change (decode (drop (pc s) c)) with i
  end;
  cbn [exec_instr size_of stack lookup list_lookup insert list_insert Nat.sub];
  unfold goes, writes;
  cbn [pc stack mem rdata length Nat.add];
  evm_consts;
  try change (1 =? 0) with false;
  try change (0 =? 0) with true;
  cbv iota.

(** A jump to a constant. *)
Ltac evm_jump :=
  unfold jumps;
  lazymatch goal with
  | |- context [jump_ok ?c 0 (Z.to_nat ?d)] =>
      change ((d <? Z.of_nat (length c)) && jump_ok c 0 (Z.to_nat d)) with true;
      let n := eval vm_compute in (Z.to_nat d) in change (Z.to_nat d) with n
  end;
  cbv iota; cbn [pc stack mem rdata].

(** The end of all three programs: the answer of the last call is copied and
    returned, or reverted with. *)
Ltac evm_pass_on ok ret :=
  do 4 evm_step; rewrite Z.add_0_l, Z.leb_refl; unfold passed_on;
  let Hr := fresh "Hr" in
  destruct (mem_ok 0 (Z.of_nat (length ret))) eqn:Hr; [|unfold copies; rewrite Hr; constructor];
  rewrite copies_all by exact Hr; cbn [pc rdata mem Nat.add];
  do 4 evm_step; destruct ok;
  [evm_step; evm_jump; do 2 evm_step | do 2 evm_step];
  rewrite Hr; erewrite mem_get_head by reflexivity; constructor.

(** A list whose length is a number, as its elements. *)
Ltac explode l H :=
  lazymatch type of H with
  | length l = O => destruct l as [|? l]; [|discriminate H]
  | length l = S _ =>
      let x := fresh "b" in
      destruct l as [|x l]; [discriminate H|];
      apply Nat.succ_inj in H; fold (length l) in H; explode l H
  end.
