(* ===== verification/ProxyCode.v ===== *)
(** * ProxyCode: what the metamorphic proxy's bytecode does

    The creation code of lib/types/proxy.go, run on the machine of Evm: it
    deploys the account proxy, and the proxy delegates [migrate] to the
    implementation its beacon answers with, and every other call to the
    implementation in its own slot, with the whole calldata, and passes the
    answer on. *)
From stdpp Require Import base numbers strings list gmap.
From Stdlib Require Import Strings.Byte ZArith Lia.
From S2P Require Import Prelude GoStd Types External Proxy BorshRef Chain Contract AccountSafety.
From S2P Require Import AccountEntry Evm.

Section ProxyCode.
Context (keccak : bytes → bytes).

Definition proxy_runtime (factory : bytes) : bytes := drop 9 (proxy_init_code factory).

Lemma init_code_deploys factory cx n :
  length factory = 20%nat → (16 ≤ n)%nat →
  run keccak (proxy_init_code factory) cx n start ≈ Halt (Returned (proxy_runtime factory)).
Proof.
  intros Hf [k ->]%Nat.le_sum. explode factory Hf. clear Hf.
  set (code := proxy_init_code _). set (rt := proxy_runtime _).
  vm_compute in code. unfold start. change (16 + k)%nat with (S (15 + k)).
  do 5 evm_step. unfold copies. change (mem_ok _ _) with true. cbv iota.
  do 2 evm_step. change (mem_ok _ _) with true. cbv iota. constructor.
Qed.

(** ** The proxy *)

(** EIP-1967: the slot of the implementation. *)
Definition implementation_slot : bytes :=
  default [] (hex_parse (lit "360894a13ba1a3210667c828492db98dca3e2076cc3735a920a3ca505d382bbc")).

Definition delegate_to (impl : Z) (cd : bytes) : host :=
  HGas (λ g, HCall OpDelegate g (address_of impl) 0 cd (λ ok r, Halt (passed_on ok r))).

Definition migrate_selector : bytes := [x8f; xd3; xab; x80].

Definition proxy_spec (factory cd : bytes) : host :=
  if decide (take 4 cd = migrate_selector)
  then HGas (λ g, HCall OpStatic g (be_val factory) 0 [] (λ _ r,
         delegate_to (be_val (bytes_at 0 32 r)) cd))
  else HLoad (be_val implementation_slot) (λ w, delegate_to w cd).

(** The tail of the code, from the delegation on. *)
Lemma delegation_runs factory cx n impl st m r :
  length factory = 20%nat → Z.of_nat (length (ctx_data cx)) ≤ max_memory → (24 ≤ n)%nat →
  run keccak (proxy_runtime factory) cx n (mk_mstate 0x59 (impl :: st) m r)
  ≈ delegate_to impl (ctx_data cx).
Proof.
  intros Hf Hcd [k ->]%Nat.le_sum.
  explode factory Hf. clear Hf.
  set (code := proxy_runtime _). vm_compute in code. change (24 + k)%nat with (S (23 + k)).
  do 5 evm_step. rewrite copies_all by by apply mem_ok_small. cbn [pc rdata mem Nat.add].
  do 6 evm_step. constructor. intros g. cbn [Nat.add].
  evm_step. unfold calls. rewrite mem_ok_small by done. change (mem_ok 0 0) with true.
  cbn [andb]. erewrite mem_get_head by done. constructor. intros ok ret.
  cbn [pc stack mem rdata Nat.add]. set (m' := mem_write _ _ _).
  evm_pass_on ok ret.
Qed.

(** The first word of the calldata, shifted, is its selector. *)
Lemma selector_eq cd :
  (Z.shiftr (if 0 <? Z.of_nat (length cd) then be_val (bytes_at (Z.to_nat 0) 32 cd) else 0) 224
   =? be_val migrate_selector) = bool_decide (take 4 cd = migrate_selector).
Proof.
  assert (take 4 (bytes_at 0 32 cd) = resize 4 x00 cd) as Et
    by (unfold bytes_at; by rewrite drop_0, take_resize_le by lia).
  assert (resize 4 x00 cd = migrate_selector ↔ take 4 cd = migrate_selector) as Es.
  { destruct (decide (4 ≤ length cd)%nat) as [Hl|Hl]; [by rewrite resize_le|].
    split; intros E; exfalso.
    - apply (f_equal last) in E. rewrite resize_ge, last_app in E by lia.
      destruct (4 - length cd)%nat as [|k] eqn:Ek; [lia|].
      rewrite replicate_S_end, last_snoc in E. done.
    - apply (f_equal length) in E. rewrite length_take in E. change (length migrate_selector) with 4%nat in E. lia. }
  transitivity (be_val (resize 4 x00 cd) =? be_val migrate_selector).
  - f_equal. rewrite calldata_word by lia.
    change 224 with (8 * Z.of_nat 28). rewrite (shiftr_bytes _ 4); [by rewrite <-Et|].
    unfold bytes_at. by rewrite length_resize.
  - apply eq_bool_prop_intro. rewrite bool_decide_spec, <-Es. split.
    + intros E%Is_true_true%Z.eqb_eq. apply be_val_inj; [|done]. by rewrite length_resize.
    + intros ->. by rewrite Z.eqb_refl.
Qed.

Lemma proxy_runs factory cx n :
  length factory = 20%nat → Z.of_nat (length (ctx_data cx)) ≤ max_memory → (48 ≤ n)%nat →
  run keccak (proxy_runtime factory) cx n start ≈ proxy_spec factory (ctx_data cx).
Proof.
  intros Hf Hcd [k ->]%Nat.le_sum. pose proof Hf as Hf'. set (code := proxy_runtime factory).
  explode factory Hf. clear Hf.
  vm_compute in code. change (48 + k)%nat with (S (47 + k)). unfold start.
  do 8 evm_step. change (224 <? 256) with true. cbv iota.
  change 2411965312 with (be_val migrate_selector). rewrite (Z.eqb_sym (be_val migrate_selector)), selector_eq.
  unfold proxy_spec. case_bool_decide as Hs.
  - rewrite decide_True by done. change (1 =? 0) with false. cbv iota. evm_jump.
    do 7 evm_step. constructor. intros g. evm_step. unfold calls.
    change (mem_ok 0 0) with true. change (mem_ok 0 32) with true. cbn [andb].
    change (mem_get _ 0 0) with (@nil byte).
    rewrite address_of_bytes by done. constructor. intros ok ret. cbn [pc stack mem rdata Nat.add].
    do 2 evm_step. change (mem_ok 0 32) with true. cbv iota. unfold mem_get. cbn [mem].
    change (Z.to_nat 0) with 0%nat. change (Z.to_nat 32) with 32%nat. rewrite bytes_at_written.
    do 2 evm_step. evm_jump.
    apply (delegation_runs _ cx _ _ _ _ _ Hf' Hcd). lia.
  - rewrite decide_False by done. change (0 =? 0) with true. cbv iota.
    do 2 evm_step. evm_jump. do 3 evm_step. constructor. intros w.
    apply (delegation_runs _ cx _ _ _ _ _ Hf' Hcd). lia.
Qed.

(** C23: the creation code that addresses are derived from deploys the account
    proxy, and the proxy delegates: a call of [migrate] goes to the address
    its beacon answers an empty call with, any other call to the address in
    the implementation slot of EIP-1967; the whole calldata is passed, and the
    answer, or the error, is passed back. Nothing is stored and no other call
    is made. *)
Theorem proxy_bytecode factory cx n :
  length factory = 20%nat → Z.of_nat (length (ctx_data cx)) ≤ max_memory → (48 ≤ n)%nat →
  run keccak (proxy_init_code factory) cx n start ≈ Halt (Returned (proxy_runtime factory))
  ∧ run keccak (proxy_runtime factory) cx n start ≈ proxy_spec factory (ctx_data cx).
Proof.
  intros Hf Hcd Hn. split; [apply init_code_deploys; [done|lia]|by apply proxy_runs].
Qed.
End ProxyCode.

(** ** The proxy on the chain

    The proxies of Chain are what this bytecode does: with the proxy's own
    storage, and its beacon answering as the contract does where it runs the
    contract, the bytecode delegates to the implementation that [delegates]
    gives, and to whatever the beacon answers where [delegates] gives none. *)
Section OnChain.
Context `{SL : SdkLaws} (net : Network) (code_addr : address) (keccak : bytes → bytes).
#[local] Instance accounts_here : Deployed := accounts_deployed net code_addr.

(** EIP-1967 and what the SDK computes for it. *)
Class Eip1967 : Prop := slot_impl_value : SLOT_IMPL = implementation_slot.
Context {EI : Eip1967}.

(** A contract that runs answers the empty call with its implementation. *)
Lemma empty_call_answer e c f sender :
  runs (accounts c) f sender [] = true →
  invoke e f sender [] c
  = Ok (0, load c f SLOT_IMPL, emit_event (Invoked f sender []) c).
Proof.
  intros Hr. unfold invoke. rewrite Hr, (code_delegated net code_addr) by done. cbn. by destruct e.
Qed.

(** The storage of the proxy [a], and the answer of its beacon to the empty
    call, as the chain [c] gives them. *)
Record answers_of (c : chain) (a f : address) (ans : answers) : Prop := {
  ao_load s : length s = 32%nat → ans_load ans (be_val s) = be_val (load c a s);
  ao_beacon out c' : invoke EnvEnd f a [] c = Ok (0, out, c') →
    ans_call ans OpStatic (be_val f) 0 [] = (true, out)
}.

Lemma perform_delegate ans impl cd :
  perform ans (delegate_to impl cd)
  = let '(ok, r) := ans_call ans OpDelegate (address_of impl) 0 cd in
    ([(OpDelegate, address_of impl, 0, cd)], Some (passed_on ok r)).
Proof. cbn. by destruct (ans_call _ _ _ _ _). Qed.

Lemma impl_of_load c a acc :
  accounts c !! a = Some acc → length (load c a SLOT_IMPL) = 32%nat →
  address_of (be_val (load c a SLOT_IMPL)) = be_val (impl_of acc).
Proof. intros Ha Hl. rewrite be_val_low by done. unfold impl_of, load. by rewrite Ha. Qed.

(** [delegates] finds an implementation for [migrate] exactly when the beacon
    runs the contract. *)
Lemma delegates_migrate c a sender cd acc f :
  accounts c !! a = Some acc → beacon acc = Some f → take 4 cd = SEL_MIGRATE →
  match delegates code_addr (accounts c) a sender cd with
  | Some i => runs (accounts c) f a [] = true ∧ ∃ facc, accounts c !! f = Some facc ∧ i = impl_of facc
  | None => runs (accounts c) f a [] = false
  end.
Proof.
  intros Ha Hb Hcd. unfold delegates at 1. rewrite Ha. cbn. rewrite Hb, bool_decide_eq_true_2 by done.
  assert (upgrades code_addr (accounts c) f a [] = None) as Hu.
  { destruct (upgrades _ _ _ _ _) as [[w d]|] eqn:E; [|done].
    by apply upgrades_Some in E as (? & _ & _ & _ & Hs & _). }
  unfold contract_call. rewrite Hu, orb_false_r. unfold delegates.
  destruct (accounts c !! f) as [facc|] eqn:Hf; [|done]. cbn.
  unfold UpgradeableProxy_delegates. destruct (beacon facc).
  - rewrite (bool_decide_eq_false_2 ([] = SEL_MIGRATE)) by by rewrite SEL_MIGRATE_spec. cbn.
    case_bool_decide as Hc; [|by apply bool_decide_eq_false_2; congruence].
    split; [by rewrite Hc, bool_decide_eq_true_2|by exists facc].
  - case_bool_decide; [done|]. cbn. case_bool_decide as Hc; [|by apply bool_decide_eq_false_2; congruence].
    split; [by rewrite Hc, bool_decide_eq_true_2|by exists facc].
Qed.

(** The address a call ends at: the implementation the model gives, or what the
    beacon answered. *)
Definition reached (c : chain) (a sender : address) (cd : bytes) (f : address) (ans : answers) : Z :=
  match delegates code_addr (accounts c) a sender cd with
  | Some i => be_val i
  | None => address_of (be_val (bytes_at 0 32 (ans_call ans OpStatic (be_val f) 0 []).2))
  end.

(** The model marks exactly the calls it does not know to run the contract. *)
Lemma beacon_proxy_marks m a sender cd acc f :
  m !! a = Some acc → beacon acc = Some f →
  runs m a sender cd = bool_decide (delegates code_addr m a sender cd = Some code_addr)
  ∧ foreign m a sender cd = negb (bool_decide (delegates code_addr m a sender cd = Some code_addr)).
Proof.
  intros Ha Hb. cbn. unfold foreign_call, contract_call, UpgradeableProxy_reverts, upgrades.
  rewrite Ha. cbn. rewrite Hb. by rewrite !orb_false_r, andb_true_r.
Qed.

(** C24: the proxies of the chain model are what the deployed bytecode does.
    The bytecode of the account's proxy, run with the account's storage and
    with its beacon answering as the contract answers where it runs the
    contract, asks the beacon exactly for [migrate] and then ends in one
    delegate call with the same calldata, and returns or reverts with what
    that answers. The delegate call goes to the implementation that
    [delegates] gives; [delegates] gives none only for [migrate] when the
    beacon does not run the contract, and then the call goes to whatever the
    beacon answered. The model runs the contract exactly when [delegates]
    gives the contract's address, and marks every other call as one that runs
    other code on the account's storage. *)
Theorem proxy_delegates c a sender cd acc f ans cx n :
  accounts c !! a = Some acc → beacon acc = Some f → length f = 20%nat →
  length (load c a SLOT_IMPL) = 32%nat → length (load c f SLOT_IMPL) = 32%nat →
  answers_of c a f ans → ctx_data cx = cd → Z.of_nat (length cd) ≤ max_memory → (48 ≤ n)%nat →
  let to := reached c a sender cd f ans in
  perform ans (run keccak (proxy_runtime f) cx n start)
  = (let '(ok, r) := ans_call ans OpDelegate to 0 cd in
     ((if decide (take 4 cd = SEL_MIGRATE) then [(OpStatic, be_val f, 0, [])] else [])
        ++ [(OpDelegate, to, 0, cd)], Some (passed_on ok r)))
  ∧ (delegates code_addr (accounts c) a sender cd = None →
       take 4 cd = SEL_MIGRATE ∧ runs (accounts c) f a [] = false)
  ∧ runs (accounts c) a sender cd
    = bool_decide (delegates code_addr (accounts c) a sender cd = Some code_addr)
  ∧ foreign (accounts c) a sender cd
    = negb (bool_decide (delegates code_addr (accounts c) a sender cd = Some code_addr)).
Proof.
  intros Ha Hb Hf Hla Hlf [Hload Hbeacon] <- Hcd Hn. cbv zeta.
  pose proof (perform_proper ans _ _ (proxy_runs keccak f cx n Hf Hcd Hn)) as E. rewrite E.
  clear E. unfold proxy_spec, reached.
  change migrate_selector with (id [x8f; xd3; xab; x80]). unfold id. rewrite <-SEL_MIGRATE_spec.
  split; [|split; [|by eapply beacon_proxy_marks]];
    destruct (decide (take 4 (ctx_data cx) = SEL_MIGRATE)) as [Hm|Hm].
  - pose proof (delegates_migrate c a sender _ acc f Ha Hb Hm) as Hd. cbn [perform].
    destruct (delegates _ _ _ _ _) as [i|].
    + destruct Hd as (Hr & facc & Hfa & ->).
      rewrite (Hbeacon _ _ (empty_call_answer EnvEnd c f a Hr)), perform_delegate.
      assert (bytes_at 0 32 (load c f SLOT_IMPL) = load c f SLOT_IMPL) as -> by
        (rewrite <-Hlf; apply bytes_at_all).
      rewrite (impl_of_load c f facc Hfa Hlf). by destruct (ans_call ans OpDelegate _ _ _).
    + destruct (ans_call ans OpStatic _ _ _) as [ok r]. rewrite perform_delegate.
      by destruct (ans_call ans OpDelegate _ _ _).
  - cbn [perform]. rewrite Hload, <-slot_impl_value, perform_delegate by done.
    unfold delegates. rewrite Ha. cbn. rewrite Hb, bool_decide_eq_false_2 by done.
    rewrite (impl_of_load c a acc Ha Hla). by destruct (ans_call ans OpDelegate _ _ _).
  - intros Hd. split; [done|]. pose proof (delegates_migrate c a sender _ acc f Ha Hb Hm) as Hr.
    by rewrite Hd in Hr.
  - unfold delegates. rewrite Ha. cbn. by rewrite Hb, bool_decide_eq_false_2.
Qed.
End OnChain.
