(* ===== verification/Huff.v ===== *)
(** * Huff: the contracts written in assembly

    sol/SafetyRouter.huff and sol/LiteAccount.huff, instruction by instruction,
    with an assembler for their numbers and labels. Assembling the lite
    account gives the bytes that sol/LiteFactory.sol deploys. Run on the
    machine of Evm, the router does what [SafetyRouter_route] says. *)
From stdpp Require Import base numbers strings list.
From Stdlib Require Import Strings.Byte ZArith Lia.
From S2P Require Import Prelude GoStd Types External Client Evm ProxyCode.

(** ** The assembler *)

(** An instruction, a number, bytes, a label's definition and its use. *)
Inductive item :=
| Op (i : instr)
| Num (z : Z)
| Lit (b : bytes)
| At (l : string)
| To (l : string).

Definition opcode_of (i : instr) : byte :=
  match i with
  | STOP => x00 | ADD => x01 | SUB => x03 | EQ => x14 | ISZERO => x15 | SHR => x1c
  | KECCAK256 => x20 | ADDRESS => x30 | CALLER => x33 | CALLDATALOAD => x35
  | CALLDATASIZE => x36 | CALLDATACOPY => x37 | CODECOPY => x39 | RETURNDATASIZE => x3d
  | RETURNDATACOPY => x3e | EXTCODEHASH => x3f | MLOAD => x51 | MSTORE => x52
  | SLOAD => x54 | SSTORE => x55 | JUMP => x56 | JUMPI => x57 | GAS => x5a | JUMPDEST => x5b
  | DUP n => byte_of_Z (0x80 + Z.of_nat n) | SWAP n => byte_of_Z (0x8f + Z.of_nat n)
  | PUSH b => byte_of_Z (0x5f + Z.of_nat (length b))
  | CALL => xf1 | RETURN => xf3 | DELEGATECALL => xf4 | STATICCALL => xfa | REVERT => xfd
  | OTHER => xfe
  end.

Definition push (b : bytes) : bytes := opcode_of (PUSH b) :: b.

(** A number in as few bytes as it needs; none for zero. *)
Definition num_bytes (z : Z) : bytes :=
  if z =? 0 then [] else be_split (Z.to_nat (Z.log2 z / 8 + 1)) z.

Definition item_size (x : item) : nat :=
  match x with
  | Op _ | At _ => 1
  | Num z => S (length (num_bytes z))
  | Lit b => S (length b)
  | To _ => 3
  end.

Fixpoint offset_of (l : string) (p : list item) (n : nat) : nat :=
  match p with
  | [] => n
  | x :: p' =>
      if match x with At l' => bool_decide (l = l') | _ => false end then n
      else offset_of l p' (n + item_size x)
  end.

Definition emit (p : list item) (x : item) : bytes :=
  match x with
  | Op i => [opcode_of i]
  | Num z => push (num_bytes z)
  | Lit b => push b
  | At _ => [opcode_of JUMPDEST]
  | To l => push (be_split 2 (Z.of_nat (offset_of l p 0)))
  end.

Definition assemble (p : list item) : bytes := p ≫= emit p.

(** ** sol/SafetyRouter.huff *)
Definition SafetyRouter_MAIN : list item :=
  [Num 0; Op CALLDATALOAD;
   Op (DUP 0); Op EXTCODEHASH; Num router_codehash;
   Op EQ; Op ISZERO; To "FAIL"; Op JUMPI;
   Num 0x20; Op CALLDATASIZE; Op SUB; Num 0x20; Num 0; Op CALLDATACOPY;
   Num 0; Num 0; Num 0x20; Op CALLDATASIZE; Op SUB; Num 0; Num 0; Op (DUP 5); Op GAS; Op CALL;
   Op RETURNDATASIZE; Num 0; Num 0; Op RETURNDATACOPY;
   Op RETURNDATASIZE; Num 0; Op (DUP 2); To "SUCCESS"; Op JUMPI; Op REVERT;
   At "SUCCESS";
   Op RETURN;
   At "FAIL";
   Num 0x27e63c44; Num 0; Op MSTORE; Num 4; Num 0x1c; Op REVERT].

Definition SafetyRouter_code : bytes := Eval vm_compute in assemble SafetyRouter_MAIN.

(** ** sol/LiteAccount.huff, for an owner and an operator *)
Definition ADDR_SHA512 : Z := 0x2f6bc5ac6b08bf93bc6fc9be156449b676bf8bb2.
Definition ADDR_EDVERIFY : Z := 0xc3e443be2cfa4f41a5f5e4978d012847d355b419.
Definition STORAGE_ENABLED : Z := 0.
Definition STORAGE_NONCE : Z := 1.

Definition EDVERIFY : list item :=
  [Num 0; Num 0; Num 0xa0; Num 0; Num ADDR_EDVERIFY; Op GAS; Op STATICCALL].

Definition LiteAccount_MAIN (owner operator : bytes) : list item :=
  [Lit owner; Op CALLER; Op EQ; To "PRIVILEGED"; Op JUMPI;
   Num STORAGE_ENABLED; Op SLOAD; To "FALLBACK"; Op JUMPI;
   At "INTERNAL_ERR";
   Num 0xfe835e35;
   At "REVERT";
   Num 0; Op MSTORE; Num 4; Num 0x1c; Op REVERT;
   At "PRIVILEGED";
   Num 0; Op CALLDATALOAD; Num STORAGE_ENABLED; Op SSTORE;
   Num 0; Num 0; Op RETURN;
   At "FALLBACK";
   Num 0x40; Num 0x60; Num 0x64; Op (DUP 0); Op CALLDATASIZE; Op SUB;
   Op (DUP 3); Op CALLDATASIZE; Op SUB; Op (DUP 4); Num 0x20; Op CALLDATACOPY;
   Num 1; Num STORAGE_NONCE; Num 0; Op MSTORE; Num 0x11; Num 0x1f; Op KECCAK256; Op (DUP 0); Op SLOAD;
   To "INTERNAL_ERR"; Op JUMPI;
   Op SSTORE;
   Op ADDRESS; Num 0; Op MSTORE;
   Num 0; Num 0; Num 0x2c; Op CALLDATASIZE; Op SUB; Num 0x0c; Num ADDR_SHA512; Op GAS; Op STATICCALL;
   Op RETURNDATASIZE; Num 0; Num 0; Op RETURNDATACOPY;
   Lit operator; Op (DUP 5); Op MSTORE;
   Op (DUP 4); Num 0; Op (DUP 5); Op CALLDATACOPY]
  ++ EDVERIFY ++
  [Num 0xcba605a3; Op (DUP 1); Op ISZERO; To "REVERT"; Op JUMPI;
   Op (DUP 3); Op (DUP 5); Num 0; Op CALLDATACOPY;
   Num 0; Num 0; Op (DUP 5); Num 0; Num 0; Num 0x50; Op CALLDATALOAD; Op (DUP 11); Op SHR; Op GAS; Op CALL;
   Op RETURNDATASIZE; Num 0; Num 0; Op RETURNDATACOPY;
   Op RETURNDATASIZE; Num 0; Op (DUP 2); To "SUCCESS"; Op JUMPI; Op REVERT;
   At "SUCCESS";
   Op RETURN].

(** The constructor, and the code that deploys [MAIN]. *)
Definition LiteAccount_CONSTRUCTOR : list item := [Num 1; Num STORAGE_ENABLED; Op SSTORE].
Definition deployer (main : bytes) (before : nat) : list item :=
  [Num (Z.of_nat (length main)); Op (DUP 0); Num (Z.of_nat before); Op RETURNDATASIZE; Op CODECOPY;
   Op RETURNDATASIZE; Op RETURN].
Definition LiteAccount_init (owner operator : bytes) : bytes :=
  let main := assemble (LiteAccount_MAIN owner operator) in
  assemble LiteAccount_CONSTRUCTOR ++ assemble (deployer main 13) ++ main.

(** ** sol/LiteFactory.sol: the creation code of [create] *)
Definition LiteFactory_code (owner operator : bytes) : bytes :=
  hex_lit "60015f5560ec80600d3d393df373" ++ owner
  ++ hex_lit "331461002f575f54610037575b63fe835e355b5f526004601cfd5b5f355f555f5ff35b60406060606480360383360384602037600160015f526011601f2080546100215755305f525f5f602c3603600c732f6bc5ac6b08bf93bc6fc9be156449b676bf8bb25afa3d5f5f3e7f"
  ++ operator
  ++ hex_lit "8552845f85375f5f60a05f73c3e443be2cfa4f41a5f5e4978d012847d355b4195afa63cba605a381156100275783855f375f5f855f5f6050358b1c5af13d5f5f3e3d5f826100ea57fd5bf3".

(** The factory's bytes are the assembled lite account. *)
Lemma LiteFactory_assembled owner operator :
  length owner = 20%nat → length operator = 32%nat →
  LiteFactory_code owner operator = LiteAccount_init owner operator.
Proof.
  intros Ho Hp. explode owner Ho. explode operator Hp. vm_compute. reflexivity.
Qed.

(** ** The router *)
Section Router.
Context (keccak : bytes → bytes).

Definition router_spec (cd : bytes) : host :=
  let word := bytes_at 0 32 cd in
  HCodeHash (be_val (drop 12 word)) (λ h,
    if h =? router_codehash then
      if decide (32 ≤ length cd)%nat
      then HGas (λ g, HCall OpCall g (be_val (drop 12 word)) 0 (drop 32 cd)
                        (λ ok r, Halt (passed_on ok r)))
      else Halt Failed
    else Halt (RevertedWith (be_split 4 0x27e63c44))).

Lemma router_runs cx n :
  Z.of_nat (length (ctx_data cx)) ≤ max_memory → (48 ≤ n)%nat →
  run keccak SafetyRouter_code cx n start ≈ router_spec (ctx_data cx).
Proof.
  intros Hcd [k ->]%Nat.le_sum. change (48 + k)%nat with (S (47 + k)). unfold start.
  set (code := SafetyRouter_code). unfold SafetyRouter_code in code.
  do 4 evm_step. rewrite calldata_word by done. change (Z.to_nat 0) with 0%nat.
  set (w := bytes_at 0 32 (ctx_data cx)).
  assert (length w = 32%nat) as Hw by apply length_resize. rewrite be_val_low by done.
  unfold router_spec. fold w. constructor. intros h.
  do 2 evm_step.
  match goal with |- context [?x =? h] => change x with router_codehash end.
  rewrite (Z.eqb_sym router_codehash). destruct (h =? router_codehash).
  - do 9 evm_step. case_decide as Hl.
    + set (d := drop 32 (ctx_data cx)).
      assert (word256 (Z.of_nat (length (ctx_data cx)) - 32) = Z.of_nat (length d)) as Hsize.
      { rewrite word256_small by (unfold max_memory in Hcd; lia). unfold d. rewrite length_drop. lia. }
      assert (mem_ok 0 (Z.of_nat (length d)) = true) as Hm.
      { apply mem_ok_small; [done|]. unfold d. rewrite length_drop. lia. }
      rewrite Hsize. change 32 with (Z.of_nat 32). unfold d. rewrite copies_from by done. fold d.
      cbn [pc rdata mem Nat.add].
      do 9 evm_step. rewrite Hsize. constructor. intros g. evm_step. unfold calls.
      rewrite Hm. change (mem_ok 0 0) with true. cbn [andb].
      erewrite mem_get_head by done. rewrite be_val_low by done. constructor. intros ok ret.
      cbn [pc stack mem rdata Nat.add]. set (m' := mem_write _ _ _). evm_pass_on ok ret.
    + unfold copies. rewrite mem_ok_wrapped by lia. constructor.
  - do 3 evm_step. evm_jump. do 4 evm_step. change (mem_ok 0 32) with true. cbv iota.
    do 3 evm_step. change (mem_ok 28 4) with true. cbv iota. constructor.
Qed.

(** C29: the assembled safety router does what the model of it says: it checks
    the code hash of the address in the first word, and calls the address with
    the rest of its calldata and nothing else, passing the answer on; if the
    hash is another one it reverts with the error of the source and calls
    nobody. *)
Theorem router_bytecode extcodehash ans cx n :
  (∀ a, length a = 20%nat → ans_hash ans (be_val a) = extcodehash a) →
  Z.of_nat (length (ctx_data cx)) ≤ max_memory → (48 ≤ n)%nat →
  perform ans (run keccak SafetyRouter_code cx n start)
  = match SafetyRouter_route extcodehash (ctx_data cx) with
    | Some (Ok (a, d)) =>
        let '(ok, r) := ans_call ans OpCall (be_val a) 0 d in
        ([(OpCall, be_val a, 0, d)], Some (passed_on ok r))
    | Some (Err e) => ([], Some (RevertedWith e))
    | _ => ([], Some Failed)
    end.
Proof.
  intros Hash Hcd Hn. rewrite (router_runs cx n Hcd Hn). unfold router_spec, SafetyRouter_route.
  assert (take 32 (ctx_data cx ++ zeros 32) = bytes_at 0 32 (ctx_data cx)) as -> by apply take_zeros.
  set (w := bytes_at 0 32 (ctx_data cx)).
  assert (length w = 32%nat) as Hl by apply length_resize.
  assert (length (drop 12 w) = 20%nat) as Hw by (rewrite length_drop; lia).
  cbn [perform]. rewrite Hash by done. destruct (extcodehash (drop 12 w) =? router_codehash); [|done].
  destruct (decide (32 ≤ length (ctx_data cx))%nat); [|done]. cbn [perform].
  by destruct (ans_call ans OpCall _ _ _).
Qed.
End Router.
