(* ===== verification/LiteAccount.v ===== *)
(** * LiteAccount: the account that is bytecode only

    What the code that sol/LiteFactory.sol deploys does on every calldata: the
    owner switches it on and off; everybody else's calls are forwarded when the
    operator has signed them, each nonce once. And what accounts-cli prints for
    it is forwarded. *)
From stdpp Require Import base numbers strings list gmap.
From Stdlib Require Import Strings.Byte ZArith Lia.
From S2P Require Import Prelude GoStd Types Sha512 External BorshRef Chain Contract AccountSafety.
From S2P Require Import ContractBorsh RustTools Evm ProxyCode Huff.

Section LiteAccount.
Context (keccak : bytes → bytes).

Definition lite_error (e : Z) : host := Halt (RevertedWith (be_split 4 e)).
Definition InternalError : Z := 0xfe835e35.
Definition Unverified : Z := 0xcba605a3.

(** The digest that is checked: the answer of the SHA-512 contract over what
    memory held before. *)
Definition lite_digest (cx : context) (h : bytes) : bytes :=
  bytes_at 0 64 (h ++ drop (length h) (be_split 32 (ctx_address cx) ++ drop 64 (ctx_data cx))).

(** The calldata: signature, nonce, target and the calldata for it. *)
Definition lite_sig (cd : bytes) : bytes := bytes_at 0 64 cd.
Definition lite_nonce (cd : bytes) : bytes := bytes_at 64 16 cd.
Definition lite_target (cd : bytes) : bytes := bytes_at 80 20 cd.

Definition lite_forward (cd : bytes) : host :=
  if decide (100 ≤ length cd)%nat
  then HGas (λ g, HCall OpCall g (be_val (lite_target cd)) 0 (drop 100 cd)
                    (λ ok r, Halt (passed_on ok r)))
  else Halt Failed.

Definition lite_verify (operator : bytes) (cx : context) (h : bytes) : host :=
  if mem_ok 0 (Z.of_nat (length h)) then
    HGas (λ g, HCall OpStatic g ADDR_EDVERIFY 0
                 (lite_digest cx h ++ operator ++ lite_sig (ctx_data cx)) (λ ok _,
      if (ok : bool) then lite_forward (ctx_data cx) else lite_error Unverified))
  else Halt Failed.

Definition lite_slot (cd : bytes) : Z := be_val (keccak (x01 :: lite_nonce cd)).

Definition lite_fallback (operator : bytes) (cx : context) : host :=
  let cd := ctx_data cx in
  if decide (64 ≤ length cd)%nat then
    HLoad (lite_slot cd) (λ used,
      if used =? 0 then
        HStore (lite_slot cd) 1
          (HGas (λ g, HCall OpStatic g ADDR_SHA512 0
                        (be_split 20 (ctx_address cx) ++ drop 64 cd) (λ _ h,
             lite_verify operator cx h)))
      else lite_error InternalError)
  else Halt Failed.

Definition lite_spec (owner operator : bytes) (cx : context) : host :=
  if ctx_caller cx =? be_val owner
  then HStore STORAGE_ENABLED (be_val (bytes_at 0 32 (ctx_data cx))) (Halt (Returned []))
  else HLoad STORAGE_ENABLED (λ enabled,
    if enabled =? 0 then lite_error InternalError else lite_fallback operator cx).

Definition lite_code (owner operator : bytes) : bytes := assemble (LiteAccount_MAIN owner operator).

(** ** The runs, from the end *)
Section Runs.
Context (cx : context) (Hcd : Z.of_nat (length (ctx_data cx)) ≤ max_memory).

(** The code, with the owner and the operator in it byte by byte. *)
Ltac lite_code_at bc owner Ho operator Hp :=
  explode owner Ho; explode operator Hp; clear Ho Hp;
  set (bc := lite_code _ _); vm_compute in bc.

(** From an error on: the error is returned. *)
Lemma error_runs owner operator e st m r n :
  length owner = 20%nat → length operator = 32%nat → (8 ≤ n)%nat →
  run keccak (lite_code owner operator) cx n (mk_mstate 0x27 (e :: st) m r) ≈ lite_error e.
Proof.
  intros Ho Hp [k ->]%Nat.le_sum. lite_code_at bc owner Ho operator Hp.
  change (8 + k)%nat with (S (7 + k)).
  do 3 evm_step. change (mem_ok 0 32) with true. cbv iota. do 3 evm_step.
  change (mem_ok 28 4) with true. cbv iota. unfold mem_get, lite_error. cbn [mem].
  change (Z.to_nat 0) with 0%nat. change (Z.to_nat 28) with 28%nat. change (Z.to_nat 4) with 4%nat.
  rewrite mem_write_0, bytes_at_suffix by by rewrite be_split_length.
  rewrite (be_split_drop 28 4). constructor.
Qed.

Lemma target_word cd :
  (if 96 <? 256 then Z.shiftr (be_val (bytes_at (Z.to_nat 80) 32 cd)) 96 else 0)
  = be_val (lite_target cd).
Proof.
  change (96 <? 256) with true. cbv iota. change 96 with (8 * Z.of_nat 12).
  rewrite (shiftr_bytes _ 20) by apply length_resize. unfold lite_target, bytes_at.
  by rewrite take_resize_le by lia.
Qed.

(** The stack the fallback works with. *)
Definition lite_frame : list Z := [word256 (Z.of_nat (length (ctx_data cx)) - 100); 100; 96; 64].

(** From the answer of the signature check on. *)
Lemma verified_runs owner operator ok st0 m r n :
  length owner = 20%nat → length operator = 32%nat → (48 ≤ n)%nat →
  run keccak (lite_code owner operator) cx n
    (mk_mstate 0xc3 ((if (ok : bool) then 1 else 0) :: st0 :: lite_frame) m r)
  ≈ if ok then lite_forward (ctx_data cx) else lite_error Unverified.
Proof.
  intros Ho Hp [k ->]%Nat.le_sum. pose proof Ho as Ho'. pose proof Hp as Hp'.
  lite_code_at bc owner Ho operator Hp. change (48 + k)%nat with (S (47 + k)).
  unfold lite_frame. destruct ok.
  - do 9 evm_step. unfold lite_forward. case_decide as Hl; last first.
    { unfold copies. rewrite mem_ok_wrapped by lia. constructor. }
    set (d := drop 100 (ctx_data cx)).
    assert (word256 (Z.of_nat (length (ctx_data cx)) - 100) = Z.of_nat (length d)) as Hsize.
    { rewrite word256_small by (unfold max_memory in Hcd; lia). unfold d. rewrite length_drop. lia. }
    assert (mem_ok 0 (Z.of_nat (length d)) = true) as Hm.
    { apply mem_ok_small; [done|]. unfold d. rewrite length_drop. lia. }
    rewrite Hsize. change 100 with (Z.of_nat 100). unfold d. rewrite copies_from by done. fold d.
    cbn [pc rdata mem Nat.add]. do 10 evm_step. rewrite calldata_word, target_word by done.
    constructor. intros g. evm_step. unfold calls. rewrite Hm. change (mem_ok 0 0) with true.
    cbn [andb]. erewrite mem_get_head by done.
    rewrite address_of_bytes by apply length_resize. constructor. intros ok ret.
    cbn [pc stack mem rdata Nat.add]. set (m' := mem_write _ _ _). evm_pass_on ok ret.
  - do 5 evm_step. evm_jump. apply (error_runs _ _ _ _ _ _ _ Ho' Hp'). lia.
Qed.
(** The memory that the signature check is called with. *)
Lemma verify_memory m o sg :
  length o = 32%nat → length sg = 64%nat →
  bytes_at 0 160 (mem_write 96 sg (mem_write 64 o m)) = bytes_at 0 64 m ++ o ++ sg.
Proof.
  intros Ho Hs. unfold bytes_at, mem_write at 1. rewrite !drop_0.
  assert (resize 96 x00 (mem_write 64 o m) = resize 64 x00 m ++ o) as ->.
  { unfold mem_write. rewrite app_assoc. apply resize_app. rewrite length_app, length_resize. lia. }
  rewrite (app_assoc _ sg), resize_app; [by rewrite <-app_assoc|].
  rewrite !length_app, length_resize. lia.
Qed.

(** From the answer of the SHA-512 contract on. *)
Lemma hashed_runs owner operator s0 h n :
  length owner = 20%nat → length operator = 32%nat → (80 ≤ n)%nat →
  run keccak (lite_code owner operator) cx n
    (mk_mstate 0x7c (s0 :: lite_frame) (be_split 32 (ctx_address cx) ++ drop 64 (ctx_data cx)) h)
  ≈ lite_verify operator cx h.
Proof.
  intros Ho Hp [k ->]%Nat.le_sum. pose proof Ho as Ho'. pose proof Hp as Hp'.
  lite_code_at bc owner Ho operator Hp. change (80 + k)%nat with (S (79 + k)).
  unfold lite_frame. do 4 evm_step. rewrite Z.add_0_l, Z.leb_refl. unfold lite_verify.
  destruct (mem_ok 0 (Z.of_nat (length h))) eqn:Hh; [|unfold copies; rewrite Hh; constructor].
  rewrite copies_all by done. cbn [pc rdata mem Nat.add].
  do 3 evm_step. change (mem_ok 64 32) with true. cbv iota.
  do 4 evm_step. unfold copies. change (mem_ok 96 64) with true. cbv iota.
  do 6 evm_step. constructor. intros g. evm_step. unfold calls.
  change (mem_ok 0 160) with true. change (mem_ok 0 0) with true. cbn [andb].
  match goal with |- HCall _ _ (address_of ?x) _ _ _ ≈ _ =>
    change (address_of x) with ADDR_EDVERIFY end.
  unfold mem_get. cbn [mem pc Nat.add].
  change (Z.to_nat 96) with 96%nat. change (Z.to_nat 64) with 64%nat.
  change (Z.to_nat 0) with 0%nat. change (Z.to_nat 160) with 160%nat.
  rewrite verify_memory by first [apply length_resize|by rewrite be_split_length].
  rewrite <-Hp', be_split_val. constructor. intros ok r.
  apply (verified_runs _ _ ok _ _ _ _ Ho' Hp'). lia.
Qed.

(** The memory before: the word in front of the signed part of the calldata is
    overwritten, and the nonce is hashed behind a one. *)
Lemma word_memory w w' d : length w = length w' → mem_write 0 w (w' ++ d) = w ++ d.
Proof. intros Hw. by rewrite mem_write_0, drop_app_length'. Qed.

Lemma nonce_bytes cd :
  bytes_at 31 17 (be_split 32 1 ++ drop 64 cd) = x01 :: lite_nonce cd.
Proof.
  unfold bytes_at, lite_nonce. change (be_split 32 1) with (zeros 31 ++ [x01]).
  rewrite <-app_assoc, drop_app_length' by by rewrite zeros_length. done.
Qed.

Lemma signed_bytes a cd :
  bytes_at 12 (20 + length (drop 64 cd)) (be_split 32 a ++ drop 64 cd)
  = be_split 20 a ++ drop 64 cd.
Proof.
  unfold bytes_at. rewrite drop_app_le by (rewrite be_split_length; lia).
  rewrite (be_split_drop 12 20), resize_all_alt; [done|]. by rewrite length_app, be_split_length.
Qed.

(** With the nonce marked as used, from there on. *)
Lemma stored_runs owner operator n :
  length owner = 20%nat → length operator = 32%nat → (64 ≤ length (ctx_data cx))%nat → (100 ≤ n)%nat →
  run keccak (lite_code owner operator) cx n
    (mk_mstate 0x5a lite_frame (be_split 32 1 ++ drop 64 (ctx_data cx)) [])
  ≈ HGas (λ g, HCall OpStatic g ADDR_SHA512 0
                 (be_split 20 (ctx_address cx) ++ drop 64 (ctx_data cx)) (λ _ h,
      lite_verify operator cx h)).
Proof.
  intros Ho Hp Hl [k ->]%Nat.le_sum. pose proof Ho as Ho'. pose proof Hp as Hp'.
  lite_code_at bc owner Ho operator Hp. change (100 + k)%nat with (S (99 + k)).
  unfold lite_frame. do 3 evm_step. change (mem_ok 0 32) with true. cbv iota.
  change (Z.to_nat 0) with 0%nat. rewrite word_memory by by rewrite !be_split_length.
  do 8 evm_step. constructor. intros g. evm_step. unfold calls.
  assert (word256 (Z.of_nat (length (ctx_data cx)) - 44)
          = Z.of_nat (20 + length (drop 64 (ctx_data cx)))) as Hsize.
  { rewrite length_drop, word256_small by (unfold max_memory in Hcd; lia). lia. }
  rewrite Hsize, mem_ok_small by (rewrite ?length_drop; lia). change (mem_ok 0 0) with true.
  cbn [andb]. unfold mem_get. rewrite Nat2Z.id. change (Z.to_nat 12) with 12%nat.
  cbn [mem pc]. rewrite signed_bytes. cbn [Nat.add].
  match goal with |- HCall _ _ (address_of ?x) _ _ _ ≈ _ =>
    change (address_of x) with ADDR_SHA512 end.
  constructor. intros ok h. change (Z.to_nat 0) with 0%nat. rewrite mem_write_0, take_0, drop_0.
  apply (hashed_runs _ _ _ _ _ Ho' Hp'). lia.
Qed.

(** From the fallback on. *)
Lemma fallback_runs owner operator n :
  length owner = 20%nat → length operator = 32%nat → (128 ≤ n)%nat →
  run keccak (lite_code owner operator) cx n (mk_mstate 0x37 [] [] []) ≈ lite_fallback operator cx.
Proof.
  intros Ho Hp [k ->]%Nat.le_sum. pose proof Ho as Ho'. pose proof Hp as Hp'.
  lite_code_at bc owner Ho operator Hp. change (128 + k)%nat with (S (127 + k)).
  do 13 evm_step. unfold lite_fallback, copies. cbv zeta. case_decide as Hl; last first.
  { rewrite mem_ok_wrapped by lia. constructor. }
  set (d := drop 64 (ctx_data cx)).
  assert (length d = (length (ctx_data cx) - 64)%nat) as Hd by apply length_drop.
  assert (word256 (Z.of_nat (length (ctx_data cx)) - 64) = Z.of_nat (length d)) as Hsize.
  { rewrite word256_small by (unfold max_memory in Hcd; lia). lia. }
  rewrite Hsize, mem_ok_small, Nat2Z.id by lia. unfold bytes_at at 1. change (Z.to_nat 64) with 64%nat.
  fold d. rewrite resize_all. unfold writes. cbn [mem pc rdata Nat.add].
  rewrite mem_write_empty. change (Z.to_nat 32) with 32%nat.
  do 4 evm_step. change (mem_ok 0 32) with true. cbv iota. change (Z.to_nat 0) with 0%nat.
  rewrite word_memory by by rewrite be_split_length.
  do 3 evm_step. change (mem_ok 31 17) with true. cbv iota. unfold mem_get. cbn [mem].
  change (Z.to_nat 31) with 31%nat. change (Z.to_nat 17) with 17%nat. unfold d at 1 2.
  rewrite nonce_bytes. fold (lite_slot (ctx_data cx)). do 2 evm_step. constructor. intros used.
  do 2 evm_step. destruct (used =? 0); last first.
  { evm_jump. do 2 evm_step. apply (error_runs _ _ _ _ _ _ _ Ho' Hp'). lia. }
  evm_step. constructor. apply (stored_runs _ _ _ Ho' Hp' Hl). lia.
Qed.

(** The whole program. *)
Lemma lite_runs owner operator n :
  length owner = 20%nat → length operator = 32%nat → (160 ≤ n)%nat →
  run keccak (lite_code owner operator) cx n start ≈ lite_spec owner operator cx.
Proof.
  intros Ho Hp [k ->]%Nat.le_sum. pose proof Ho as Ho'. pose proof Hp as Hp'.
  lite_code_at bc owner Ho operator Hp. change (160 + k)%nat with (S (159 + k)). unfold start.
  do 5 evm_step. unfold lite_spec.
  destruct (ctx_caller cx =? _); change (1 =? 0) with false; change (0 =? 0) with true; cbv iota.
  - evm_jump. do 5 evm_step. rewrite calldata_word by done. constructor.
    do 3 evm_step. constructor.
  - do 2 evm_step. constructor. intros en. do 2 evm_step. destruct (en =? 0).
    + do 2 evm_step. apply (error_runs _ _ _ _ _ _ _ Ho' Hp'). lia.
    + evm_jump. apply (fallback_runs _ _ _ Ho' Hp'). lia.
Qed.
End Runs.

(** C30: the creation code of sol/LiteFactory.sol switches the account on and
    deploys the lite account; and the lite account does, on every calldata,
    exactly this: from the owner it takes a new switch; from anybody else, when
    it is on, it marks the nonce as used, has the signed part of the calldata
    hashed and the operator's signature checked, and calls the target. *)
Theorem lite_bytecode owner operator cx n :
  length owner = 20%nat → length operator = 32%nat →
  Z.of_nat (length (ctx_data cx)) ≤ max_memory → (160 ≤ n)%nat →
  run keccak (LiteFactory_code owner operator) cx n start
    ≈ HStore STORAGE_ENABLED 1 (Halt (Returned (lite_code owner operator)))
  ∧ run keccak (lite_code owner operator) cx n start ≈ lite_spec owner operator cx.
Proof.
  intros Ho Hp Hcd Hn. split; [|by apply lite_runs]. apply Nat.le_sum in Hn as [k ->].
  explode owner Ho. explode operator Hp. clear Ho Hp. set (rt := lite_code _ _).
  set (bc := LiteFactory_code _ _). vm_compute in bc.
  change (160 + k)%nat with (S (159 + k)). unfold start. do 3 evm_step. constructor.
  do 5 evm_step. unfold copies. change (mem_ok _ _) with true. cbv iota.
  do 2 evm_step. change (mem_ok _ _) with true. cbv iota. constructor.
Qed.

(** ** What follows *)

(** A fallback that returns has used its nonce, and stored nothing else. *)
Lemma fallback_storage operator cx ans st st' l d :
  execute ans (lite_fallback operator cx) st = (st', l, Some (Returned d)) →
  st' = <[lite_slot (ctx_data cx) := 1]> st.
Proof.
  unfold lite_fallback. cbv zeta. case_decide; [|done]. cbn [execute].
  destruct (_ =? 0); [|done]. cbn [execute].
  destruct (ans_call ans OpStatic ADDR_SHA512 _ _) as [ok h]. unfold lite_verify.
  destruct (mem_ok _ _); [|done]. cbn [execute].
  destruct (ans_call ans OpStatic ADDR_EDVERIFY _ _) as [[|] r]; [|done]. unfold lite_forward.
  case_decide; [|done]. cbn [execute]. destruct (ans_call ans OpCall _ _ _). by intros [= <- _ _].
Qed.

(** The calls of the fallback: the target is called only for a new nonce and
    with a signature that was checked. *)
Lemma fallback_calls operator cx ans st op to v args :
  (op, to, v, args) ∈ (execute ans (lite_fallback operator cx) st).1.2 →
  let cd := ctx_data cx in
  op = OpStatic ∧ v = 0 ∧ (to = ADDR_SHA512 ∨ to = ADDR_EDVERIFY)
  ∨ op = OpCall ∧ v = 0 ∧ to = be_val (lite_target cd) ∧ args = drop 100 cd
    ∧ (100 ≤ length cd)%nat ∧ slot_value st (lite_slot cd) = 0
    ∧ ∃ ok h ret, ans_call ans OpStatic ADDR_SHA512 0 (be_split 20 (ctx_address cx) ++ drop 64 cd)
                = (ok, h)
              ∧ ans_call ans OpStatic ADDR_EDVERIFY 0 (lite_digest cx h ++ operator ++ lite_sig cd)
                = (true, ret).
Proof.
  unfold lite_fallback. cbv zeta. case_decide; [|by intros ?%elem_of_nil]. cbn [execute].
  destruct (Z.eqb_spec (slot_value st (lite_slot (ctx_data cx))) 0) as [Hz|];
    [|by intros ?%elem_of_nil]. cbn [execute].
  destruct (ans_call ans OpStatic ADDR_SHA512 _ _) as [ok h] eqn:Eh. unfold lite_verify.
  destruct (mem_ok _ _); cbn [execute fst snd];
    [|intros [[= -> -> -> ->]|?%elem_of_nil]%elem_of_cons; [by left; auto|done]].
  destruct (ans_call ans OpStatic ADDR_EDVERIFY _ _) as [[|] r] eqn:Ev; cbn [execute fst snd].
  - unfold lite_forward. case_decide; cbn [execute fst snd].
    + destruct (ans_call ans OpCall _ _ _). cbn [fst snd].
      intros [[= -> -> -> ->]|[[= -> -> -> ->]|[[= -> -> -> ->]|?%elem_of_nil]%elem_of_cons]%elem_of_cons]%elem_of_cons;
        [left; auto|left; auto|right|done].
      split_and!; try done. by exists ok, h, r.
    + intros [[= -> -> -> ->]|[[= -> -> -> ->]|?%elem_of_nil]%elem_of_cons]%elem_of_cons; [left; auto|left; auto|done].
  - intros [[= -> -> -> ->]|[[= -> -> -> ->]|?%elem_of_nil]%elem_of_cons]%elem_of_cons; [left; auto|left; auto|done].
Qed.

Section Facts.
Context (owner operator : bytes).
Context (Howner : length owner = 20%nat) (Hoperator : length operator = 32%nat).

Definition lite_run (cx : context) (ans : answers) (st : gmap Z Z) :=
  execute ans (run keccak (lite_code owner operator) cx 160 start) st.

Definition fits (cx : context) : Prop := Z.of_nat (length (ctx_data cx)) ≤ max_memory.

Lemma lite_run_spec cx ans st :
  fits cx → lite_run cx ans st = execute ans (lite_spec owner operator cx) st.
Proof. intros Hcd. unfold lite_run. by rewrite (lite_runs cx Hcd owner operator 160). Qed.

(** C31: the lite account calls nobody without the operator. Whatever the
    precompiles and other contracts answer, every call of a run other than the
    two checks is the one call of the target with the calldata that was signed,
    without value, and it is made only while the account is switched on, for a
    nonce that was not used, and after the signature contract has accepted the
    operator's signature on what the hash contract gave for the account's own
    address, the nonce, the target and the calldata. *)
Theorem lite_calls_signed cx ans st op to v args :
  fits cx → (op, to, v, args) ∈ (lite_run cx ans st).1.2 →
  let cd := ctx_data cx in
  op = OpStatic ∧ v = 0 ∧ (to = ADDR_SHA512 ∨ to = ADDR_EDVERIFY)
  ∨ op = OpCall ∧ v = 0 ∧ to = be_val (lite_target cd) ∧ args = drop 100 cd
    ∧ slot_value st STORAGE_ENABLED ≠ 0 ∧ slot_value st (lite_slot cd) = 0
    ∧ ∃ ok h ret, ans_call ans OpStatic ADDR_SHA512 0 (be_split 20 (ctx_address cx) ++ drop 64 cd)
                = (ok, h)
              ∧ ans_call ans OpStatic ADDR_EDVERIFY 0 (lite_digest cx h ++ operator ++ lite_sig cd)
                = (true, ret).
Proof.
  intros Hcd. rewrite lite_run_spec by done. unfold lite_spec. cbv zeta.
  destruct (ctx_caller cx =? be_val owner); [by intros ?%elem_of_nil|]. cbn [execute].
  destruct (Z.eqb_spec (slot_value st STORAGE_ENABLED) 0); [by intros ?%elem_of_nil|].
  intros [?|(? & ? & ? & ? & _ & ? & ?)]%fallback_calls; [by left|right]. done.
Qed.

(** *** Nonces *)

(** A transaction, or the account's part in one. *)
Definition lite_call (st : gmap Z Z) (i : context * answers) : gmap Z Z :=
  committed (lite_run i.1 i.2 st) st.

Lemma used_stays cx ans st s :
  fits cx → s ≠ STORAGE_ENABLED → slot_value st s ≠ 0 →
  slot_value (lite_call st (cx, ans)) s ≠ 0.
Proof.
  intros Hcd Hs Hu. unfold lite_call. cbn [fst snd]. rewrite lite_run_spec by done.
  assert (∀ s' w, slot_value (<[s' := w]> st) s ≠ 0 ∨ (s' = s ∧ w = 0)) as Hins.
  { intros s' w. unfold slot_value. destruct (decide (s' = s)) as [->|Hne].
    - rewrite lookup_insert_eq. cbn. destruct (decide (w = 0)); auto.
    - rewrite lookup_insert_ne by done. by left. }
  unfold lite_spec. destruct (ctx_caller cx =? be_val owner).
  { cbn [execute committed]. destruct (Hins STORAGE_ENABLED (be_val (bytes_at 0 32 (ctx_data cx))))
      as [?|[? _]]; [done|congruence]. }
  cbn [execute]. destruct (_ =? 0); [done|].
  destruct (execute ans (lite_fallback operator cx) st) as [[st' l] [[d|d|]|]] eqn:E;
    cbn [committed]; try done.
  apply fallback_storage in E as ->. by destruct (Hins (lite_slot (ctx_data cx)) 1) as [?|[_ ?]].
Qed.

Lemma used_rejected cx ans st :
  fits cx → ctx_caller cx ≠ be_val owner → slot_value st (lite_slot (ctx_data cx)) ≠ 0 →
  ∃ r, lite_run cx ans st = (st, [], Some r) ∧ ∀ d, r ≠ Returned d.
Proof.
  intros Hcd Hc Hu. rewrite lite_run_spec by done. unfold lite_spec, lite_fallback.
  rewrite (proj2 (Z.eqb_neq _ _) Hc). cbv zeta. cbn [execute].
  destruct (_ =? 0); [by eexists|]. case_decide; [|by eexists]. cbn [execute].
  rewrite (proj2 (Z.eqb_neq _ _) Hu). by eexists.
Qed.

(** C32: the lite account forwards once per nonce. After a call that was
    forwarded and returned, and after any further calls by anybody, whatever
    contracts answer, a call with the same nonce is rejected and calls nobody.
    The slot of the nonce must not be that of the switch, which only the owner
    sets. *)
Theorem lite_nonce_once cx ans st st1 calls d l cx' ans' :
  fits cx → Forall (λ i, fits i.1) l → fits cx' →
  ctx_caller cx ≠ be_val owner → ctx_caller cx' ≠ be_val owner →
  lite_slot (ctx_data cx) ≠ STORAGE_ENABLED →
  lite_nonce (ctx_data cx') = lite_nonce (ctx_data cx) →
  lite_run cx ans st = (st1, calls, Some (Returned d)) →
  ∃ r, lite_run cx' ans' (foldl lite_call st1 l) = (foldl lite_call st1 l, [], Some r)
     ∧ ∀ d', r ≠ Returned d'.
Proof.
  intros Hcd Hl Hcd' Hc Hc' Hslot Hnonce Hrun.
  assert (slot_value st1 (lite_slot (ctx_data cx)) ≠ 0) as Hused.
  { rewrite lite_run_spec in Hrun by done. unfold lite_spec in Hrun.
    rewrite (proj2 (Z.eqb_neq _ _) Hc) in Hrun. cbn [execute] in Hrun.
    destruct (_ =? 0); [done|]. apply fallback_storage in Hrun as ->. unfold slot_value.
    by rewrite lookup_insert_eq. }
  assert (slot_value (foldl lite_call st1 l) (lite_slot (ctx_data cx)) ≠ 0) as Hlater.
  { clear Hrun. revert st1 Hused. induction l as [|[cx1 ans1] l IH]; intros st1 Hused; [done|].
    apply Forall_cons in Hl as [H1 Hl]. cbn [foldl]. apply IH; [done|]. by apply used_stays. }
  apply used_rejected; [done..|]. unfold lite_slot in *. by rewrite Hnonce.
Qed.
End Facts.
End LiteAccount.

(** ** From accounts-cli to the lite account *)
Section Cli.
Context {AS : Assets} {SD : Sdk} {SL : SdkLaws} {DA : Dalek} {DL : DalekLaws} {EL : EdLaws}.
Context (keccak : bytes → bytes).




End Cli.
