(* ===== verification/Treasury.v ===== *)
(** * Treasury: the contracts that spend what accounts pay for gas
    (sol/MassSendArbitrum.sol, contract-clearinghouse)

    MassSendArbitrum splits what it is sent among a hundred fixed addresses.
    The clearinghouse prices assets in ether with a Uniswap quoter; its sale of
    what it holds is not written yet. *)
From stdpp Require Import base numbers strings list gmap.
From Stdlib Require Import Strings.Byte ZArith Lia.
From S2P Require Import Prelude GoStd Keccak Types Chain Contract.

(** ** sol/MassSendArbitrum.sol *)
Module MassSendArbitrum.

Definition addresses : list address :=
  [hex_lit "3e2950e26596d8dD0e3b894876bB4295268E19c2";
   hex_lit "FaC9b83E3c916046d65B37799751A1Bac307e20a";
   hex_lit "8Ff29119e1FcC27Fc3F1Ad614aBc56f4363fFBaf";
   hex_lit "27552C9c31a0709cC1EfF3bE80D55efFF6ab3218";
   hex_lit "eFe50605BC890eE0ed0D5DEfb09dAc4007bcAd09";
   hex_lit "a3247c15e46d76810C2Eba00e876CeF788786c6d";
   hex_lit "460EfB5f1874E3e1098C571cf660602e48B5A3D7";
   hex_lit "de9ca34184198D26cf6c3EE1D70242FBbC0479bf";
   hex_lit "8DC1EBFc8Fb0e599a0671B9d5e6Ef4989Cb6202d";
   hex_lit "2AAAE61561a5090732B5E2571734402404D04bcB";
   hex_lit "689c44c5E95459D94e05605a02601c306F0AF869";
   hex_lit "9D45800Bb804f844bBe48E5E271D019874481dCb";
   hex_lit "4972c172360dF15647238F458ab78F03Cb8f40d7";
   hex_lit "0e71c25a9CBE8aaCBbaC8066a0630216aC3e5DDf";
   hex_lit "CeE8F0A263e7e1A42e166c93e203acB67c049af8";
   hex_lit "2446DFeD464d377328B85bBBF8b5FBAa688cDF87";
   hex_lit "04F179bC3CF29EBC3489FB6038E1ff61B5986481";
   hex_lit "1163Bc615C53dc63Bab8773B2b2223c161141668";
   hex_lit "A4518E91b4738354aaf1E325d9169fa66a6f1658";
   hex_lit "82090d4400FA0B92C02b7096B1aCDFd8B62b556b";
   hex_lit "fC997d3298a84f57A3D6E61999FE779eCe331AbD";
   hex_lit "6680Db801281De6Ba9b5c0e50B3dc4BF331F6C22";
   hex_lit "C17FbCaF52Fd9061C68C3faD9d7F88D5816e2e81";
   hex_lit "077C5dfaC3221aDff2B84FB4d245000AA3bC0331";
   hex_lit "92f9CED097989885Ca325E6B96519295942b3FD8";
   hex_lit "37BcCBAD5B4e675194d02B393EAB56410b246443";
   hex_lit "28b088c5b35d5Aa05D62d511E28bba731E79f003";
   hex_lit "3c46108Da1a30A96C7dc97928b0DC36d1699D72F";
   hex_lit "2A87c51e853F86fDc4e585DDDf7A084fd480C385";
   hex_lit "F8578359192CF311083AFbd8C905d4c58F87680E";
   hex_lit "0e84EBE3f1b61d1EE07a866eD11F8264cAeac9C6";
   hex_lit "9fdb7f1A5a38f3f459995866939667427fa70EbE";
   hex_lit "88C2a9b758A403b2d277fe5609d3b57D293E9099";
   hex_lit "b4Ac8505B93ba4f158f4dd8C6154BB8e8D3A2CAf";
   hex_lit "ed684977dA60195c63829493f9588A9BC5a31d20";
   hex_lit "473c1249522Da9c20b7f708129fE83ABca2e1635";
   hex_lit "649eb15dA3D1268178d20f89C04c9096E7B042ac";
   hex_lit "fCcbFd35019642C2595657A73A4DB1B747Eb7A28";
   hex_lit "46Cc065eb7aa99Fc49Dd16830164fa872bC129AA";
   hex_lit "D4f1C7704A316141f6c175803c436F40B3C93309";
   hex_lit "422642d42Fd2a71c7F27C7c4637834B845281Dd6";
   hex_lit "AB5A90717BA559A888568D58d3541f9328f00247";
   hex_lit "eF56f364FAf417D8B564bb61E6036a82Aa67c52b";
   hex_lit "395628127A8f02ad3A68646F0A3252E326f021fc";
   hex_lit "26F1db91A07B124bAEdba9dC9691da1bFec4A114";
   hex_lit "037653F025eb5aA3Da4581a6FD6a6163208e451E";
   hex_lit "8bb85d156FB7cCf43F4f378fa351A94A1E76084e";
   hex_lit "5DDa53ABBbCDd8Febac5d0EEeBd28Fd264C77FF3";
   hex_lit "E6A188B0E70b2B137E6b5E2A0D4E0EB53A66996E";
   hex_lit "95940AA4C53a8EF817f4258C7342EF1501Bb98C6";
   hex_lit "42720b76f0b462C2B6e91F7b5722B44A94C5FaFe";
   hex_lit "0eeb5A016cDa6d5a0e348f8E6ba9eE01735E7d18";
   hex_lit "7906e652e3F28aaF97e6a95E73016c38a3F7dD64";
   hex_lit "58cFC69192792014d0Cd69e44C1a8FedB1b556Ee";
   hex_lit "A1a56Cc0EB6fAE00a7947dE240dc2d011f934fFe";
   hex_lit "5A82Feb3E8530C754cc7ea0a88554C62B744A6FB";
   hex_lit "2FA38592E640afD258e7DC6Af23cE7187EcCBEa4";
   hex_lit "F610B08c0A09Cc84b66043c308b415f4f690a338";
   hex_lit "1a2A3B2ACe615D6331f30ae381D865f82318eFdC";
   hex_lit "ACaC34D3AB2c9b5A0b3c795d28ADedd29475E5F3";
   hex_lit "87E0B162478c44508607977F4b8524ed915A4bc8";
   hex_lit "99FC9ae24d5aFE4e8daaa35397E9bB07555AFb47";
   hex_lit "af8C131791981ed8079652238830a198c38F444E";
   hex_lit "4593ec83B91b4dfA08CC88cB6f3ff5cEe6e00859";
   hex_lit "95Af7006d329803D9E42Eef8c0363D1A166496AB";
   hex_lit "B2B4B148414B9126D3Ca8f29063510CC80eC4538";
   hex_lit "5Da1d4DcdAc16ee1951D06D8f23d379eF5cB6EDB";
   hex_lit "5bDC17D94173365274fe770b4afAd9001F9D9EC5";
   hex_lit "549d71f7f38F9062E23f63842E2e8AcBc64817a0";
   hex_lit "Dcf949A01E4EadaFDFEE939e306448aD46adE427";
   hex_lit "97D618F9c2bA7Fa0F8066D60720F8fcB056e772A";
   hex_lit "Bda269e42fE1F05BcB7536a394A89994180Caf2b";
   hex_lit "5fc2e9a4a32E356EA8eaD2E8Ea4A6E058e042C81";
   hex_lit "EB0b87F29E4e87DCb99B1d82C84D3f49fb40BE0e";
   hex_lit "383b5B2C85614d87872Db55E20959aEE88A2BBec";
   hex_lit "dc579D7Ada98112e65DFC0466b5228b2e1216639";
   hex_lit "e788AE5f328D1AA3e2Cba6e679A7687FE456D8D9";
   hex_lit "bA0e8e4bB169597B6a39B2E94229036Fcea76437";
   hex_lit "91ef0C24bCEf479291DC1DD19ecbA0cdcD6e0427";
   hex_lit "a85B23050A539EFE83C46b44897030cf7821Df26";
   hex_lit "5132d930838f7adA7B99D416397F994a09C7a45a";
   hex_lit "2Cc7c2b48D646C109912F9878bf983E1c952bECA";
   hex_lit "9eE32a231C875271aa4e92D46C76D86485d6224c";
   hex_lit "633673eDD06611F5a07F061505bB2e23c27446c2";
   hex_lit "3ca501d95D8b05B59885F3786e9812811EBE44b0";
   hex_lit "B6e777dF7aDf09cf9930Dca8cBbE700C265D3299";
   hex_lit "325e1d688Fc79C9b46f9ac9bfb7d2E5548E074BF";
   hex_lit "054be355a4b8B41c067dE519294d4df33b62b9f5";
   hex_lit "862cB54B444Cf51f96F347979c0Aeae1177FB440";
   hex_lit "4b3502F2EC58D7fbe10aEbBa3562891aBaEc1935";
   hex_lit "10f388Da78A2f59B8c7e5c2aEc31B77bB05c890D";
   hex_lit "8E9b5f8fa5bA428E961dfBCCf27d819F00994240";
   hex_lit "8675de12Aa7e1eA552Ba44916B0947831409AA3F";
   hex_lit "f6E20F5b8dCF8eb632812fb50AaaEAc06388655e";
   hex_lit "Ba81De71F4045d47AC916d9CB211a6fd977c4c7a";
   hex_lit "631D7FA773FC7E3c586669C15f91F1Fe62cF0874";
   hex_lit "A81C287624E42a35ff5416cfC9aDAd2986f8F754";
   hex_lit "3261052F6BacA822e58Ce3344723C442596928d3";
   hex_lit "AE0533FEC5E73d2C68bA2bB020C7CD1Ca187C5DA";
   hex_lit "fd15367aBc3b20Bca8a213cb087b6715981Ea501"].

(** Balances in wei. *)
Abbreviation balances := (gmap address Z).
Definition balance (a : address) (b : balances) : Z := default 0 (b !! a).

(** Ether goes from [this] to [to]; the call fails without the funds. *)
Definition send (this to : address) (val : Z) (b : balances) : option balances :=
  if balance this b <? val then None
  else
    let b := <[this := balance this b - val]> b in
    Some (<[to := balance to b + val]> b).

Section Run.
(** What the code at an address does when it is paid, none when it reverts. *)
Context (this : address) (callee : address → balances → option balances).

Fixpoint send_all (val : Z) (l : list address) (b : balances) : outcome balances :=
  match l with
  | [] => Ok b
  | a :: l' =>
      match send this a val b ≫= callee a with
      | Some b' => send_all val l' b'
      | None => Err (lit "why did a contract revert")
      end
  end.

(** The value has been credited to the contract before its code runs. *)
Definition massSend (msg_value : Z) (b : balances) : outcome balances :=
  let val := msg_value / 100 in
  send_all val addresses b.
End Run.

(** *** Properties *)

Lemma addresses_distinct : NoDup addresses.
Proof. apply (bool_decide_unpack _). vm_compute. exact I. Qed.

Lemma addresses_hundred : length addresses = 100%nat.
Proof. done. Qed.

Lemma balance_insert a a' v b :
  balance a (<[a' := v]> b) = if decide (a' = a) then v else balance a b.
Proof.
  unfold balance. case_decide as E; [subst; by rewrite lookup_insert_eq|].
  by rewrite lookup_insert_ne.
Qed.

(** Nobody can take ether from the contract while it runs. *)
Definition spares (this : address) (callee : address → balances → option balances) : Prop :=
  ∀ a b b', callee a b = Some b' → balance this b ≤ balance this b'.

(** The funds never run out: when the payment fails, a recipient refused. *)
Lemma send_all_funded this callee val l b :
  spares this callee → 0 ≤ val → this ∉ l → val * Z.of_nat (length l) ≤ balance this b →
  (∃ b', send_all this callee val l b = Ok b')
  ∨ ∃ a b', a ∈ l ∧ callee a b' = None.
Proof.
  intros Hs Hv. revert b. induction l as [|a l IH]; intros b Hn Hb; cbn; [by left; exists b|].
  apply not_elem_of_cons in Hn as [Hne Hn]. cbn [length] in Hb.
  unfold send. rewrite (proj2 (Z.ltb_ge _ _)) by lia. cbn.
  set (b1 := <[a := _]> _). destruct (callee a b1) as [b2|] eqn:E.
  - destruct (IH b2 Hn) as [|(a' & b' & ? & ?)].
    + pose proof (Hs _ _ _ E) as Hle. enough (balance this b1 = balance this b - val) by lia.
      unfold b1. rewrite !balance_insert, decide_False, decide_True by done. done.
    + by left.
    + right. exists a', b'. split; [set_solver|done].
  - right. exists a, b1. split; [set_solver|done].
Qed.

Lemma send_all_pays this val l b :
  0 ≤ val → NoDup l → this ∉ l → val * Z.of_nat (length l) ≤ balance this b →
  ∃ b', send_all this (λ _, Some) val l b = Ok b'
      ∧ ∀ a, balance a b' = if decide (a = this) then balance this b - val * Z.of_nat (length l)
                            else if decide (a ∈ l) then balance a b + val else balance a b.
Proof.
  intros Hv. revert b. induction l as [|x l IH]; intros b Hnd Hn Hb.
  - exists b. split; [done|]. intros a. cbn. rewrite Z.mul_0_r, Z.sub_0_r.
    rewrite (decide_False (P := a ∈ [])) by apply not_elem_of_nil. case_decide; congruence.
  - apply NoDup_cons in Hnd as [Hx Hnd]. apply not_elem_of_cons in Hn as [Hne Hn].
    cbn [length] in Hb |- *. cbn [send_all]. unfold send.
    rewrite (proj2 (Z.ltb_ge _ _)) by lia. cbn.
    set (b1 := <[x := _]> _).
    assert (∀ a, balance a b1 = if decide (a = this) then balance this b - val
                                else if decide (a = x) then balance x b + val
                                else balance a b) as E1.
    { intros a. unfold b1. rewrite !balance_insert. repeat case_decide; congruence. }
    destruct (IH b1) as (b' & E & Hb'); [done..|rewrite E1, decide_True by done; lia|].
    exists b'. split; [done|]. intros a. rewrite Hb', !E1, (decide_True (P := this = this)) by done.
    destruct (decide (a = this)); [lia|]. repeat case_decide; set_solver.
Qed.

(** Splitting a payment. When every recipient accepts, each of the hundred
    addresses gets a hundredth of the value, rounded down, the remainder stays
    with the contract and nobody else's balance changes; and whatever the
    recipients do, it fails only when one of them refuses. *)
Theorem mass_send_splits this callee msg_value b :
  this ∉ addresses → 0 ≤ msg_value ≤ balance this b →
  (∃ b', massSend this (λ _, Some) msg_value b = Ok b'
     ∧ balance this b' = balance this b - msg_value + msg_value mod 100
     ∧ ∀ a, a ≠ this →
         balance a b' = balance a b + if decide (a ∈ addresses) then msg_value / 100 else 0)
  ∧ (spares this callee →
       (∃ b', massSend this callee msg_value b = Ok b')
       ∨ ∃ a b', a ∈ addresses ∧ callee a b' = None).
Proof.
  intros Hn Hv. pose proof (Z.div_mod msg_value 100) as Hdm.
  pose proof (Z.mod_pos_bound msg_value 100) as Hm.
  assert (0 ≤ msg_value / 100) as Hd by (apply Z.div_pos; lia).
  assert (msg_value / 100 * Z.of_nat (length addresses) ≤ balance this b) as Hle
    by (rewrite addresses_hundred; lia).
  split.
  - destruct (send_all_pays this _ addresses b Hd addresses_distinct Hn Hle) as (b' & E & Hb').
    exists b'. split; [done|]. split.
    + rewrite Hb', decide_True, addresses_hundred by done. lia.
    + intros a Ha. rewrite Hb', decide_False by done. case_decide; lia.
  - intros Hs. by apply send_all_funded.
Qed.
End MassSendArbitrum.

(** ** contract-clearinghouse *)
Module Clearinghouse.

(** [EvmCdU24], [EvmCdI24]: three bytes. *)
Inductive Entrypoint :=
| EstimateEthValueCheckAccountsUniswap (asset : Z) (fee tick_spacing : bytes) (amt : Z)
| CleanHouse (asset : Z) (fee tick_spacing : bytes) (min_amt : Z).

Record PoolKey := mk_PoolKey {
  currency0 : address;
  currency1 : address;
  pool_fee : bytes;
  pool_tick_spacing : bytes;
  hooks : address
}.

Record QuoteExactSingleParams := mk_Quote {
  pool_key : PoolKey;
  zero_for_one : bool;
  exact_amount : Z;
  hook_data : bytes
}.

Inductive feature := network_arbitrum | network_robinhood.

Definition UNISWAP_V4_QUOTER (f : feature) : address :=
  match f with
  | network_arbitrum => hex_lit "3972c00f7ed4885e145823eb7c655375d275a1c5"
  | network_robinhood => hex_lit "8dc178efb8111bb0973dd9d722ebeff267c98f94"
  end.

Section Clearinghouse.
Context `{Sdk}.
(** bobcat_sdk and superposition_assets: decoding of the calldata, the
    numbering of the assets, the two networks, the quoter's calldata, and a
    call that answers with a word. *)
Context (read_cd : bytes → option Entrypoint) (Asset_try_from : Z → option Asset)
  (network_of : feature → Network)
  (make_fn_quote_exact_input_zero_hooks : QuoteExactSingleParams → bytes)
  (call_word : address → bytes → Z → Z → prog (bool * word)).

Definition make_quote_calldata (asset : address) (fee tick_spacing : bytes) (amt : Z) : bytes :=
  make_fn_quote_exact_input_zero_hooks
    (mk_Quote (mk_PoolKey (zeros 20) asset fee tick_spacing (zeros 20)) false amt []).

(** [o.expect(why)]. *)
Definition expect {A} (o : option A) (why : string) : prog A :=
  match o with Some a => Return a | None => Panicked (lit why) end.

Definition user_entrypoint (f : feature) (args : bytes) : prog Z :=
  let! e := expect (read_cd args) "bad calldata" in
  match e with
  | EstimateEthValueCheckAccountsUniswap asset fee tick_spacing amt =>
      let! a := expect (Asset_try_from asset) "unknown asset" in
      let! asset_addr :=
        expect (Asset_addr a (network_of f)) "asset is not supported on this network" in
      let calldata := make_quote_calldata asset_addr fee tick_spacing amt in
      let! r := call_word (UNISWAP_V4_QUOTER f) calldata u64_MAX 32 in
      assert_ r.1 "failed to call Uniswap quoter" ;;;
      write_word r.2 ;;;
      Return 0
  | CleanHouse _ _ _ _ => Return 0
  end.

(** call_mass_send.rs. *)
Definition call_mass_send (addr : address) (amt : word) : prog bool :=
  let! r := do_call call_unit addr [x66; x4e; x01; x40] amt u64_MAX in
  Return (r_ok r).
End Clearinghouse.

(** Cleaning the house is documented to sell what the contract holds and to
    pay it out; it does nothing. *)
Lemma CleanHouse_does_nothing `{Sdk} read_cd try_from network_of quote call_word f args a fee ts m :
  read_cd args = Some (CleanHouse a fee ts m) →
  user_entrypoint read_cd try_from network_of quote call_word f args = Return 0.
Proof. intros E. unfold user_entrypoint. by rewrite E. Qed.

(** What the clearinghouse would call is [massSend()]. *)
Example mass_send_selector : take 4 (Keccak.keccak256 (lit "massSend()")) = [x66; x4e; x01; x40].
Proof. by vm_compute. Qed.
End Clearinghouse.
