(* ===== verification/RefContract.v ===== *)
(** * RefContract: an instance of the contract's interfaces

    A concrete SDK (left-padded words, a storage layout without collisions in
    place of the hash, a toy signature scheme that the toy signing program of
    Reference fits), with the laws of AccountSafety, RustTools and EndToEnd
    proved for it, and a deployment with an account. The witnesses of the
    theorems on the contract run on it. *)
From stdpp Require Import base numbers strings list gmap.
From Stdlib Require Import Strings.Byte ZArith Lia.
From S2P Require Import Prelude GoStd Types Sha512 External Keccak BorshRef Reference Chain Contract.
From S2P Require Import AccountSafety AccountCode ContractBorsh AccountRun AccountChain RustTools.
From S2P Require Import Proxy Ninelives Convertor ConvertorFacts Db World RefWorld Client Resolvers.
From S2P Require Import Utils ResolverFacts AccountFacts Creation EndToEnd Evm ProxyCode.

Definition ref_U_from (b : bytes) : word := zeros (32 - length b) ++ b.

(** Of a slot and a key, the slot's low byte and the key's low half. *)
Definition ref_hash (b : bytes) : word := x01 :: nth 31 b x00 :: zeros 14 ++ drop 48 b.

Definition abi_call (sel : Z) (args : list bytes) : bytes := be_split 4 sel ++ concat args.

Definition ref_read_words4 (l : bytes) : option (word * word * word * word) :=
  if decide (128 ≤ length l)%nat
  then Some (take 32 l, take 32 (drop 32 l), take 32 (drop 64 l), take 32 (drop 96 l))
  else None.

Definition ref_verify (d : bytes) (sig : bytes) : bool :=
  bool_decide (sig = sha512_Sum512 (hex_EncodeToString d)).

#[export] Instance ref_dalek : Dalek := {|
  sign_prehashed _ d := Some (sha512_Sum512 (hex_EncodeToString d));
  verifying_key k := k;
  const_hex_decode := hex_parse
|}.

#[export] Instance ref_dalek_laws : DalekLaws.
Proof.
  split.
  - intros k d _. eexists. split; [done|apply sha512_length].
  - apply hex_parse_encode.
Qed.

Section RefSdk.
(** Where proxies are created. *)
Context (at_ : address → init_code → bytes → address).

Definition ref_sdk_at : Sdk := {|
  Network := unit;
  Asset_addr a _ := Some (x03 :: zeros 18 ++ [a : byte]);
  c_Asset := c_u8;
  U_from := ref_U_from;
  U_from_u64 z := be_split 32 z;
  U_is_some w := bool_decide (w ≠ U_ZERO);
  U_addr w := drop 12 w;
  slot_map s k := ref_hash (s ++ k);
  reentrancy_slot _ := x03 :: zeros 31;
  const_slot_off_curve s :=
    if bool_decide (s = lit "eip1967.proxy.implementation") then implementation_slot
    else x02 :: byte_of_Z (Z.of_nat (length s)) :: zeros 30;
  const_keccak_sel s := take 4 (Keccak.keccak256 s);
  SEL_MIGRATE := [x8f; xd3; xab; x80];
  Contract.keccak256 := ref_hash;
  sha512 := sha512_Sum512;
  edphverify_pre m _ s := ref_verify (sha512_Sum512 m) s;
  edphverify_post d _ s := ref_verify d s;
  ecrecover_post _ _ r _ := Some (drop 12 r);
  make_fn_permit o s v d vv r ss :=
    abi_call 0xd505accf [ref_U_from o; ref_U_from s; v; d; ref_U_from [vv]; r; ss];
  make_fn_transfer_from f t v := abi_call 0x23b872dd [ref_U_from f; ref_U_from t; v];
  make_fn_approve s v := abi_call 0x095ea7b3 [ref_U_from s; v];
  make_fn_balance_of a := abi_call 0x70a08231 [ref_U_from a];
  read_words4 := ref_read_words4;
  reentrancy_guard_const_keccak _ m := guarded (x03 :: zeros 31) m;
  storage_exchange s old new :=
    let! w := storage_load s in
    if bool_decide (w = old) then storage_store s new ;;; Return true else Return false;
  flush_guard m := m;
  create2_pre_at := at_
|}.
#[local] Existing Instance ref_sdk_at.

Lemma ref_U_from_length b : (length b ≤ 32)%nat → length (ref_U_from b) = 32%nat.
Proof. intros Hb. unfold ref_U_from. rewrite length_app, zeros_length. lia. Qed.

Lemma ref_U_from_low a : length a = 20%nat → drop 12 (ref_U_from a) = a.
Proof. intros Ha. unfold ref_U_from. rewrite Ha. by rewrite drop_app_length'. Qed.

(** Timestamps only use the low half of the word. *)
Lemma ref_ts_half ts :
  length ts = 6%nat ∨ length ts = 16%nat →
  ref_U_from ts = zeros 16 ++ drop 16 (ref_U_from ts).
Proof.
  intros Ht. rewrite <-(take_drop 16 (ref_U_from ts)) at 1. f_equal. unfold ref_U_from.
  rewrite take_app_le by (rewrite zeros_length; lia).
  destruct Ht as [-> | ->]; by vm_compute.
Qed.

Lemma ref_slots_distinct n n' :
  valid_name n → valid_name n' → slot_at n = slot_at n' → n = n'.
Proof.
  intros Hn Hn' E. destruct n, n'; try done; try (vm_compute in E; discriminate E).
  destruct Hn as (ts & Hts & ->), Hn' as (ts' & Hts' & ->). f_equal. cbn [U_from ref_sdk_at].
  rewrite (ref_ts_half ts Hts), (ref_ts_half ts' Hts'). f_equal.
  cbn in E. by injection E.
Qed.

Lemma ref_sdk_at_laws : SdkLaws.
Proof.
  split.
  - by intros [] rest.
  - done.
  - apply ref_U_from_length.
  - intros a Ha E. rewrite <-(ref_U_from_low a Ha). cbn in E. by rewrite E.
  - apply ref_U_from_low.
  - apply ref_U_from_low.
  - done.
  - done.
  - done.
  - intros a b c d rest Ha Hb Hc Hd. cbn. unfold ref_read_words4.
    rewrite decide_True by (rewrite !length_app; lia).
    change 96%nat with (32 + (32 + 32))%nat. change 64%nat with (32 + 32)%nat.
    rewrite <-!drop_drop, (drop_app_length' a), (drop_app_length' b), (drop_app_length' c) by done.
    by rewrite !take_app_length' by done.
  - intros l a b c d. cbn. unfold ref_read_words4. case_decide; [|done]. intros [= _ _ <- _].
    rewrite length_take, length_drop. lia.
  - done.
  - done.
  - apply ref_slots_distinct.
Qed.

Lemma ref_ed_at_laws : EdLaws.
Proof. split; try done. intros k d s _ [= <-]. by apply bool_decide_eq_true. Qed.

Lemma ref_borsh_at_conforms : BorshConforms.
Proof.
  split; try done. intros a r. unfold request_of. cbv zeta.
  repeat match goal with
  | |- (if ?b then _ else _) = _ → _ =>
      let E := fresh in
      destruct b eqn:E;
      [apply Z.eqb_eq in E; intros [= <-]; cbn [borsh_Args ref_borsh]; unfold enc_Args;
       rewrite E; first [done|cbn; by rewrite <-!app_assoc]|clear E]
  end.
  done.
Qed.

End RefSdk.

(** The hash in place of which the layout stands has no collisions: proxies
    go to addresses that start with a one. *)
#[export] Instance ref_sdk : Sdk := ref_sdk_at (λ _ _ seed, x01 :: drop 1 seed).
#[export] Instance ref_sdk_laws : SdkLaws := ref_sdk_at_laws _.
#[export] Instance ref_ed_laws : EdLaws := ref_ed_at_laws _.
#[export] Instance ref_borsh_conforms : BorshConforms := ref_borsh_at_conforms _.

Definition ref_seed : bytes := replicate 32 x09.

Lemma ref_signer_runs_with k : length k = 32%nat → SignerRuns k.
Proof.
  intros Hk. split; [done|]. intros d s Hd. unfold dalek_ph_main. cbn. rewrite hex_parse_encode. cbn.
  unfold try_into. rewrite decide_True by done. cbn. rewrite hex_parse_encode. cbn.
  rewrite decide_True by done. cbn. by intros [= <-].
Qed.

#[export] Instance ref_signer_runs : SignerRuns ref_seed := ref_signer_runs_with ref_seed eq_refl.

(** ** A deployment with an account *)

Definition ref_factory : address := replicate 20 x05.
Definition ref_code : address := replicate 20 x06.
Definition ref_admin : address := replicate 20 x07.
Definition ref_owner : address := replicate 20 x0b.
Definition ref_relayer : address := replicate 20 x0c.
Definition ref_factory_key : word := replicate 32 x08.

Definition ref_net : Network := tt.

#[export] Instance ref_deployed : Deployed := accounts_deployed ref_net ref_code.

Lemma ref_deployment : deployment ref_code ref_admin ref_factory_key.
Proof. by split. Qed.

Definition ref_fresh : FreshBackwards :=
  mk_FreshBackwards ref_seed ref_owner x1b (zeros 12 ++ ref_owner) (zeros 32) [] None.
Definition ref_fresh_cd : bytes := Args_to_vec (Args_FreshBackwards ref_fresh).
Definition ref_fresh_env : env := EnvAnswer [] ok_reply (EnvRun EnvEnd ok_reply EnvEnd).

Definition ref_chain0 : chain := deployed ref_code ref_factory ref_admin ref_factory_key.
Definition ref_chain1 : chain :=
  settle (invoke ref_fresh_env ref_factory ref_relayer ref_fresh_cd ref_chain0) ref_chain0.

(** The account of the owner. *)
Definition ref_account : address := proxy_at ref_factory ref_owner.

Lemma ref_chain1_reachable : reachable ref_net ref_code ref_factory ref_admin ref_factory_key ref_chain1.
Proof. apply reachable_settle, reachable_deployed. Qed.

Example ref_chain1_accounts :
  (key_of <$> accounts ref_chain1 !! ref_account) = Some ref_seed
  ∧ (owner_of <$> accounts ref_chain1 !! ref_account) = Some ref_owner.
Proof. by vm_compute. Qed.

(** A solve signed with the account's key. *)
Definition ref_solve : SolveArgs :=
  mk_SolveArgs [] [mk_FromArgs (x00 : @Asset ref_assets) (be_split 32 5) (zeros 32)]
    (replicate 20 x0d) [x01; x02] (be_split 16 77).
Definition ref_solve_cd : bytes :=
  match sign_solve_args ref_seed ref_solve with
  | Ok s => Args_to_vec (Args_Solve [s])
  | _ => []
  end.
Definition ref_run2 : outcome (Z * bytes * chain) :=
  invoke (good_env 4) ref_account ref_relayer ref_solve_cd ref_chain1.

Example ref_run2_succeeds : succeeded ref_run2 = true.
Proof. by vm_compute. Qed.

(** ** Witnesses *)

(** A run known to succeed has a result. *)
Lemma succeeded_run (o : outcome (Z * bytes * chain)) :
  succeeded o = true → ∃ out c, o = Ok (0, out, c).
Proof. destruct o as [[[[| |] out] c]| | |]; try done. eauto. Qed.

Lemma request_roundtrip_witness :
  Args_deserialize (Args_to_vec (Args_FreshBackwards ref_fresh) ++ [x2a])
  = Some (Args_FreshBackwards ref_fresh, [x2a]).
Proof.
  refine (proj1 (request_roundtrip ref_account ref_relayer ref_net (Args_FreshBackwards ref_fresh)
                   [x2a] _)).
  unfold wf_request, wf_FreshBackwards. split_and!; try done; constructor.
Defined.

(** The chain after the solve, and the call of its target there. *)
Definition ref_chain2 : chain := settle ref_run2 ref_chain1.
Definition ref_target_call : call :=
  mk_call safe_call_unit (replicate 20 x0d) [x01; x02] U_ZERO u64_MAX.

Lemma ref_chain2_reachable : reachable ref_net ref_code ref_factory ref_admin ref_factory_key ref_chain2.
Proof. apply reachable_settle, ref_chain1_reachable. Qed.

Lemma ref_target_called : events ref_chain2 !! 6%nat = Some (Called ref_account ref_target_call).
Proof. by vm_compute. Qed.

Lemma account_calls_authorised_witness :
  ∃ acc, accounts ref_chain2 !! ref_account = Some acc
       ∧ authorised ref_net acc ref_account (take 6 (events ref_chain2)) ref_target_call.
Proof.
  apply (account_calls_authorised ref_net ref_code ref_factory ref_admin ref_factory_key ref_chain2
           (take 6 (events ref_chain2)) ref_account ref_target_call (drop 7 (events ref_chain2))
           ref_deployment ref_chain2_reachable).
  symmetry. exact (take_drop_middle _ _ _ ref_target_called).
Defined.

(** The solve, as decoded. *)
Definition ref_solve_args : Args :=
  match sign_solve_args ref_seed ref_solve with Ok s => Args_Solve [s] | _ => Args_Version end.

Lemma ref_solve_decodes : Args_deserialize ref_solve_cd = Some (ref_solve_args, []).
Proof. vm_compute. reflexivity. Qed.

Lemma ref_solve_timestamp : U_from (be_split 16 77) ∈ timestamps_of ref_solve_args.
Proof. apply (bool_decide_unpack _). vm_compute. exact I. Qed.

(** The solve cannot be sent again. *)
Lemma timestamp_works_once_witness :
  succeeded (invoke (good_env 4) ref_account ref_relayer ref_solve_cd ref_chain2) = false.
Proof.
  destruct (succeeded_run _ ref_run2_succeeds) as (out & c & E).
  unfold ref_chain2. rewrite E.
  exact (timestamp_works_once ref_net ref_code ref_factory ref_admin ref_factory_key ref_chain1
           (good_env 4) ref_account ref_relayer ref_solve_cd _ _ _ _ [] (good_env 4) ref_relayer
           ref_solve_cd _ _ _ ref_deployment ref_chain1_reachable E ref_solve_decodes
           ref_solve_timestamp ref_solve_decodes ref_solve_timestamp).
Defined.

(** Whoever has called an account is neither owner nor administrator of one. *)
Definition bystander (m : gmap address account) (e : Chain.event) : bool :=
  match e with
  | Invoked _ who _ | Foreign _ who _ =>
      forallb (λ x, negb (bool_decide (who = owner_of x.2)) && negb (bool_decide (who = admin_of x.2)))
        (map_to_list m)
  | _ => true
  end.

Lemma bystanders_unmoved m a l : forallb (bystander m) l = true → unmoved m a l.
Proof.
  intros Hl b acc _ Hb (who & cd & Hin & Hw).
  assert (bystander m (Invoked b who cd) = true) as Hby.
  { destruct Hin as [Hin|Hin]; apply list_elem_of_In in Hin;
      exact (proj1 (forallb_forall _ _) Hl _ Hin). }
  assert (In (b, acc) (map_to_list m)) as Hm
    by by apply list_elem_of_In, elem_of_map_to_list.
  pose proof (proj1 (forallb_forall _ _) Hby _ Hm) as Hne. cbn in Hne.
  apply andb_true_iff in Hne as [Ho%negb_true_iff%bool_decide_eq_false
                                Ha%negb_true_iff%bool_decide_eq_false].
  destruct Hw as [[_ ?]|(_ & ? & _)]; contradiction.
Qed.

Definition ref_solve_inv : invocation := Inv ref_account ref_relayer ref_solve_cd (good_env 4).

Lemma ref_bystanders :
  (forallb (bystander (accounts ref_chain1)) (events (invoke_all [ref_solve_inv] ref_chain1)),
   bool_decide (is_Some (accounts ref_chain1 !! ref_account))) = (true, true).
Proof. vm_compute. reflexivity. Qed.

(** The account's data after the solve. *)
Lemma accounts_keep_witness :
  ∃ acc acc', accounts ref_chain1 !! ref_account = Some acc
    ∧ accounts (invoke_all [ref_solve_inv] ref_chain1) !! ref_account = Some acc'
    ∧ key_of acc' = key_of acc.
Proof.
  destruct (proj1 (bool_decide_eq_true _) (f_equal snd ref_bystanders)) as [acc E].
  destruct (accounts_keep ref_net ref_code ref_factory ref_admin ref_factory_key ref_chain1
              ref_account acc [ref_solve_inv] ref_deployment ref_chain1_reachable E
              (bystanders_unmoved _ _ _ (f_equal fst ref_bystanders)))
    as (_ & acc' & E' & _ & Hk & _).
  exact (ex_intro _ acc (ex_intro _ acc' (conj E (conj E' Hk)))).
Defined.

Lemma ref_run1_succeeds :
  succeeded (invoke ref_fresh_env ref_factory ref_relayer ref_fresh_cd ref_chain0) = true.
Proof. by vm_compute. Qed.

Lemma ref_fresh_decodes : Args_deserialize ref_fresh_cd = Some (Args_FreshBackwards ref_fresh, []).
Proof. vm_compute. reflexivity. Qed.

Lemma new_account_made_witness :
  fresh_signed ref_fresh ∧ accounts ref_chain0 !! ref_account = None.
Proof.
  destruct (succeeded_run _ ref_run1_succeeds) as (out & c & E).
  destruct (new_account_made ref_net ref_code ref_factory ref_admin ref_factory_key ref_chain0
              ref_fresh_env ref_factory ref_relayer ref_fresh_cd out c ref_fresh []
              ref_deployment (reachable_deployed _ _ _ _ _) E ref_fresh_decodes) as (Hs & Hn & _).
  exact (conj Hs Hn).
Defined.

(** A gas payment without solves, signed with the account's key. *)
Definition ref_gas : SolveV3Args := mk_SolveV3Args [] (x00 : @Asset ref_assets) 9 None.
Definition ref_gas_sig : bytes :=
  sha512_Sum512 (hex_EncodeToString (sha512_Sum512 (enc b_SolveV3Args ref_gas))).
Definition ref_gas_cd : bytes := Args_to_vec (Args_SolveV3 ref_gas ref_gas_sig).

Lemma ref_gas_wf : wf_SolveV3Args ref_gas.
Proof.
  split; [done|]. split; [constructor|]. split; [|exact I]. unfold wf_u64. cbn. lia.
Qed.

Lemma ref_gas_runs : runs (accounts ref_chain1) ref_account ref_relayer ref_gas_cd = true.
Proof. by vm_compute. Qed.

Lemma ref_gas_outside : asset_outside ref_net (accounts ref_chain1) (x00 : @Asset ref_assets).
Proof. eexists. split; [exact eq_refl|by vm_compute]. Qed.

Lemma solve_v3_replays_witness :
  ∃ acc,
    invoke_all (replicate 3 (Inv ref_account ref_relayer ref_gas_cd (good_env 1))) ref_chain1
    = logged ref_chain1
        (concat (replicate 3 [Invoked ref_account ref_relayer ref_gas_cd;
                              Called ref_account (gas_payment ref_net acc ref_gas)])).
Proof.
  destruct (accounts ref_chain1 !! ref_account) as [acc|] eqn:E.
  - exists acc.
    refine (solve_v3_replays ref_net ref_code ref_account ref_relayer ref_gas ref_gas_sig ref_chain1
              acc 3 _ _ eq_refl eq_refl ref_gas_outside _ E ref_gas_runs).
    + exact ref_gas_wf.
    + vm_compute. reflexivity.
    + vm_compute. reflexivity.
  - exfalso. apply (f_equal (λ o, bool_decide (is_Some o))) in E. vm_compute in E. discriminate E.
Defined.

(** *** A mint from the server to the account *)

(** The chain where the caller's account is an account with the server's
    key. *)
Definition ref_mint_account : address := GetClientAddr (ref_addr x0f) (ref_addr x07).
Definition ref_mint_acc : account :=
  mk_account None (UpgradeableProxy_constructor ref_code ref_admin ref_seed).
Definition ref_mint_chain : chain := mk_chain {[ ref_mint_account := ref_mint_acc ]} [].

Lemma ref_mint_outside : asset_outside ref_net (accounts ref_mint_chain) AssetUsdc.
Proof. eexists. split; [exact eq_refl|by vm_compute]. Qed.

Lemma ref_permit_wf : model.wf_Permit ref_permit.
Proof. done. Qed.

Lemma ref_mint_runs b : runs (accounts ref_mint_chain) ref_mint_account (ref_addr x05) b = true.
Proof. by vm_compute. Qed.

Lemma ref_mint_can_solve solve :
  mint_spec AssetUsdc ref_market ref_outcome (lit "1000000") [] (ref_addr x07) (Some ref_permit)
    (lit "1700000000000") solve →
  can_solve ref_net ref_mint_account ref_mint_chain ref_mint_acc [solve].
Proof.
  intros (o & a & m & ref & ts & p & cd & _ & _ & Hm & _ & Hts & Hp & _ & ->).
  apply strToAddr_Ok in Hm. vm_compute in Hm, Hts. injection Hm as <-. injection Hts as <-.
  destruct p as [p|]; [|done]. destruct Hp as [Hp _].
  split; [apply lookup_singleton_eq|by vm_compute|by apply Forall_singleton|apply NoDup_singleton|].
  apply Forall_singleton. split; [by vm_compute|]. split_and!; cbn [SolveArgs_Permit SolveArgs_From].
  - apply Forall_singleton. rewrite Hp. exact ref_mint_outside.
  - apply Forall_singleton. split; [exact ref_mint_outside|apply zeros_length].
  - by vm_compute.
Qed.

Lemma mint_executed_witness :
  ∃ solve b,
    mint_spec AssetUsdc ref_market ref_outcome (lit "1000000") [] (ref_addr x07) (Some ref_permit)
      (lit "1700000000000") solve
    ∧ executed ref_net ref_code ref_mint_account (ref_addr x05) (ref_addr x07) (ref_addr x07)
        ref_mint_acc b ref_mint_chain [solve].
Proof.
  destruct (is_ok_run _ ref_mint_Ok) as (hash & w' & E).
  destruct (mint_executed ref_seed ref_net ref_code ref_resolver ref_user ref_model_mint None
              ref_world w' hash eq_refl ref_permit_wf eq_refl E eq_refl)
    as (eoa & solve & b & tx & signed & Heoa & Hs & _ & _ & _ & _ & Hx).
  injection Heoa as <-. exists solve, b. split; [exact Hs|].
  apply Hx; [exact (ref_mint_can_solve solve Hs)|vm_compute; reflexivity|].
  exact (ref_mint_runs b).
Defined.

(** *** A creation from the server to the factory *)

Definition ref_signed_create : model.CreateAccount :=
  model.mk_CreateAccount ref_market 28 (hex_EncodeToString (zeros 12 ++ ref_addr x05)) ref_word32 None.

Lemma ref_signed_create_Ok :
  is_ok (CreateAccountExec ref_resolver ref_no_ctx ref_signed_create (Some ref_model_mint) None
           ref_world).1 = true.
Proof. vm_compute. reflexivity. Qed.

Definition ref_maker : account :=
  mk_account None (UpgradeableProxy_constructor ref_code ref_admin ref_factory_key).
Definition ref_maker_chain : chain := mk_chain {[ ref_addr x0f := ref_maker ]} [].

Lemma ref_maker_runs b : runs (accounts ref_maker_chain) (ref_addr x0f) ref_relayer b = true.
Proof. by vm_compute. Qed.

Lemma ref_can_create f :
  creation_of ref_resolver ref_signed_create (Some ref_model_mint) f →
  can_create ref_net ref_code (ref_addr x0f) ref_relayer f ref_maker_chain ref_maker.
Proof.
  intros (f0 & (Ek & _ & Hau & _ & _ & [HR _] & _ & El) & Ee & s & -> & _ & Hs).
  destruct Hs as (o & a & m & ref & ts & p & cd & _ & _ & Hm & _ & Hts & Hp & _ & Es).
  destruct f0 as [key eoa v R S l [au|]]; [done|]. cbn in Ek, HR, El, Ee. subst key eoa l.
  apply strToAddr_Ok in Hm. vm_compute in Hm, Hts, HR. injection Hm as <-. injection Hts as <-.
  injection HR as <-. destruct p as [p|]; [|done]. destruct Hp as [Hp _].
  destruct s as [sg sa]. cbn in Es. subst sa.
  split; cbn [append_SolveArgs FreshBackwards_EoaAddr].
  - apply lookup_singleton_eq.
  - apply ref_maker_runs.
  - by vm_compute.
  - intros _. by vm_compute.
  - by vm_compute.
  - by vm_compute.
  - by vm_compute.
  - by vm_compute.
  - apply Forall_singleton. split_and!; cbn [SolveArgs_Permit SolveArgs_From SolveArgsSigArgs_Args].
    + apply Forall_singleton. rewrite Hp. eexists. split; [exact eq_refl|by vm_compute].
    + apply Forall_singleton. split; [|apply zeros_length].
      eexists. split; [exact eq_refl|by vm_compute].
    + by vm_compute.
Qed.

Lemma creation_executed_witness :
  ∃ f c' acc',
    creation_of ref_resolver ref_signed_create (Some ref_model_mint) f
    ∧ accounts c' !! proxy_at (ref_addr x0f) (HexToAddress ref_market) = Some acc'
    ∧ owner_of acc' = HexToAddress ref_market.
Proof.
  destruct (is_ok_run _ ref_signed_create_Ok) as (res & w' & E).
  pose proof (ref_signer_runs_with (AccPubKey ref_resolver) eq_refl) as Hsigner.
  destruct (creation_executed (DA := ref_dalek) (AccPubKey ref_resolver) ref_net ref_code
              ref_resolver ref_no_ctx ref_signed_create (Some ref_model_mint) None
              ref_world w' res ref_permit_wf eq_refl eq_refl eq_refl E eq_refl)
    as (f & tx & signed & Hf & _ & _ & _ & _ & Hx).
  destruct (Hx ref_relayer _ _ (ref_can_create f Hf)) as (n & c' & acc' & _ & _ & Ha & _ & _ & Ho).
  exists f, c', acc'. exact (conj Hf (conj Ha Ho)).
Defined.
