(* ===== verification/RefEvm.v ===== *)
(** * RefEvm: witnesses of the theorems on bytecode

    Concrete calldata, storage and answers for the proxy, the router and the
    lite account, on the instances of RefContract. *)
From stdpp Require Import base numbers strings list gmap.
From Stdlib Require Import Strings.Byte ZArith Lia.
From S2P Require Import Prelude GoStd Types Sha512 External Keccak Reference Proxy Client BorshRef.
From S2P Require Import Chain Contract AccountSafety RustTools Evm ProxyCode Huff LiteAccount.
From S2P Require Import RefContract.

(** ** The proxy *)

Lemma proxy_bytecode_witness :
  run keccak256 (proxy_runtime ref_factory) (mk_context 1 2 [x01; x02]) 48 start
  ≈ proxy_spec ref_factory [x01; x02].
Proof.
  refine (proj2 (proxy_bytecode keccak256 ref_factory (mk_context 1 2 [x01; x02]) 48
                   eq_refl _ (le_n _))).
  vm_compute. discriminate.
Defined.

#[export] Instance ref_eip1967 : Eip1967.
Proof. vm_compute. reflexivity. Qed.

(** The account's storage, and its beacon's answer. *)
Definition ref_answers : answers :=
  mk_answers (λ s, be_val (load ref_chain1 ref_account (be_split 32 s))) (λ _, 0) 0
    (λ op _ _ _, match op with
                 | OpStatic => (true, load ref_chain1 ref_factory SLOT_IMPL)
                 | _ => (true, [x2a])
                 end).

Lemma run_output_inj (n n' : Z) (o o' : bytes) (c c' : chain) :
  Ok (n, o, c) = Ok (n', o', c') → o = o'.
Proof. by intros [= _ -> _]. Qed.

Lemma ref_answers_of : answers_of ref_net ref_code ref_chain1 ref_account ref_factory ref_answers.
Proof.
  split.
  - intros s Hs. cbn [ans_load ref_answers]. by rewrite <-Hs, be_split_val.
  - intros out c' E. rewrite (empty_call_answer ref_net ref_code) in E by by vm_compute.
    apply run_output_inj in E as <-. done.
Qed.

Lemma ref_account_beacon : (beacon <$> accounts ref_chain1 !! ref_account) = Some (Some ref_factory).
Proof. by vm_compute. Qed.

Lemma ref_account_delegates :
  delegates ref_code (accounts ref_chain1) ref_account ref_relayer ref_solve_cd = Some ref_code.
Proof. by vm_compute. Qed.

Lemma ref_solve_cd_small : bool_decide (Z.of_nat (length ref_solve_cd) ≤ max_memory) = true.
Proof. by vm_compute. Qed.

Lemma proxy_delegates_witness :
  perform ref_answers
    (run keccak256 (proxy_runtime ref_factory) (mk_context 1 2 ref_solve_cd) 48 start)
  = ([(OpDelegate, be_val ref_code, 0, ref_solve_cd)], Some (passed_on true [x2a])).
Proof.
  pose proof ref_account_beacon as Hb.
  destruct (accounts ref_chain1 !! ref_account) as [acc|] eqn:Ha; [|discriminate Hb].
  injection Hb as Hb.
  destruct (proxy_delegates ref_net ref_code keccak256 ref_chain1 ref_account ref_relayer ref_solve_cd
           acc ref_factory ref_answers (mk_context 1 2 ref_solve_cd) 48 Ha Hb eq_refl
           ltac:(vm_compute; reflexivity) ltac:(vm_compute; reflexivity) ref_answers_of eq_refl
           (bool_decide_eq_true_1 _ ref_solve_cd_small) (le_n _)) as [E _].
  unfold reached in E. rewrite ref_account_delegates in E. exact E.
Defined.

(** ** The router *)

Definition ref_router_answers : answers :=
  mk_answers (λ _, 0) (λ _, router_codehash) 0 (λ _ _ _ _, (true, [x2a])).
Definition ref_router_cd : bytes := zeros 12 ++ ref_owner ++ [x07; x08].

Lemma router_bytecode_witness :
  perform ref_router_answers
    (run keccak256 SafetyRouter_code (mk_context 1 2 ref_router_cd) 48 start)
  = ([(OpCall, be_val ref_owner, 0, [x07; x08])], Some (Returned [x2a])).
Proof.
  refine (router_bytecode keccak256 (λ _, router_codehash) ref_router_answers
            (mk_context 1 2 ref_router_cd) 48 (λ _ _, eq_refl) _ (le_n _)).
  vm_compute. discriminate.
Defined.

(** ** The lite account *)

Definition ref_lite_owner : bytes := replicate 20 x21.
Definition ref_lite_contract : bytes := replicate 20 x22.
Definition ref_lite_target : bytes := replicate 20 x23.

(** SHA-512 and the toy signatures at their addresses; the target answers. *)
Definition ref_lite_answers : answers :=
  mk_answers (λ _, 0) (λ _, 0) 0 (λ op to _ args,
    if bool_decide (to = ADDR_SHA512) then (true, sha512_Sum512 args)
    else if bool_decide (to = ADDR_EDVERIFY) then (ref_verify (take 64 args) (drop 96 args), [])
    else (true, [x2a])).


(** What accounts-cli prints for a call of the target, and the account
    switched on. *)
Definition ref_lite_cli : outcome cli_output :=
  cli_entry (LiteArbitraryCd ref_seed 5 ref_lite_contract ref_lite_target [x01; x02; x03]).
Definition ref_lite_cd : bytes :=
  match ref_lite_cli with Ok (Line s) => default [] (hex_parse s) | _ => [] end.
Definition ref_lite_cx : context := mk_context (be_val ref_lite_contract) 7 ref_lite_cd.
Definition ref_lite_st : gmap Z Z := {[ STORAGE_ENABLED := 1 ]}.


Lemma ref_lite_new :
  slot_value ref_lite_st (lite_slot keccak256 ref_lite_cd) = 0
  ∧ lite_slot keccak256 ref_lite_cd ≠ STORAGE_ENABLED.
Proof. apply (bool_decide_unpack _). vm_compute. exact I. Qed.


Lemma ref_lite_fits : fits ref_lite_cx.
Proof. apply (bool_decide_unpack _). vm_compute. exact I. Qed.

Lemma lite_bytecode_witness :
  run keccak256 (lite_code ref_lite_owner ref_seed) ref_lite_cx 160 start
  ≈ lite_spec keccak256 ref_lite_owner ref_seed ref_lite_cx.
Proof.
  exact (proj2 (lite_bytecode keccak256 ref_lite_owner ref_seed ref_lite_cx 160 eq_refl eq_refl
                  ref_lite_fits (le_n _))).
Defined.




(** The call of the target in that run, and the same calldata again. *)
Lemma ref_lite_called :
  bool_decide ((OpCall, be_val ref_lite_target, 0, [x01; x02; x03])
    ∈ (lite_run keccak256 ref_lite_owner ref_seed ref_lite_cx ref_lite_answers ref_lite_st).1.2) = true.
Proof. by vm_compute. Qed.

Lemma lite_calls_signed_witness :
  slot_value ref_lite_st (lite_slot keccak256 (ctx_data ref_lite_cx)) = 0
  ∧ ∃ h ret, ans_call ref_lite_answers OpStatic ADDR_EDVERIFY 0
               (lite_digest ref_lite_cx h ++ ref_seed ++ lite_sig (ctx_data ref_lite_cx))
             = (true, ret).
Proof.
  destruct (lite_calls_signed keccak256 ref_lite_owner ref_seed eq_refl eq_refl ref_lite_cx
              ref_lite_answers ref_lite_st OpCall (be_val ref_lite_target) 0 [x01; x02; x03]
              ref_lite_fits (bool_decide_eq_true_1 _ ref_lite_called))
    as [(E & _)|(_ & _ & _ & _ & _ & Hz & ok & h & ret & _ & Hv)].
  - discriminate E.
  - exact (conj Hz (ex_intro _ h (ex_intro _ ret Hv))).
Defined.

Lemma ref_lite_returned :
  match lite_run keccak256 ref_lite_owner ref_seed ref_lite_cx ref_lite_answers ref_lite_st with
  | (_, _, Some (Returned _)) => true
  | _ => false
  end = true.
Proof. by vm_compute. Qed.

Lemma lite_nonce_once_witness :
  ∃ st1 r,
    lite_run keccak256 ref_lite_owner ref_seed ref_lite_cx ref_lite_answers st1 = (st1, [], Some r)
    ∧ ∀ d, r ≠ Returned d.
Proof.
  pose proof ref_lite_returned as Hr.
  destruct (lite_run keccak256 ref_lite_owner ref_seed ref_lite_cx ref_lite_answers ref_lite_st)
    as [[st1 l] [[d|d|]|]] eqn:E; [|discriminate Hr..].
  exists st1.
  exact (lite_nonce_once keccak256 ref_lite_owner ref_seed eq_refl eq_refl ref_lite_cx
           ref_lite_answers ref_lite_st st1 l d [] ref_lite_cx ref_lite_answers ref_lite_fits
           (List.Forall_nil _) ref_lite_fits ltac:(vm_compute; discriminate)
           ltac:(vm_compute; discriminate)
           (proj2 ref_lite_new) eq_refl E).
Defined.
