(* ===== verification/RefAccounts.v ===== *)
(** * RefAccounts: accounts with an authority, transfers, statements, upgrades

    Witnesses of the theorems of Authority, Requests, Upgrades and Treasury, on
    the deployment of RefContract. *)
From stdpp Require Import base numbers strings list gmap.
From Stdlib Require Import Strings.Byte ZArith Lia.
From S2P Require Import Prelude GoStd Types Sha512 External Keccak BorshRef Reference Chain Contract.
From S2P Require Import AccountSafety AccountCode ContractBorsh AccountRun AccountChain RustTools.
From S2P Require Import Authority Upgrades Requests Treasury RefContract.

(** ** An account with an authority *)

Definition ref_authority : address := replicate 20 x0e.
Definition ref_operator : address := replicate 20 x04.
Definition ref_tx : address * Authority9lives.msg :=
  (ref_operator, Authority9lives.Register U_MAX true).

(** The operator registers the hash, then everything else happens. *)
Definition ref_timeline (l : list event) : timeline := inr ref_tx :: map inl l.

Lemma events_of_ref l : events_of (ref_timeline l) = l.
Proof. unfold events_of. cbn. induction l as [|e l IH]; cbn; [done|by rewrite IH]. Qed.

Lemma ref_timeline_cons before e l rest :
  ref_timeline l = before ++ inl e :: rest →
  ∃ l1 l2, l = l1 ++ e :: l2 ∧ before = ref_timeline l1 ∧ rest = map inl l2.
Proof.
  destruct before as [|x before]; [done|]. intros [= <- E].
  apply map_eq_app in E as (l1 & l2 & -> & <- & E). destruct l2 as [|e' l2]; [done|].
  injection E as <- <-. by exists l1, l2.
Qed.

Lemma ref_timeline_app l1 e l2 :
  ref_timeline (l1 ++ e :: l2) = ref_timeline l1 ++ inl e :: map inl l2.
Proof. unfold ref_timeline. by rewrite map_app. Qed.

Lemma said_ref l : said ref_operator (ref_timeline l) = [(U_MAX, true)].
Proof.
  unfold said. replace (transactions_of (ref_timeline l)) with [ref_tx]; [reflexivity|].
  unfold transactions_of. cbn. f_equal. by induction l.
Qed.

Definition ref_ruled_fresh : FreshBackwards :=
  mk_FreshBackwards ref_seed ref_owner x1b (zeros 12 ++ ref_owner) (zeros 32) [] (Some ref_authority).
Definition ref_ruled_chain1 : chain :=
  settle (invoke ref_fresh_env ref_factory ref_relayer
            (Args_to_vec (Args_FreshBackwards ref_ruled_fresh)) ref_chain0) ref_chain0.
Definition ref_ruled_chain2 : chain :=
  settle (invoke (good_env 6) ref_account ref_relayer ref_solve_cd ref_ruled_chain1) ref_ruled_chain1.

Lemma ref_ruled_reachable :
  reachable ref_net ref_code ref_factory ref_admin ref_factory_key ref_ruled_chain2.
Proof. apply reachable_settle, reachable_settle, reachable_deployed. Qed.

Definition ref_ruled_acc : account :=
  default (mk_account None ∅) (accounts ref_ruled_chain2 !! ref_account).

(** Every answer of the authority in the log is about the registered hash. *)
Definition about_registered (sel : bytes) (e : event) : bool :=
  match e with
  | Asked _ _ cd b => bool_decide (cd = sel ++ U_MAX) && b
  | _ => true
  end.

Lemma about_registered_inv sel before a auth h b rest :
  forallb (about_registered sel) (before ++ Asked a auth (sel ++ h) b :: rest) = true →
  h = U_MAX ∧ b = true.
Proof.
  rewrite forallb_app. intros [_ Hall]%andb_true_iff. cbn [forallb about_registered] in Hall.
  apply andb_true_iff in Hall as [[Hh ->]%andb_true_iff _].
  by apply bool_decide_eq_true, app_inv_head in Hh as ->.
Qed.

Lemma registered_ruled l :
  forallb (about_registered SEL_ALLOWED) l = true →
  ruled ref_operator (zeros 20) ref_authority (ref_timeline l).
Proof.
  intros Hall. split.
  - intros before a h b rest (l1 & l2 & -> & -> & _)%ref_timeline_cons.
    destruct (about_registered_inv _ _ _ _ _ _ _ Hall) as [-> ->]. rewrite allowed_said, said_ref.
    change [(U_MAX, true)] with ([] ++ [(U_MAX, true)]).
    rewrite Authority9lives.verdict_snoc. by rewrite bool_decide_eq_true_2.
  - intros before a cd b tx rest (l1 & l2 & _ & _ & E)%ref_timeline_cons. by destruct l2.
Qed.

Lemma is_some_default {A} (o : option A) d : bool_decide (is_Some o) = true → o = Some (default d o).
Proof. by destruct o; cbn. Qed.

Lemma pair_equal_spec_4 {A B C D} {a a' : A} {b b' : B} {c c' : C} {d d' : D} :
  (a, b, c, d) = (a', b', c', d') → a = a' ∧ b = b' ∧ c = c' ∧ d = d'.
Proof. by intros [= -> -> -> ->]. Qed.

(** What the run leaves, evaluated once. *)
Lemma ref_ruled_facts :
  (events ref_ruled_chain2 !! 8%nat, bool_decide (is_Some (accounts ref_ruled_chain2 !! ref_account)),
   word_at ref_ruled_acc NAuthority, forallb (about_registered SEL_ALLOWED) (events ref_ruled_chain2))
  = (Some (Called ref_account ref_target_call), true, zeros 12 ++ ref_authority, true).
Proof. vm_compute. reflexivity. Qed.

Lemma operator_controls_targets_witness :
  ∃ l h, events_of (ref_timeline (take 8 (events ref_ruled_chain2)))
         = l ++ [Hashed ref_account (replicate 20 x0d) h;
                 Asked ref_account ref_authority (SEL_ALLOWED ++ h) true]
       ∧ Authority9lives.verdict h
           (said ref_operator (ref_timeline (take 8 (events ref_ruled_chain2)))) = true.
Proof.
  destruct (pair_equal_spec_4 ref_ruled_facts) as (Hc & Ha & Hw & Hf).
  refine (operator_controls_targets ref_net ref_code ref_operator (zeros 20) ref_factory ref_admin
            ref_factory_key ref_ruled_chain2 ref_account ref_ruled_acc ref_authority
            (ref_timeline (events ref_ruled_chain2)) (ref_timeline (take 8 (events ref_ruled_chain2)))
            ref_target_call (map inl (drop 9 (events ref_ruled_chain2)))
            ref_deployment ref_ruled_reachable (is_some_default _ _ Ha) _ _
            (events_of_ref _) (registered_ruled _ Hf) _ eq_refl).
  - rewrite Hw. discriminate.
  - rewrite Hw. reflexivity.
  - rewrite <-(take_drop_middle _ _ _ Hc) at 1. apply ref_timeline_app.
Defined.

(** ** Transfers and statements *)

Definition ref_transfer_args : TransferOnlyArgs :=
  mk_TransferOnlyArgs
    [mk_Transfer ref_owner (x00 : @Asset ref_assets) (replicate 20 x0d) (be_split 32 5) None]
    (be_split 16 78).
Definition ref_transfer_sig : bytes :=
  sha512_Sum512 (hex_EncodeToString (sha512_Sum512 (enc b_TransferOnlyArgs ref_transfer_args))).

Lemma ref_can_take ms :
  word_at ref_mint_acc (NTimestamp ms) = U_ZERO →
  can_take ref_mint_account ref_mint_chain ref_mint_acc ms.
Proof. intros Hz. split; [apply lookup_singleton_eq|by vm_compute|done]. Qed.

Lemma transfer_executed_witness :
  ∃ n c', (∀ j, invoke (good_env (n + j)) ref_mint_account ref_relayer
                  (Args_to_vec (Args_TransferOnly ref_transfer_args ref_transfer_sig)) ref_mint_chain
                = Ok (0, [], c'))
    ∧ events c' ≠ [].
Proof.
  destruct (transfer_executed ref_net ref_code ref_mint_account ref_seed ref_transfer_args
              ref_transfer_sig ref_relayer ref_mint_chain ref_mint_acc) as (n & c' & Hi & He & _).
  - split_and!; [done| |done]. apply Forall_singleton. by split_and!.
  - discriminate.
  - apply ref_can_take. vm_compute. reflexivity.
  - apply Forall_singleton. exact ref_mint_outside.
  - vm_compute. reflexivity.
  - vm_compute. reflexivity.
  - vm_compute. reflexivity.
  - exists n, c'. split; [exact Hi|]. rewrite He. discriminate.
Defined.

Definition ref_statement_ts : bytes := be_split 6 79.
Definition ref_statement_sig : bytes :=
  sha512_Sum512 (hex_EncodeToString (statement_sha512 (lit "hello") ref_statement_ts ref_mint_account)).

Lemma statement_accepted_witness :
  ∃ c', invoke EnvEnd ref_mint_account ref_relayer
          (Args_to_vec (Args_Statement (mk_StatementArgs (lit "hello") ref_statement_ts) ref_statement_sig))
          ref_mint_chain = Ok (0, [], c').
Proof.
  eexists.
  refine (proj1 (proj2 (statement_accepted ref_net ref_code ref_mint_account ref_seed (lit "hello")
                   ref_statement_ts ref_statement_sig ref_relayer ref_mint_chain ref_mint_acc EnvEnd
                   _ _ _ _ _))).
  - by split.
  - apply ref_can_take. vm_compute. reflexivity.
  - vm_compute. reflexivity.
  - vm_compute. reflexivity.
  - vm_compute. reflexivity.
Defined.

(** ** An upgrade of the factory *)

Lemma admin_upgrades_witness :
  ∃ c', invoke EnvEnd ref_mint_account (admin_of ref_mint_acc)
          (upgrade_cd (replicate 20 x0a) []) ref_mint_chain = Ok (0, [], c').
Proof.
  eexists.
  refine (proj1 (admin_upgrades ref_net ref_code EnvEnd ref_mint_account ref_mint_acc
                   (replicate 20 x0a) [] ref_mint_chain _ eq_refl eq_refl eq_refl) eq_refl).
  apply lookup_singleton_eq.
Defined.

(** ** A factory moved to other code *)




